(* ===== verification/_CoqProject ===== *)
-Q . S2P
Prelude.v
RustStd.v
Storage.v
Effects.v
Wp.v
Externs.v
Users.v
Client.v
Pkce.v
Timestamp.v
AuthorizationCode.v
Signature.v
Token.v
Protocol.v
Discovery.v
Router.v
Extractors.v
HandlerPaths.v
Server.v
Interleaving.v
Provider.v
Liveness.v
Schema.v
HttpFlow.v
Replay.v
ConcreteHttp.v
Concrete.v
TestMonad.v
UnitTests.v
EndToEnd.v
Witnesses.v
