(* ===== verification/Prelude.v ===== *)
(** * A verification library for openid-tls-connector

    The program is an OpenID Connect provider for users who are authenticated by
    a TLS client certificate.  A proxy puts the certificate's subject DN in a
    header; [GET /authorize] turns it into an authorization code, a signed string
    the browser carries back to the client; [POST /token] redeems the code for an
    ID token and an access token; [GET /userinfo] answers the access token with
    what was recorded for it; two more endpoints publish the metadata and the
    public key.  The code itself is stateless (a keyed hash over its content);
    the only state is the token store, which holds the records of issued tokens
    and the keys of spent codes.  Paths below are relative to [src/src/].

    The files, in dependency order

    - [Prelude.v] (this file): [result] and [outcome] (a value or a panic) with
      their [?]-like notations, tactics, hint databases, lemmas on lists and strings.
    - [RustStd.v]: what the program uses of the Rust standard library: bytes and
      UTF-8, [str] slicing with its panics, [trim], [split_whitespace],
      [split_once], [u8::from_str_radix], [{:02x}], [u64] sums under both build
      profiles, [SystemTime] and [Duration] as nanoseconds.
    - [Storage.v], for [oidc/storage.rs]: the trait [TokenStore] as a class of
      operations, its documented contract as a class of laws ([TokenStoreSpec]),
      and [InMemoryTokenStore] with its poisoning locks, proved to
      keep the contract and to answer by the history of its calls.
    - [Effects.v]: handlers as finite trees of effects (clock, random bytes, store
      calls, panics), the function [run] that executes one against a world, and
      the abstract view of a store.
    - [Wp.v]: what holds on every path of such a tree ([wp]), whatever the store
      answers, for clock readings in a given range.
    - [Externs.v]: the third-party crates as classes of operations, with the laws
      some theorems need as separate classes.
    - [Users.v] ([users/mod.rs]), [Client.v] ([oidc/client.rs]), [Pkce.v],
      [Timestamp.v], [AuthorizationCode.v], [Signature.v] ([oidc/code/*.rs]),
      [Token.v] ([oidc/token.rs]), [Protocol.v] ([oidc/protocol.rs]),
      [Discovery.v] ([oidc/discovery.rs], [oidc/endpoints.rs]), [Router.v]
      ([oidc/router.rs]), [Server.v] ([bin/server/main.rs] and [config.rs]).
      Definitions keep the names of the functions they model; a record projection
      carries a short prefix where two structs share a field name, a constructor
      function is [<Type>_new], and where an enum's constructor would clash with
      another name ([Code], [AuthorizationCode], [Jwt], [Rsa]) it carries its
      type's name or a suffix.
    - [Extractors.v], for the routes and extractors of [oidc/router.rs]: from an
      HTTP request to the handler and its parameters ([http_router]), with the
      derived [Deserialize] of both parameter structs over the pairs of a query or
      form; [HttpFlow.v]: the whole flow in raw requests.
    - [HandlerPaths.v]: the token handler and the router in terms of [wp]: what is
      checked, consumed and returned on each path.
    - [Interleaving.v]: requests running in parallel, one effect at a time, with
      or without a range for the clock; [Provider.v]: an abstract machine of what
      the server promises, which the pool of handlers refines; [Liveness.v]: what
      every schedule ends in.
    - [Schema.v]: types of JSON documents, for the structs on the wire and for the
      responses of each route.
    - [Replay.v]: what the replay protection of codes does and does not identify.
    - [ConcreteHttp.v], [Concrete.v], [Witnesses.v]: lawful instances of every
      interface and a small deployment, on which each theorem with hypotheses is applied.
    - [TestMonad.v], [UnitTests.v], [EndToEnd.v]: the repository's own tests (the
      [tests] modules of the files above, [src/tests/e2e.rs] and
      [src/tests/common/mod.rs]) as definitions, run on the model.

    How the code is modelled

    A method that reads [&self] is a function of a record.  The store is behind
    [&dyn TokenStore] with interior locks, so it is not a field of [AppState] or
    [TokenIssueContext] but the state the effects act on.  A handler is a [prog];
    [run] feeds it the clock readings and random buffers of a [World] in order,
    so "the n-th reading of the clock" can be named in a statement; [effect_step]
    gives the same program arbitrary readings and lets others run in between, and
    [timed_step] bounds these readings.  [wp] is proved of a handler once and then
    used for a run alone and for a thread among others.
    Panics ([unwrap], [expect], out-of-boundary slices, overflow, poisoned locks)
    are values.  [u64] sums panic or wrap, as [BuildProfile] says.

    The crates (hashes, base64, CBOR, RSA, JWT, headers, URLs, form coding, axum)
    are parameters.
    Their laws are: decoding inverts encoding (base64, CBOR), digests have 32
    bytes, a CBOR reader ignores what follows its value, a JWT made with one half
    of a key pair decodes with the other exactly when its claims pass the checks
    asked for, header text is ASCII, joining an absolute path to a URL keeps
    its origin, and a URL extended by query pairs reads back with them after its
    own.  No law says that hashes do not collide or that tags cannot be
    forged: the theorems speak of tags and digests being equal, and leave the
    rest to cryptography.

    What is proved

    - Codes: [validate_token_request_decides], [verify_pkce_binding],
      [sign_decode_roundtrip] and [decode_and_verify_authentic] decide acceptance
      on every input.
    - The flow: [redeemable] is the abstract condition for a code string to be
      worth tokens.  [access_token_request_sound], [access_token_request_complete]
      and [access_token_request_failure] say that redemption happens exactly under
      it and on an unspent code, and what each outcome leaves in the store;
      [code_single_use] that it happens once, for any requests in between.
      [trailing_bytes_redeem_again] is the limit: a code is identified by its
      string, and another string opens to the same code.
    - Concurrency: under any interleaving at most one request is served per code
      string ([concurrent_code_single_use]), and only one entitled to it at one of
      the clock readings taken ([concurrent_tokens_sound]); every schedule ends
      with all requests answered ([every_request_answered], no handler panics), and
      a code worth tokens is then redeemed exactly once
      ([concurrent_code_exactly_once]).
    - The specification: [router_refines_provider] is a simulation by a machine
      whose roles wait, hold an accepted code and answer, over a ledger of spent
      codes and granted tokens; [userinfo_only_granted] is proved of the machine
      and carried over: user info is for tokens that were granted.
    - The endpoints: [authorize_handler_sound] and [authorize_handler_refusals],
      [basic_credentials_win], [userinfo_handler_decides], [router_store_effects],
      [discovery_advertises]; [form_params_exact] for the extractors, and
      [http_flow] for the whole flow, from the bytes of a query to the user info.
    - Types: [responses_well_typed] for the status and body of every response,
      [wire_structs_described] for the structs that are written and read.
    - Tokens: round trips with expiry, [token_kinds_not_confused],
      [id_token_expiry_bounds], [random_jti_uuid_v4].
    - Users and clients: the DN splitter is total, lossless and inverts printing,
      resolution, group union, the registry's uniqueness and authentication,
      constant-time comparison.
    - The store: [in_memory_store_correct] (every answer is the one the history of
      its calls demands); start-up: [main_outcome] (all or
      nothing), [startup_establishes] (the assumptions on keys and registry made
      above), [hex_to_32_bytes_correct], [issuer_names_agree].

    The one loop without a structural measure is that of [split_rdns], which gets
    the length of the DN plus one as fuel; [split_rdns_total_lossless] shows it is
    never used up.  Every other recursion is structural, and a [prog] is finite,
    so handlers terminate by construction.

    What is not modelled

    The insides of the crates: of axum, how a method or a content type matches
    and which status a rejection has, of the form coding, how bytes become
    pairs; the model has the table of routes, the extractors of each handler and
    the reading of the pairs. tokio, the listening socket and the server loop,
    of which [main] knows only how they end, and axum's limits on bodies; the
    clock [jsonwebtoken] reads to check an expiry counts like any other reading,
    and its own panic before 1970 is left out; of [serde], a struct given as an
    array of its fields; the text syntax of TOML and JSON (a parsed document is
    a tree); the deployment material and the script of the integration tests. *)
From stdpp Require Export base option strings list gmap.
From Stdlib Require Export Strings.Byte.
From Stdlib Require Ascii.
Export (notations) Stdlib.Strings.Ascii.

Abbreviation ascii := Ascii.ascii.

Declare Scope rust_scope.
Delimit Scope rust_scope with rust.
#[global] Open Scope rust_scope.

(** ** [Result<A, E>] *)

Inductive result (A E : Type) : Type :=
| Ok (a : A)
| Err (e : E).
Arguments Ok {A E} a.
Arguments Err {A E} e.

#[export] Instance result_eq_dec `{EqDecision A, EqDecision E} : EqDecision (result A E).
Proof. solve_decision. Defined.

Definition rbind {A B E} (r : result A E) (k : A → result B E) : result B E :=
  match r with Ok a => k a | Err e => Err e end.

(** [Result::map_err], [Option::ok_or], [Result::ok], [Result::map]. *)
Definition map_err {A E F} (f : E → F) (r : result A E) : result A F :=
  match r with Ok a => Ok a | Err e => Err (f e) end.

Definition ok_or {A E} (e : E) (o : option A) : result A E :=
  match o with Some a => Ok a | None => Err e end.

Definition result_ok {A E} (r : result A E) : option A :=
  match r with Ok a => Some a | Err _ => None end.

Definition result_map {A B E} (f : A → B) (r : result A E) : result B E :=
  match r with Ok a => Ok (f a) | Err e => Err e end.

Definition unwrap_or {A E} (d : A) (r : result A E) : A :=
  match r with Ok a => a | Err _ => d end.

Definition is_ok {A E} (r : result A E) : bool :=
  match r with Ok _ => true | Err _ => false end.

(** [let? x := r in k] is the [?] operator on a pure [Result]. *)
Notation "'let?' x ':=' r 'in' k" := (rbind r (λ x, k))
  (at level 10, x binder, r at level 100, k at level 200)
  : rust_scope.

(** [Option::or]: the first of the two that is [Some]. *)
Definition option_or {A} (o1 o2 : option A) : option A :=
  match o1 with Some a => Some a | None => o2 end.

(** ** Panics

    A computation that may panic ends in [Done] with its value or in
    [Panicked] with the message. *)

Inductive outcome (A : Type) : Type :=
| Done (a : A)
| Panicked (msg : string).
Arguments Done {A} a.
Arguments Panicked {A} msg.

Definition obind {A B} (o : outcome A) (k : A → outcome B) : outcome B :=
  match o with Done a => k a | Panicked m => Panicked m end.

Notation "'let!' x ':=' o 'in' k" := (obind o (λ x, k))
  (at level 10, x binder, o at level 100, k at level 200)
  : rust_scope.

(** [Option::expect] and [Result::unwrap]. *)
Definition expect {A} (msg : string) (o : option A) : outcome A :=
  match o with Some a => Done a | None => Panicked msg end.

Definition unwrap {A E} (r : result A E) : outcome A :=
  match r with
  | Ok a => Done a
  | Err _ => Panicked "called `Result::unwrap()` on an `Err` value"
  end.

(** ** Automation *)

Create HintDb rust.

(** Case analysis on the scrutinee of the first [match] of the goal or of a
    hypothesis, with the equation kept and the trivial cases discharged. *)
Ltac destruct_match :=
  match goal with
  | |- context [match ?x with _ => _ end] => destruct x eqn:?; simplify_eq/=
  | H : context [match ?x with _ => _ end] |- _ => destruct x eqn:?; simplify_eq/=
  end.

Ltac destruct_matches := repeat (destruct_match; try done).

(** Unfold the two error monads and inspect what remains. *)
Ltac monad_inv :=
  unfold rbind, obind, map_err, ok_or, result_map, unwrap_or, expect, unwrap in *;
  repeat (simplify_eq/=; destruct_match); simplify_eq/=.

(** ** Lemmas on the monads *)

Lemma rbind_Ok {A B E} (r : result A E) (k : A → result B E) b :
  rbind r k = Ok b ↔ ∃ a, r = Ok a ∧ k a = Ok b.
Proof. destruct r; naive_solver. Qed.

Lemma rbind_Err {A B E} (r : result A E) (k : A → result B E) e :
  rbind r k = Err e ↔ r = Err e ∨ ∃ a, r = Ok a ∧ k a = Err e.
Proof. destruct r; naive_solver. Qed.

Lemma map_err_Ok {A E F} (f : E → F) (r : result A E) a :
  map_err f r = Ok a ↔ r = Ok a.
Proof. destruct r; naive_solver. Qed.

Lemma map_err_Err {A E F} (f : E → F) (r : result A E) x :
  map_err f r = Err x ↔ ∃ e, r = Err e ∧ x = f e.
Proof. destruct r; naive_solver. Qed.

Lemma ok_or_Ok {A E} (e : E) (o : option A) a : ok_or e o = Ok a ↔ o = Some a.
Proof. destruct o; naive_solver. Qed.

Lemma obind_Done {A B} (o : outcome A) (k : A → outcome B) b :
  obind o k = Done b ↔ ∃ a, o = Done a ∧ k a = Done b.
Proof. destruct o; naive_solver. Qed.

Lemma Done_eq {A} (a b : A) : Done a = Done b ↔ a = b.
Proof. naive_solver. Qed.

(** ** Lemmas on lists *)

Section list_lemmas.
Context {A : Type}.
Implicit Types l : list A.

Lemma filter_length_nodup_le1 (P : A → Prop) `{∀ x, Decision (P x)} l :
  NoDup l → (∀ x y, x ∈ l → y ∈ l → P x → P y → x = y) →
  length (filter P l) ≤ 1.
Proof.
  intros Hnd Huniq.
  destruct (filter P l) as [|x [|y r]] eqn:E; simpl; [lia..|exfalso].
  assert (NoDup (x :: y :: r)) as [Hxy _]%NoDup_cons
    by (rewrite <- E; by apply NoDup_filter).
  assert (Hx : x ∈ filter P l) by (rewrite E; left).
  assert (Hy : y ∈ filter P l) by (rewrite E; right; left).
  apply list_elem_of_filter in Hx as [??], Hy as [??].
  apply Hxy. rewrite (Huniq x y) by done. left.
Qed.

Lemma Forall_take_drop_split (P : A → Prop) n l :
  Forall P l ↔ Forall P (take n l) ∧ Forall P (drop n l).
Proof. rewrite <- Forall_app, take_drop. done. Qed.
End list_lemmas.

(** ** Lemmas on strings *)

Lemma string_app_cons c (s1 s2 : string) : String c s1 +:+ s2 = String c (s1 +:+ s2).
Proof. done. Qed.

Lemma string_app_nil_l (s : string) : "" +:+ s = s.
Proof. done. Qed.

(** Compute the appends whose left operand is a constructor. *)
Ltac simpl_str := rewrite ?string_app_cons, ?string_app_nil_l in *.

Lemma string_app_nil_r (s : string) : s +:+ "" = s.
Proof. induction s as [|c s IH]; [done|]. by rewrite string_app_cons, IH. Qed.

Lemma string_app_assoc (s1 s2 s3 : string) :
  s1 +:+ (s2 +:+ s3) = (s1 +:+ s2) +:+ s3.
Proof. induction s1 as [|c s IH]; [done|]. by rewrite !string_app_cons, IH. Qed.

Create Rewrite HintDb rust_eq.
#[export] Hint Rewrite @string_app_nil_r @rbind_Ok @map_err_Ok @ok_or_Ok @obind_Done : rust_eq.
