(* ===== verification/RustStd.v ===== *)
(** * The parts of the Rust language and standard library the server uses

    Bytes and machine-width integers, [str] and UTF-8, the [str] methods the
    sources call ([trim], [split_once], [split_whitespace], [strip_prefix],
    [to_uppercase], slicing), [u8::from_str_radix], the [{:02x}] format, and
    [SystemTime] / [Duration].  A [String] or [&str] is a [string], the list of
    its UTF-8 bytes; a [Vec<u8>] or [&[u8]] is a [list byte].

    The only data taken as a parameter is the case table of the non-ASCII
    characters ([UnicodeCase]), which the Unicode standard fixes and which no
    property below depends on. *)
From S2P Require Import Prelude.

(** ** Bytes *)

#[export] Instance byte_eq_decision : EqDecision byte := Byte.byte_eq_dec.

(** The value of a [u8], and the [u8] with the low eight bits of a number. *)
Definition u8_val (b : byte) : Z := Z.of_N (Byte.to_N b).

Definition u8_of (z : Z) : byte :=
  default x00 (Byte.of_N (Z.to_N (z mod 256))).

Lemma u8_val_range b : (0 ≤ u8_val b < 256)%Z.
Proof. unfold u8_val. pose proof (Byte.to_N_bounded b). lia. Qed.

Lemma u8_of_val b : u8_of (u8_val b) = b.
Proof.
  unfold u8_of. rewrite Z.mod_small by apply u8_val_range.
  unfold u8_val. by rewrite N2Z.id, Byte.of_to_N.
Qed.

Lemma u8_val_of z : u8_val (u8_of z) = (z mod 256)%Z.
Proof.
  unfold u8_of, u8_val.
  pose proof (Z.mod_pos_bound z 256 ltac:(lia)) as Hb.
  destruct (Byte.of_N _) as [b|] eqn:E; simpl.
  - apply Byte.to_of_N in E. lia.
  - apply Byte.of_N_None_iff in E. lia.
Qed.

#[export] Instance u8_val_inj : Inj (=) (=) u8_val.
Proof. intros a b H. by rewrite <- (u8_of_val a), H, u8_of_val. Qed.

Definition as_bytes (s : string) : list byte := String.list_byte_of_string s.
Definition of_bytes (bs : list byte) : string := String.string_of_list_byte bs.

Lemma of_as_bytes s : of_bytes (as_bytes s) = s.
Proof. apply String.string_of_list_byte_of_string. Qed.

Lemma as_of_bytes bs : as_bytes (of_bytes bs) = bs.
Proof. apply String.list_byte_of_string_of_list_byte. Qed.

#[export] Instance as_bytes_inj : Inj (=) (=) as_bytes.
Proof. intros a b H. by rewrite <- (of_as_bytes a), H, of_as_bytes. Qed.

#[export] Instance of_bytes_inj : Inj (=) (=) of_bytes.
Proof. intros a b H. by rewrite <- (as_of_bytes a), H, as_of_bytes. Qed.

Lemma as_bytes_cons c s : as_bytes (String c s) = Ascii.byte_of_ascii c :: as_bytes s.
Proof. done. Qed.

Lemma of_bytes_cons b bs : of_bytes (b :: bs) = String (Ascii.ascii_of_byte b) (of_bytes bs).
Proof. done. Qed.

Lemma as_bytes_app s1 s2 : as_bytes (s1 +:+ s2) = as_bytes s1 ++ as_bytes s2.
Proof.
  induction s1 as [|c s1 IH]; [done|].
  by rewrite string_app_cons, !as_bytes_cons, IH.
Qed.

Lemma of_bytes_app l1 l2 : of_bytes (l1 ++ l2) = of_bytes l1 +:+ of_bytes l2.
Proof. apply (inj as_bytes). by rewrite as_bytes_app, !as_of_bytes. Qed.

(** ** Overflow of [u64] additions

    Rust checks the [+] of integers in a build with overflow checks and wraps
    in a build without; the profile is a parameter of the model. *)
Class BuildProfile := { overflow_checks : bool }.

Definition u64_add `{BuildProfile} (a b : Z) : outcome Z :=
  if (a + b <? 2 ^ 64)%Z then Done (a + b)%Z
  else if overflow_checks then Panicked "attempt to add with overflow"
  else Done ((a + b) mod 2 ^ 64)%Z.

Lemma u64_add_small `{BuildProfile} a b :
  (a + b < 2 ^ 64)%Z → u64_add a b = Done (a + b)%Z.
Proof. intros H'. unfold u64_add. by rewrite (proj2 (Z.ltb_lt _ _) H'). Qed.

(** ** [SystemTime] and [Duration], in nanoseconds

    A [SystemTime] counts from the Unix epoch and may lie before it; its
    seconds are an [i64].  A [Duration] is not negative; its seconds are a
    [u64]. *)
Abbreviation SystemTime := Z (only parsing).
Abbreviation Duration := Z (only parsing).

Definition nanos_per_sec : Z := 1000000000.
Definition UNIX_EPOCH : SystemTime := 0%Z.

Definition duration_from_secs (s : Z) : Duration := (s * nanos_per_sec)%Z.
Definition duration_as_secs (d : Duration) : Z := (d / nanos_per_sec)%Z.

Definition duration_since (now earlier : SystemTime) : result Duration unit :=
  if (earlier <=? now)%Z then Ok (now - earlier)%Z else Err tt.

Definition system_time_max : Z := (2 ^ 63 * nanos_per_sec)%Z.

(** [SystemTime + Duration] panics when the seconds leave [i64]. *)
Definition system_time_add (t : SystemTime) (d : Duration) : outcome SystemTime :=
  if (t + d <? system_time_max)%Z then Done (t + d)%Z
  else Panicked "overflow when adding duration to instant".

Lemma duration_as_from_secs s : duration_as_secs (duration_from_secs s) = s.
Proof. apply Z.div_mul. unfold nanos_per_sec. lia. Qed.

Lemma system_time_add_small t d :
  (t + d < system_time_max)%Z → system_time_add t d = Done (t + d)%Z.
Proof. intros H. unfold system_time_add. by rewrite (proj2 (Z.ltb_lt _ _) H). Qed.

Lemma system_time_add_Done t d t' : system_time_add t d = Done t' → t' = (t + d)%Z.
Proof. unfold system_time_add. case_match; congruence. Qed.

(** ** UTF-8 *)

Section utf8.
Local Open Scope N_scope.

Definition byte_in (lo hi : N) (b : byte) : bool :=
  (lo <=? Byte.to_N b) && (Byte.to_N b <=? hi).

Definition is_continuation : byte → bool := byte_in 0x80 0xBF.

(** The second byte a three- or four-byte sequence may have after its first. *)
Definition lead3 (b0 b1 : byte) : bool :=
  (byte_in 0xE0 0xE0 b0 && byte_in 0xA0 0xBF b1) ||
  (byte_in 0xE1 0xEC b0 && byte_in 0x80 0xBF b1) ||
  (byte_in 0xED 0xED b0 && byte_in 0x80 0x9F b1) ||
  (byte_in 0xEE 0xEF b0 && byte_in 0x80 0xBF b1).

Definition lead4 (b0 b1 : byte) : bool :=
  (byte_in 0xF0 0xF0 b0 && byte_in 0x90 0xBF b1) ||
  (byte_in 0xF1 0xF3 b0 && byte_in 0x80 0xBF b1) ||
  (byte_in 0xF4 0xF4 b0 && byte_in 0x80 0x8F b1).

(** The characters of a byte sequence, [None] when it is not valid UTF-8. *)
Fixpoint utf8_decode (bs : list byte) : option (list N) :=
  match bs with
  | [] => Some []
  | b0 :: r0 =>
      let n0 := Byte.to_N b0 in
      if n0 <? 0x80 then cons n0 <$> utf8_decode r0 else
      match r0 with
      | [] => None
      | b1 :: r1 =>
          let n1 := Byte.to_N b1 - 0x80 in
          if byte_in 0xC2 0xDF b0 && is_continuation b1
          then cons ((n0 - 0xC0) * 64 + n1) <$> utf8_decode r1 else
          match r1 with
          | [] => None
          | b2 :: r2 =>
              let n2 := Byte.to_N b2 - 0x80 in
              if lead3 b0 b1 && is_continuation b2
              then cons (((n0 - 0xE0) * 64 + n1) * 64 + n2) <$> utf8_decode r2 else
              match r2 with
              | [] => None
              | b3 :: r3 =>
                  let n3 := Byte.to_N b3 - 0x80 in
                  if lead4 b0 b1 && is_continuation b2 && is_continuation b3
                  then cons ((((n0 - 0xF0) * 64 + n1) * 64 + n2) * 64 + n3)
                         <$> utf8_decode r3
                  else None
              end
          end
      end
  end.

Definition byte_of_N (n : N) : byte := u8_of (Z.of_N n).

Definition char_encode (c : N) : list byte :=
  if c <? 0x80 then [byte_of_N c]
  else if c <? 0x800 then
    [byte_of_N (0xC0 + c / 64); byte_of_N (0x80 + c mod 64)]
  else if c <? 0x10000 then
    [byte_of_N (0xE0 + c / 4096); byte_of_N (0x80 + (c / 64) mod 64);
     byte_of_N (0x80 + c mod 64)]
  else
    [byte_of_N (0xF0 + c / 262144); byte_of_N (0x80 + (c / 4096) mod 64);
     byte_of_N (0x80 + (c / 64) mod 64); byte_of_N (0x80 + c mod 64)].

Definition utf8_encode (cs : list N) : list byte := cs ≫= char_encode.
End utf8.

(** [String::from_utf8] / [str::from_utf8]. *)
Definition from_utf8 (bs : list byte) : option string :=
  match utf8_decode bs with Some _ => Some (of_bytes bs) | None => None end.

(** The invariant of every Rust [str]. *)
Definition valid_str (s : string) : Prop := is_Some (utf8_decode (as_bytes s)).

(** [str::chars]; a [str] is always valid, so the default is not reached. *)
Definition chars (s : string) : list N := default [] (utf8_decode (as_bytes s)).

Definition of_chars (cs : list N) : string := of_bytes (utf8_encode cs).

Definition ascii_bytes (bs : list byte) : Prop := Forall (λ b, (Byte.to_N b < 0x80)%N) bs.
Definition ascii_str (s : string) : Prop := ascii_bytes (as_bytes s).

#[export] Instance ascii_str_dec s : Decision (ascii_str s).
Proof. unfold ascii_str, ascii_bytes. apply _. Defined.

(** *** Slicing a [str] by byte offsets

    [&s[a..b]] panics unless both ends are character boundaries. *)
Definition is_char_boundary (s : string) (i : nat) : bool :=
  match as_bytes s !! i with
  | Some b => negb (is_continuation b)
  | None => bool_decide (i = length (as_bytes s))
  end.

Definition str_slice (s : string) (a b : nat) : outcome string :=
  if bool_decide (a ≤ b) && is_char_boundary s a && is_char_boundary s b
  then Done (of_bytes (take (b - a) (drop a (as_bytes s))))
  else Panicked "byte index is not a char boundary".

(** [char::is_whitespace]: the Unicode property White_Space. *)
Definition is_whitespace (c : N) : bool :=
  ((9 <=? c) && (c <=? 13) || (c =? 0x20) || (c =? 0x85) || (c =? 0xA0) ||
   (c =? 0x1680) || ((0x2000 <=? c) && (c <=? 0x200A)) || (c =? 0x2028) ||
   (c =? 0x2029) || (c =? 0x202F) || (c =? 0x205F) || (c =? 0x3000))%N.

Fixpoint drop_ws (cs : list N) : list N :=
  match cs with
  | c :: cs' => if is_whitespace c then drop_ws cs' else cs
  | [] => []
  end.

(** [str::trim]. *)
Definition trim_chars (cs : list N) : list N := reverse (drop_ws (reverse (drop_ws cs))).
Definition trim (s : string) : string := of_chars (trim_chars (chars s)).

(** [str::split_whitespace]: the maximal runs of non-white characters. *)
Fixpoint ws_words (cs cur : list N) : list (list N) :=
  match cs with
  | [] => match cur with [] => [] | _ => [cur] end
  | c :: cs' =>
      if is_whitespace c
      then match cur with [] => ws_words cs' [] | _ => cur :: ws_words cs' [] end
      else ws_words cs' (cur ++ [c])
  end.

Definition split_whitespace (s : string) : list string :=
  of_chars <$> ws_words (chars s) [].

(** [str::split_once] at an ASCII character. *)
Fixpoint split_once (d : ascii) (s : string) : option (string * string) :=
  match s with
  | EmptyString => None
  | String c s' =>
      if decide (c = d) then Some ("", s')
      else prod_map (String c) id <$> split_once d s'
  end.

(** [str::strip_prefix]. *)
Fixpoint strip_prefix (p s : string) : option string :=
  match p, s with
  | EmptyString, _ => Some s
  | String a p', String b s' => if decide (a = b) then strip_prefix p' s' else None
  | String _ _, EmptyString => None
  end.

(** [str::ends_with] a character and [String::pop], for an ASCII character. *)
Fixpoint str_last (s : string) : option ascii :=
  match s with
  | EmptyString => None
  | String c EmptyString => Some c
  | String _ s' => str_last s'
  end.

Definition ends_with (s : string) (c : ascii) : bool := bool_decide (str_last s = Some c).

Fixpoint drop_last (s : string) : string :=
  match s with
  | EmptyString | String _ EmptyString => EmptyString
  | String c s' => String c (drop_last s')
  end.

(** [str::to_uppercase], character by character. *)
Class UnicodeCase := { upper_non_ascii : N → list N }.

Definition char_to_uppercase `{UnicodeCase} (c : N) : list N :=
  if (c <? 0x80)%N
  then [if ((97 <=? c) && (c <=? 122))%N then (c - 32)%N else c]
  else upper_non_ascii c.

Definition to_uppercase `{UnicodeCase} (s : string) : string :=
  of_chars (chars s ≫= char_to_uppercase).

(** [[String]::join(sep)]. *)
Fixpoint str_join (sep : string) (l : list string) : string :=
  match l with
  | [] => ""
  | [x] => x
  | x :: l' => x +:+ sep +:+ str_join sep l'
  end.

(** *** Hexadecimal *)

(** [char::to_digit(16)]. *)
Definition hex_digit_val (b : byte) : option Z :=
  let n := u8_val b in
  if ((48 <=? n) && (n <=? 57))%Z then Some (n - 48)%Z
  else if ((97 <=? n) && (n <=? 102))%Z then Some (n - 87)%Z
  else if ((65 <=? n) && (n <=? 70))%Z then Some (n - 55)%Z
  else None.

Fixpoint u8_digits (acc : Z) (ds : list byte) : option Z :=
  match ds with
  | [] => Some acc
  | d :: ds' =>
      v ← hex_digit_val d;
      if (acc * 16 + v <? 256)%Z then u8_digits (acc * 16 + v) ds' else None
  end.

(** [u8::from_str_radix(s, 16).ok()]: a leading [+] is accepted, the empty
    string, a lone sign and a [-] are not. *)
Definition u8_from_str_radix_16 (s : string) : option byte :=
  match as_bytes s with
  | [] => None
  | [x2b] | [x2d] => None
  | x2b :: ds => u8_of <$> u8_digits 0 ds
  | ds => u8_of <$> u8_digits 0 ds
  end.

(** The lower-case digits of the [x] format and [{:02x}] of a [u8]. *)
Definition hex_char (n : Z) : ascii :=
  Ascii.ascii_of_N (Z.to_N (if (n <? 10)%Z then 48 + n else 87 + n)).

Definition fmt_02x (b : byte) : string :=
  String (hex_char (Z.shiftr (u8_val b) 4)) (String (hex_char (Z.land (u8_val b) 15)) "").

Example trim_ex : trim " CN = alice  " = "CN = alice". Proof. reflexivity. Qed.
Example split_whitespace_ex :
  split_whitespace "  openid   email profile " = ["openid"; "email"; "profile"].
Proof. reflexivity. Qed.
Example split_once_ex : split_once ":"%char "id:a:b" = Some ("id", "a:b").
Proof. reflexivity. Qed.
Example fmt_02x_ex : fmt_02x xaf = "af" ∧ fmt_02x x07 = "07". Proof. split; reflexivity. Qed.
Example from_str_radix_ex :
  (u8_from_str_radix_16 "fF", u8_from_str_radix_16 "+f", u8_from_str_radix_16 "-1",
   u8_from_str_radix_16 "g0", u8_from_str_radix_16 "100") =
  (Some xff, Some x0f, None, None, None).
Proof. reflexivity. Qed.

(** ** Lemmas on UTF-8 *)

Lemma byte_in_iff lo hi b :
  byte_in lo hi b = true ↔ (lo ≤ Byte.to_N b)%N ∧ (Byte.to_N b ≤ hi)%N.
Proof. unfold byte_in. rewrite andb_true_iff, !N.leb_le. done. Qed.

Lemma byte_of_N_to_N b : byte_of_N (Byte.to_N b) = b.
Proof. apply u8_of_val. Qed.

Lemma byte_of_N_eq n b : n = Byte.to_N b → byte_of_N n = b.
Proof. intros ->. apply byte_of_N_to_N. Qed.

Lemma lead3_range b0 b1 :
  lead3 b0 b1 = true ↔
  (0xE0 ≤ Byte.to_N b0 ≤ 0xEF)%N ∧ (0x80 ≤ Byte.to_N b1 ≤ 0xBF)%N ∧
  (Byte.to_N b0 = 0xE0 → 0xA0 ≤ Byte.to_N b1)%N ∧
  (Byte.to_N b0 = 0xED → Byte.to_N b1 ≤ 0x9F)%N.
Proof.
  unfold lead3. rewrite !orb_true_iff, !andb_true_iff, !byte_in_iff. lia.
Qed.

Lemma lead4_range b0 b1 :
  lead4 b0 b1 = true ↔
  (0xF0 ≤ Byte.to_N b0 ≤ 0xF4)%N ∧ (0x80 ≤ Byte.to_N b1 ≤ 0xBF)%N ∧
  (Byte.to_N b0 = 0xF0 → 0x90 ≤ Byte.to_N b1)%N ∧
  (Byte.to_N b0 = 0xF4 → Byte.to_N b1 ≤ 0x8F)%N.
Proof.
  unfold lead4. rewrite !orb_true_iff, !andb_true_iff, !byte_in_iff. lia.
Qed.

(** The Unicode scalar values: the values of a Rust [char]. *)
Definition scalar (c : N) : Prop := (c < 0xD800 ∨ 0xE000 ≤ c < 0x110000)%N.

(** The bytes of one character: an ASCII byte, or a lead byte followed by
    continuation bytes only. *)
Definition char_bytes (pre : list byte) : Prop :=
  ∃ b tl, pre = b :: tl ∧ is_continuation b = false ∧
    ((Byte.to_N b < 0x80)%N ∧ tl = [] ∨
     (0x80 ≤ Byte.to_N b)%N ∧ Forall (λ x, is_continuation x = true) tl).

(** [lia] with division by constants, for the encodings below. *)
Ltac dlia := zify; Z.to_euclidean_division_equations; lia.

(** The arithmetic of one decoded sequence: its encoding is the sequence. *)
Lemma char_encode_2 b0 b1 :
  byte_in 0xC2 0xDF b0 = true → is_continuation b1 = true →
  char_encode ((Byte.to_N b0 - 0xC0) * 64 + (Byte.to_N b1 - 0x80)) = [b0; b1].
Proof.
  intros H0%byte_in_iff H1%byte_in_iff. unfold char_encode.
  destruct (N.ltb_spec ((Byte.to_N b0 - 0xC0) * 64 + (Byte.to_N b1 - 0x80)) 0x80); [lia|].
  destruct (N.ltb_spec ((Byte.to_N b0 - 0xC0) * 64 + (Byte.to_N b1 - 0x80)) 0x800); [|lia].
  f_equal; [|f_equal]; apply byte_of_N_eq; dlia.
Qed.

Lemma char_encode_3 b0 b1 b2 :
  lead3 b0 b1 = true → is_continuation b2 = true →
  char_encode (((Byte.to_N b0 - 0xE0) * 64 + (Byte.to_N b1 - 0x80)) * 64
               + (Byte.to_N b2 - 0x80)) = [b0; b1; b2].
Proof.
  intros H0%lead3_range H1%byte_in_iff. unfold char_encode.
  set (c := (((Byte.to_N b0 - 0xE0) * 64 + (Byte.to_N b1 - 0x80)) * 64
             + (Byte.to_N b2 - 0x80))%N).
  destruct (N.ltb_spec c 0x80); [lia|]. destruct (N.ltb_spec c 0x800); [lia|].
  destruct (N.ltb_spec c 0x10000); [|lia].
  repeat f_equal; apply byte_of_N_eq; dlia.
Qed.

Lemma char_encode_4 b0 b1 b2 b3 :
  lead4 b0 b1 = true → is_continuation b2 = true → is_continuation b3 = true →
  char_encode ((((Byte.to_N b0 - 0xF0) * 64 + (Byte.to_N b1 - 0x80)) * 64
                + (Byte.to_N b2 - 0x80)) * 64 + (Byte.to_N b3 - 0x80)) = [b0; b1; b2; b3].
Proof.
  intros H0%lead4_range H1%byte_in_iff H2%byte_in_iff. unfold char_encode.
  set (c := ((((Byte.to_N b0 - 0xF0) * 64 + (Byte.to_N b1 - 0x80)) * 64
              + (Byte.to_N b2 - 0x80)) * 64 + (Byte.to_N b3 - 0x80))%N).
  destruct (N.ltb_spec c 0x80); [lia|]. destruct (N.ltb_spec c 0x800); [lia|].
  destruct (N.ltb_spec c 0x10000); [lia|].
  repeat f_equal; apply byte_of_N_eq; dlia.
Qed.

Lemma ascii_not_continuation b : (Byte.to_N b < 0x80)%N → is_continuation b = false.
Proof.
  intros H. destruct (is_continuation b) eqn:E; [|done].
  apply byte_in_iff in E. lia.
Qed.

Lemma lead_not_continuation b : (0xBF < Byte.to_N b)%N → is_continuation b = false.
Proof.
  intros H. destruct (is_continuation b) eqn:E; [|done].
  apply byte_in_iff in E. lia.
Qed.

(** Decoding consumes the bytes of one character at a time. *)
Lemma utf8_decode_inv bs cs :
  utf8_decode bs = Some cs →
  bs = [] ∧ cs = [] ∨
  ∃ c cs' rest, bs = char_encode c ++ rest ∧ cs = c :: cs' ∧
    utf8_decode rest = Some cs' ∧ char_bytes (char_encode c) ∧ scalar c.
Proof.
  assert (lead : ∀ b tl, (0xBF < Byte.to_N b)%N →
      Forall (λ x, is_continuation x = true) tl → char_bytes (b :: tl)).
  { intros b tl Hb Htl. exists b, tl. rewrite lead_not_continuation by done.
    split_and!; [done..|]. right. split; [lia|done]. }
  destruct bs as [|b0 r0]; simpl; [naive_solver|].
  destruct (N.ltb_spec (Byte.to_N b0) 0x80) as [H0|H0].
  { intros (cs' & Hcs & ->)%fmap_Some. right.
    assert (Hc : char_encode (Byte.to_N b0) = [b0]).
    { unfold char_encode. rewrite (proj2 (N.ltb_lt _ _) H0). by rewrite byte_of_N_to_N. }
    exists (Byte.to_N b0), cs', r0. rewrite Hc. split_and!; [done..| |].
    { exists b0, []. rewrite ascii_not_continuation by done. naive_solver. }
    left. lia. }
  destruct r0 as [|b1 r1]; [done|].
  destruct (_ && _) eqn:E2.
  { apply andb_true_iff in E2 as [Ha Hb]. intros (cs' & Hcs & ->)%fmap_Some. right.
    eexists _, cs', r1. rewrite (char_encode_2 b0 b1) by done.
    apply byte_in_iff in Ha. pose proof (proj1 (byte_in_iff _ _ _) Hb).
    split_and!; [done..| |left; lia]. apply lead; [lia|by repeat constructor]. }
  clear E2. destruct r1 as [|b2 r2]; [done|].
  destruct (lead3 b0 b1 && _) eqn:E3.
  { apply andb_true_iff in E3 as [Ha Hb]. intros (cs' & Hcs & ->)%fmap_Some. right.
    eexists _, cs', r2. rewrite (char_encode_3 b0 b1 b2) by done. apply lead3_range in Ha.
    pose proof (proj1 (byte_in_iff _ _ _) Hb).
    split_and!; [done..| |unfold scalar; lia]. apply lead; [lia|].
    repeat constructor; [apply byte_in_iff; lia|done]. }
  clear E3. destruct r2 as [|b3 r3]; [done|].
  destruct (lead4 b0 b1 && _ && _) eqn:E4; [|done].
  apply andb_true_iff in E4 as [[Ha Hb]%andb_true_iff Hc].
  intros (cs' & Hcs & ->)%fmap_Some. right.
  eexists _, cs', r3. rewrite (char_encode_4 b0 b1 b2 b3) by done. apply lead4_range in Ha.
  pose proof (proj1 (byte_in_iff _ _ _) Hb). pose proof (proj1 (byte_in_iff _ _ _) Hc).
  split_and!; [done..| |unfold scalar; lia]. apply lead; [lia|].
  repeat constructor; [apply byte_in_iff; lia|done..].
Qed.


(** Induction over the characters of a valid byte sequence. *)
Lemma utf8_decode_ind (P : list byte → list N → Prop) :
  P [] [] →
  (∀ c cs rest, utf8_decode rest = Some cs → char_bytes (char_encode c) → scalar c →
     P rest cs → P (char_encode c ++ rest) (c :: cs)) →
  ∀ bs cs, utf8_decode bs = Some cs → P bs cs.
Proof.
  intros Hnil Hcons bs cs. revert bs. induction cs as [|c cs IH]; intros bs Hbs.
  - apply utf8_decode_inv in Hbs as [[-> _]|(?&?&?&_&?&_)]; [done|simplify_eq].
  - apply utf8_decode_inv in Hbs as [[_ ?]|(c'&cs'&rest&->&?&Hr&Hc&Hs)]; simplify_eq.
    apply Hcons; [done..|]. by apply IH.
Qed.

Lemma utf8_encode_cons c cs : utf8_encode (c :: cs) = char_encode c ++ utf8_encode cs.
Proof. done. Qed.

Lemma utf8_encode_app cs1 cs2 : utf8_encode (cs1 ++ cs2) = utf8_encode cs1 ++ utf8_encode cs2.
Proof. apply bind_app. Qed.

Lemma utf8_encode_decode bs cs : utf8_decode bs = Some cs → utf8_encode cs = bs.
Proof.
  revert bs cs. apply utf8_decode_ind; [done|].
  intros c cs rest _ _ _ IH. by rewrite utf8_encode_cons, IH.
Qed.

Lemma of_chars_chars s : valid_str s → of_chars (chars s) = s.
Proof.
  intros [cs Hcs]. unfold chars, of_chars. rewrite Hcs. simpl.
  rewrite (utf8_encode_decode _ _ Hcs). apply of_as_bytes.
Qed.

(** The position after an ASCII byte, and the position of a non-continuation
    byte, is a character boundary. *)
Lemma utf8_boundary_after_ascii bs cs i b b' :
  utf8_decode bs = Some cs → bs !! i = Some b → (Byte.to_N b < 0x80)%N →
  bs !! S i = Some b' → is_continuation b' = false.
Proof.
  intros Hbs. revert bs cs Hbs i.
  apply (utf8_decode_ind (λ bs _, ∀ i, bs !! i = Some b → (Byte.to_N b < 0x80)%N →
    bs !! S i = Some b' → is_continuation b' = false)); [by intros []|].
  intros c cs rest Hrest (x & tl & -> & _ & Hx) _ IH i Hi Hb Hi'.
  destruct i as [|i]; simplify_eq/=.
  - destruct Hx as [[_ ->]|[? _]]; [|lia]. simpl in Hi'.
    apply utf8_decode_inv in Hrest as [[-> _]|(c'&?&?&->&_&_&(y&?&Hy&Hyc&_)&_)]; [done|].
    rewrite Hy in Hi'. by simplify_eq/=.
  - destruct (decide (i < length tl)) as [Hlt|Hge].
    + rewrite lookup_app_l in Hi by done. destruct Hx as [[_ ->]|[_ Hall]]; [done|].
      apply (Forall_lookup_1 _ _ _ _ Hall) in Hi. apply byte_in_iff in Hi. lia.
    + rewrite lookup_app_r in Hi, Hi' by lia.
      replace (S i - length tl) with (S (i - length tl)) in Hi' by lia.
      by eapply IH.
Qed.

Lemma utf8_first_boundary bs cs b :
  utf8_decode bs = Some cs → bs !! 0 = Some b → is_continuation b = false.
Proof.
  intros [[-> _]|(c & ? & rest & -> & _ & _ & (x & tl & -> & Hx & _) & _)]%utf8_decode_inv;
    [done|]. simpl. congruence.
Qed.

Lemma char_boundary_0 s : valid_str s → is_char_boundary s 0 = true.
Proof.
  intros [cs Hcs]. unfold is_char_boundary. destruct (as_bytes s !! 0) as [b|] eqn:E.
  - by rewrite (utf8_first_boundary _ _ _ Hcs E).
  - apply lookup_ge_None in E. case_bool_decide; [done|]. lia.
Qed.

Lemma char_boundary_end s : is_char_boundary s (length (as_bytes s)) = true.
Proof.
  unfold is_char_boundary. rewrite lookup_ge_None_2 by done. by rewrite bool_decide_eq_true_2.
Qed.

Lemma char_boundary_ascii s i b :
  as_bytes s !! i = Some b → (Byte.to_N b < 0x80)%N → is_char_boundary s i = true.
Proof. intros Hi Hb. unfold is_char_boundary. by rewrite Hi, ascii_not_continuation. Qed.

Lemma char_boundary_after_ascii s i b :
  valid_str s → as_bytes s !! i = Some b → (Byte.to_N b < 0x80)%N →
  is_char_boundary s (S i) = true.
Proof.
  intros [cs Hcs] Hi Hb. unfold is_char_boundary.
  destruct (as_bytes s !! S i) as [b'|] eqn:E.
  - by rewrite (utf8_boundary_after_ascii _ _ _ _ _ Hcs Hi Hb E).
  - apply lookup_ge_None in E. apply lookup_lt_Some in Hi. case_bool_decide; [done|lia].
Qed.

Lemma str_slice_Done s a b :
  a ≤ b → is_char_boundary s a = true → is_char_boundary s b = true →
  str_slice s a b = Done (of_bytes (take (b - a) (drop a (as_bytes s)))).
Proof. intros Hab Ha Hb. unfold str_slice. by rewrite bool_decide_eq_true_2, Ha, Hb. Qed.

(** ** ASCII strings *)

Lemma utf8_decode_ascii bs : ascii_bytes bs → utf8_decode bs = Some (Byte.to_N <$> bs).
Proof.
  induction 1 as [|b bs Hb _ IH]; [done|]. simpl.
  by rewrite (proj2 (N.ltb_lt _ _) Hb), IH.
Qed.

Lemma ascii_valid s : ascii_str s → valid_str s.
Proof. intros H. unfold valid_str. by rewrite utf8_decode_ascii. Qed.

Lemma chars_ascii s : ascii_str s → chars s = Byte.to_N <$> as_bytes s.
Proof. intros H. unfold chars. by rewrite utf8_decode_ascii. Qed.

Lemma to_N_byte_of_N n : (n < 256)%N → Byte.to_N (byte_of_N n) = n.
Proof.
  intros H. apply N2Z.inj. change (u8_val (u8_of (Z.of_N n)) = Z.of_N n).
  rewrite u8_val_of. apply Z.mod_small. lia.
Qed.

Lemma byte_in_of_N lo hi n :
  (n < 256)%N → byte_in lo hi (byte_of_N n) = (lo <=? n)%N && (n <=? hi)%N.
Proof. intros H. unfold byte_in. by rewrite to_N_byte_of_N. Qed.

(** The base-64 digits a character is encoded by. *)
Lemma digits2 c : (c = c / 64 * 64 + c mod 64 ∧ c mod 64 < 64)%N.
Proof. dlia. Qed.

Lemma digits3 c :
  (c = c / 4096 * 4096 + (c / 64) mod 64 * 64 + c mod 64 ∧
   (c / 64) mod 64 < 64 ∧ c mod 64 < 64)%N.
Proof. dlia. Qed.

Lemma digits4 c :
  (c = c / 262144 * 262144 + (c / 4096) mod 64 * 4096 + (c / 64) mod 64 * 64 + c mod 64 ∧
   (c / 4096) mod 64 < 64 ∧ (c / 64) mod 64 < 64 ∧ c mod 64 < 64)%N.
Proof. dlia. Qed.

Lemma byte_in_false lo hi b :
  (Byte.to_N b < lo ∨ hi < Byte.to_N b)%N → byte_in lo hi b = false.
Proof. intros H. apply not_true_iff_false. rewrite byte_in_iff. lia. Qed.

Lemma utf8_decode_2 b0 b1 rest :
  byte_in 0xC2 0xDF b0 = true → is_continuation b1 = true →
  utf8_decode (b0 :: b1 :: rest) =
    cons ((Byte.to_N b0 - 0xC0) * 64 + (Byte.to_N b1 - 0x80))%N <$> utf8_decode rest.
Proof.
  intros H0 H1. simpl. rewrite H0, H1. apply byte_in_iff in H0.
  by rewrite (proj2 (N.ltb_ge _ _)) by lia.
Qed.

Lemma utf8_decode_3 b0 b1 b2 rest :
  lead3 b0 b1 = true → is_continuation b2 = true →
  utf8_decode (b0 :: b1 :: b2 :: rest) =
    cons (((Byte.to_N b0 - 0xE0) * 64 + (Byte.to_N b1 - 0x80)) * 64
          + (Byte.to_N b2 - 0x80))%N <$> utf8_decode rest.
Proof.
  intros H0 H2. simpl. rewrite H0, H2. apply lead3_range in H0.
  by rewrite (proj2 (N.ltb_ge _ _)), (byte_in_false 0xC2) by lia.
Qed.

Lemma utf8_decode_4 b0 b1 b2 b3 rest :
  lead4 b0 b1 = true → is_continuation b2 = true → is_continuation b3 = true →
  utf8_decode (b0 :: b1 :: b2 :: b3 :: rest) =
    cons ((((Byte.to_N b0 - 0xF0) * 64 + (Byte.to_N b1 - 0x80)) * 64
           + (Byte.to_N b2 - 0x80)) * 64 + (Byte.to_N b3 - 0x80))%N <$> utf8_decode rest.
Proof.
  intros H0 H2 H3. simpl. rewrite H0, H2, H3. apply lead4_range in H0.
  rewrite (proj2 (N.ltb_ge _ _)), (byte_in_false 0xC2) by lia. simpl.
  assert (lead3 b0 b1 = false) as ->; [|done].
  apply not_true_iff_false. rewrite lead3_range. lia.
Qed.

Ltac byte_facts :=
  unfold is_continuation; rewrite ?byte_in_iff, ?lead3_range, ?lead4_range, ?to_N_byte_of_N by lia; lia.

Lemma utf8_decode_char c rest :
  scalar c → utf8_decode (char_encode c ++ rest) = cons c <$> utf8_decode rest.
Proof.
  intros Hc. unfold scalar in Hc. unfold char_encode.
  destruct (N.ltb_spec c 0x80) as [H1|H1].
  { simpl. rewrite to_N_byte_of_N by lia. by rewrite (proj2 (N.ltb_lt _ _) H1). }
  destruct (N.ltb_spec c 0x800).
  { destruct (digits2 c) as (E & Hb). revert E Hb.
    generalize (c / 64)%N, (c mod 64)%N. intros x y E Hy. cbn [app].
    rewrite utf8_decode_2 by byte_facts. do 2 f_equal. rewrite !to_N_byte_of_N; lia. }
  destruct (N.ltb_spec c 0x10000).
  { destruct (digits3 c) as (E & Hb & Hd). revert E Hb Hd.
    generalize (c / 4096)%N, ((c / 64) mod 64)%N, (c mod 64)%N. intros x y z E Hy Hz.
    cbn [app]. rewrite utf8_decode_3 by byte_facts. do 2 f_equal.
    rewrite !to_N_byte_of_N; lia. }
  destruct (digits4 c) as (E & Hb & Hd & He). revert E Hb Hd He.
  generalize (c / 262144)%N, ((c / 4096) mod 64)%N, ((c / 64) mod 64)%N, (c mod 64)%N.
  intros x y z w E Hy Hz Hw. cbn [app].
  rewrite utf8_decode_4 by byte_facts. do 2 f_equal. rewrite !to_N_byte_of_N; lia.
Qed.

Lemma utf8_decode_encode cs : Forall scalar cs → utf8_decode (utf8_encode cs) = Some cs.
Proof.
  induction 1 as [|c cs Hc _ IH]; [done|].
  by rewrite utf8_encode_cons, utf8_decode_char, IH.
Qed.

Lemma decoded_scalars bs cs : utf8_decode bs = Some cs → Forall scalar cs.
Proof.
  revert bs cs. apply utf8_decode_ind; [constructor|]. intros. by constructor.
Qed.

Lemma chars_scalars s : Forall scalar (chars s).
Proof.
  unfold chars. destruct (utf8_decode (as_bytes s)) eqn:E; simpl; [|constructor].
  by eapply decoded_scalars.
Qed.

Lemma chars_of_chars cs : Forall scalar cs → chars (of_chars cs) = cs.
Proof. intros H. unfold chars, of_chars. by rewrite as_of_bytes, utf8_decode_encode. Qed.

Lemma valid_of_chars cs : Forall scalar cs → valid_str (of_chars cs).
Proof.
  intros H. unfold valid_str, of_chars. rewrite as_of_bytes, utf8_decode_encode by done. eauto.
Qed.

(** ** Lemmas on the [str] methods *)

(** The ASCII character [d] does not occur in [s]. *)
Fixpoint str_mem (d : ascii) (s : string) : bool :=
  match s with
  | EmptyString => false
  | String c s' => bool_decide (c = d) || str_mem d s'
  end.

Lemma str_mem_app d s1 s2 : str_mem d (s1 +:+ s2) = str_mem d s1 || str_mem d s2.
Proof.
  induction s1 as [|c s1 IH]; [done|]. rewrite string_app_cons. simpl. rewrite IH.
  by destruct (bool_decide _).
Qed.

Lemma split_once_Some d s a b :
  split_once d s = Some (a, b) ↔ s = a +:+ String d b ∧ str_mem d a = false.
Proof.
  revert a b. induction s as [|c s IH]; intros a b; simpl.
  - split; [done|]. intros [H _]. by destruct a.
  - case_decide as Hc; subst.
    + split; [by intros [= <- <-]|]. intros [Hs Ha]. destruct a as [|c' a].
      * simpl_str. by simplify_eq/=.
      * rewrite string_app_cons in Hs. simplify_eq. simpl in Ha.
        by rewrite bool_decide_eq_true_2 in Ha by done.
    + rewrite fmap_Some. split.
      * intros ([a' b'] & [-> Ha]%IH & Heq). simplify_eq/=.
        rewrite bool_decide_eq_false_2 by done. split; [by rewrite string_app_cons|done].
      * intros [Hs Ha]. destruct a as [|c' a]; [by simpl_str; simplify_eq/=|].
        rewrite string_app_cons in Hs. simplify_eq. simpl in Ha.
        apply orb_false_iff in Ha as [_ Ha].
        exists (a, b). split; [by apply IH|done].
Qed.

Lemma split_once_None d s : split_once d s = None ↔ str_mem d s = false.
Proof.
  induction s as [|c s IH]; simpl; [done|].
  rewrite orb_false_iff, bool_decide_eq_false.
  case_decide; [naive_solver|]. rewrite fmap_None, IH. naive_solver.
Qed.

Lemma strip_prefix_Some p s t : strip_prefix p s = Some t ↔ s = p +:+ t.
Proof.
  revert s. induction p as [|a p IH]; intros [|b s]; simpl; simpl_str; [naive_solver..| |].
  - done.
  - case_decide; [rewrite IH|]; naive_solver.
Qed.

Lemma strip_prefix_app p s : strip_prefix p (p +:+ s) = Some s.
Proof. by apply strip_prefix_Some. Qed.

Lemma drop_last_app s c : drop_last (s +:+ String c "") = s.
Proof.
  induction s as [|x s IH]; [done|]. rewrite string_app_cons.
  destruct s as [|y s]; [done|]. rewrite string_app_cons in IH |- *.
  change (String x (drop_last (String y (s +:+ String c ""))) = String x (String y s)).
  by rewrite IH.
Qed.

Lemma str_last_app s c : str_last (s +:+ String c "") = Some c.
Proof.
  induction s as [|x s IH]; [done|]. rewrite string_app_cons.
  destruct s as [|y s]; [done|]. by rewrite string_app_cons in IH |- *.
Qed.

Lemma str_last_Some s c : str_last s = Some c ↔ ∃ s', s = s' +:+ String c "".
Proof.
  split; [|by intros [s' ->]; apply str_last_app].
  induction s as [|x s IH]; [done|]. destruct s as [|y s]; simpl.
  - intros [= ->]. by exists "".
  - intros [s' Hs]%IH. exists (String x s'). by rewrite string_app_cons, <- Hs.
Qed.

(** *** [trim] *)

Lemma drop_ws_head cs : match drop_ws cs with [] => True | c :: _ => is_whitespace c = false end.
Proof. induction cs as [|c cs IH]; [done|]. simpl. by destruct (is_whitespace c) eqn:E. Qed.

Lemma drop_ws_id c cs : is_whitespace c = false → drop_ws (c :: cs) = c :: cs.
Proof. simpl. by intros ->. Qed.

Lemma drop_ws_app_ws w cs : Forall (λ c, is_whitespace c = true) w → drop_ws (w ++ cs) = drop_ws cs.
Proof. induction 1 as [|c w Hc _ IH]; [done|]. simpl. by rewrite Hc. Qed.

Lemma drop_ws_suffix cs : ∃ w, cs = w ++ drop_ws cs ∧ Forall (λ c, is_whitespace c = true) w.
Proof.
  induction cs as [|c cs (w & Hw & Hall)]; [by exists []|]. simpl.
  destruct (is_whitespace c) eqn:E; [|by exists []].
  exists (c :: w). simpl. rewrite <- Hw. by repeat constructor.
Qed.

(** Neither end of the list is white space. *)
Definition ws_trimmed (cs : list N) : Prop :=
  (∀ c, head cs = Some c → is_whitespace c = false) ∧
  (∀ c, last cs = Some c → is_whitespace c = false).

Lemma trim_chars_padded w1 cs w2 :
  Forall (λ c, is_whitespace c = true) w1 → Forall (λ c, is_whitespace c = true) w2 →
  ws_trimmed cs → trim_chars (w1 ++ cs ++ w2) = cs.
Proof.
  intros H1 H2 [Hh Hl]. unfold trim_chars. rewrite drop_ws_app_ws by done.
  destruct cs as [|c cs]; simpl.
  { rewrite <- (app_nil_r w2), drop_ws_app_ws by done. done. }
  rewrite (Hh c) by done.
  rewrite app_comm_cons, reverse_app, drop_ws_app_ws by by apply Forall_reverse.
  destruct (last (c :: cs)) as [d|] eqn:Hd; [|by apply last_None in Hd].
  destruct (last_Some (c :: cs) d) as [[l' Hl'] _]; [done|].
  rewrite Hl', reverse_snoc, drop_ws_id by (by apply Hl).
  by rewrite <- reverse_snoc, reverse_involutive.
Qed.

Lemma trim_chars_spec cs :
  ∃ w1 w2, cs = w1 ++ trim_chars cs ++ w2 ∧
    Forall (λ c, is_whitespace c = true) w1 ∧ Forall (λ c, is_whitespace c = true) w2.
Proof.
  destruct (drop_ws_suffix cs) as (w1 & H1 & Hw1).
  destruct (drop_ws_suffix (reverse (drop_ws cs))) as (w2 & H2 & Hw2).
  exists w1, (reverse w2). split_and!; [|done|by apply Forall_reverse].
  unfold trim_chars. rewrite <- reverse_app, <- H2, reverse_involutive. done.
Qed.

Lemma trim_id s : valid_str s → ws_trimmed (chars s) → trim s = s.
Proof.
  intros Hv Hw. unfold trim.
  pose proof (trim_chars_padded [] (chars s) []) as E. simpl in E. rewrite app_nil_r in E.
  rewrite E by done. by apply of_chars_chars.
Qed.

(** *** [split_whitespace] and [join] *)

Lemma utf8_decode_encode_app cs rest :
  Forall scalar cs → utf8_decode (utf8_encode cs ++ rest) = app cs <$> utf8_decode rest.
Proof.
  induction 1 as [|c cs Hc _ IH]; [by simpl; destruct (utf8_decode rest)|].
  rewrite utf8_encode_cons, <- app_assoc, utf8_decode_char, IH by done.
  by destruct (utf8_decode rest).
Qed.

Lemma chars_app s1 s2 : valid_str s1 → valid_str s2 → chars (s1 +:+ s2) = chars s1 ++ chars s2.
Proof.
  intros [cs1 H1] [cs2 H2]. unfold chars. rewrite as_bytes_app, H1, H2.
  rewrite <- (utf8_encode_decode _ _ H1), utf8_decode_encode_app, H2; [done|].
  by eapply decoded_scalars.
Qed.

Lemma valid_str_app s1 s2 : valid_str s1 → valid_str s2 → valid_str (s1 +:+ s2).
Proof.
  intros [cs1 H1] [cs2 H2]. unfold valid_str. rewrite as_bytes_app.
  rewrite <- (utf8_encode_decode _ _ H1), utf8_decode_encode_app, H2; [by eexists|].
  by eapply decoded_scalars.
Qed.

(** A non-empty [str] without white space: what [split_whitespace] yields. *)
Definition ws_word (s : string) : Prop :=
  valid_str s ∧ s ≠ "" ∧ Forall (λ c, is_whitespace c = false) (chars s).

Lemma ws_words_app w cs cur :
  Forall (λ c, is_whitespace c = false) w → ws_words (w ++ cs) cur = ws_words cs (cur ++ w).
Proof.
  intros Hw. revert cur. induction Hw as [|c w Hc _ IH]; intros cur; simpl.
  - by rewrite app_nil_r.
  - by rewrite Hc, IH, <- app_assoc.
Qed.

Lemma ws_words_spec cs cur :
  Forall (λ c, is_whitespace c = false) cur → Forall scalar cur → Forall scalar cs →
  Forall (λ w, w ≠ [] ∧ Forall (λ c, is_whitespace c = false) w ∧ Forall scalar w)
    (ws_words cs cur).
Proof.
  intros Hcur Hs Hcs. revert cur Hcur Hs.
  induction Hcs as [|c cs Hc _ IH]; intros cur Hcur Hs; simpl.
  - destruct cur; [constructor|by apply Forall_singleton].
  - destruct (is_whitespace c) eqn:E.
    + destruct cur; [by apply IH|]. constructor; [done|by apply IH].
    + apply IH; apply Forall_app; split; auto.
Qed.

Lemma of_chars_nil_inv cs : of_chars cs = "" → Forall scalar cs → cs = [].
Proof. intros H Hs. by rewrite <- (chars_of_chars cs), H. Qed.

Lemma split_whitespace_words s : Forall ws_word (split_whitespace s).
Proof.
  unfold split_whitespace. apply Forall_fmap.
  eapply Forall_impl; [apply ws_words_spec; [constructor..|apply chars_scalars]|].
  intros w (Hne & Hw & Hs). split_and!; simpl.
  - by apply valid_of_chars.
  - intros ?%of_chars_nil_inv; done.
  - by rewrite chars_of_chars.
Qed.

Lemma chars_str_join l :
  Forall ws_word l →
  valid_str (str_join " " l) ∧
  chars (str_join " " l) = match l with [] => [] | w :: l' => chars w ++ (l' ≫= λ w, 0x20%N :: chars w) end.
Proof.
  induction 1 as [|w l (Hv & _) Hl [IHv IHc]]; [by split; [eexists|]|].
  destruct l as [|w' l']; [simpl; by rewrite app_nil_r|].
  change (str_join " " (w :: w' :: l')) with (w +:+ " " +:+ str_join " " (w' :: l')).
  assert (Hsp : valid_str " ") by by eexists.
  split; [by repeat apply valid_str_app|].
  rewrite !chars_app, IHc by repeat (done || apply valid_str_app). done.
Qed.

Lemma split_whitespace_join l : Forall ws_word l → split_whitespace (str_join " " l) = l.
Proof.
  intros Hl. unfold split_whitespace.
  destruct (chars_str_join l Hl) as [_ ->].
  assert (Hr : ∀ w l, Forall ws_word (w :: l) →
    of_chars <$> ws_words (l ≫= λ w, 0x20%N :: chars w) (chars w) = w :: l).
  { clear l Hl. intros w l. revert w. induction l as [|w' l IH];
      intros w ((Hv & Hne & Hw) & Hl)%Forall_cons.
    - simpl. destruct (chars w) eqn:E.
      + exfalso. apply Hne. rewrite <- (of_chars_chars w), E by done. done.
      + simpl. by rewrite <- E, of_chars_chars.
    - simpl. destruct (chars w) eqn:E.
      + exfalso. apply Hne. rewrite <- (of_chars_chars w), E by done. done.
      + rewrite <- E. simpl. rewrite of_chars_chars by done. f_equal.
        rewrite ws_words_app by (by apply Forall_cons in Hl as [(_&_&?) _]).
        by apply IH. }
  destruct l as [|w l]; [done|].
  rewrite ws_words_app by (by apply Forall_cons in Hl as [(_&_&?) _]).
  by apply Hr.
Qed.

(** *** Hexadecimal *)

Lemma u8_from_str_radix_16_fmt b : u8_from_str_radix_16 (fmt_02x b) = Some b.
Proof. by destruct b. Qed.

Lemma fmt_02x_ascii b : ascii_str (fmt_02x b).
Proof. apply (bool_decide_unpack _). by destruct b. Qed.

Lemma length_fmt_02x b : length (as_bytes (fmt_02x b)) = 2.
Proof. done. Qed.

#[export] Instance fmt_02x_inj : Inj (=) (=) fmt_02x.
Proof.
  intros a b H. apply (inj Some). by rewrite <- !u8_from_str_radix_16_fmt, H.
Qed.

#[export] Hint Resolve valid_str_app ascii_valid char_boundary_end char_boundary_0
  fmt_02x_ascii split_whitespace_words : rust.

(** *** Visible ASCII *)

Definition visible (bs : list byte) : Prop := Forall (λ b, (0x20 < Byte.to_N b < 0x7F)%N) bs.

Lemma visible_ascii bs : visible bs → ascii_bytes bs.
Proof. intros Hb. eapply Forall_impl; [done|]. simpl. lia. Qed.

Lemma visible_not_whitespace n : (0x20 < n < 0x7F)%N → is_whitespace n = false.
Proof.
  intros Hn. apply not_true_is_false. unfold is_whitespace. intros Hw.
  rewrite !orb_true_iff, !andb_true_iff, !N.leb_le, !N.eqb_eq in Hw. lia.
Qed.

Lemma trim_visible s : visible (as_bytes s) → trim s = s.
Proof.
  intros Hs. assert (Ha : ascii_str s) by by apply visible_ascii.
  apply trim_id; [by apply ascii_valid|]. rewrite chars_ascii by done.
  assert (Hw : ∀ c, c ∈ Byte.to_N <$> as_bytes s → is_whitespace c = false).
  { intros c (b & -> & Hb)%list_elem_of_fmap. apply visible_not_whitespace.
    by eapply Forall_forall in Hs. }
  split; intros c Hc; apply Hw; [by apply head_Some_elem_of|].
  apply last_Some in Hc as [l ->]. set_solver.
Qed.

Lemma from_utf8_valid s : valid_str s → from_utf8 (as_bytes s) = Some s.
Proof. intros [cs Hcs]. unfold from_utf8. by rewrite Hcs, of_as_bytes. Qed.
