(* ===== verification/Storage.v ===== *)
(** * Token storage ([src/oidc/storage.rs])

    The [TokenStore] trait as a class of operations over a store state, the
    contract its doc comments state as a class of laws ([TokenStoreSpec]: an
    abstract map of live records and an abstract set of consumed codes), and
    [InMemoryTokenStore], two hash maps behind reader-writer locks, with the
    proof that it implements the contract and that it answers as the history of
    its calls demands. *)
From S2P Require Import Prelude RustStd.

Record TokenRecord := mkTokenRecord {
  tr_subject : string;
  tr_client_id : string;
  tr_scope : list string;
  tr_groups : list string;
  tr_expires_at : SystemTime;
  tr_jti : string;
}.

#[export] Instance TokenRecord_eq_dec : EqDecision TokenRecord.
Proof. solve_decision. Defined.

(** ** The [TokenStore] trait *)

(** The operations take [&self]; the state they act on is behind the store's
    own locks, so it is threaded explicitly.  An operation panics when it meets
    a poisoned lock. *)
Class TokenStore (S : Type) := {
  store_issue : string → string → string → list string → list string → SystemTime →
    S → outcome S;
  store_lookup : string → S → outcome (option TokenRecord);
  store_revoke : string → S → outcome (bool * S);
  store_consume_code : string → S → outcome (bool * S);
}.

(** What the trait promises its callers: in terms of the live records and the
    consumed codes, as long as no lock is poisoned, and without poisoning one. *)
Class TokenStoreSpec (S : Type) `{!TokenStore S} := {
  store_ok : S → Prop;
  store_records : S → gmap string TokenRecord;
  store_consumed : S → gset string;

  store_issue_spec jti sub cid scope groups exp s :
    store_ok s →
    ∃ s', store_issue jti sub cid scope groups exp s = Done s' ∧ store_ok s' ∧
      store_records s' = <[jti := mkTokenRecord sub cid scope groups exp jti]> (store_records s) ∧
      store_consumed s' = store_consumed s;
  store_lookup_spec jti s :
    store_ok s → store_lookup jti s = Done (store_records s !! jti);
  store_revoke_spec jti s :
    store_ok s →
    ∃ s', store_revoke jti s = Done (bool_decide (jti ∈ dom (store_records s)), s') ∧
      store_ok s' ∧ store_records s' = delete jti (store_records s) ∧
      store_consumed s' = store_consumed s;
  store_consume_code_spec key s :
    store_ok s →
    ∃ s', store_consume_code key s = Done (bool_decide (key ∉ store_consumed s), s') ∧
      store_ok s' ∧ store_records s' = store_records s ∧
      store_consumed s' = {[key]} ∪ store_consumed s;
}.

(** ** [std::sync::RwLock]

    A guard taken by [write().unwrap()] poisons the lock when its holder
    panics; [read()] and [write()] on a poisoned lock return [Err]. *)
Record RwLock (A : Type) := mkRwLock { rw_data : A; rw_poisoned : bool }.
Arguments mkRwLock {A} rw_data rw_poisoned.
Arguments rw_data {A} r.
Arguments rw_poisoned {A} r.

Definition RwLock_new {A} (a : A) : RwLock A := mkRwLock a false.

(** [lock.read().unwrap()] and [lock.write().unwrap()]: the guarded data. *)
Definition rw_unwrap {A} (l : RwLock A) : outcome A :=
  if rw_poisoned l
  then Panicked "called `Result::unwrap()` on an `Err` value: PoisonError"
  else Done (rw_data l).

(** ** [InMemoryTokenStore] *)

Module InMemory.
Record InMemoryTokenStore := mkInMemoryTokenStore {
  records : RwLock (gmap string TokenRecord);
  consumed_codes : RwLock (gmap string unit);
  }.

Definition new : InMemoryTokenStore :=
  mkInMemoryTokenStore (RwLock_new ∅) (RwLock_new ∅).

Definition issue (jti subject client_id : string) (scope groups : list string)
    (expires_at : SystemTime) (self : InMemoryTokenStore) : outcome InMemoryTokenStore :=
  let record := mkTokenRecord subject client_id scope groups expires_at jti in
  let! guard := rw_unwrap (records self) in
  Done (mkInMemoryTokenStore (mkRwLock (<[jti := record]> guard) false)
                             (consumed_codes self)).

Definition lookup (jti : string) (self : InMemoryTokenStore) :
    outcome (option TokenRecord) :=
  let! guard := rw_unwrap (records self) in
  Done (guard !! jti).

Definition revoke (jti : string) (self : InMemoryTokenStore) :
    outcome (bool * InMemoryTokenStore) :=
  let! guard := rw_unwrap (records self) in
  Done (bool_decide (is_Some (guard !! jti)),
        mkInMemoryTokenStore (mkRwLock (delete jti guard) false) (consumed_codes self)).

(** [HashMap::insert] returns the previous value: [None] on first use. *)
Definition consume_code (code_key : string) (self : InMemoryTokenStore) :
    outcome (bool * InMemoryTokenStore) :=
  let! guard := rw_unwrap (consumed_codes self) in
  Done (bool_decide (guard !! code_key = None),
        mkInMemoryTokenStore (records self) (mkRwLock (<[code_key := tt]> guard) false)).

#[global] Instance InMemory_TokenStore : TokenStore InMemoryTokenStore := {
  store_issue := issue;
  store_lookup := lookup;
  store_revoke := revoke;
  store_consume_code := consume_code;
  }.

(** Neither lock is poisoned. *)
Definition healthy (self : InMemoryTokenStore) : Prop :=
  rw_poisoned (records self) = false ∧ rw_poisoned (consumed_codes self) = false.

#[export] Instance healthy_dec self : Decision (healthy self).
Proof. unfold healthy. apply _. Defined.

Lemma new_healthy : healthy new.
Proof. done. Qed.

Lemma rw_unwrap_ok {A} (l : RwLock A) : rw_poisoned l = false → rw_unwrap l = Done (rw_data l).
Proof. unfold rw_unwrap. by intros ->. Qed.

(** The in-memory store keeps the promises of the trait. *)
#[global, refine] Instance InMemory_TokenStoreSpec : TokenStoreSpec InMemoryTokenStore := {
  store_ok := healthy;
  store_records s := rw_data (records s);
  store_consumed s := dom (rw_data (consumed_codes s));
  }.
Proof.
  - intros jti sub cid scope groups exp s [Hr Hc]. simpl. unfold issue.
    rewrite rw_unwrap_ok by done. eexists. by repeat split.
  - intros jti s [Hr Hc]. simpl. unfold lookup. by rewrite rw_unwrap_ok.
  - intros jti s [Hr Hc]. simpl. unfold revoke. rewrite rw_unwrap_ok by done. eexists.
    split; [simpl; apply f_equal, f_equal2; [|reflexivity]|by repeat split].
    apply bool_decide_ext. by rewrite elem_of_dom.
  - intros key s [Hr Hc]. simpl. unfold consume_code. rewrite rw_unwrap_ok by done. eexists.
    split; [simpl; apply f_equal, f_equal2; [|reflexivity]|].
    { apply bool_decide_ext. by rewrite not_elem_of_dom. }
    repeat split; [done|]. simpl. by rewrite dom_insert_L.
Defined.

(** ** What the store answers, by its history

    The locks make every call atomic, so whatever threads share the store, its
    calls happen in one order. *)
Inductive Call :=
| Issue (jti subject client_id : string) (scope groups : list string) (expires_at : SystemTime)
| Lookup (jti : string)
| Revoke (jti : string)
| ConsumeCode (code_key : string).

Inductive Answer :=
| Issued
| Found (record : option TokenRecord)
| Removed (b : bool)
| FirstUse (b : bool).

Definition serve (c : Call) (self : InMemoryTokenStore) : outcome (Answer * InMemoryTokenStore) :=
  match c with
  | Issue jti subject client_id scope groups expires_at =>
      let! self := issue jti subject client_id scope groups expires_at self in Done (Issued, self)
  | Lookup jti => let! o := lookup jti self in Done (Found o, self)
  | Revoke jti => let! '(b, self) := revoke jti self in Done (Removed b, self)
  | ConsumeCode key => let! '(b, self) := consume_code key self in Done (FirstUse b, self)
  end.

Fixpoint serve_all (calls : list Call) (self : InMemoryTokenStore) :
    outcome (list Answer * InMemoryTokenStore) :=
  match calls with
  | [] => Done ([], self)
  | c :: calls =>
      let! '(a, self) := serve c self in
      let! '(answers, self) := serve_all calls self in Done (a :: answers, self)
  end.

(** A call that decides whether there is a token under [jti]. *)
Definition touches (jti : string) (c : Call) : Prop :=
  match c with
  | Issue jti' _ _ _ _ _ | Revoke jti' => jti' = jti
  | Lookup _ | ConsumeCode _ => False
  end.

(** The token last issued under [jti] has this record, and was not revoked since. *)
Definition live (history : list Call) (jti : string) (r : TokenRecord) : Prop :=
  ∃ pre sub cid scope groups exp post,
    history = pre ++ Issue jti sub cid scope groups exp :: post ∧
    r = mkTokenRecord sub cid scope groups exp jti ∧ Forall (λ c, ¬ touches jti c) post.

(** The doc comments of the trait, of a call after a history of calls. *)
Definition promised (history : list Call) (c : Call) (a : Answer) : Prop :=
  match c, a with
  | Issue _ _ _ _ _ _, Issued => True
  | Lookup jti, Found o => ∀ r, o = Some r ↔ live history jti r
  | Revoke jti, Removed b => b = true ↔ ∃ r, live history jti r
  | ConsumeCode key, FirstUse b => b = true ↔ ConsumeCode key ∉ history
  | _, _ => False
  end.

Lemma live_nil jti r : ¬ live [] jti r.
Proof. by intros ([] & ? & ? & ? & ? & ? & ? & ? & _). Qed.

Lemma live_snoc history c jti r :
  live (history ++ [c]) jti r ↔
    (∃ sub cid scope groups exp, c = Issue jti sub cid scope groups exp ∧
       r = mkTokenRecord sub cid scope groups exp jti) ∨
    live history jti r ∧ ¬ touches jti c.
Proof.
  split.
  - intros (pre & sub & cid & scope & groups & exp & post & E & -> & Hpost).
    destruct post as [|c' post _] using rev_ind.
    { apply app_inj_tail in E as [_ ->]. left. eauto 10. }
    rewrite app_comm_cons, app_assoc in E. apply app_inj_tail in E as [-> ->].
    rewrite Forall_app, Forall_singleton in Hpost. destruct Hpost as [Hpost Hc].
    right. split; [|done]. by exists pre, sub, cid, scope, groups, exp, post.
  - intros [(sub & cid & scope & groups & exp & -> & ->)|[Hl Hc]].
    + by exists history, sub, cid, scope, groups, exp, [].
    + destruct Hl as (pre & sub & cid & scope & groups & exp & post & -> & -> & Hpost).
      exists pre, sub, cid, scope, groups, exp, (post ++ [c]).
      split; [by rewrite <- app_assoc|]. split; [done|]. apply Forall_app_2; [done|].
      by apply Forall_singleton.
Qed.

(** The maps are those of the history. *)
Definition tracks (history : list Call) (self : InMemoryTokenStore) : Prop :=
  healthy self ∧
  (∀ jti r, rw_data (records self) !! jti = Some r ↔ live history jti r) ∧
  (∀ key, rw_data (consumed_codes self) !! key = None ↔ ConsumeCode key ∉ history).

Lemma new_tracks : tracks [] new.
Proof.
  split; [done|]. split; [|intros key; split; [intros _; apply not_elem_of_nil|done]].
  intros jti r. split; [done|]. by intros ?%live_nil.
Qed.

Lemma serve_tracks history c self :
  tracks history self →
  ∃ a self', serve c self = Done (a, self') ∧ promised history c a ∧
    tracks (history ++ [c]) self'.
Proof.
  intros ([Hr Hc] & Hrec & Hcon).
  destruct c as [jti sub cid scope groups exp|jti|jti|key]; simpl;
    unfold issue, lookup, revoke, consume_code; rewrite rw_unwrap_ok by done; simpl;
    eexists _, _; (split; [reflexivity|]).
  - split; [done|]. split; [done|]. split; simpl; [|set_solver]. intros j r.
    rewrite live_snoc, <- Hrec, lookup_insert_Some. naive_solver.
  - split; [apply Hrec|]. split; [done|]. split; simpl; [|set_solver]. intros j r.
    rewrite live_snoc, <- Hrec. naive_solver.
  - split; [rewrite bool_decide_eq_true; unfold is_Some; by setoid_rewrite Hrec|].
    split; [done|]. split; simpl; [|set_solver]. intros j r.
    rewrite live_snoc, <- Hrec, lookup_delete_Some. naive_solver.
  - split; [by rewrite bool_decide_eq_true|]. split; [done|]. split; simpl.
    + intros j r. rewrite live_snoc, <- Hrec. naive_solver.
    + intros k. rewrite lookup_insert_None, Hcon. set_solver.
Qed.

Lemma serve_all_tracks calls history self :
  tracks history self →
  ∃ answers self', serve_all calls self = Done (answers, self') ∧
    length answers = length calls ∧ tracks (history ++ calls) self' ∧
    ∀ i c a, calls !! i = Some c → answers !! i = Some a →
      promised (history ++ take i calls) c a.
Proof.
  revert history self. induction calls as [|c calls IH]; intros history self Hs.
  { exists [], self. rewrite app_nil_r. by split_and!. }
  destruct (serve_tracks history c self Hs) as (a & self1 & E1 & Ha & Hs1).
  destruct (IH _ _ Hs1) as (answers & self2 & E2 & Hlen & Hs2 & Hall).
  exists (a :: answers), self2. simpl. rewrite E1. simpl. rewrite E2. simpl.
  rewrite <- app_assoc in Hs2. split_and!; [done|by rewrite Hlen|done|].
  intros [|i] c' a'; simpl; [intros [= <-] [= <-]; by rewrite app_nil_r|].
  intros Hc Ha'. specialize (Hall i c' a' Hc Ha'). by rewrite <- app_assoc in Hall.
Qed.

(** C15: the in-memory store answers by its history, as the trait documents: from
    [new()], whatever calls are made in whatever order, none panics; a lookup
    finds exactly the record last issued under its [jti] and not revoked since; a
    revocation says whether there was such a record; and a code is consumed
    successfully exactly by the first call with its key. *)
Theorem in_memory_store_correct (calls : list Call) :
  ∃ answers self, serve_all calls new = Done (answers, self) ∧
    length answers = length calls ∧ healthy self ∧
    ∀ i c a, calls !! i = Some c → answers !! i = Some a → promised (take i calls) c a.
Proof.
  destruct (serve_all_tracks calls [] new new_tracks)
    as (answers & self & E & Hlen & [Hs _] & Hall).
  by exists answers, self.
Qed.
End InMemory.

(** ** What the contract gives a caller *)

Section store_lemmas.
Context {S : Type} `{TokenStoreSpec S}.
Implicit Types (s : S) (key jti : string).

(** The operations as functions of the abstract state, read off a run. *)
Lemma consume_code_Done key s b s' :
  store_ok s → store_consume_code key s = Done (b, s') →
  store_ok s' ∧ store_records s' = store_records s ∧
  store_consumed s' = {[key]} ∪ store_consumed s ∧
  (b = true ↔ key ∉ store_consumed s).
Proof.
  intros Hok Hrun. destruct (store_consume_code_spec key s Hok) as (s'' & E & ? & ? & ?).
  rewrite E in Hrun. simplify_eq. split_and!; [done..|]. apply bool_decide_eq_true.
Qed.

Lemma issue_Done jti sub cid scope groups exp s s' :
  store_ok s → store_issue jti sub cid scope groups exp s = Done s' →
  store_ok s' ∧
  store_records s' = <[jti := mkTokenRecord sub cid scope groups exp jti]> (store_records s) ∧
  store_consumed s' = store_consumed s.
Proof.
  intros Hok Hrun.
  destruct (store_issue_spec jti sub cid scope groups exp s Hok) as (s'' & E & ?).
  rewrite E in Hrun. by simplify_eq.
Qed.

Lemma revoke_Done jti s b s' :
  store_ok s → store_revoke jti s = Done (b, s') →
  store_ok s' ∧ store_records s' = delete jti (store_records s) ∧
  store_consumed s' = store_consumed s ∧ (b = true ↔ jti ∈ dom (store_records s)).
Proof.
  intros Hok Hrun. destruct (store_revoke_spec jti s Hok) as (s'' & E & ? & ? & ?).
  rewrite E in Hrun. simplify_eq. split_and!; [done..|]. apply bool_decide_eq_true.
Qed.
End store_lemmas.
