(* ===== verification/Effects.v ===== *)
(** * Effectful Rust code

    A request handler is straight-line code that reads the clock, draws random
    bytes, calls the token store and may panic.  [prog A] is the tree of what
    such code does before it returns an [A]; it is finite, so every handler
    terminates by construction.  One tree has two meanings:
    [run] executes it alone against a world (the clock readings and random
    bytes the operating system will deliver, and a store), and [pool_step]
    interleaves a pool of them on one shared store, one effect at a time in any
    order, with adversarial clock readings and random bytes. *)
From S2P Require Import Prelude RustStd Storage.

Inductive prog (A : Type) : Type :=
| Ret (a : A)
| Panic (msg : string)
  (* [SystemTime::now()] *)
| Now (k : SystemTime → prog A)
  (* [rng.fill(&mut bytes)]: byte [i] of the buffer is the function at [i] *)
| RandomBytes (k : (nat → byte) → prog A)
  (* calls through [&dyn TokenStore] *)
| StoreIssue (jti subject client_id : string) (scope groups : list string)
    (expires_at : SystemTime) (k : prog A)
| StoreLookup (jti : string) (k : option TokenRecord → prog A)
| StoreRevoke (jti : string) (k : bool → prog A)
| StoreConsume (code_key : string) (k : bool → prog A).
Arguments Ret {A} a.
Arguments Panic {A} msg.
Arguments Now {A} k.
Arguments RandomBytes {A} k.
Arguments StoreIssue {A} jti subject client_id scope groups expires_at k.
Arguments StoreLookup {A} jti k.
Arguments StoreRevoke {A} jti k.
Arguments StoreConsume {A} code_key k.

Fixpoint pbind {A B} (p : prog A) (f : A → prog B) : prog B :=
  match p with
  | Ret a => f a
  | Panic m => Panic m
  | Now k => Now (λ t, pbind (k t) f)
  | RandomBytes k => RandomBytes (λ g, pbind (k g) f)
  | StoreIssue j s c sc g e k => StoreIssue j s c sc g e (pbind k f)
  | StoreLookup j k => StoreLookup j (λ r, pbind (k r) f)
  | StoreRevoke j k => StoreRevoke j (λ b, pbind (k b) f)
  | StoreConsume c k => StoreConsume c (λ b, pbind (k b) f)
  end.

(** The [?] operator in effectful code. *)
Definition pbind_ok {A B E} (p : prog (result A E)) (f : A → prog (result B E)) :
    prog (result B E) :=
  pbind p (λ r, match r with Ok a => f a | Err e => Ret (Err e) end).

Definition lift_outcome {A} (o : outcome A) : prog A :=
  match o with Done a => Ret a | Panicked m => Panic m end.

Notation "'let*' x ':=' p 'in' q" := (pbind p (λ x, q))
  (at level 10, x binder, p at level 100, q at level 200) : rust_scope.
Notation "'let*?' x ':=' p 'in' q" := (pbind_ok p (λ x, q))
  (at level 10, x binder, p at level 100, q at level 200) : rust_scope.

Definition system_time_now : prog SystemTime := Now Ret.
Definition rng_fill : prog (nat → byte) := RandomBytes Ret.
Definition ts_issue jti subject client_id scope groups expires_at : prog unit :=
  StoreIssue jti subject client_id scope groups expires_at (Ret tt).
Definition ts_lookup jti : prog (option TokenRecord) := StoreLookup jti Ret.
Definition ts_revoke jti : prog bool := StoreRevoke jti Ret.
Definition ts_consume_code key : prog bool := StoreConsume key Ret.

(** ** Running one program alone *)

Record World (S : Type) := mkWorld {
  w_clock : nat → SystemTime;       (* the readings to come *)
  w_random : nat → nat → byte;      (* the buffers to come *)
  w_store : S;
}.
Arguments mkWorld {S} w_clock w_random w_store.
Arguments w_clock {S} w.
Arguments w_random {S} w.
Arguments w_store {S} w.

Definition tick {S} (w : World S) : World S :=
  mkWorld (λ n, w_clock w (Datatypes.S n)) (w_random w) (w_store w).
Definition draw {S} (w : World S) : World S :=
  mkWorld (w_clock w) (λ n, w_random w (Datatypes.S n)) (w_store w).
Definition set_store {S} (s : S) (w : World S) : World S :=
  mkWorld (w_clock w) (w_random w) s.

Fixpoint run {A S} `{TokenStore S} (p : prog A) (w : World S) : outcome A * World S :=
  match p with
  | Ret a => (Done a, w)
  | Panic m => (Panicked m, w)
  | Now k => run (k (w_clock w 0)) (tick w)
  | RandomBytes k => run (k (w_random w 0)) (draw w)
  | StoreIssue j s c sc g e k =>
      match store_issue j s c sc g e (w_store w) with
      | Done st => run k (set_store st w)
      | Panicked m => (Panicked m, w)
      end
  | StoreLookup j k =>
      match store_lookup j (w_store w) with
      | Done r => run (k r) w
      | Panicked m => (Panicked m, w)
      end
  | StoreRevoke j k =>
      match store_revoke j (w_store w) with
      | Done (b, st) => run (k b) (set_store st w)
      | Panicked m => (Panicked m, w)
      end
  | StoreConsume c k =>
      match store_consume_code c (w_store w) with
      | Done (b, st) => run (k b) (set_store st w)
      | Panicked m => (Panicked m, w)
      end
  end.

Section run_lemmas.
Context {S : Type} `{TokenStore S}.
Implicit Types w : World S.

Lemma run_bind {A B} (p : prog A) (f : A → prog B) w :
  run (pbind p f) w =
    match run p w with
    | (Done a, w') => run (f a) w'
    | (Panicked m, w') => (Panicked m, w')
    end.
Proof.
  revert w. induction p as [| |k IH|k IH|?????? k IH|? k IH|? k IH|? k IH]; intros w;
    simpl; try done; destruct_match; try done; destruct_match; done.
Qed.

Lemma run_bind_ok {A B E} (p : prog (result A E)) (f : A → prog (result B E)) w :
  run (pbind_ok p f) w =
    match run p w with
    | (Done (Ok a), w') => run (f a) w'
    | (Done (Err e), w') => (Done (Err e), w')
    | (Panicked m, w') => (Panicked m, w')
    end.
Proof. unfold pbind_ok. rewrite run_bind. by repeat case_match; simplify_eq/=. Qed.

Lemma run_bind_Done {A B} (p : prog A) (f : A → prog B) w b w' :
  run (pbind p f) w = (Done b, w') ↔
  ∃ a w1, run p w = (Done a, w1) ∧ run (f a) w1 = (Done b, w').
Proof. rewrite run_bind. destruct (run p w) as [[]]; naive_solver. Qed.

Lemma run_bind_ok_Ok {A B E} (p : prog (result A E)) (f : A → prog (result B E)) w b w' :
  run (pbind_ok p f) w = (Done (Ok b), w') ↔
  ∃ a w1, run p w = (Done (Ok a), w1) ∧ run (f a) w1 = (Done (Ok b), w').
Proof. rewrite run_bind_ok. destruct (run p w) as [[[]|]]; naive_solver. Qed.

Lemma run_ret_Done {A} (a b : A) w w' : run (Ret a) w = (Done b, w') ↔ a = b ∧ w' = w.
Proof. simpl. naive_solver. Qed.

Lemma run_lift_Done {A} (o : outcome A) w a w' :
  run (lift_outcome o) w = (Done a, w') ↔ o = Done a ∧ w' = w.
Proof. destruct o; simpl; naive_solver. Qed.

Lemma run_now w : run system_time_now w = (Done (w_clock w 0), tick w).
Proof. done. Qed.

Lemma run_fill w : run rng_fill w = (Done (w_random w 0), draw w).
Proof. done. Qed.

Lemma run_lift_outcome {A} (o : outcome A) w : run (lift_outcome o) w = (o, w).
Proof. by destruct o. Qed.
End run_lemmas.

(** The store calls, through the contract. *)
Section store_calls.
Context {S : Type} `{TokenStoreSpec S}.
Implicit Types w : World S.

Lemma run_ts_consume_code key w :
  store_ok (w_store w) →
  ∃ s, run (ts_consume_code key) w =
      (Done (bool_decide (key ∉ store_consumed (w_store w))), set_store s w) ∧
    store_ok s ∧ store_records s = store_records (w_store w) ∧
    store_consumed s = {[key]} ∪ store_consumed (w_store w).
Proof.
  intros Hok. destruct (store_consume_code_spec key (w_store w) Hok) as (s & E & ?).
  exists s. unfold ts_consume_code. cbn [run]. by rewrite E.
Qed.

Lemma run_ts_issue jti sub cid scope groups exp w :
  store_ok (w_store w) →
  ∃ s, run (ts_issue jti sub cid scope groups exp) w = (Done tt, set_store s w) ∧
    store_ok s ∧
    store_records s =
      <[jti := mkTokenRecord sub cid scope groups exp jti]> (store_records (w_store w)) ∧
    store_consumed s = store_consumed (w_store w).
Proof.
  intros Hok.
  destruct (store_issue_spec jti sub cid scope groups exp (w_store w) Hok) as (s & E & ?).
  exists s. unfold ts_issue. cbn [run]. by rewrite E.
Qed.

Lemma run_ts_lookup jti w :
  store_ok (w_store w) →
  run (ts_lookup jti) w = (Done (store_records (w_store w) !! jti), w).
Proof. intros Hok. unfold ts_lookup. cbn [run]. by rewrite store_lookup_spec. Qed.
End store_calls.

(** A program that does not touch the store leaves it alone. *)
Fixpoint store_free {A} (p : prog A) : Prop :=
  match p with
  | Ret _ | Panic _ => True
  | Now k => ∀ t, store_free (k t)
  | RandomBytes k => ∀ f, store_free (k f)
  | StoreLookup _ _ | StoreIssue _ _ _ _ _ _ _ | StoreRevoke _ _ | StoreConsume _ _ => False
  end.

Lemma store_free_bind {A B} (p : prog A) (f : A → prog B) :
  store_free p → (∀ a, store_free (f a)) → store_free (pbind p f).
Proof. intros Hp Hf. induction p; simpl in *; naive_solver. Qed.

Lemma store_free_bind_ok {A B E} (p : prog (result A E)) (f : A → prog (result B E)) :
  store_free p → (∀ a, store_free (f a)) → store_free (pbind_ok p f).
Proof. intros Hp Hf. apply store_free_bind; [done|]. by intros []. Qed.

Lemma store_free_lift_outcome {A} (o : outcome A) : store_free (lift_outcome o).
Proof. by destruct o. Qed.

#[export] Hint Resolve store_free_bind store_free_bind_ok store_free_lift_outcome : rust.

Lemma run_store_free {A S} `{TokenStore S} (p : prog A) (w : World S) :
  store_free p → w_store (run p w).2 = w_store w.
Proof.
  revert w. induction p as [| |k IH|k IH| | | |]; intros w Hp; simpl in *; try done.
  - by rewrite IH.
  - by rewrite IH.
Qed.

(** The store contract along a run: the store stays usable, and codes are never
    forgotten. *)
Lemma run_store_ok {A S} `{TokenStoreSpec S} (p : prog A) (w : World S) :
  store_ok (w_store w) →
  store_ok (w_store (run p w).2) ∧
  store_consumed (w_store w) ⊆ store_consumed (w_store (run p w).2).
Proof.
  revert w.
  induction p as [| |k IH|k IH|jti sub cid sc gr ex k IH|jti k IH|jti k IH|key k IH];
    intros w Hok; simpl; try done.
  - by apply (IH _ (tick w)).
  - by apply (IH _ (draw w)).
  - destruct (store_issue_spec jti sub cid sc gr ex (w_store w) Hok) as (s' & -> & Hs' & _ & <-).
    by apply (IH (set_store s' w)).
  - rewrite store_lookup_spec by done. by apply IH.
  - destruct (store_revoke_spec jti (w_store w) Hok) as (s' & -> & Hs' & _ & <-).
    by apply (IH _ (set_store s' w)).
  - destruct (store_consume_code_spec key (w_store w) Hok) as (s' & -> & Hs' & _ & Hc).
    destruct (IH (bool_decide (key ∉ store_consumed (w_store w))) (set_store s' w) Hs')
      as [? Hsub]. split; [done|]. simpl in Hsub. set_solver.
Qed.

(** ** The abstract store

    What the trait promises, taken literally: a map of live records and a set of
    spent codes, which no operation panics on. *)
Record AbstractStore := mkAbstractStore {
  abs_records : gmap string TokenRecord;
  abs_consumed : gset string;
}.

#[export] Instance AbstractStore_TokenStore : TokenStore AbstractStore := {
  store_issue jti subject client_id scope groups expires_at s :=
    Done (mkAbstractStore
      (<[jti := mkTokenRecord subject client_id scope groups expires_at jti]> (abs_records s))
      (abs_consumed s));
  store_lookup jti s := Done (abs_records s !! jti);
  store_revoke jti s :=
    Done (bool_decide (jti ∈ dom (abs_records s)),
          mkAbstractStore (delete jti (abs_records s)) (abs_consumed s));
  store_consume_code key s :=
    Done (bool_decide (key ∉ abs_consumed s),
          mkAbstractStore (abs_records s) ({[key]} ∪ abs_consumed s));
}.

Definition abstract_store {S} `{TokenStoreSpec S} (s : S) : AbstractStore :=
  mkAbstractStore (store_records s) (store_consumed s).
