(* ===== verification/Wp.v ===== *)
(** * What holds on every path of a program

    [wp T E P p]: however the store answers and whatever random bytes are drawn,
    as long as every clock reading satisfies [T], the program [p] ends in a value
    that satisfies [P]; it may panic only if [E].  [E := False] forbids panics,
    [E := True] ignores them.  The predicate does not mention a store, so it
    speaks of a program run alone ([wp_run]) and, step by step, of one thread
    among others ([Interleaving.v]). *)
From S2P Require Import Prelude RustStd Storage Effects.

Section wp.
Context (T : SystemTime → Prop) (E : Prop).

Fixpoint wp {A} (P : A → Prop) (p : prog A) : Prop :=
  match p with
  | Ret a => P a
  | Panic _ => E
  | Now k => ∀ t, T t → wp P (k t)
  | RandomBytes k => ∀ f, wp P (k f)
  | StoreIssue _ _ _ _ _ _ k => wp P k
  | StoreLookup _ k => ∀ r, wp P (k r)
  | StoreRevoke _ k => ∀ b, wp P (k b)
  | StoreConsume _ k => ∀ b, wp P (k b)
  end.

Lemma wp_bind {A B} (P : B → Prop) (p : prog A) (f : A → prog B) :
  wp P (pbind p f) ↔ wp (λ a, wp P (f a)) p.
Proof. induction p; simpl in *; try naive_solver. Qed.

Lemma wp_mono {A} (P Q : A → Prop) (p : prog A) : wp P p → (∀ a, P a → Q a) → wp Q p.
Proof. intros Hp HPQ. induction p; simpl in *; naive_solver. Qed.

Lemma wp_bind_mono {A B} (Q : A → Prop) (P : B → Prop) (p : prog A) (f : A → prog B) :
  wp Q p → (∀ a, Q a → wp P (f a)) → wp P (pbind p f).
Proof. intros Hp Hf. apply wp_bind. by eapply wp_mono. Qed.

Lemma wp_bind_ok {A B X} (P : result B X → Prop) (p : prog (result A X))
    (f : A → prog (result B X)) :
  wp P (pbind_ok p f) ↔
  wp (λ r, match r with Ok a => wp P (f a) | Err e => P (Err e) end) p.
Proof. unfold pbind_ok. rewrite wp_bind. split; intros Hp; eapply wp_mono; eauto; by intros []. Qed.

Lemma wp_lift_outcome {A} (P : A → Prop) (o : outcome A) :
  wp P (lift_outcome o) ↔ match o with Done a => P a | Panicked _ => E end.
Proof. by destruct o. Qed.

(** A program run alone against a usable store takes one of its paths. *)
Lemma wp_run {A S} `{TokenStoreSpec S} (P : A → Prop) (p : prog A) (w : World S) :
  wp P p → store_ok (w_store w) → (∀ n, T (w_clock w n)) →
  match (run p w).1 with Done a => P a | Panicked _ => E end.
Proof.
  revert w. induction p as [| |k IH|k IH|jti sub cid sc gr ex k IH|jti k IH|jti k IH|key k IH];
    intros w Hp Hok HT; simpl in *; try done.
  - apply (IH _ (tick w)); [by apply Hp|done|]. intros n. apply (HT (Datatypes.S n)).
  - by apply (IH _ (draw w)).
  - destruct (store_issue_spec jti sub cid sc gr ex (w_store w) Hok) as (s' & -> & Hs' & _).
    by apply (IH (set_store s' w)).
  - rewrite store_lookup_spec by done. by apply IH.
  - destruct (store_revoke_spec jti (w_store w) Hok) as (s' & -> & Hs' & _).
    by apply (IH _ (set_store s' w)).
  - destruct (store_consume_code_spec key (w_store w) Hok) as (s' & -> & Hs' & _).
    by apply (IH _ (set_store s' w)).
Qed.

(** A world whose next clock reading, or next buffer, is given. *)
Definition untick {S} (t : SystemTime) (w : World S) : World S :=
  mkWorld (λ n, match n with O => t | Datatypes.S n => w_clock w n end) (w_random w) (w_store w).
Definition undraw {S} (f : nat → byte) (w : World S) : World S :=
  mkWorld (w_clock w) (λ n, match n with O => f | Datatypes.S n => w_random w n end) (w_store w).

Lemma tick_untick {S} t (w : World S) : tick (untick t w) = w.
Proof. by destruct w. Qed.

Lemma draw_undraw {S} f (w : World S) : draw (undraw f w) = w.
Proof. by destruct w. Qed.

(** Conversely, the paths of a program that leaves the store alone are its runs. *)
Lemma wp_store_free {A} (P : A → Prop) (p : prog A) (t0 : SystemTime) :
  store_free p → T t0 →
  (∀ w : World AbstractStore, (∀ n, T (w_clock w n)) →
     match (run p w).1 with Done a => P a | Panicked _ => E end) →
  wp P p.
Proof.
  intros Hfree Ht0. revert Hfree.
  induction p as [a|m|k IH|k IH| | | |]; intros Hfree Hruns; simpl in *; try done.
  - apply (Hruns (mkWorld (λ _, t0) (λ _ _, x00) (mkAbstractStore ∅ ∅))). done.
  - apply (Hruns (mkWorld (λ _, t0) (λ _ _, x00) (mkAbstractStore ∅ ∅))). done.
  - intros t Ht. apply IH; [done|]. intros w Hw.
    rewrite <- (tick_untick t w). apply (Hruns (untick t w)). intros [|n]; [done|apply Hw].
  - intros f. apply IH; [done|]. intros w Hw.
    rewrite <- (draw_undraw f w). by apply (Hruns (undraw f w)).
Qed.
End wp.
