(* ===== verification/Externs.v ===== *)
(** * Third-party crates, as interfaces

    The server calls crates whose code is not part of the repository.  Each is
    a class of operations here, over which the whole development is
    parametric, and, where a theorem relies on what the crate documents, a
    class of laws.  Nothing in the model looks inside them.
    [Concrete.v] gives every class an instance, on which the theorems with laws
    among their hypotheses are applied. *)
From S2P Require Import Prelude RustStd.

(** ** Hash functions: crates [sha2] and [blake3] *)
Class Hashes := {
  sha256_digest : list byte → list byte;             (* Sha256::digest *)
  blake3_hash : list byte → list byte;               (* blake3::hash *)
  keyed_hash : list byte → list byte → list byte;    (* blake3::keyed_hash *)
}.

(** The three digests are 32 bytes long. *)
Class HashesLaws `{Hashes} : Prop := {
  sha256_digest_length bs : length (sha256_digest bs) = 32;
  blake3_hash_length bs : length (blake3_hash bs) = 32;
  keyed_hash_length key bs : length (keyed_hash key bs) = 32;
}.

(** ** Crate [base64] *)
Inductive Engine := URL_SAFE | URL_SAFE_NO_PAD | STANDARD.

Class Base64 := {
  DecodeError : Type;
  b64_encode : Engine → list byte → string;
  b64_decode : Engine → string → result (list byte) DecodeError;
}.

(** What is encoded is decoded, and the encoding is made of visible ASCII
    characters. *)
Class Base64Laws `{Base64} : Prop := {
  b64_decode_encode e bs : b64_decode e (b64_encode e bs) = Ok bs;
  b64_encode_visible e bs : visible (as_bytes (b64_encode e bs));
}.

(** ** Crate [ciborium], on a type with derived [Serialize] / [Deserialize]

    [into_writer v] is what was written to the buffer and whether it succeeded;
    [from_reader] reads one value from the front of a byte slice. *)
Class CborErrors := { CborError : Type }.

Class Cbor (T : Type) `{CborErrors} := {
  into_writer : T → result unit CborError * list byte;
  from_reader : list byte → result T CborError;
}.

(** Serialisation of the values satisfying [P] succeeds and is read back. *)
Class CborLaws (T : Type) (P : T → Prop) `{Cbor T} : Prop := {
  into_writer_ok v : P v → (into_writer v).1 = Ok tt;
  from_reader_into_writer v : P v → from_reader (into_writer v).2 = Ok v;
}.

(** A reader consumes one value and leaves the bytes behind it unread. *)
Class CborPrefix (T : Type) `{Cbor T} : Prop := {
  from_reader_app bs rest v : from_reader bs = Ok v → from_reader (bs ++ rest) = Ok v;
}.

(** ** JSON values: crate [serde_json] *)
Inductive json :=
| JNull
| JNum (n : Z)
| JStr (s : string)
| JArr (l : list json)
| JObj (fields : list (string * json)).

(** The value of a field; [serde] refuses an object with the field twice. *)
Definition json_field (k : string) (j : json) : option json :=
  match j with
  | JObj fs =>
      match filter (λ f, f.1 = k) fs with
      | [f] => Some f.2
      | _ => None
      end
  | _ => None
  end.

Definition json_str (j : json) : option string :=
  match j with JStr s => Some s | _ => None end.

Definition json_u64 (j : json) : option Z :=
  match j with
  | JNum n => if ((0 <=? n) && (n <? 2 ^ 64))%Z then Some n else None
  | _ => None
  end.

Definition json_strs (j : json) : option (list string) :=
  match j with JArr l => mapM json_str l | _ => None end.

#[global] Arguments json_u64 : simpl never.
#[global] Arguments json_strs : simpl never.

(** [Option<T>] field of a derived [Deserialize]: absent or null is [None]. *)
Definition json_opt_field {T} (conv : json → option T) (k : string) (j : json) :
    option (option T) :=
  match j with
  | JObj fs =>
      match filter (λ f, f.1 = k) fs with
      | [] => Some None
      | [f] => match f.2 with JNull => Some None | v => Some <$> conv v end
      | _ => None
      end
  | _ => None
  end.

(** Classes for derived [Serialize] and [Deserialize] through JSON. *)
Class ToJson (T : Type) := to_json : T → json.
Class FromJson (T : Type) := from_json : json → option T.

#[export] Instance string_ToJson : ToJson string := JStr.
#[export] Instance strings_ToJson : ToJson (list string) := λ l, JArr (JStr <$> l).

Lemma json_strs_JArr l : json_strs (JArr (JStr <$> l)) = Some l.
Proof.
  apply mapM_Some, Forall2_fmap_l. by apply Forall_Forall2_diag, Forall_true.
Qed.

Lemma json_u64_num n : (0 ≤ n < 2 ^ 64)%Z → json_u64 (JNum n) = Some n.
Proof.
  intros [H1 H2]. unfold json_u64.
  by rewrite (proj2 (Z.leb_le _ _) H1), (proj2 (Z.ltb_lt _ _) H2).
Qed.

#[export] Hint Rewrite json_strs_JArr : rust_eq.

(** ** Crate [rsa] (and the [pkcs1] / [pkcs8] encodings); an error is known by
    its [Display] text *)
Class Rsa := {
  RsaPrivateKey : Type;
  RsaPublicKey : Type;
  Rng : Type;
  rsa_new : Rng → Z → result RsaPrivateKey string;
  from_pkcs8_pem : string → result RsaPrivateKey string;
  to_pkcs8_pem : RsaPrivateKey → result string string;
  to_public_key : RsaPrivateKey → RsaPublicKey;
  to_pkcs1_der : RsaPublicKey → result (list byte) string;
  key_n_bytes_be : RsaPublicKey → list byte;
  key_e_bytes_be : RsaPublicKey → list byte;
}.

(** ** Crate [jsonwebtoken] *)
Inductive Algorithm := RS256 | OtherAlgorithm.

#[export] Instance Algorithm_eq_dec : EqDecision Algorithm.
Proof. solve_decision. Defined.

Record Header := mkHeader { h_alg : Algorithm; h_kid : option string }.

(** [Header::new(alg)]. *)
Definition Header_new (a : Algorithm) : Header := mkHeader a None.

Record Validation := mkValidation {
  v_algorithm : Algorithm;
  v_iss : option (list string);
  v_aud : option (list string);
  v_leeway : Z;
}.

(** [Validation::new(alg)]: leeway of sixty seconds, no issuer, no audience. *)
Definition Validation_new (a : Algorithm) : Validation := mkValidation a None None 60.
Definition set_issuer (iss : list string) (v : Validation) : Validation :=
  mkValidation (v_algorithm v) (Some iss) (v_aud v) (v_leeway v).
Definition set_audience (aud : list string) (v : Validation) : Validation :=
  mkValidation (v_algorithm v) (v_iss v) (Some aud) (v_leeway v).
Definition set_leeway (l : Z) (v : Validation) : Validation :=
  mkValidation (v_algorithm v) (v_iss v) (v_aud v) l.

Class Jwt := {
  EncodingKey : Type;
  DecodingKey : Type;
  JwtLibError : Type;
  jwt_error_string : JwtLibError → string;
  jwt_json_error : JwtLibError;   (* the claims do not have the expected shape *)
  encoding_key_from_rsa_pem : list byte → result EncodingKey JwtLibError;
  decoding_key_from_rsa_der : list byte → DecodingKey;
  jwt_encode : Header → json → EncodingKey → result string JwtLibError;
  (* [decode]: the claims of a token that verifies, at the clock reading it takes *)
  jwt_decode : string → DecodingKey → Validation → SystemTime → result json JwtLibError;
}.

(** The claims checks a [Validation] asks for: [exp] present and not more than
    the leeway in the past, [iss] and [aud] in the configured sets. *)
Definition claim_in (k : string) (allowed : option (list string)) (claims : json) : bool :=
  match allowed with
  | None => true
  | Some l =>
      match json_field k claims ≫= json_str with
      | Some s => bool_decide (s ∈ l)
      | None => false
      end
  end.

Definition claims_valid (v : Validation) (claims : json) (now : Z) : bool :=
  match json_field "exp" claims ≫= json_u64 with
  | Some e => (now <=? e + v_leeway v)%Z
  | None => false
  end && claim_in "iss" (v_iss v) claims && claim_in "aud" (v_aud v) claims.

(** Claims with the three registered claims the server relies on, in their
    plain form: [exp] a [u64], [iss] and [aud] a string. *)
Definition registered_claims (claims : json) : Prop :=
  is_Some (json_field "exp" claims ≫= json_u64) ∧
  is_Some (json_field "iss" claims ≫= json_str) ∧
  is_Some (json_field "aud" claims ≫= json_str).

(** What [encode] and [decode] document: under the two halves of one key pair,
    an encoded token decodes to its claims exactly when its algorithm is the
    expected one and its claims are valid. *)
Class JwtLaws `{Jwt} := {
  jwt_key_pair : EncodingKey → DecodingKey → Prop;
  jwt_decode_encode h claims ek dk v now tok :
    jwt_key_pair ek dk → jwt_encode h claims ek = Ok tok → h_alg h = v_algorithm v →
    registered_claims claims → (0 ≤ now)%Z →
    if claims_valid v claims (duration_as_secs now) then jwt_decode tok dk v now = Ok claims
    else ∃ e, jwt_decode tok dk v now = Err e;
}.

(** The keys [jsonwebtoken] makes from the two exports of one RSA key pair. *)
Class JwtRsaLaws `{Jwt, Rsa, !JwtLaws} : Prop := {
  rsa_key_pair sk pem der ek :
    to_pkcs8_pem sk = Ok pem → encoding_key_from_rsa_pem (as_bytes pem) = Ok ek →
    to_pkcs1_der (to_public_key sk) = Ok der →
    jwt_key_pair ek (decoding_key_from_rsa_der der);
}.

(** ** Crates [http] and [axum] *)
Class Http := {
  HeaderMap : Type;
  HeaderValue : Type;
  header_get : HeaderMap → string → option HeaderValue;    (* HeaderMap::get *)
  header_to_str : HeaderValue → option string;             (* HeaderValue::to_str().ok() *)
}.

(** [to_str] succeeds only on visible ASCII characters and tabs. *)
Class HttpLaws `{Http} : Prop := {
  header_to_str_ascii v s : header_to_str v = Some s → ascii_str s;
}.

(** ** Crate [url]; a parse error is known by its [Display] text *)
Class UrlLib := {
  Url : Type;
  url_parse : string → result Url string;
  url_to_string : Url → string;
  url_join : Url → string → result Url string;
  url_append_pair : Url → string → string → Url;  (* query_pairs_mut().append_pair *)
}.

(** A URL with an authority has an origin ([scheme://host[:port]]), and joining
    an absolute path of plain characters to it gives the origin followed by the
    path (RFC 3986, 5.2.2: the path of the base is dropped). *)
Definition plain_path (p : string) : Prop :=
  ∃ q, p = "/" +:+ q ∧ Forall (λ b, (0x61 ≤ Byte.to_N b ≤ 0x7A)%N) (as_bytes q).

Class UrlLaws `{UrlLib} := {
  url_origin : Url → option string;
  url_join_plain u o p :
    url_origin u = Some o → plain_path p →
    ∃ u', url_join u p = Ok u' ∧ url_to_string u' = o +:+ p;
}.

(** The query of a URL as pairs ([query_pairs]), and that a URL is read back from
    its text, with pairs appended as without. *)
Class UrlQuery `{UrlLib} := {
  url_pairs : Url → list (string * string);
  url_reparse s u kvs :
    url_parse s = Ok u → Forall (λ kv, valid_str kv.1 ∧ valid_str kv.2) kvs →
    let u' := foldl (λ u kv, url_append_pair u kv.1 kv.2) u kvs in
    url_parse (url_to_string u') = Ok u' ∧ url_pairs u' = url_pairs u ++ kvs;
}.

(** ** Crate [form_urlencoded]: the pairs of a query string or form body *)
Class FormUrlencoded := { form_parse : list byte → list (string * string) }.

(** ** Crate [axum]: routing and extraction *)

(** The method routers [get(..)] and [post(..)]. *)
Inductive Method := GET | POST.

(** What a derived [Deserialize] of a struct of strings rejects pairs for. *)
Inductive FormError :=
| MissingField (name : string)
| DuplicateField (name : string).

(** Why the framework answers a request itself. *)
Inductive Rejection :=
| NotFound
| MethodNotAllowed
| QueryRejection (e : FormError)
| FormContentType
| FormRejection (e : FormError).

Class Axum `{Http} := {
  HttpMethod : Type;
  routed : Method → HttpMethod → bool;   (* the methods a method router serves *)
  is_form : HeaderMap → bool;            (* the content type [Form] asks for *)
  rejection_status : Rejection → Z;
}.

(** The framework rejects with client errors. *)
Class AxumLaws `{Axum} : Prop := {
  rejection_client_error r : (400 ≤ rejection_status r < 500)%Z;
}.

(** ** Input and output: [std::io] errors *)
Class Io := { IoError : Type }.

(** ** Crate [toml]: a document is a table; [toml_shape_error] is what [from_str]
    returns when a document does not have the shape of the type it is read as. *)
Inductive toml :=
| TStr (s : string)
| TInt (n : Z)
| TArr (l : list toml)
| TTable (entries : list (string * toml))
| TOther.   (* booleans, floats and dates *)

Class Toml := {
  TomlError : Type;
  toml_parse : string → result toml TomlError;
  toml_shape_error : TomlError;
}.

(** The entry of a table under a key, if there is one; a document with the key
    twice does not parse. *)
Definition toml_get (k : string) (t : toml) : option (option toml) :=
  match t with
  | TTable es =>
      match filter (λ e, e.1 = k) es with
      | [] => Some None
      | [e] => Some (Some e.2)
      | _ => None
      end
  | _ => None
  end.

Definition toml_str (t : toml) : option string :=
  match t with TStr s => Some s | _ => None end.

(** TOML integers are [i64]; those read as [u64] must not be negative. *)
Definition toml_u64 (t : toml) : option Z :=
  match t with
  | TInt n => if ((0 <=? n) && (n <? 2 ^ 63))%Z then Some n else None
  | _ => None
  end.

Definition toml_list {A} (conv : toml → option A) (t : toml) : option (list A) :=
  match t with TArr l => mapM conv l | _ => None end.

(** A field that must be there, and one that may be missing. *)
Definition toml_field {A} (conv : toml → option A) (k : string) (t : toml) : option A :=
  match toml_get k t with Some (Some v) => conv v | _ => None end.

Definition toml_opt_field {A} (conv : toml → option A) (k : string) (t : toml) :
    option (option A) :=
  match toml_get k t with
  | Some (Some v) => Some <$> conv v
  | Some None => Some None
  | None => None
  end.

Class FromToml (T : Type) := from_toml : toml → option T.

(** [toml::from_str::<T>]. *)
Definition toml_from_str {T} `{Toml, FromToml T} (s : string) : result T TomlError :=
  let? t := toml_parse s in ok_or toml_shape_error (from_toml t).
