(* ===== verification/Users.v ===== *)
(** * Users ([src/users/mod.rs])

    The distinguished name the reverse proxy puts in a header is split into
    RDNs at its unescaped commas, and the value of the configured attribute is
    the user's subject; the groups of a token are the server's default groups
    and the client's. *)
From S2P Require Import Prelude RustStd.

Inductive UserError :=
| InvalidDn (rdn : string)
| AttributeNotFound (attribute : string).

(** The [Display] of the error, from its [#[error(...)]] attributes. *)
Definition UserError_to_string (e : UserError) : string :=
  match e with
  | InvalidDn s =>
      "Could not parse DN: malformed RDN '" +:+ s +:+ "' (expected key=value)"
  | AttributeNotFound a => "Attribute '" +:+ a +:+ "' not found in DN"
  end.

Record User := mkUser { subject : string; raw_dn : string }.

Record UserManager := mkUserManager { dn_attribute : string }.

Definition UserManager_new (dn_attribute : string) : UserManager :=
  mkUserManager dn_attribute.

(** ** [split_rdns] *)

(** The state of the [while] loop: [parts], [start] and [i]. *)
Record SplitState := mkSplitState { sp_parts : list string; sp_start : nat; sp_i : nat }.

(** One iteration of the loop body; [None] when the condition fails.  The
    escape test reads [bytes[i]] and whether a byte follows. *)
Definition split_step (dn : string) (st : SplitState) : outcome (option SplitState) :=
  let bytes := as_bytes dn in
  match bytes !! sp_i st with
  | None => Done None
  | Some b =>
      if bool_decide (b = x5c) && bool_decide (sp_i st + 1 < length bytes)
      then Done (Some (mkSplitState (sp_parts st) (sp_start st) (sp_i st + 2)))
      else if bool_decide (b = x2c)
      then let! part := str_slice dn (sp_start st) (sp_i st) in
           Done (Some (mkSplitState (sp_parts st ++ [part]) (sp_i st + 1) (sp_i st + 1)))
      else Done (Some (mkSplitState (sp_parts st) (sp_start st) (sp_i st + 1)))
  end.

(** The loop, with fuel; running out of it is reported as a panic no Rust run
    can have, and [split_rdns_total] shows it is never reached. *)
Fixpoint split_loop (fuel : nat) (dn : string) (st : SplitState) : outcome SplitState :=
  match fuel with
  | 0 => Panicked "out of fuel"
  | S fuel =>
      let! next := split_step dn st in
      match next with
      | None => Done st
      | Some st' => split_loop fuel dn st'
      end
  end.

Definition split_rdns (dn : string) : outcome (list string) :=
  let! st := split_loop (S (length (as_bytes dn))) dn (mkSplitState [] 0 0) in
  let! last := str_slice dn (sp_start st) (length (as_bytes dn)) in
  Done (sp_parts st ++ [last]).

(** ** [extract_dn_attribute] and [resolve] *)

Section users.
Context `{UnicodeCase}.

Fixpoint find_rdn (attr_upper : string) (rdns : list string) :
    result (option string) UserError :=
  match rdns with
  | [] => Ok None
  | rdn :: rest =>
      let rdn_trimmed := trim rdn in
      let? kv := ok_or (InvalidDn rdn_trimmed) (split_once "="%char rdn_trimmed) in
      if decide (to_uppercase (trim kv.1) = attr_upper)
      then Ok (Some (trim kv.2))
      else find_rdn attr_upper rest
  end.

Definition extract_dn_attribute (dn attribute : string) :
    outcome (result string UserError) :=
  let attr_upper := to_uppercase attribute in
  let! rdns := split_rdns dn in
  Done (let? found := find_rdn attr_upper rdns in
        ok_or (AttributeNotFound attribute) found).

Definition resolve (self : UserManager) (header_value : string) :
    outcome (result User UserError) :=
  let! r := extract_dn_attribute header_value (dn_attribute self) in
  Done (let? subject := r in Ok (mkUser subject header_value)).
End users.

(** ** [resolve_groups] *)

Definition resolve_groups (client_groups default_groups : list string) : list string :=
  foldl (λ result g, if bool_decide (g ∈ result) then result else result ++ [g])
        default_groups client_groups.

(** A case table that leaves the non-ASCII characters as they are. *)
Definition ascii_case : UnicodeCase := {| upper_non_ascii c := [c] |}.

(** ** The loop of [split_rdns] against a reference splitter *)

(** Split at unescaped commas, by recursion on the bytes; [cur] is the RDN read
    so far. *)
Fixpoint split_spec (bs cur : list byte) : list (list byte) :=
  match bs with
  | [] => [cur]
  | b :: rest =>
      if decide (b = x5c) then
        match rest with
        | [] => [cur ++ [b]]
        | c :: rest' => split_spec rest' (cur ++ [b; c])
        end
      else if decide (b = x2c) then cur :: split_spec rest []
      else split_spec rest (cur ++ [b])
  end.

(** What the loop state stands for: the RDN being read is [dn[start..i]]. *)
Definition split_inv (dn : string) (st : SplitState) : Prop :=
  sp_start st ≤ sp_i st ≤ length (as_bytes dn) ∧ is_char_boundary dn (sp_start st) = true.

Definition split_result (dn : string) (st : SplitState) : list string :=
  sp_parts st ++ (of_bytes <$> split_spec (drop (sp_i st) (as_bytes dn))
                     (drop (sp_start st) (take (sp_i st) (as_bytes dn)))).

Lemma drop_take_snoc {A} (l : list A) n i x :
  l !! i = Some x → n ≤ i → drop n (take i l) ++ [x] = drop n (take (S i) l).
Proof.
  intros Hi Hn. rewrite (take_S_r l i x) by done.
  rewrite drop_app_le; [done|]. rewrite length_take. apply lookup_lt_Some in Hi. lia.
Qed.

(** One iteration keeps the invariant and the result the state stands for, and
    advances [i]. *)
Lemma split_step_spec dn st :
  valid_str dn → split_inv dn st →
  (split_step dn st = Done None ∧ sp_i st = length (as_bytes dn)) ∨
  ∃ st', split_step dn st = Done (Some st') ∧ split_inv dn st' ∧
    sp_i st < sp_i st' ∧ split_result dn st' = split_result dn st.
Proof.
  intros Hv [Hi Hb]. unfold split_step.
  destruct (as_bytes dn !! sp_i st) as [b|] eqn:E; [right|].
  2: { apply lookup_ge_None in E. left. split; [done|]. lia. }
  pose proof (lookup_lt_Some _ _ _ E) as Hlt.
  assert (Hd : drop (sp_i st) (as_bytes dn) = b :: drop (S (sp_i st)) (as_bytes dn))
    by by apply drop_S.
  assert (Hskip : ∀ j, split_inv dn (mkSplitState (sp_parts st) (sp_start st) j) ↔
    sp_start st ≤ j ≤ length (as_bytes dn)).
  { intros j. unfold split_inv. simpl. naive_solver. }
  unfold split_result. rewrite Hd. simpl.
  case_bool_decide as H1; simpl.
  - case_bool_decide as H2; simpl.
    + eexists. split; [done|]. rewrite Hskip. simpl. split_and!; [lia..|].
      destruct (lookup_lt_is_Some_2 (as_bytes dn) (S (sp_i st))) as [c Hc]; [lia|].
      rewrite decide_True by done. rewrite (drop_S (as_bytes dn) c (S (sp_i st))) by done. do 2 f_equal.
      rewrite Nat.add_comm. simpl. f_equal.
      change [b; c] with ([b] ++ [c]).
      by rewrite app_assoc, !drop_take_snoc by (done || lia).
    + subst b. rewrite bool_decide_eq_false_2 by done.
      eexists. split; [done|]. rewrite Hskip. simpl. split_and!; [lia..|].
      rewrite Nat.add_1_r, (drop_ge _ (S _)) by lia. do 2 f_equal. simpl.
      by rewrite drop_take_snoc by (done || lia).
  - rewrite decide_False by done. case_bool_decide as H2; simpl.
    + subst b. rewrite decide_True by done.
      rewrite str_slice_Done by (done || lia || by eapply char_boundary_ascii).
      simpl. eexists. split; [done|]. unfold split_inv. simpl. rewrite Nat.add_1_r.
      split_and!; [lia|lia|by eapply char_boundary_after_ascii|lia|].
      rewrite <- app_assoc. simpl. do 3 f_equal.
      * by rewrite skipn_firstn_comm.
      * rewrite (drop_ge (take _ _)); [done|]. rewrite length_take. lia.
    + rewrite decide_False by done. eexists. split; [done|]. rewrite Hskip. simpl.
      split_and!; [lia..|]. rewrite Nat.add_1_r. do 3 f_equal.
      by rewrite drop_take_snoc by (done || lia).
Qed.

(** Enough fuel, no panic, and the reference result. *)
Lemma split_loop_spec fuel dn st :
  valid_str dn → split_inv dn st → length (as_bytes dn) - sp_i st < fuel →
  ∃ st', split_loop fuel dn st = Done st' ∧ split_inv dn st' ∧
    sp_i st' = length (as_bytes dn) ∧ split_result dn st' = split_result dn st.
Proof.
  intros Hv. revert st. induction fuel as [|fuel IH]; intros st Hinv Hf; [lia|]. simpl.
  destruct (split_step_spec dn st Hv Hinv) as [[-> Hi]|(st' & -> & Hinv' & Hlt & <-)]; simpl.
  - by exists st.
  - apply IH; [done|]. destruct Hinv as [? _], Hinv' as [? _]. lia.
Qed.

Lemma split_rdns_spec dn :
  valid_str dn → split_rdns dn = Done (of_bytes <$> split_spec (as_bytes dn) []).
Proof.
  intros Hv. unfold split_rdns.
  destruct (split_loop_spec (S (length (as_bytes dn))) dn (mkSplitState [] 0 0))
    as (st & -> & [Hs Hb] & Hi & Hres); [done| |simpl; lia|].
  { split; simpl; [lia|by apply char_boundary_0]. }
  simpl. rewrite str_slice_Done by (done || lia || apply char_boundary_end). simpl. f_equal.
  unfold split_result in Hres. simpl in Hres. rewrite drop_0 in Hres.
  rewrite <- Hres, Hi.
  rewrite drop_all, firstn_all. simpl. f_equal. f_equal. rewrite <- Hi.
  rewrite take_ge; [done|]. rewrite length_drop. lia.
Qed.

(** *** What the splitter does to strings *)

(** Neither an unescaped comma nor a backslash with nothing behind it. *)
Fixpoint rdn_closed (bs : list byte) : bool :=
  match bs with
  | [] => true
  | b :: rest =>
      if decide (b = x5c) then
        match rest with [] => false | _ :: rest' => rdn_closed rest' end
      else if decide (b = x2c) then false
      else rdn_closed rest
  end.

(** Two bytes at a time, as the escape rule reads them. *)
Lemma escape_ind (P : list byte → Prop) :
  P [] → (∀ b, P [b]) →
  (∀ b c rest, P rest → P (c :: rest) → P (b :: c :: rest)) → ∀ bs, P bs.
Proof.
  intros H0 H1 H2 bs. cut (P bs ∧ ∀ b, P (b :: bs)); [tauto|].
  induction bs as [|c bs [IH1 IH2]]; [done|]. split; [done|]. intros b. by apply H2.
Qed.

Lemma split_spec_cons2 b c rest cur :
  split_spec (b :: c :: rest) cur =
    if decide (b = x5c) then split_spec rest (cur ++ [b; c])
    else if decide (b = x2c) then cur :: split_spec (c :: rest) []
    else split_spec (c :: rest) (cur ++ [b]).
Proof. done. Qed.

Lemma rdn_closed_cons2 b c rest :
  rdn_closed (b :: c :: rest) =
    if decide (b = x5c) then rdn_closed rest
    else if decide (b = x2c) then false else rdn_closed (c :: rest).
Proof. done. Qed.

Lemma split_spec_closed_app p rest cur :
  rdn_closed p = true → split_spec (p ++ rest) cur = split_spec rest (cur ++ p).
Proof.
  revert cur. induction p as [|b|b c p IH1 IH2] using escape_ind; intros cur.
  - by rewrite app_nil_r.
  - simpl. by repeat case_decide.
  - rewrite rdn_closed_cons2. cbn [app]. rewrite split_spec_cons2.
    case_decide; [intros; by rewrite IH1, <- app_assoc|].
    case_decide; [done|]. intros Hc. rewrite app_comm_cons, IH2, <- app_assoc; done.
Qed.

Lemma split_spec_join ps :
  ps ≠ [] → Forall (λ p, rdn_closed (as_bytes p) = true) ps →
  of_bytes <$> split_spec (as_bytes (str_join "," ps)) [] = ps.
Proof.
  intros Hne Hps. destruct ps as [|p ps]; [done|]. clear Hne. revert p Hps.
  induction ps as [|q ps IH]; intros p [Hp Hps]%Forall_cons.
  - simpl. rewrite <- (app_nil_r (as_bytes p)), split_spec_closed_app by done. simpl.
    by rewrite of_as_bytes.
  - change (str_join "," (p :: q :: ps)) with (p +:+ "," +:+ str_join "," (q :: ps)).
    rewrite !as_bytes_app, split_spec_closed_app by done. simpl.
    f_equal; [apply of_as_bytes|]. by apply IH.
Qed.

Lemma split_spec_nonempty bs cur : split_spec bs cur ≠ [].
Proof.
  revert cur. induction bs as [|b|b c bs IH1 IH2] using escape_ind; intros cur;
    [done|by simpl; repeat case_decide|].
  rewrite split_spec_cons2. by repeat case_decide.
Qed.

(** Nothing is lost: joining the parts gives the input back. *)
Lemma join_split_spec bs cur :
  str_join "," (of_bytes <$> split_spec bs cur) = of_bytes (cur ++ bs).
Proof.
  assert (Hcons : ∀ p l, l ≠ [] →
    str_join "," (p :: l) = p +:+ String ","%char (str_join "," l)) by (by intros p []).
  revert cur. induction bs as [|b|b c bs IH1 IH2] using escape_ind; intros cur.
  - simpl. by rewrite app_nil_r.
  - simpl. repeat case_decide; subst; simpl; try done.
    by rewrite of_bytes_app.
  - rewrite split_spec_cons2. case_decide as Hb; [by rewrite IH1, <- app_assoc|].
    case_decide as Hc.
    + rewrite fmap_cons, Hcons by (intros Hn%fmap_nil_inv; exact (split_spec_nonempty _ _ Hn)).
      rewrite (IH2 []), (of_bytes_app cur). by subst b.
    + rewrite IH2, <- app_assoc. done.
Qed.

(** ** [resolve_groups] *)

Lemma resolve_groups_spec client_groups default_groups :
  ∃ ext, resolve_groups client_groups default_groups = default_groups ++ ext ∧
    ext `sublist_of` client_groups ∧ NoDup ext ∧
    (∀ g, g ∈ ext ↔ g ∈ client_groups ∧ g ∉ default_groups).
Proof.
  unfold resolve_groups. induction client_groups as [|g cs IH] using rev_ind.
  - exists []. simpl. rewrite app_nil_r. split_and!; [done|constructor|constructor|set_solver].
  - destruct IH as (ext & Heq & Hsub & Hnd & Hin). rewrite foldl_app, Heq. simpl.
    case_bool_decide as Hg.
    + exists ext. split_and!; [done|by apply sublist_inserts_r|done|].
      intros h. rewrite Hin. set_solver.
    + exists (ext ++ [g]). split_and!.
      * by rewrite app_assoc.
      * by apply sublist_app.
      * apply NoDup_app. split_and!; [done| |apply NoDup_singleton]. set_solver.
      * intros h. rewrite elem_of_app, Hin. set_solver.
Qed.

(** ** Extraction from a distinguished name *)

Lemma rdn_closed_app p q :
  rdn_closed p = true → rdn_closed q = true → rdn_closed (p ++ q) = true.
Proof.
  intros Hp Hq. induction p as [|b|b c p IH1 IH2] using escape_ind; [done| |].
  - simpl in *. by repeat case_decide.
  - rewrite rdn_closed_cons2 in Hp. cbn [app]. rewrite rdn_closed_cons2.
    repeat case_decide; auto.
Qed.

(** No part contains an unescaped comma: split again, it stays whole. *)
Lemma split_spec_parts_whole bs cur :
  rdn_closed cur = true → Forall (λ p, split_spec p [] = [p]) (split_spec bs cur).
Proof.
  assert (Hwhole : ∀ p, rdn_closed p = true → split_spec p [] = [p]).
  { intros p Hp. by rewrite <- (app_nil_r p), split_spec_closed_app at 1. }
  revert cur. induction bs as [|b|b c bs IH1 IH2] using escape_ind; intros cur Hc.
  - apply Forall_singleton, Hwhole, Hc.
  - simpl. repeat case_decide; subst.
    + apply Forall_singleton. by rewrite split_spec_closed_app.
    + repeat constructor. by apply Hwhole.
    + apply Forall_singleton, Hwhole, rdn_closed_app; [done|]. simpl.
      by rewrite !decide_False.
  - rewrite split_spec_cons2. repeat case_decide; subst.
    + apply IH1, rdn_closed_app; done.
    + constructor; [by apply Hwhole|by apply IH2].
    + apply IH2, rdn_closed_app; [done|]. simpl. by rewrite !decide_False.
Qed.

(** One attribute of a DN as a proxy prints it. *)
Record dn_attr_ok (kv : string * string) : Prop := {
  dn_key_valid : valid_str kv.1;
  dn_val_valid : valid_str kv.2;
  dn_key_closed : rdn_closed (as_bytes kv.1) = true;
  dn_val_closed : rdn_closed (as_bytes kv.2) = true;
  dn_key_no_eq : str_mem "="%char kv.1 = false;
  dn_key_trimmed : ws_trimmed (chars kv.1);
  dn_val_trimmed : ws_trimmed (chars kv.2);
}.

Definition render_rdn (kv : string * string) : string := kv.1 +:+ "=" +:+ kv.2.
Definition render_dn (kvs : list (string * string)) : string :=
  str_join "," (render_rdn <$> kvs).

Lemma eq_sign_valid : valid_str "=".
Proof. by eexists. Qed.
Lemma comma_valid : valid_str ",".
Proof. by eexists. Qed.

#[export] Hint Resolve eq_sign_valid comma_valid : rust.

Lemma render_rdn_ok kv :
  dn_attr_ok kv →
  valid_str (render_rdn kv) ∧ rdn_closed (as_bytes (render_rdn kv)) = true ∧
  trim (render_rdn kv) = render_rdn kv ∧
  split_once "="%char (render_rdn kv) = Some (kv.1, kv.2).
Proof.
  intros [Hk Hv Hkc Hvc Heq Hkt Hvt]. unfold render_rdn.
  assert (Hval : valid_str (kv.1 +:+ "=" +:+ kv.2)) by auto 10 with rust.
  split_and!; [done| | |].
  - rewrite !as_bytes_app. apply rdn_closed_app; [done|]. by apply rdn_closed_app.
  - apply trim_id; [done|]. rewrite !chars_app by auto with rust.
    change (chars "=") with [0x3D%N].
    destruct Hkt as [Hh _], Hvt as [_ Hl]. split.
    + intros c. destruct (chars kv.1); simpl; [by intros [= <-]|]. intros [= <-]. by apply Hh.
    + intros c. rewrite last_app. destruct (chars kv.2) as [|x r]; [by intros [= <-]|].
      change (last ([0x3D%N] ++ x :: r)) with (last (x :: r)).
      destruct (last (x :: r)) eqn:E; [intros [= <-]; by apply Hl|by apply last_None in E].
  - by apply split_once_Some.
Qed.

Lemma render_dn_valid kvs : Forall dn_attr_ok kvs → valid_str (render_dn kvs).
Proof.
  unfold render_dn. induction 1 as [|kv kvs Hkv _ IH]; [by eexists|].
  apply render_rdn_ok in Hkv as [Hv _].
  destruct kvs as [|kv' kvs]; [done|].
  change (valid_str (render_rdn kv +:+ "," +:+ render_dn (kv' :: kvs))).
  auto 10 with rust.
Qed.

Lemma split_render_dn kvs :
  kvs ≠ [] → Forall dn_attr_ok kvs → split_rdns (render_dn kvs) = Done (render_rdn <$> kvs).
Proof.
  intros Hne Hok. rewrite split_rdns_spec by by apply render_dn_valid.
  f_equal. apply split_spec_join; [by destruct kvs|].
  apply Forall_fmap. eapply Forall_impl; [done|]. intros kv Hkv. by apply render_rdn_ok.
Qed.

Section extraction.
Context `{UnicodeCase}.

(** The attribute a list of attributes has under a name, whatever the case. *)
Definition dn_find (attr : string) (kvs : list (string * string)) : option string :=
  snd ∘ snd <$> list_find (λ kv, to_uppercase kv.1 = to_uppercase attr) kvs.

Lemma find_rdn_rendered attr kvs :
  Forall dn_attr_ok kvs →
  find_rdn (to_uppercase attr) (render_rdn <$> kvs) = Ok (dn_find attr kvs).
Proof.
  unfold dn_find. induction 1 as [|kv kvs Hkv _ IH]; [done|].
  pose proof Hkv as [Hk Hv _ _ _ Hkt Hvt].
  apply render_rdn_ok in Hkv as (_ & _ & Ht & Hs).
  rewrite fmap_cons. cbn [find_rdn list_find]. rewrite Ht, Hs. cbn [ok_or rbind].
  cbn [fst snd] in *. rewrite (trim_id kv.1), (trim_id kv.2) by done. simpl.
  case_decide; [done|]. rewrite IH. by destruct (list_find _ kvs) as [[]|].
Qed.

Lemma extract_rendered attr kvs :
  kvs ≠ [] → Forall dn_attr_ok kvs →
  extract_dn_attribute (render_dn kvs) attr =
    Done (ok_or (AttributeNotFound attr) (dn_find attr kvs)).
Proof.
  intros Hne Hok. unfold extract_dn_attribute. rewrite split_render_dn by done. simpl.
  by rewrite find_rdn_rendered.
Qed.

(** An RDN that ends the search: it is malformed, or it has the attribute. *)
Definition decisive (attr rdn : string) : Prop :=
  match split_once "="%char (trim rdn) with
  | None => True
  | Some kv => to_uppercase (trim kv.1) = to_uppercase attr
  end.

#[export] Instance decisive_dec attr rdn : Decision (decisive attr rdn).
Proof. unfold decisive. destruct (split_once _ _); apply _. Defined.

Lemma find_rdn_decisive attr rdns :
  find_rdn (to_uppercase attr) rdns =
    match list_find (decisive attr) rdns with
    | None => Ok None
    | Some (_, rdn) =>
        match split_once "="%char (trim rdn) with
        | None => Err (InvalidDn (trim rdn))
        | Some kv => Ok (Some (trim kv.2))
        end
    end.
Proof.
  induction rdns as [|rdn rdns IH]; [done|]. cbn [find_rdn list_find].
  destruct (decide (decisive attr rdn)) as [Hd|Hd]; unfold decisive in Hd;
    destruct (split_once _ _) as [kv|] eqn:E; cbn [ok_or rbind]; try done.
  - by rewrite decide_True.
  - rewrite decide_False, IH by done. by destruct (list_find _ rdns) as [[]|].
Qed.
(** Looking a user up never panics on a Rust string. *)
Lemma resolve_total self dn : valid_str dn → ∃ r, resolve self dn = Done r.
Proof.
  intros Hv. unfold resolve, extract_dn_attribute. rewrite split_rdns_spec by done. by eexists.
Qed.
End extraction.

(** ** Properties *)

(** C36: [split_rdns] never panics on a Rust string, whatever bytes it holds:
    every slice it takes is at character boundaries, the loop stops, the parts
    joined by commas are the input again, and no part holds an unescaped comma. *)
Theorem split_rdns_total_lossless (dn : string) (Hv : valid_str dn) :
  ∃ parts, split_rdns dn = Done parts ∧ parts ≠ [] ∧ str_join "," parts = dn ∧
    Forall (λ p, split_spec (as_bytes p) [] = [as_bytes p]) parts.
Proof.
  rewrite split_rdns_spec by done. eexists. split; [done|]. split_and!.
  - intros Hn%fmap_nil_inv. exact (split_spec_nonempty _ _ Hn).
  - rewrite join_split_spec. apply of_as_bytes.
  - apply Forall_fmap. eapply Forall_impl; [by apply split_spec_parts_whole|].
    intros p Hp. simpl. by rewrite as_of_bytes.
Qed.

Lemma split_rdns_total_lossless_witness :
  ∃ parts, split_rdns "CN=a\, b,OU=é" = Done parts ∧ parts ≠ [] ∧
    str_join "," parts = "CN=a\, b,OU=é" ∧
    Forall (λ p, split_spec (as_bytes p) [] = [as_bytes p]) parts.
Proof. apply (split_rdns_total_lossless "CN=a\, b,OU=é"). eexists. reflexivity. Defined.

(** A list of RDNs joined by commas is split into the same RDNs, when none
    holds an unescaped comma or ends in a lone backslash. *)
Theorem split_rdns_join_roundtrip (ps : list string) (Hne : ps ≠ [])
    (Hv : valid_str (str_join "," ps))
    (Hps : Forall (λ p, rdn_closed (as_bytes p) = true) ps) :
  split_rdns (str_join "," ps) = Done ps.
Proof. rewrite split_rdns_spec by done. f_equal. by apply split_spec_join. Qed.

Lemma split_rdns_join_roundtrip_witness :
  split_rdns (str_join "," ["a=1"; "b=2\,3"; "c=4"]) = Done ["a=1"; "b=2\,3"; "c=4"].
Proof.
  apply (split_rdns_join_roundtrip ["a=1"; "b=2\,3"; "c=4"]);
    [done|by eexists|by repeat constructor].
Defined.

Section properties.
Context `{UnicodeCase}.

(** C37: from a DN printed as comma-separated [key=value] attributes,
    [UserManager::resolve] yields the value of the first attribute whose name
    is the configured one up to case, and keeps the header value verbatim; with
    no such attribute it fails with [AttributeNotFound]. *)
Theorem resolve_rendered_dn (attr : string) (kvs : list (string * string))
    (Hne : kvs ≠ []) (Hok : Forall dn_attr_ok kvs) :
  resolve (UserManager_new attr) (render_dn kvs) =
    Done (match dn_find attr kvs with
          | Some v => Ok (mkUser v (render_dn kvs))
          | None => Err (AttributeNotFound attr)
          end).
Proof.
  unfold resolve. simpl. rewrite extract_rendered by done. simpl.
  by destruct (dn_find attr kvs).
Qed.

(** C38: on any header value, the first RDN that is malformed or carries the
    configured attribute decides: a malformed one fails the whole DN with
    [InvalidDn] even when a later RDN has the attribute; nothing panics. *)
Theorem resolve_decided_by_first_rdn (self : UserManager) (dn : string)
    (Hv : valid_str dn) :
  ∃ rdns, split_rdns dn = Done rdns ∧
    resolve self dn = Done
      match list_find (decisive (dn_attribute self)) rdns with
      | None => Err (AttributeNotFound (dn_attribute self))
      | Some (_, rdn) =>
          match split_once "="%char (trim rdn) with
          | None => Err (InvalidDn (trim rdn))
          | Some kv => Ok (mkUser (trim kv.2) dn)
          end
      end.
Proof.
  eexists. split; [by apply split_rdns_spec|]. unfold resolve, extract_dn_attribute.
  rewrite split_rdns_spec by done. simpl. rewrite find_rdn_decisive.
  destruct (list_find _ _) as [[? rdn]|]; simpl; [|done]. by destruct (split_once _ _).
Qed.
End properties.

Lemma resolve_rendered_dn_witness :
  @resolve ascii_case (UserManager_new "ou") (render_dn [("CN", "al ice\,b"); ("OU", "eng")]) =
    Done (Ok (mkUser "eng" "CN=al ice\,b,OU=eng")).
Proof.
  apply (@resolve_rendered_dn ascii_case "ou" [("CN", "al ice\,b"); ("OU", "eng")]); [done|].
  repeat constructor; simpl; try (eexists; reflexivity);
    intros c Hc; vm_compute in Hc; injection Hc as <-; reflexivity.
Defined.

Lemma resolve_decided_by_first_rdn_witness :
  ∃ rdns, split_rdns "not-a-rdn,CN=alice" = Done rdns ∧
    @resolve ascii_case (UserManager_new "CN") "not-a-rdn,CN=alice" = Done
      match list_find (@decisive ascii_case "CN") rdns with
      | None => Err (AttributeNotFound "CN")
      | Some (_, rdn) =>
          match split_once "="%char (trim rdn) with
          | None => Err (InvalidDn (trim rdn))
          | Some kv => Ok (mkUser (trim kv.2) "not-a-rdn,CN=alice")
          end
      end.
Proof.
  apply (@resolve_decided_by_first_rdn ascii_case (UserManager_new "CN") "not-a-rdn,CN=alice").
  eexists. reflexivity.
Defined.

(** [resolve_groups] is the default groups followed by the client's groups
    that are not among them, in the client's order and without repetition. *)
Theorem resolve_groups_union (client_groups default_groups : list string) :
  ∃ ext, resolve_groups client_groups default_groups = default_groups ++ ext ∧
    ext `sublist_of` client_groups ∧ NoDup ext ∧
    (∀ g, g ∈ ext ↔ g ∈ client_groups ∧ g ∉ default_groups).
Proof. apply resolve_groups_spec. Qed.

(** The result has repetitions exactly when the configured defaults have. *)
Lemma resolve_groups_NoDup client_groups default_groups :
  NoDup (resolve_groups client_groups default_groups) ↔ NoDup default_groups.
Proof.
  destruct (resolve_groups_spec client_groups default_groups) as (ext & -> & _ & Hnd & Hin).
  rewrite NoDup_app. split; [tauto|]. intros Hd. split_and!; [done| |done].
  intros g Hg. rewrite Hin. tauto.
Qed.

(** The doc comment of [resolve_groups] says the result is de-duplicated. *)
Example resolve_groups_keeps_default_duplicates :
  resolve_groups [] ["everyone"; "everyone"] = ["everyone"; "everyone"].
Proof. reflexivity. Qed.
