(* ===== verification/Client.v ===== *)
(** * The client registry ([src/oidc/client.rs])

    The configured OAuth2 clients, the duplicate check at start-up, lookup,
    redirect-URI validation, and client authentication with the
    constant-time comparison of secrets. *)
From S2P Require Import Prelude RustStd Externs.

Inductive AuthResult := Allow | Deny.

#[export] Instance AuthResult_eq_dec : EqDecision AuthResult.
Proof. solve_decision. Defined.

Record ClientConfig := mkClientConfig {
  cc_client_id : string;
  cc_client_secret : option string;
  cc_redirect_uris : list string;
  cc_groups : list string;
}.

(** Read from TOML; [groups] defaults to the empty list. *)
#[export] Instance ClientConfig_FromToml : FromToml ClientConfig := λ t,
  client_id ← toml_field toml_str "client_id" t;
  client_secret ← toml_opt_field toml_str "client_secret" t;
  redirect_uris ← toml_field (toml_list toml_str) "redirect_uris" t;
  groups ← toml_opt_field (toml_list toml_str) "groups" t;
  Some (mkClientConfig client_id client_secret redirect_uris (default [] groups)).

#[export] Instance ClientConfig_eq_dec : EqDecision ClientConfig.
Proof. solve_decision. Defined.

Record ClientRegistry := mkClientRegistry { clients : list ClientConfig }.

Inductive ClientRegistryError := DuplicateClientId (client_id : string).

(** [ClientRegistry::new]: the [for] loop with its [seen] set. *)
Fixpoint check_duplicates (seen : gset string) (cs : list ClientConfig) :
    result unit ClientRegistryError :=
  match cs with
  | [] => Ok tt
  | c :: cs' =>
      if bool_decide (cc_client_id c ∈ seen)
      then Err (DuplicateClientId (cc_client_id c))
      else check_duplicates ({[cc_client_id c]} ∪ seen) cs'
  end.

Definition ClientRegistry_new (cs : list ClientConfig) :
    result ClientRegistry ClientRegistryError :=
  let? _ := check_duplicates ∅ cs in Ok (mkClientRegistry cs).

Definition find_by_id (self : ClientRegistry) (client_id : string) : option ClientConfig :=
  snd <$> list_find (λ c, cc_client_id c = client_id) (clients self).

Definition validate_redirect_uri (self : ClientRegistry) (client_id redirect_uri : string) :
    bool :=
  match find_by_id self client_id with
  | Some c => existsb (λ u, bool_decide (u = redirect_uri)) (cc_redirect_uris c)
  | None => false
  end.

(** [diff |= x ^ y] over the zipped bytes, [diff] a [u8]. *)
Definition ct_diff (diff : Z) (xys : list (byte * byte)) : Z :=
  foldl (λ diff xy, Z.lor diff (Z.lxor (u8_val xy.1) (u8_val xy.2))) diff xys.

Definition constant_time_eq (a b : list byte) : bool :=
  if negb (bool_decide (length a = length b)) then false
  else bool_decide (ct_diff 0 (zip a b) = 0%Z).

Definition validate_client_secret (self : ClientRegistry) (client_id : string)
    (presented_secret : option string) : AuthResult :=
  match find_by_id self client_id with
  | Some client =>
      match cc_client_secret client with
      | None => Allow
      | Some expected =>
          match presented_secret with
          | Some given =>
              if constant_time_eq (as_bytes expected) (as_bytes given) then Allow else Deny
          | None => Deny
          end
      end
  | None => Deny
  end.

(** ** Lemmas *)

Lemma ct_diff_zero d a b :
  length a = length b → ct_diff d (zip a b) = 0%Z ↔ d = 0%Z ∧ a = b.
Proof.
  revert d b. induction a as [|x a IH]; intros d [|y b] Hlen; simplify_eq/=; [naive_solver|].
  unfold ct_diff in *. simpl. rewrite IH, Z.lor_eq_0_iff, Z.lxor_eq_0_iff by done.
  split; [intros [[-> ->%(inj u8_val)] ->]; done|naive_solver].
Qed.

Lemma u8_range_log2 z : (0 ≤ z)%Z → (z < 256 ↔ Z.log2 z < 8)%Z.
Proof.
  intros Hz. destruct (Z.eq_dec z 0%Z) as [->|Hne]; [done|].
  by rewrite (Z.log2_lt_pow2 z 8) by lia.
Qed.

(** The accumulator stays a [u8]. *)
Lemma ct_diff_range d xys : (0 ≤ d < 256)%Z → (0 ≤ ct_diff d xys < 256)%Z.
Proof.
  revert d. induction xys as [|[x y] xys IH]; intros d Hd; [done|]. apply IH. simpl.
  pose proof (u8_val_range x) as Hx. pose proof (u8_val_range y) as Hy.
  assert (0 ≤ Z.lxor (u8_val x) (u8_val y))%Z by (apply Z.lxor_nonneg; lia).
  assert (0 ≤ Z.lor d (Z.lxor (u8_val x) (u8_val y)))%Z by (apply Z.lor_nonneg; lia).
  split; [done|]. rewrite u8_range_log2, Z.log2_lor in * by lia.
  pose proof (Z.log2_lxor (u8_val x) (u8_val y)). lia.
Qed.

Lemma constant_time_eq_spec a b : constant_time_eq a b = bool_decide (a = b).
Proof.
  unfold constant_time_eq. case_bool_decide as Hlen; simpl.
  - apply bool_decide_ext. rewrite ct_diff_zero by done. naive_solver.
  - rewrite bool_decide_eq_false_2; [done|]. by intros ->.
Qed.

Lemma check_duplicates_Ok seen cs :
  check_duplicates seen cs = Ok tt ↔
  NoDup (cc_client_id <$> cs) ∧ ∀ c, c ∈ cs → cc_client_id c ∉ seen.
Proof.
  revert seen. induction cs as [|c cs IH]; intros seen; simpl.
  - split; [|done]. intros _. split; [constructor|]. by intros c ?%elem_of_nil.
  - rewrite NoDup_cons, list_elem_of_fmap. case_bool_decide as Hc.
    + split; [done|]. intros [_ H]. by destruct (H c (list_elem_of_here _ _)).
    + rewrite IH. setoid_rewrite elem_of_cons. set_solver.
Qed.

Lemma check_duplicates_Err seen cs id :
  check_duplicates seen cs = Err (DuplicateClientId id) →
  ∃ pre c post, cs = pre ++ c :: post ∧ cc_client_id c = id ∧
    (id ∈ seen ∨ id ∈ cc_client_id <$> pre).
Proof.
  revert seen. induction cs as [|c cs IH]; intros seen; simpl; [done|].
  case_bool_decide as Hc.
  - intros [= <-]. exists [], c, cs. naive_solver.
  - intros (pre & c' & post & -> & <- & Hin)%IH.
    exists (c :: pre), c', post. split_and!; [done..|]. set_solver.
Qed.

(** A refused list names a client that occurs twice. *)
Lemma ClientRegistry_new_Err cs id :
  ClientRegistry_new cs = Err (DuplicateClientId id) →
  ∃ pre c mid c' post, cs = pre ++ c :: mid ++ c' :: post ∧
    cc_client_id c = id ∧ cc_client_id c' = id.
Proof.
  unfold ClientRegistry_new. destruct (check_duplicates ∅ cs) as [[]|[id']] eqn:E; simpl; [done|].
  intros [= ->].
  apply check_duplicates_Err in E as (pre & c' & post & -> & Hid & [?|Hin]); [set_solver|].
  apply list_elem_of_fmap in Hin as (c & Hc & Hin).
  apply list_elem_of_split in Hin as (l1 & l2 & ->).
  exists l1, c, l2, c', post. by rewrite <- app_assoc.
Qed.

Lemma find_by_id_Some self id c :
  find_by_id self id = Some c → c ∈ clients self ∧ cc_client_id c = id.
Proof.
  unfold find_by_id. intros ([i c'] & Hf & ->)%fmap_Some.
  apply list_find_Some in Hf as (Hi & Hid & _). split; [|done].
  by eapply list_elem_of_lookup_2.
Qed.

(** In a registry without duplicates, lookup is membership. *)
Definition registry_ok (self : ClientRegistry) : Prop := NoDup (cc_client_id <$> clients self).

Lemma find_by_id_iff self id c :
  registry_ok self →
  find_by_id self id = Some c ↔ c ∈ clients self ∧ cc_client_id c = id.
Proof.
  intros Hnd. split; [apply find_by_id_Some|]. intros [Hc Hid].
  destruct (find_by_id self id) as [c'|] eqn:E.
  - f_equal. apply find_by_id_Some in E as [Hc' Hid'].
    apply list_elem_of_lookup in Hc as [i Hi], Hc' as [j Hj].
    assert (i = j) as ->; [|congruence].
    apply (NoDup_lookup _ i j id Hnd); rewrite list_lookup_fmap; [rewrite Hi|rewrite Hj];
      simpl; congruence.
  - unfold find_by_id in E. apply fmap_None, list_find_None in E.
    rewrite Forall_forall in E. by destruct (E c Hc).
Qed.

Lemma validate_redirect_uri_iff self id uri :
  validate_redirect_uri self id uri = true ↔
  ∃ c, find_by_id self id = Some c ∧ uri ∈ cc_redirect_uris c.
Proof.
  unfold validate_redirect_uri. destruct (find_by_id self id) as [c|]; [|naive_solver].
  rewrite existsb_exists. setoid_rewrite bool_decide_eq_true.
  setoid_rewrite <- list_elem_of_In. naive_solver.
Qed.

(** The three ways [validate_client_secret] answers. *)
Lemma validate_client_secret_Allow self id given :
  validate_client_secret self id given = Allow ↔
  ∃ c, find_by_id self id = Some c ∧
    match cc_client_secret c with None => True | Some s => given = Some s end.
Proof.
  assert (Hex : ∀ c P, (∃ c', Some c = Some c' ∧ P c') ↔ (P : ClientConfig → Prop) c)
    by naive_solver.
  unfold validate_client_secret. destruct (find_by_id self id) as [c|]; [|naive_solver].
  rewrite Hex. destruct (cc_client_secret c) as [s|]; [|done].
  destruct given as [g|]; [|naive_solver]. rewrite constant_time_eq_spec.
  case_bool_decide as Hb.
  - by apply (inj as_bytes) in Hb as ->.
  - naive_solver.
Qed.

(** ** Properties *)

(** C39: the constant-time comparison decides equality of the byte strings, and
    its accumulator never leaves the range of a [u8]. *)
Theorem constant_time_eq_correct (a b : list byte) :
  (constant_time_eq a b = true ↔ a = b) ∧
  ∀ n, (0 ≤ ct_diff 0 (take n (zip a b)) < 256)%Z.
Proof.
  split; [|intros n; by apply ct_diff_range].
  rewrite constant_time_eq_spec. apply bool_decide_eq_true.
Qed.

(** [ClientRegistry::new] accepts exactly the lists without a repeated
    [client_id]; it keeps every client, and on refusal names an id that occurs
    twice. *)
Theorem client_registry_new_unique (cs : list ClientConfig) :
  match ClientRegistry_new cs with
  | Ok reg => clients reg = cs ∧ registry_ok reg
  | Err (DuplicateClientId id) =>
      ¬ NoDup (cc_client_id <$> cs) ∧
      ∃ pre c mid c' post, cs = pre ++ c :: mid ++ c' :: post ∧
        cc_client_id c = id ∧ cc_client_id c' = id
  end.
Proof.
  destruct (ClientRegistry_new cs) as [reg|[id]] eqn:E.
  - apply rbind_Ok in E as ([] & [Hnd _]%check_duplicates_Ok & [= <-]). done.
  - split; [|by apply ClientRegistry_new_Err]. intros Hnd. unfold ClientRegistry_new in E.
    rewrite (proj2 (check_duplicates_Ok ∅ cs)) in E by set_solver. done.
Qed.

(** C40: client authentication allows exactly the known clients that are public,
    or confidential and present their own secret; unknown clients, a missing
    secret and a wrong secret are denied. *)
Theorem validate_client_secret_sound (cs : list ClientConfig) (reg : ClientRegistry)
    (id : string) (given : option string) (Hreg : ClientRegistry_new cs = Ok reg) :
  validate_client_secret reg id given = Allow ↔
  ∃ c, c ∈ cs ∧ cc_client_id c = id ∧
    (cc_client_secret c = None ∨ is_Some (cc_client_secret c) ∧ given = cc_client_secret c).
Proof.
  unfold ClientRegistry_new in Hreg.
  apply rbind_Ok in Hreg as ([] & [Hnd _]%check_duplicates_Ok & [= <-]).
  rewrite validate_client_secret_Allow. setoid_rewrite find_by_id_iff; [|done]. simpl.
  split.
  - intros (c & [Hc Hid] & Hs). exists c. destruct (cc_client_secret c); naive_solver.
  - intros (c & Hc & Hid & Hs). exists c. destruct (cc_client_secret c) as [s|]; [|done].
    destruct Hs as [|[_ ->]]; done.
Qed.

(** A public and a confidential client. *)
Definition two_clients : ClientRegistry := mkClientRegistry
  [mkClientConfig "public-client" None ["https://app.example/cb"] [];
   mkClientConfig "confidential" (Some "secret123") ["https://app.example/cb"] []].

Lemma validate_client_secret_sound_witness :
  validate_client_secret two_clients "confidential" (Some "secret123") = Allow ↔
  ∃ c, c ∈ clients two_clients ∧ cc_client_id c = "confidential" ∧
    (cc_client_secret c = None ∨
     is_Some (cc_client_secret c) ∧ Some "secret123" = cc_client_secret c).
Proof. apply (validate_client_secret_sound (clients two_clients) two_clients). reflexivity. Defined.
