(* ===== verification/Pkce.v ===== *)
(** * Proof keys for code exchange ([src/oidc/code/pkce.rs]) *)
From S2P Require Import Prelude RustStd Externs.

Inductive CodeChallengeMethod := Plain | S256.

#[export] Instance CodeChallengeMethod_eq_dec : EqDecision CodeChallengeMethod.
Proof. solve_decision. Defined.

(** The [Display] instance. *)
Definition CodeChallengeMethod_to_string (m : CodeChallengeMethod) : string :=
  match m with Plain => "plain" | S256 => "S256" end.

Section pkce.
Context `{Hashes, Base64}.

Definition verify_pkce (method : CodeChallengeMethod) (code_challenge code_verifier : string) :
    bool :=
  match method with
  | Plain => bool_decide (code_challenge = code_verifier)
  | S256 =>
      let digest := sha256_digest (as_bytes code_verifier) in
      let should_equal_code_challenge := b64_encode URL_SAFE_NO_PAD digest in
      bool_decide (code_challenge = should_equal_code_challenge)
  end.

(** The challenge a client derives from its verifier (RFC 7636, 4.2). *)
Definition pkce_challenge (method : CodeChallengeMethod) (code_verifier : string) : string :=
  match method with
  | Plain => code_verifier
  | S256 => b64_encode URL_SAFE_NO_PAD (sha256_digest (as_bytes code_verifier))
  end.

Lemma verify_pkce_iff m ch v : verify_pkce m ch v = true ↔ ch = pkce_challenge m v.
Proof. destruct m; apply bool_decide_eq_true. Qed.

Lemma b64_encode_inj `{!Base64Laws} e : Inj (=) (=) (b64_encode e).
Proof.
  intros a b Hab. pose proof (b64_decode_encode e a) as Ha.
  rewrite Hab, b64_decode_encode in Ha. congruence.
Qed.

(** C26: a verifier is accepted for the challenge its client derived from it;
    and whatever else is accepted for that challenge is the same string under
    [plain] and has the same SHA-256 digest under [S256]. *)
Theorem verify_pkce_binding (HB : Base64Laws) (m : CodeChallengeMethod) (v v' : string) :
  verify_pkce m (pkce_challenge m v) v = true ∧
  (verify_pkce m (pkce_challenge m v) v' = true →
   match m with
   | Plain => v' = v
   | S256 => sha256_digest (as_bytes v') = sha256_digest (as_bytes v)
   end).
Proof.
  split; [by apply verify_pkce_iff|]. intros Hv%verify_pkce_iff.
  destruct m; [done|]. symmetry. by apply (b64_encode_inj URL_SAFE_NO_PAD) in Hv.
Qed.
End pkce.
