(* ===== verification/Timestamp.v ===== *)
(** * Freshness ([src/oidc/code/timestamp.rs]) *)
From S2P Require Import Prelude RustStd Storage Effects.

Inductive TimestampError := NotFresh.

Record TimestampedContainer (T : Type) := mkTimestamped { content : T; timestamp : SystemTime }.
Arguments mkTimestamped {T} content timestamp.
Arguments content {T} t.
Arguments timestamp {T} t.

Definition TimestampedContainer_new {T} (content : T) : prog (TimestampedContainer T) :=
  let* now := system_time_now in Ret (mkTimestamped content now).

Definition extract {T} (self : TimestampedContainer T) (max_age : Duration) :
    prog (result T TimestampError) :=
  let* now := system_time_now in
  let fresh := unwrap_or false
    (result_map (λ elapsed, (elapsed <? max_age)%Z) (duration_since now (timestamp self))) in
  if fresh then Ret (Ok (content self)) else Ret (Err NotFresh).

(** The instants at which a container is still fresh. *)
Definition fresh_at (t : SystemTime) (max_age : Duration) (now : SystemTime) : bool :=
  ((t <=? now) && (now <? t + max_age))%Z.

Lemma store_free_extract {T} (c : TimestampedContainer T) max_age : store_free (extract c max_age).
Proof. simpl. intros t. by case_match. Qed.

Lemma store_free_TimestampedContainer_new {T} (x : T) : store_free (TimestampedContainer_new x).
Proof. done. Qed.

#[export] Hint Resolve store_free_extract store_free_TimestampedContainer_new : rust.

Section timestamp.
Context {S : Type} `{TokenStore S}.
Implicit Types w : World S.

Lemma run_extract {T} (c : TimestampedContainer T) max_age w :
  run (extract c max_age) w =
    (Done (if fresh_at (timestamp c) max_age (w_clock w 0) then Ok (content c) else Err NotFresh),
     tick w).
Proof.
  unfold extract. rewrite run_bind, run_now. unfold duration_since, fresh_at.
  destruct (Z.leb_spec (timestamp c) (w_clock w 0)); simpl; [|done].
  destruct (Z.ltb_spec (w_clock w 0 - timestamp c) max_age),
    (Z.ltb_spec (w_clock w 0) (timestamp c + max_age)); simpl; done || lia.
Qed.

Lemma run_TimestampedContainer_new {T} (x : T) w :
  run (TimestampedContainer_new x) w = (Done (mkTimestamped x (w_clock w 0)), tick w).
Proof. done. Qed.

(** A container gives its content back exactly when the clock, read once at
    extraction, is at or after the stamp and strictly less than [max_age] past
    it; a clock that went backwards counts as not fresh. *)
Theorem timestamped_extract_fresh {T} (x : T) (max_age : Duration) (w : World S) :
  run (let* c := TimestampedContainer_new x in extract c max_age) w =
    (Done (if bool_decide (w_clock w 0 ≤ w_clock w 1 < w_clock w 0 + max_age)%Z
           then Ok x else Err NotFresh),
     tick (tick w)).
Proof.
  rewrite run_bind, run_TimestampedContainer_new, run_extract. unfold fresh_at. simpl.
  repeat f_equal. case_bool_decide as Hd.
  - by rewrite (proj2 (Z.leb_le _ _)), (proj2 (Z.ltb_lt _ _)) by lia.
  - destruct (Z.leb_spec (w_clock w 0) (w_clock w 1)),
      (Z.ltb_spec (w_clock w 1) (w_clock w 0 + max_age)); simpl; done || lia.
Qed.
End timestamp.
