(* ===== verification/AuthorizationCode.v ===== *)
(** * Authorization codes ([src/oidc/code/authorization_code.rs])

    The data a code carries from [/authorize] to [/token] and the check that a
    token request matches it.  The two methods that sign and verify a code only
    call [SignedAuthorizationCode]'s; they are in [Signature.v]. *)
From S2P Require Import Prelude RustStd Externs Pkce.

Inductive TokenRequestError := InvalidClientId | InvalidRedirectUri | InvalidPKCE.

(** The [Display] of the error, from its [#[error(...)]] attributes. *)
Definition TokenRequestError_to_string (e : TokenRequestError) : string :=
  match e with
  | InvalidClientId => "Authorization code not issued for this client."
  | InvalidRedirectUri => "Authorization code not issued for this redirect URI."
  | InvalidPKCE => "Proof key did not match verifier."
  end.

Record AuthorizationCode := mkAuthorizationCode {
  ac_client_id : string;
  ac_redirect_uri : string;
  ac_code_challenge : option string;
  ac_code_challenge_method : CodeChallengeMethod;
  ac_timestamp : SystemTime;
  ac_subject : string;
  ac_nonce : option string;
  ac_groups : list string;
  ac_scope : list string;
}.

#[export] Instance AuthorizationCode_eq_dec : EqDecision AuthorizationCode.
Proof. solve_decision. Defined.

Section authorization_code.
Context `{Hashes, Base64}.

Definition validate_token_request (self : AuthorizationCode) (client_id redirect_uri : string)
    (code_verifier : option string) : result unit TokenRequestError :=
  if negb (bool_decide (ac_client_id self = client_id)) then Err InvalidClientId
  else if negb (bool_decide (ac_redirect_uri self = redirect_uri)) then Err InvalidRedirectUri
  else
    match ac_code_challenge self with
    | Some challenge =>
        let? verifier := ok_or InvalidPKCE code_verifier in
        if negb (verify_pkce (ac_code_challenge_method self) challenge verifier)
        then Err InvalidPKCE else Ok tt
    | None => Ok tt
    end.

(** The proof key a request presents matches the challenge of the code, if it
    has one. *)
Definition pkce_matches (self : AuthorizationCode) (code_verifier : option string) : Prop :=
  match ac_code_challenge self with
  | Some challenge =>
      ∃ v, code_verifier = Some v ∧ challenge = pkce_challenge (ac_code_challenge_method self) v
  | None => True
  end.

Lemma validate_token_request_Ok self cid uri v :
  validate_token_request self cid uri v = Ok tt ↔
  ac_client_id self = cid ∧ ac_redirect_uri self = uri ∧ pkce_matches self v.
Proof.
  unfold validate_token_request, pkce_matches.
  case_bool_decide; simpl; [|naive_solver]. case_bool_decide; simpl; [|naive_solver].
  destruct (ac_code_challenge self) as [ch|]; [|naive_solver].
  destruct v as [v|]; simpl; [|naive_solver].
  destruct (verify_pkce _ _ _) eqn:E; simpl.
  - apply verify_pkce_iff in E. naive_solver.
  - split; [done|]. intros (_ & _ & v' & [= <-] & Hv). apply verify_pkce_iff in Hv. congruence.
Qed.

(** C25: a token request is accepted for a code exactly when client, redirect URI
    and proof key all match; otherwise the error names the first of the three
    checks that fails, in this order. *)
Theorem validate_token_request_decides (self : AuthorizationCode) (cid uri : string)
    (v : option string) :
  match validate_token_request self cid uri v with
  | Ok tt => ac_client_id self = cid ∧ ac_redirect_uri self = uri ∧ pkce_matches self v
  | Err InvalidClientId => ac_client_id self ≠ cid
  | Err InvalidRedirectUri => ac_client_id self = cid ∧ ac_redirect_uri self ≠ uri
  | Err InvalidPKCE =>
      ac_client_id self = cid ∧ ac_redirect_uri self = uri ∧ ¬ pkce_matches self v
  end.
Proof.
  destruct (validate_token_request self cid uri v) as [[]|e] eqn:E.
  { by apply validate_token_request_Ok. }
  assert (Hno : ¬ (ac_client_id self = cid ∧ ac_redirect_uri self = uri ∧ pkce_matches self v))
    by (rewrite <- validate_token_request_Ok; congruence).
  unfold validate_token_request in E.
  case_bool_decide; simplify_eq/=; [|done]. case_bool_decide; simplify_eq/=; [|done].
  destruct (ac_code_challenge self), v; simplify_eq/=; repeat case_match; simplify_eq/=;
    naive_solver.
Qed.
End authorization_code.
