(* ===== verification/Signature.v ===== *)
(** * Signed codes ([src/oidc/code/signature.rs])

    A code is stamped, serialised, authenticated with a keyed BLAKE3 hash,
    serialised again with its tag and base64-encoded; the reverse path checks
    the tag before it looks at the content and the stamp last. *)
From S2P Require Import Prelude RustStd Storage Effects Externs Pkce Timestamp AuthorizationCode.

Section error.
Context `{Base64, CborErrors}.

Inductive AuthorizationCodeVerificationError :=
| InvalidTimestamp (e : TimestampError)
| InvalidSignature
| InvalidBase64Encoding (e : DecodeError)
| InvalidSignedDataContainerEncoding (e : CborError).
End error.

Record SignedAuthorizationCode := mkSigned { data : list byte; signature : list byte }.

(** [[u8; 32]]. *)
Abbreviation MacKey := (list byte) (only parsing).

Section signature.
Context `{Hashes, Base64, CborErrors,
  !Cbor (TimestampedContainer AuthorizationCode), !Cbor SignedAuthorizationCode}.

Definition sign_and_encode (authorization_code : AuthorizationCode) (hmac_key : MacKey) :
    prog string :=
  let* timestamped := TimestampedContainer_new authorization_code in
  let '(r, data) := into_writer timestamped in
  let* _ := lift_outcome (expect "failed to serialize authorization code" (result_ok r)) in
  let signature := keyed_hash hmac_key data in
  let signed := mkSigned data signature in
  let '(_, serialized) := into_writer signed in
  Ret (b64_encode URL_SAFE serialized).

Definition decode_and_verify (encoded : string) (hmac_key : MacKey) (max_age : Duration) :
    prog (result AuthorizationCode AuthorizationCodeVerificationError) :=
  let*? serialized := Ret (map_err InvalidBase64Encoding (b64_decode URL_SAFE encoded)) in
  let*? signed_code :=
    Ret (map_err InvalidSignedDataContainerEncoding (from_reader serialized)) in
  let mac := keyed_hash hmac_key (data signed_code) in
  if bool_decide (mac = signature signed_code) then
    let*? timestamped :=
      Ret (map_err InvalidSignedDataContainerEncoding (from_reader (data signed_code))) in
    let* r := extract (T := AuthorizationCode) timestamped max_age in
    Ret (map_err InvalidTimestamp r)
  else Ret (Err InvalidSignature).

(** [AuthorizationCode]'s own two methods, which delegate. *)
Definition AuthorizationCode_sign_and_encode (self : AuthorizationCode) (hmac_key : MacKey) :
    prog string := sign_and_encode self hmac_key.

Definition AuthorizationCode_decode_and_verify (encoded : string) (hmac_key : MacKey)
    (max_age : Duration) :
    prog (result AuthorizationCode AuthorizationCodeVerificationError) :=
  decode_and_verify encoded hmac_key max_age.

(** ** What a code string means, apart from the clock *)

(** The authenticated content of a code string. *)
Definition open_code (hmac_key : MacKey) (encoded : string) :
    result (TimestampedContainer AuthorizationCode) AuthorizationCodeVerificationError :=
  let? serialized := map_err InvalidBase64Encoding (b64_decode URL_SAFE encoded) in
  let? signed_code := map_err InvalidSignedDataContainerEncoding (from_reader serialized) in
  if bool_decide (keyed_hash hmac_key (data signed_code) = signature signed_code)
  then map_err InvalidSignedDataContainerEncoding (from_reader (data signed_code))
  else Err InvalidSignature.

(** Both clocks a code carries can be serialised: serde refuses the instants
    before the epoch. *)
Definition after_epoch (c : TimestampedContainer AuthorizationCode) : Prop :=
  (0 ≤ timestamp c ∧ 0 ≤ ac_timestamp (content c))%Z.

(** A tag of the length of a BLAKE3 digest. *)
Definition tag_32 (s : SignedAuthorizationCode) : Prop := length (signature s) = 32.

(** The code string [sign_and_encode] makes of a stamped code. *)
Definition encode_stamped (hmac_key : MacKey) (c : TimestampedContainer AuthorizationCode) :
    string :=
  let data := (into_writer c).2 in
  b64_encode URL_SAFE (into_writer (mkSigned data (keyed_hash hmac_key data))).2.

Section lemmas.
Context {S : Type} `{TokenStore S}.
Implicit Types w : World S.

Lemma run_decode_and_verify encoded key max_age w :
  run (decode_and_verify encoded key max_age) w =
    match open_code key encoded with
    | Err e => (Done (Err e), w)
    | Ok c =>
        (Done (if fresh_at (timestamp c) max_age (w_clock w 0) then Ok (content c)
               else Err (InvalidTimestamp NotFresh)), tick w)
    end.
Proof.
  unfold decode_and_verify, open_code.
  destruct (b64_decode URL_SAFE encoded) as [bs|e]; [|done].
  cbn [map_err pbind_ok pbind rbind]. destruct (from_reader bs) as [sc|e]; [|done].
  cbn [map_err pbind_ok pbind rbind]. case_bool_decide; [|done].
  destruct (from_reader (data sc)) as [c|e]; [|done].
  cbn [map_err pbind_ok pbind rbind]. rewrite run_bind, run_extract.
  by destruct (fresh_at _ _ _).
Qed.

Lemma run_sign_and_encode code key w :
  (into_writer (mkTimestamped code (w_clock w 0))).1 = Ok tt →
  run (sign_and_encode code key) w =
    (Done (encode_stamped key (mkTimestamped code (w_clock w 0))), tick w).
Proof.
  intros Hser. unfold sign_and_encode, encode_stamped.
  rewrite run_bind, run_TimestampedContainer_new.
  destruct (into_writer (mkTimestamped code (w_clock w 0))) as [r bs]. simpl in *. subst r.
  simpl. by destruct (into_writer (mkSigned bs (keyed_hash key bs))).
Qed.

Lemma store_free_sign_and_encode code key : store_free (sign_and_encode code key).
Proof.
  unfold sign_and_encode. apply store_free_bind; [auto with rust|]. intros c.
  destruct (into_writer c) as [r bs]. apply store_free_bind; [auto with rust|]. intros _.
  by destruct (into_writer _).
Qed.

Lemma store_free_decode_and_verify enc key max_age :
  store_free (decode_and_verify enc key max_age).
Proof.
  unfold decode_and_verify. repeat (apply store_free_bind_ok; [done|]; intros ?).
  case_bool_decide; [|done]. apply store_free_bind_ok; [done|]. intros ?.
  apply store_free_bind; [auto with rust|done].
Qed.

Section laws.
Context `{!HashesLaws, !Base64Laws,
  !CborLaws (TimestampedContainer AuthorizationCode) after_epoch,
  !CborLaws SignedAuthorizationCode tag_32}.

Lemma open_encode_stamped key c : after_epoch c → open_code key (encode_stamped key c) = Ok c.
Proof.
  intros Hc. unfold open_code, encode_stamped. rewrite b64_decode_encode. simpl.
  rewrite (from_reader_into_writer (P := tag_32)) by apply keyed_hash_length. simpl.
  rewrite bool_decide_eq_true_2 by done. by rewrite (from_reader_into_writer (P := after_epoch)).
Qed.

Lemma run_sign_after_epoch code key w :
  after_epoch (mkTimestamped code (w_clock w 0)) →
  run (sign_and_encode code key) w =
    (Done (encode_stamped key (mkTimestamped code (w_clock w 0))), tick w).
Proof. intros Hc. apply run_sign_and_encode. by apply (into_writer_ok (P := after_epoch)). Qed.
End laws.

Lemma open_code_Ok key encoded c :
  open_code key encoded = Ok c ↔
  ∃ bs sc, b64_decode URL_SAFE encoded = Ok bs ∧ from_reader bs = Ok sc ∧
    keyed_hash key (data sc) = signature sc ∧ from_reader (data sc) = Ok c.
Proof.
  unfold open_code. rewrite rbind_Ok. setoid_rewrite map_err_Ok.
  setoid_rewrite rbind_Ok. setoid_rewrite map_err_Ok.
  split; [|naive_solver (by rewrite bool_decide_eq_true_2; [apply map_err_Ok|])].
  intros (bs & Hbs & sc & Hsc & Hc). case_bool_decide; [|done].
  apply map_err_Ok in Hc. eauto 10.
Qed.
End lemmas.

(** ** Properties *)

Section properties.
Context {S : Type} `{TokenStore S}.

(** C14: a signed code decodes, under the same key, to the very code that was
    signed while it is fresh, and to [NotFresh] afterwards (or when the clock
    went backwards); signing reads the clock once and verifying once. *)
Theorem sign_decode_roundtrip
    (HH : HashesLaws) (HB : Base64Laws)
    (HT : CborLaws (TimestampedContainer AuthorizationCode) after_epoch)
    (HS : CborLaws SignedAuthorizationCode tag_32)
    (code : AuthorizationCode) (key : MacKey) (max_age : Duration) (w : World S)
    (Hnow : (0 ≤ w_clock w 0)%Z) (Hcode : (0 ≤ ac_timestamp code)%Z) :
  run (let* enc := sign_and_encode code key in decode_and_verify enc key max_age) w =
    (Done (if fresh_at (w_clock w 0) max_age (w_clock w 1) then Ok code
           else Err (InvalidTimestamp NotFresh)),
     tick (tick w)).
Proof.
  assert (Hc : after_epoch (mkTimestamped code (w_clock w 0))) by done.
  rewrite run_bind, run_sign_after_epoch by done.
  by rewrite run_decode_and_verify, open_encode_stamped.
Qed.

(** C13: a code string is accepted exactly when it is base64 of a container whose
    tag is the keyed hash of its data, the data is a stamped code, and the stamp
    is fresh at the one clock reading taken; a wrong tag is reported as
    [InvalidSignature] before the data is looked at. *)
Theorem decode_and_verify_authentic (encoded : string) (key : MacKey) (max_age : Duration)
    (w : World S) :
  (∀ code, (run (decode_and_verify encoded key max_age) w).1 = Done (Ok code) ↔
    ∃ bs sc t, b64_decode URL_SAFE encoded = Ok bs ∧ from_reader bs = Ok sc ∧
      keyed_hash key (data sc) = signature sc ∧
      from_reader (data sc) = Ok (mkTimestamped code t) ∧
      fresh_at t max_age (w_clock w 0) = true) ∧
  (∀ bs sc, b64_decode URL_SAFE encoded = Ok bs → from_reader bs = Ok sc →
    keyed_hash key (data sc) ≠ signature sc →
    run (decode_and_verify encoded key max_age) w = (Done (Err InvalidSignature), w)).
Proof.
  split.
  - intros code. rewrite run_decode_and_verify. split.
    + destruct (open_code key encoded) as [[x t]|e] eqn:E; [|done].
      apply open_code_Ok in E as (bs & sc & ? & ? & ? & ?). simpl.
      destruct (fresh_at t max_age (w_clock w 0)) eqn:Ef; [|done]. intros [= ->]. eauto 10.
    + intros (bs & sc & t & Hbs & Hsc & Htag & Hc & Hf).
      assert (open_code key encoded = Ok (mkTimestamped code t)) as ->
        by (apply open_code_Ok; by exists bs, sc).
      simpl. by rewrite Hf.
  - intros bs sc Hbs Hsc Htag. rewrite run_decode_and_verify. unfold open_code.
    rewrite Hbs. simpl. rewrite Hsc. simpl. by rewrite bool_decide_eq_false_2.
Qed.
End properties.
End signature.
