(* ===== verification/Token.v ===== *)
(** * JSON Web Tokens ([src/oidc/token.rs])

    The claims of ID and access tokens with the JSON their derived
    [Serialize] / [Deserialize] instances stand for, the key set of the JWKS
    endpoint, and [JwtIssuer], which signs and verifies both kinds of token. *)
From S2P Require Import Prelude RustStd Storage Effects Externs.

(** ** Claims *)

Record IdTokenClaims := mkIdTokenClaims {
  id_iss : string;
  id_sub : string;
  id_aud : string;
  id_exp : Z;
  id_iat : Z;
  id_nonce : option string;
  id_groups : option (list string);
}.

Record AccessTokenClaims := mkAccessTokenClaims {
  at_iss : string;
  at_sub : string;
  at_aud : string;
  at_exp : Z;
  at_iat : Z;
  at_jti : string;
  at_scope : list string;
  at_groups : list string;
  at_client_id : string;
}.

(** [#[serde(skip_serializing_if = Option::is_none)]]. *)
Definition skip_none {T} `{ToJson T} (k : string) (o : option T) : list (string * json) :=
  match o with Some x => [(k, to_json x)] | None => [] end.

#[export] Instance IdTokenClaims_ToJson : ToJson IdTokenClaims := λ c,
  JObj ([("iss", JStr (id_iss c)); ("sub", JStr (id_sub c)); ("aud", JStr (id_aud c));
         ("exp", JNum (id_exp c)); ("iat", JNum (id_iat c))]
        ++ skip_none "nonce" (id_nonce c) ++ skip_none "groups" (id_groups c)).

#[export] Instance IdTokenClaims_FromJson : FromJson IdTokenClaims := λ j,
  iss ← json_field "iss" j ≫= json_str;
  sub ← json_field "sub" j ≫= json_str;
  aud ← json_field "aud" j ≫= json_str;
  exp ← json_field "exp" j ≫= json_u64;
  iat ← json_field "iat" j ≫= json_u64;
  nonce ← json_opt_field json_str "nonce" j;
  groups ← json_opt_field json_strs "groups" j;
  Some (mkIdTokenClaims iss sub aud exp iat nonce groups).

#[export] Instance AccessTokenClaims_ToJson : ToJson AccessTokenClaims := λ c,
  JObj [("iss", JStr (at_iss c)); ("sub", JStr (at_sub c)); ("aud", JStr (at_aud c));
        ("exp", JNum (at_exp c)); ("iat", JNum (at_iat c)); ("jti", JStr (at_jti c));
        ("scope", to_json (at_scope c)); ("groups", to_json (at_groups c));
        ("client_id", JStr (at_client_id c))].

#[export] Instance AccessTokenClaims_FromJson : FromJson AccessTokenClaims := λ j,
  iss ← json_field "iss" j ≫= json_str;
  sub ← json_field "sub" j ≫= json_str;
  aud ← json_field "aud" j ≫= json_str;
  exp ← json_field "exp" j ≫= json_u64;
  iat ← json_field "iat" j ≫= json_u64;
  jti ← json_field "jti" j ≫= json_str;
  scope ← json_field "scope" j ≫= json_strs;
  groups ← json_field "groups" j ≫= json_strs;
  client_id ← json_field "client_id" j ≫= json_str;
  Some (mkAccessTokenClaims iss sub aud exp iat jti scope groups client_id).

(** ** Keys *)

Record Jwk := mkJwk {
  kty : string; use_ : string; jwk_kid : string; alg : string; jwk_n : string; jwk_e : string }.

(** [use_] is renamed to [use]. *)
#[export] Instance Jwk_ToJson : ToJson Jwk := λ k,
  JObj [("kty", JStr (kty k)); ("use", JStr (use_ k)); ("kid", JStr (jwk_kid k));
        ("alg", JStr (alg k)); ("n", JStr (jwk_n k)); ("e", JStr (jwk_e k))].

Record Jwks := mkJwks { keys : list Jwk }.

#[export] Instance Jwks_ToJson : ToJson Jwks := λ s,
  JObj [("keys", JArr (to_json <$> keys s))].

Section error.
Context `{Jwt}.

Inductive JwtError :=
| JwtLib (e : JwtLibError)
| RsaError (msg : string).

(** The [Display] of the error, from its [#[error(...)]] attributes. *)
Definition JwtError_to_string (e : JwtError) : string :=
  match e with
  | JwtLib e => "JWT signing/verification failed: " +:+ jwt_error_string e
  | RsaError s => "RSA key error: " +:+ s
  end.
End error.

(** ** [JwtIssuer] *)

Section issuer.
Context `{BuildProfile, Hashes, Base64, Rsa, Jwt}.

Record JwtIssuer := mkJwtIssuer {
  issuer : string;
  encoding_key : EncodingKey;
  decoding_key : DecodingKey;
  kid : string;
  jwk : Jwk;
}.

Definition from_private_key (private_key : RsaPrivateKey) (issuer : string) :
    result JwtIssuer JwtError :=
  let public_key := to_public_key private_key in
  let? pkcs1_der := map_err RsaError (to_pkcs1_der public_key) in
  let kid := b64_encode URL_SAFE_NO_PAD (take 16 (sha256_digest pkcs1_der)) in
  let n := b64_encode URL_SAFE_NO_PAD (key_n_bytes_be public_key) in
  let e := b64_encode URL_SAFE_NO_PAD (key_e_bytes_be public_key) in
  let jwk := mkJwk "RSA" "sig" kid "RS256" n e in
  let? pem := map_err RsaError (to_pkcs8_pem private_key) in
  let? encoding_key := map_err JwtLib (encoding_key_from_rsa_pem (as_bytes pem)) in
  let decoding_key := decoding_key_from_rsa_der pkcs1_der in
  Ok (mkJwtIssuer issuer encoding_key decoding_key kid jwk).

Definition from_pem (pem issuer : string) : result JwtIssuer JwtError :=
  let? private_key := map_err RsaError (from_pkcs8_pem pem) in
  from_private_key private_key issuer.

Definition generate (rng : Rng) (issuer : string) : result JwtIssuer JwtError :=
  let? private_key := map_err RsaError (rsa_new rng 2048) in
  from_private_key private_key issuer.

(** [JwtIssuer::now]: Unix seconds, zero before the epoch. *)
Definition unix_now : prog Z :=
  let* t := system_time_now in
  Ret (unwrap_or 0%Z (result_map duration_as_secs (duration_since t UNIX_EPOCH))).

Definition jwt_header (self : JwtIssuer) : Header :=
  let header := Header_new RS256 in
  mkHeader (h_alg header) (Some (kid self)).

Definition issue_id_token (self : JwtIssuer) (subject audience : string)
    (groups : list string) (nonce : option string) (ttl : Duration) :
    prog (result string JwtError) :=
  let* now := unix_now in
  let* exp := lift_outcome (u64_add now (duration_as_secs ttl)) in
  let claims := mkIdTokenClaims (issuer self) subject audience exp now nonce (Some groups) in
  Ret (map_err JwtLib (jwt_encode (jwt_header self) (to_json claims) (encoding_key self))).

Definition issue_access_token (self : JwtIssuer) (subject client_id : string)
    (groups scope : list string) (jti : string) (ttl : Duration) :
    prog (result string JwtError) :=
  let* now := unix_now in
  let* exp := lift_outcome (u64_add now (duration_as_secs ttl)) in
  let claims := mkAccessTokenClaims (issuer self) subject (issuer self) exp now jti
                  scope groups client_id in
  Ret (map_err JwtLib (jwt_encode (jwt_header self) (to_json claims) (encoding_key self))).

(** [decode::<T>]: the library's checks, then the shape of the claims. *)
Definition decode_claims {T} `{FromJson T} (token : string) (key : DecodingKey)
    (v : Validation) : prog (result T JwtError) :=
  let* now := system_time_now in
  Ret (let? j := map_err JwtLib (jwt_decode token key v now) in
       ok_or (JwtLib jwt_json_error) (from_json j)).

Definition verify_access_token (self : JwtIssuer) (token : string) :
    prog (result AccessTokenClaims JwtError) :=
  let validation := set_leeway 5 (set_audience [issuer self]
    (set_issuer [issuer self] (Validation_new RS256))) in
  decode_claims token (decoding_key self) validation.

Definition verify_id_token (self : JwtIssuer) (token expected_audience : string) :
    prog (result IdTokenClaims JwtError) :=
  let validation := set_leeway 5 (set_audience [expected_audience]
    (set_issuer [issuer self] (Validation_new RS256))) in
  decode_claims token (decoding_key self) validation.

Definition get_jwks (self : JwtIssuer) : Jwks := mkJwks [jwk self].
End issuer.

(** ** Lemmas on the JSON of the claims *)

Definition is_u64 (n : Z) : Prop := (0 ≤ n < 2 ^ 64)%Z.

Lemma id_claims_roundtrip (c : IdTokenClaims) :
  is_u64 (id_exp c) → is_u64 (id_iat c) → from_json (to_json c) = Some c.
Proof.
  destruct c as [iss sub aud exp iat nonce groups]. simpl. intros He Hi.
  unfold from_json, IdTokenClaims_FromJson, to_json, IdTokenClaims_ToJson. simpl.
  destruct nonce, groups; simpl; unfold json_field, json_opt_field; simpl;
    rewrite !json_u64_num by done; simpl; by rewrite ?json_strs_JArr.
Qed.

Lemma access_claims_roundtrip (c : AccessTokenClaims) :
  is_u64 (at_exp c) → is_u64 (at_iat c) → from_json (to_json c) = Some c.
Proof.
  destruct c as [iss sub aud exp iat jti scope groups cid]. simpl. intros He Hi.
  unfold from_json, AccessTokenClaims_FromJson, to_json, AccessTokenClaims_ToJson. simpl.
  rewrite !json_u64_num by done. unfold to_json, strings_ToJson. simpl.
  by rewrite !json_strs_JArr.
Qed.

(** An ID token has no [jti]: it does not have the shape of an access token. *)
Lemma id_claims_not_access (c : IdTokenClaims) :
  (from_json (to_json c) : option AccessTokenClaims) = None.
Proof.
  destruct c as [iss sub aud exp iat nonce groups].
  unfold from_json, AccessTokenClaims_FromJson, to_json, IdTokenClaims_ToJson. simpl.
  destruct nonce, groups; unfold json_field; simpl; destruct (json_u64 (JNum exp)); simpl;
    try done; by destruct (json_u64 (JNum iat)).
Qed.

Lemma id_claims_fields (c : IdTokenClaims) :
  json_field "exp" (to_json c) = Some (JNum (id_exp c)) ∧
  json_field "iss" (to_json c) = Some (JStr (id_iss c)) ∧
  json_field "aud" (to_json c) = Some (JStr (id_aud c)).
Proof. destruct c as [iss sub aud exp iat [nonce|] [groups|]]; by split_and!. Qed.

Lemma access_claims_fields (c : AccessTokenClaims) :
  json_field "exp" (to_json c) = Some (JNum (at_exp c)) ∧
  json_field "iss" (to_json c) = Some (JStr (at_iss c)) ∧
  json_field "aud" (to_json c) = Some (JStr (at_aud c)).
Proof. by destruct c. Qed.

Lemma claims_checks j exp iss aud v now :
  json_field "exp" j = Some (JNum exp) → json_field "iss" j = Some (JStr iss) →
  json_field "aud" j = Some (JStr aud) → is_u64 exp →
  registered_claims j ∧
  claims_valid v j now =
    (now <=? exp + v_leeway v)%Z &&
    match v_iss v with None => true | Some l => bool_decide (iss ∈ l) end &&
    match v_aud v with None => true | Some l => bool_decide (aud ∈ l) end.
Proof.
  intros He Hi Ha Hexp. unfold registered_claims, claims_valid, claim_in.
  rewrite He, Hi, Ha. simpl. rewrite json_u64_num by done. simpl. by split_and!.
Qed.

(** ** Running the issuer *)

(** Unix seconds of a clock reading. *)
Definition unix_secs (t : SystemTime) : Z := if (0 <=? t)%Z then duration_as_secs t else 0%Z.

Lemma unix_secs_nonneg t : (0 ≤ unix_secs t)%Z.
Proof.
  unfold unix_secs. destruct (Z.leb_spec 0 t); [|done].
  apply Z.div_pos; [done|]. unfold nanos_per_sec. lia.
Qed.

Lemma unix_secs_pos t : (0 ≤ t)%Z → unix_secs t = duration_as_secs t.
Proof. intros H. unfold unix_secs. by rewrite (proj2 (Z.leb_le _ _) H). Qed.

(** A [u64] sum that wraps ends below either operand. *)
Lemma wrapped_sum a b :
  (0 ≤ a < 2 ^ 64)%Z → (0 ≤ b < 2 ^ 64)%Z → ¬ (a + b < 2 ^ 64)%Z →
  ((a + b) mod 2 ^ 64 < a)%Z.
Proof.
  intros Ha Hb Hno. replace (a + b)%Z with ((a + b - 2 ^ 64) + 1 * 2 ^ 64)%Z by lia.
  rewrite Z.mod_add, Z.mod_small by lia. lia.
Qed.

Section issuer_lemmas.
Context `{BuildProfile, Hashes, Base64, Rsa, Jwt}.
Context {S : Type} `{TokenStore S}.
Implicit Types (w : World S) (ji : JwtIssuer).

Lemma run_unix_now w : run unix_now w = (Done (unix_secs (w_clock w 0)), tick w).
Proof.
  unfold unix_now. rewrite run_bind, run_now. unfold unix_secs, duration_since, UNIX_EPOCH.
  destruct (Z.leb_spec 0 (w_clock w 0)); simpl; by rewrite ?Z.sub_0_r.
Qed.

(** The claims an ID or access token is issued with when the clock shows [t]. *)
Definition id_claims_at ji subject audience groups nonce ttl (t : SystemTime) : IdTokenClaims :=
  mkIdTokenClaims (issuer ji) subject audience (unix_secs t + duration_as_secs ttl)
    (unix_secs t) nonce (Some groups).

Definition access_claims_at ji subject client_id groups scope jti ttl (t : SystemTime) :
    AccessTokenClaims :=
  mkAccessTokenClaims (issuer ji) subject (issuer ji) (unix_secs t + duration_as_secs ttl)
    (unix_secs t) jti scope groups client_id.

(** The expiry of a token issued at [t] fits a [u64]. *)
Definition exp_fits (ttl : Duration) (t : SystemTime) : Prop :=
  (unix_secs t + duration_as_secs ttl < 2 ^ 64)%Z.

Lemma run_issue_id_token ji sub aud groups nonce ttl w :
  exp_fits ttl (w_clock w 0) →
  run (issue_id_token ji sub aud groups nonce ttl) w =
    (Done (map_err JwtLib (jwt_encode (jwt_header ji)
       (to_json (id_claims_at ji sub aud groups nonce ttl (w_clock w 0))) (encoding_key ji))),
     tick w).
Proof.
  intros Hexp. unfold issue_id_token.
  by rewrite run_bind, run_unix_now, run_bind, run_lift_outcome, u64_add_small.
Qed.

Lemma run_issue_access_token ji sub cid groups scope jti ttl w :
  exp_fits ttl (w_clock w 0) →
  run (issue_access_token ji sub cid groups scope jti ttl) w =
    (Done (map_err JwtLib (jwt_encode (jwt_header ji)
       (to_json (access_claims_at ji sub cid groups scope jti ttl (w_clock w 0)))
       (encoding_key ji))),
     tick w).
Proof.
  intros Hexp. unfold issue_access_token.
  by rewrite run_bind, run_unix_now, run_bind, run_lift_outcome, u64_add_small.
Qed.

(** A successful issue, without assumptions on the clock. *)
Lemma issue_id_token_claims ji sub aud groups nonce ttl w tok w' :
  run (issue_id_token ji sub aud groups nonce ttl) w = (Done (Ok tok), w') →
  w' = tick w ∧ ∃ exp, u64_add (unix_secs (w_clock w 0)) (duration_as_secs ttl) = Done exp ∧
    jwt_encode (jwt_header ji) (to_json (mkIdTokenClaims (issuer ji) sub aud exp
      (unix_secs (w_clock w 0)) nonce (Some groups))) (encoding_key ji) = Ok tok.
Proof.
  unfold issue_id_token. rewrite run_bind, run_unix_now, run_bind_Done.
  intros (exp & w1 & (Hexp & ->)%run_lift_Done & (Htok%map_err_Ok & ->)%run_ret_Done). eauto.
Qed.

Lemma issue_access_token_claims ji sub cid groups scope jti ttl w tok w' :
  run (issue_access_token ji sub cid groups scope jti ttl) w = (Done (Ok tok), w') →
  w' = tick w ∧ ∃ exp, u64_add (unix_secs (w_clock w 0)) (duration_as_secs ttl) = Done exp ∧
    jwt_encode (jwt_header ji) (to_json (mkAccessTokenClaims (issuer ji) sub (issuer ji) exp
      (unix_secs (w_clock w 0)) jti scope groups cid)) (encoding_key ji) = Ok tok.
Proof.
  unfold issue_access_token. rewrite run_bind, run_unix_now, run_bind_Done.
  intros (exp & w1 & (Hexp & ->)%run_lift_Done & (Htok%map_err_Ok & ->)%run_ret_Done). eauto.
Qed.

Lemma run_verify_access_token ji tok w :
  run (verify_access_token ji tok) w =
    (Done (let? j := map_err JwtLib (jwt_decode tok (decoding_key ji)
              (mkValidation RS256 (Some [issuer ji]) (Some [issuer ji]) 5) (w_clock w 0)) in
           ok_or (JwtLib jwt_json_error) (from_json j)), tick w).
Proof. done. Qed.

Lemma run_verify_id_token ji tok aud w :
  run (verify_id_token ji tok aud) w =
    (Done (let? j := map_err JwtLib (jwt_decode tok (decoding_key ji)
              (mkValidation RS256 (Some [issuer ji]) (Some [aud]) 5) (w_clock w 0)) in
           ok_or (JwtLib jwt_json_error) (from_json j)), tick w).
Proof. done. Qed.

Lemma store_free_issue_id_token ji sub aud groups nonce ttl :
  store_free (issue_id_token ji sub aud groups nonce ttl).
Proof. intros t. simpl. by destruct (u64_add _ _). Qed.

Lemma store_free_issue_access_token ji sub cid groups scope jti ttl :
  store_free (issue_access_token ji sub cid groups scope jti ttl).
Proof. intros t. simpl. by destruct (u64_add _ _). Qed.

Lemma store_free_verify_access_token ji tok : store_free (verify_access_token ji tok).
Proof. done. Qed.

(** The issuer's signing key signs every set of claims. *)
Definition signs (ji : JwtIssuer) : Prop :=
  ∀ claims, ∃ tok, jwt_encode (jwt_header ji) claims (encoding_key ji) = Ok tok.

Section laws.
Context `{!JwtLaws}.

(** The two keys of an issuer belong together. *)
Definition issuer_keys_match ji : Prop := jwt_key_pair (encoding_key ji) (decoding_key ji).

Lemma is_u64_ttl ttl t : (0 ≤ ttl)%Z → exp_fits ttl t → is_u64 (duration_as_secs ttl).
Proof.
  intros Httl Hexp. pose proof (unix_secs_nonneg t).
  assert (0 ≤ duration_as_secs ttl)%Z
    by (apply Z.div_pos; [done|unfold nanos_per_sec; lia]).
  unfold exp_fits, is_u64 in *. lia.
Qed.

Lemma is_u64_exp ttl t : (0 ≤ ttl)%Z → exp_fits ttl t →
  is_u64 (unix_secs t + duration_as_secs ttl) ∧ is_u64 (unix_secs t).
Proof.
  intros Httl Hexp. pose proof (unix_secs_nonneg t).
  destruct (is_u64_ttl ttl t Httl Hexp) as [? _]. unfold exp_fits, is_u64 in *. lia.
Qed.

(** What decoding says of a token encoded by the issuer itself. *)
Lemma decode_own_token ji j exp iss aud tok v t :
  issuer_keys_match ji → jwt_encode (jwt_header ji) j (encoding_key ji) = Ok tok →
  json_field "exp" j = Some (JNum exp) → json_field "iss" j = Some (JStr iss) →
  json_field "aud" j = Some (JStr aud) → is_u64 exp → v_algorithm v = RS256 → (0 ≤ t)%Z →
  if (unix_secs t <=? exp + v_leeway v)%Z &&
     match v_iss v with None => true | Some l => bool_decide (iss ∈ l) end &&
     match v_aud v with None => true | Some l => bool_decide (aud ∈ l) end
  then jwt_decode tok (decoding_key ji) v t = Ok j
  else ∃ e, jwt_decode tok (decoding_key ji) v t = Err e.
Proof.
  intros Hk Htok He Hi Ha Hexp Hv Ht.
  destruct (claims_checks j exp iss aud v (duration_as_secs t) He Hi Ha Hexp) as [Hreg Hval].
  rewrite unix_secs_pos by done. rewrite <- Hval. by eapply jwt_decode_encode.
Qed.
End laws.
End issuer_lemmas.


(** ** A verifier's view of the issuer's own tokens *)

Section own_tokens.
Context `{BuildProfile, Hashes, Base64, Rsa, Jwt, !JwtLaws}.
Context {S : Type} `{TokenStore S}.
Implicit Types (w : World S) (ji : JwtIssuer).

Lemma issue_access_token_Ok ji sub cid groups scope jti ttl tok w w1 :
  exp_fits ttl (w_clock w 0) →
  run (issue_access_token ji sub cid groups scope jti ttl) w = (Done (Ok tok), w1) →
  jwt_encode (jwt_header ji) (to_json (access_claims_at ji sub cid groups scope jti ttl
    (w_clock w 0))) (encoding_key ji) = Ok tok ∧ w1 = tick w.
Proof.
  intros Hexp. rewrite run_issue_access_token by done. intros [= Htok <-].
  by apply map_err_Ok in Htok.
Qed.

Lemma issue_id_token_Ok ji sub aud groups nonce ttl tok w w1 :
  exp_fits ttl (w_clock w 0) →
  run (issue_id_token ji sub aud groups nonce ttl) w = (Done (Ok tok), w1) →
  jwt_encode (jwt_header ji) (to_json (id_claims_at ji sub aud groups nonce ttl
    (w_clock w 0))) (encoding_key ji) = Ok tok ∧ w1 = tick w.
Proof.
  intros Hexp. rewrite run_issue_id_token by done. intros [= Htok <-].
  by apply map_err_Ok in Htok.
Qed.

(** Verification of a token with known claims, by the two validations. *)
Lemma verify_access_own ji (c : AccessTokenClaims) tok w :
  issuer_keys_match ji → is_u64 (at_exp c) → is_u64 (at_iat c) →
  at_iss c = issuer ji → at_aud c = issuer ji →
  jwt_encode (jwt_header ji) (to_json c) (encoding_key ji) = Ok tok → (0 ≤ w_clock w 0)%Z →
  if (unix_secs (w_clock w 0) <=? at_exp c + 5)%Z
  then run (verify_access_token ji tok) w = (Done (Ok c), tick w)
  else ∃ e, run (verify_access_token ji tok) w = (Done (Err e), tick w).
Proof.
  intros Hk He Hi Hiss Haud Htok Ht. destruct (access_claims_fields c) as (Fe & Fi & Fa).
  pose proof (decode_own_token ji _ _ _ _ tok
    (mkValidation RS256 (Some [issuer ji]) (Some [issuer ji]) 5) (w_clock w 0)
    Hk Htok Fe Fi Fa He eq_refl Ht) as Hd. simpl in Hd.
  rewrite Hiss, Haud, bool_decide_eq_true_2, !andb_true_r in Hd by set_solver.
  rewrite run_verify_access_token. destruct (_ <=? _)%Z.
  - rewrite Hd. simpl. by rewrite access_claims_roundtrip.
  - destruct Hd as [e ->]. by eexists.
Qed.

Lemma verify_id_own ji (c : IdTokenClaims) tok aud w :
  issuer_keys_match ji → is_u64 (id_exp c) → is_u64 (id_iat c) → id_iss c = issuer ji →
  jwt_encode (jwt_header ji) (to_json c) (encoding_key ji) = Ok tok → (0 ≤ w_clock w 0)%Z →
  if (unix_secs (w_clock w 0) <=? id_exp c + 5)%Z && bool_decide (id_aud c = aud)
  then run (verify_id_token ji tok aud) w = (Done (Ok c), tick w)
  else ∃ e, run (verify_id_token ji tok aud) w = (Done (Err e), tick w).
Proof.
  intros Hk He Hi Hiss Htok Ht. destruct (id_claims_fields c) as (Fe & Fi & Fa).
  pose proof (decode_own_token ji _ _ _ _ tok
    (mkValidation RS256 (Some [issuer ji]) (Some [aud]) 5) (w_clock w 0)
    Hk Htok Fe Fi Fa He eq_refl Ht) as Hd. simpl in Hd.
  rewrite Hiss, (bool_decide_eq_true_2 (issuer ji ∈ _)), andb_true_r in Hd by set_solver.
  rewrite (bool_decide_ext (id_aud c = aud) (id_aud c ∈ [aud])) by set_solver.
  rewrite run_verify_id_token. destruct (_ && _).
  - rewrite Hd. simpl. by rewrite id_claims_roundtrip.
  - destruct Hd as [e ->]. by eexists.
Qed.

Lemma verify_access_fresh ji (c : AccessTokenClaims) tok w :
  issuer_keys_match ji → is_u64 (at_exp c) → is_u64 (at_iat c) →
  at_iss c = issuer ji → at_aud c = issuer ji →
  jwt_encode (jwt_header ji) (to_json c) (encoding_key ji) = Ok tok → (0 ≤ w_clock w 0)%Z →
  (unix_secs (w_clock w 0) ≤ at_exp c + 5)%Z →
  run (verify_access_token ji tok) w = (Done (Ok c), tick w).
Proof.
  intros Hk He Hi Hiss Haud Htok Ht Hle.
  pose proof (verify_access_own ji c tok w Hk He Hi Hiss Haud Htok Ht) as Hv.
  by rewrite (proj2 (Z.leb_le _ _)) in Hv.
Qed.

Lemma verify_id_fresh ji (c : IdTokenClaims) tok w :
  issuer_keys_match ji → is_u64 (id_exp c) → is_u64 (id_iat c) → id_iss c = issuer ji →
  jwt_encode (jwt_header ji) (to_json c) (encoding_key ji) = Ok tok → (0 ≤ w_clock w 0)%Z →
  (unix_secs (w_clock w 0) ≤ id_exp c + 5)%Z →
  run (verify_id_token ji tok (id_aud c)) w = (Done (Ok c), tick w).
Proof.
  intros Hk He Hi Hiss Htok Ht Hle.
  pose proof (verify_id_own ji c tok (id_aud c) w Hk He Hi Hiss Htok Ht) as Hv.
  by rewrite (proj2 (Z.leb_le _ _)), bool_decide_eq_true_2 in Hv.
Qed.

(** An encoded ID token does not verify as an access token, at any time. *)
Lemma verify_access_of_id ji (c : IdTokenClaims) tok w :
  issuer_keys_match ji → is_u64 (id_exp c) →
  jwt_encode (jwt_header ji) (to_json c) (encoding_key ji) = Ok tok → (0 ≤ w_clock w 0)%Z →
  ∃ e, run (verify_access_token ji tok) w = (Done (Err e), tick w).
Proof.
  intros Hk He Htok Ht. destruct (id_claims_fields c) as (Fe & Fi & Fa).
  pose proof (decode_own_token ji _ _ _ _ tok
    (mkValidation RS256 (Some [issuer ji]) (Some [issuer ji]) 5) (w_clock w 0)
    Hk Htok Fe Fi Fa He eq_refl Ht) as Hd.
  rewrite run_verify_access_token. destruct (_ && _) in Hd.
  - rewrite Hd. simpl. rewrite id_claims_not_access. by eexists.
  - destruct Hd as [e ->]. by eexists.
Qed.

(** An encoded access token does not verify as an ID token for another audience. *)
Lemma verify_id_of_access ji (c : AccessTokenClaims) tok aud w :
  issuer_keys_match ji → is_u64 (at_exp c) → at_aud c ≠ aud →
  jwt_encode (jwt_header ji) (to_json c) (encoding_key ji) = Ok tok → (0 ≤ w_clock w 0)%Z →
  ∃ e, run (verify_id_token ji tok aud) w = (Done (Err e), tick w).
Proof.
  intros Hk He Haud Htok Ht. destruct (access_claims_fields c) as (Fe & Fi & Fa).
  pose proof (decode_own_token ji _ _ _ _ tok
    (mkValidation RS256 (Some [issuer ji]) (Some [aud]) 5) (w_clock w 0)
    Hk Htok Fe Fi Fa He eq_refl Ht) as Hd. simpl in Hd.
  rewrite (bool_decide_eq_false_2 (at_aud c ∈ _)), andb_false_r in Hd by set_solver.
  destruct Hd as [e Hd]. rewrite run_verify_id_token, Hd. by eexists.
Qed.
End own_tokens.

(** ** Properties *)

Section properties.
Context `{BuildProfile, Hashes, Base64, Rsa, Jwt}.
Context {S : Type} `{TokenStore S}.

(** C22: an access token the issuer signed verifies to exactly the claims it was
    issued with (issuer and audience both the issuer, expiry [iat + ttl]) until
    five seconds after its expiry, and is refused from then on. *)
Theorem access_token_roundtrip (HJ : JwtLaws) (ji : JwtIssuer) (sub cid jti tok : string)
    (groups scope : list string) (ttl : Duration) (w w1 w2 : World S)
    (Hkeys : issuer_keys_match ji) (Httl : (0 ≤ ttl)%Z) (Hexp : exp_fits ttl (w_clock w 0))
    (Hrun : run (issue_access_token ji sub cid groups scope jti ttl) w = (Done (Ok tok), w1))
    (Ht : (0 ≤ w_clock w2 0)%Z) :
  let c := access_claims_at ji sub cid groups scope jti ttl (w_clock w 0) in
  ((unix_secs (w_clock w2 0) ≤ at_exp c + 5)%Z →
     run (verify_access_token ji tok) w2 = (Done (Ok c), tick w2)) ∧
  ((at_exp c + 5 < unix_secs (w_clock w2 0))%Z →
     ∃ e, run (verify_access_token ji tok) w2 = (Done (Err e), tick w2)).
Proof.
  intros c. apply issue_access_token_Ok in Hrun as [Htok _]; [|done].
  destruct (is_u64_exp ttl (w_clock w 0) Httl Hexp) as [He Hi].
  pose proof (verify_access_own ji c tok w2 Hkeys He Hi eq_refl eq_refl Htok Ht) as Hv.
  split; intros Hle.
  - by rewrite (proj2 (Z.leb_le _ _)) in Hv.
  - by rewrite (proj2 (Z.leb_gt _ _)) in Hv.
Qed.

(** C23: an ID token the issuer signed verifies, for the client it was issued to,
    to exactly the claims it was issued with (the client as audience, the nonce
    and the groups) until five seconds after its expiry; later, or for any other
    client, it is refused. *)
Theorem id_token_roundtrip (HJ : JwtLaws) (ji : JwtIssuer) (sub aud tok : string)
    (groups : list string) (nonce : option string) (ttl : Duration) (w w1 w2 : World S)
    (Hkeys : issuer_keys_match ji) (Httl : (0 ≤ ttl)%Z) (Hexp : exp_fits ttl (w_clock w 0))
    (Hrun : run (issue_id_token ji sub aud groups nonce ttl) w = (Done (Ok tok), w1))
    (Ht : (0 ≤ w_clock w2 0)%Z) :
  let c := id_claims_at ji sub aud groups nonce ttl (w_clock w 0) in
  ((unix_secs (w_clock w2 0) ≤ id_exp c + 5)%Z →
     run (verify_id_token ji tok aud) w2 = (Done (Ok c), tick w2)) ∧
  (∀ aud', (id_exp c + 5 < unix_secs (w_clock w2 0))%Z ∨ aud' ≠ aud →
     ∃ e, run (verify_id_token ji tok aud') w2 = (Done (Err e), tick w2)).
Proof.
  intros c. apply issue_id_token_Ok in Hrun as [Htok _]; [|done].
  destruct (is_u64_exp ttl (w_clock w 0) Httl Hexp) as [He Hi].
  pose proof (λ aud', verify_id_own ji c tok aud' w2 Hkeys He Hi eq_refl Htok Ht) as Hv.
  split; [intros Hle|intros aud' Hbad]; [specialize (Hv aud)|specialize (Hv aud')].
  - by rewrite (proj2 (Z.leb_le _ _)), bool_decide_eq_true_2 in Hv.
  - assert ((unix_secs (w_clock w2 0) <=? id_exp c + 5)%Z && bool_decide (id_aud c = aud')
      = false) as Hf; [|by rewrite Hf in Hv].
    apply andb_false_iff. rewrite Z.leb_gt, bool_decide_eq_false. naive_solver.
Qed.

(** C24: the two kinds of token cannot stand in for each other: an ID token is
    never accepted where an access token is expected (the bearer check of
    [/userinfo]), and an access token is no ID token for any client whose id is
    not the issuer's own URL. *)
Theorem token_kinds_not_confused (HJ : JwtLaws) (ji : JwtIssuer)
    (sub aud cid jti idtok atok : string) (groups scope : list string)
    (nonce : option string) (ttl : Duration) (w w1 w' w1' w2 : World S)
    (Hkeys : issuer_keys_match ji) (Httl : (0 ≤ ttl)%Z)
    (Hexp : exp_fits ttl (w_clock w 0)) (Hexp' : exp_fits ttl (w_clock w' 0))
    (Hid : run (issue_id_token ji sub aud groups nonce ttl) w = (Done (Ok idtok), w1))
    (Hat : run (issue_access_token ji sub cid groups scope jti ttl) w' = (Done (Ok atok), w1'))
    (Ht : (0 ≤ w_clock w2 0)%Z) :
  (∃ e, run (verify_access_token ji idtok) w2 = (Done (Err e), tick w2)) ∧
  (∀ client, client ≠ issuer ji →
     ∃ e, run (verify_id_token ji atok client) w2 = (Done (Err e), tick w2)).
Proof.
  apply issue_id_token_Ok in Hid as [Hid _]; [|done].
  apply issue_access_token_Ok in Hat as [Hat _]; [|done].
  destruct (is_u64_exp ttl (w_clock w 0) Httl Hexp) as [He _].
  destruct (is_u64_exp ttl (w_clock w' 0) Httl Hexp') as [He' _].
  split.
  - by apply (verify_access_of_id ji (id_claims_at ji sub aud groups nonce ttl (w_clock w 0))).
  - intros client Hc. apply (verify_id_of_access ji
      (access_claims_at ji sub cid groups scope jti ttl (w_clock w' 0))); done || by intros ->.
Qed.

Lemma from_private_key_issuer sk iss ji : from_private_key sk iss = Ok ji → issuer ji = iss.
Proof.
  unfold from_private_key. intros (der & _ & Hnew)%rbind_Ok.
  apply rbind_Ok in Hnew as (pem & _ & Hnew). by apply rbind_Ok in Hnew as (ek & _ & [= <-]).
Qed.

(** An issuer built from a private key keeps the configured issuer name,
    holds two matching halves of that key, and publishes one signing key whose
    [kid] is the one its token headers name. *)
Theorem from_private_key_consistent (HJ : JwtLaws) (HR : JwtRsaLaws) (sk : RsaPrivateKey)
    (iss : string) (ji : JwtIssuer) (Hnew : from_private_key sk iss = Ok ji) :
  issuer ji = iss ∧ issuer_keys_match ji ∧
  ∃ n e, get_jwks ji = mkJwks [mkJwk "RSA" "sig" (kid ji) "RS256" n e] ∧
    jwt_header ji = mkHeader RS256 (Some (kid ji)).
Proof.
  unfold from_private_key in Hnew.
  apply rbind_Ok in Hnew as (der & Hder%map_err_Ok & Hnew).
  apply rbind_Ok in Hnew as (pem & Hpem%map_err_Ok & Hnew).
  apply rbind_Ok in Hnew as (ek & Hek%map_err_Ok & [= <-]).
  split_and!; [done|by apply (rsa_key_pair sk pem der)|]. simpl. eauto.
Qed.

(** C27: the expiry of a token is a [u64] sum: while it fits, issuing cannot
    panic and the expiry is [iat + ttl]; when it does not, a build with overflow
    checks panics, and one without issues claims that expire before they were
    issued. *)
Theorem id_token_expiry_bounds (ji : JwtIssuer) (sub aud : string) (groups : list string)
    (nonce : option string) (ttl : Duration) (w : World S)
    (Httl : (0 ≤ duration_as_secs ttl < 2 ^ 64)%Z)
    (Hclock : (unix_secs (w_clock w 0) < 2 ^ 64)%Z) :
  let now := unix_secs (w_clock w 0) in
  let issued exp := Done (map_err JwtLib (jwt_encode (jwt_header ji)
    (to_json (mkIdTokenClaims (issuer ji) sub aud exp now nonce (Some groups)))
    (encoding_key ji))) in
  let out := (run (issue_id_token ji sub aud groups nonce ttl) w).1 in
  (exp_fits ttl (w_clock w 0) → out = issued (now + duration_as_secs ttl)%Z) ∧
  (¬ exp_fits ttl (w_clock w 0) →
     if overflow_checks then ∃ msg, out = Panicked msg
     else ∃ exp, out = issued exp ∧ (exp < now)%Z).
Proof.
  intros now issued out. split.
  - intros Hexp. unfold out. by rewrite run_issue_id_token.
  - intros Hno. unfold out, issue_id_token, exp_fits in *.
    rewrite run_bind, run_unix_now, run_bind, run_lift_outcome. unfold u64_add.
    rewrite (proj2 (Z.ltb_ge _ _)) by lia.
    destruct overflow_checks; [by eexists|]. eexists. split; [done|].
    pose proof (unix_secs_nonneg (w_clock w 0)). by apply wrapped_sum.
Qed.
End properties.
