(* ===== verification/Protocol.v ===== *)
(** * The authorization code flow ([src/oidc/protocol.rs])

    Errors, request and response types, issuing a signed authorization code,
    and redeeming one for tokens. *)
From S2P Require Import Prelude RustStd Storage Effects Externs Client Pkce Timestamp.
From S2P Require Import AuthorizationCode Signature Token.

Inductive OIDCError :=
| InvalidRequest (msg : string)
| UnauthorizedClient (msg : string)
| AccessDenied (msg : string)
| UnsupportedResponseType (msg : string)
| InvalidScope (msg : string)
| InvalidGrant (msg : string)
| InvalidClient (msg : string)
| ServerError (msg : string)
| TemporarilyUnavailable (msg : string).

#[export] Instance OIDCError_eq_dec : EqDecision OIDCError.
Proof. solve_decision. Defined.

(** The [Display] of the error, from its [#[error(...)]] attributes. *)
Definition OIDCError_to_string (e : OIDCError) : string :=
  match e with
  | InvalidRequest m => "The request is missing a required parameter, includes an invalid parameter value, includes a parameter more than once, or is otherwise malformed: " +:+ m
  | UnauthorizedClient m => "The client is not authorized to request an authorization code using this method: " +:+ m
  | AccessDenied m => "The resource owner or authorization server denied the request: " +:+ m
  | UnsupportedResponseType m => "The authorization server does not support obtaining an authorization code using this method: " +:+ m
  | InvalidScope m => "The requested scope is invalid, unknown, or malformed: " +:+ m
  | InvalidGrant m => "The provided authorization grant or refresh token is invalid, expired, revoked, or was issued to another client: " +:+ m
  | InvalidClient m => "Client authentication failed: " +:+ m
  | ServerError m => "The authorization server encountered an unexpected condition that prevented it from fulfilling the request: " +:+ m
  | TemporarilyUnavailable m => "The authorization server is currently unable to handle the request due to temporary overloading or maintenance: " +:+ m
  end.

Definition error_code (e : OIDCError) : string :=
  match e with
  | InvalidRequest _ => "invalid_request"
  | UnauthorizedClient _ => "unauthorized_client"
  | AccessDenied _ => "access_denied"
  | UnsupportedResponseType _ => "unsupported_response_type"
  | InvalidScope _ => "invalid_scope"
  | InvalidGrant _ => "invalid_grant"
  | InvalidClient _ => "invalid_client"
  | ServerError _ => "server_error"
  | TemporarilyUnavailable _ => "temporarily_unavailable"
  end.

Inductive ResponseType := ResponseType_Code.

Definition ResponseType_from_str (s : string) : result ResponseType OIDCError :=
  if bool_decide (s = "code") then Ok ResponseType_Code
  else Err (UnsupportedResponseType ("Unsupported response_type: " +:+ s)).

Inductive GrantType := GrantType_AuthorizationCode.

Definition GrantType_from_str (s : string) : result GrantType OIDCError :=
  if bool_decide (s = "authorization_code") then Ok GrantType_AuthorizationCode
  else Err (InvalidRequest ("Unsupported grant_type: " +:+ s)).

Record TokenResponse := mkTokenResponse {
  rsp_access_token : string;
  rsp_token_type : string;
  rsp_expires_in : Z;
  rsp_id_token : string;
  rsp_scope : option string;
}.

(** An [Option] field without [skip_serializing_if]: [null] when absent. *)
Definition json_or_null {T} `{ToJson T} (o : option T) : json :=
  match o with Some x => to_json x | None => JNull end.

#[export] Instance TokenResponse_ToJson : ToJson TokenResponse := λ r,
  JObj [("access_token", JStr (rsp_access_token r)); ("token_type", JStr (rsp_token_type r));
        ("expires_in", JNum (rsp_expires_in r)); ("id_token", JStr (rsp_id_token r));
        ("scope", json_or_null (rsp_scope r))].

#[export] Instance TokenResponse_FromJson : FromJson TokenResponse := λ j,
  access_token ← json_field "access_token" j ≫= json_str;
  token_type ← json_field "token_type" j ≫= json_str;
  expires_in ← json_field "expires_in" j ≫= json_u64;
  id_token ← json_field "id_token" j ≫= json_str;
  scope ← json_opt_field json_str "scope" j;
  Some (mkTokenResponse access_token token_type expires_in id_token scope).

Record AuthorizationRequest := mkAuthorizationRequest {
  ar_client_id : string;
  ar_redirect_uri : string;
  ar_code_challenge : option string;
  ar_code_challenge_method : CodeChallengeMethod;
  ar_subject : string;
  ar_nonce : option string;
  ar_groups : list string;
  ar_scope : list string;
}.

Record AccessTokenRequest := mkAccessTokenRequest {
  tr_grant_type : GrantType;
  tr_client : string;
  tr_client_secret : option string;
  tr_code : string;
  tr_redirect_uri : string;
  tr_code_verifier : option string;
}.

Record OIDCAuthCodePKCEFlow := mkFlow { code_max_age : Duration; hmac_key : MacKey }.

Definition flow_new (code_max_age : Duration) (hmac_key : MacKey) : OIDCAuthCodePKCEFlow :=
  mkFlow code_max_age hmac_key.

Definition map_token_request_error (err : TokenRequestError) : OIDCError :=
  InvalidGrant (TokenRequestError_to_string err).

(** ** Random token identifiers *)

(** [bytes[i]] of a [[u8; 16]] at a constant index. *)
Definition byte_at (bytes : list byte) (i : nat) : byte := default x00 (bytes !! i).

(** Set the version and variant bits of a UUID. *)
Definition set_version (b : byte) : byte := u8_of (Z.lor (Z.land (u8_val b) 0x0f) 0x40).
Definition set_variant (b : byte) : byte := u8_of (Z.lor (Z.land (u8_val b) 0x3f) 0x80).

(** [format!] with sixteen [{:02x}] in the groups of a UUID. *)
Definition uuid_format (bytes : list byte) : string :=
  let h i := fmt_02x (byte_at bytes i) in
  h 0 +:+ h 1 +:+ h 2 +:+ h 3 +:+ "-" +:+ h 4 +:+ h 5 +:+ "-" +:+ h 6 +:+ h 7 +:+ "-" +:+
  h 8 +:+ h 9 +:+ "-" +:+ h 10 +:+ h 11 +:+ h 12 +:+ h 13 +:+ h 14 +:+ h 15.

Definition jti_of (fill : nat → byte) : string :=
  let bytes := fill <$> seq 0 16 in
  let bytes := <[6 := set_version (byte_at bytes 6)]> bytes in
  let bytes := <[8 := set_variant (byte_at bytes 8)]> bytes in
  uuid_format bytes.

Definition random_jti : prog string := let* fill := rng_fill in Ret (jti_of fill).

(** ** The flow *)

Section flow.
Context `{BuildProfile, Hashes, Base64, Rsa, Jwt, CborErrors,
  !Cbor (TimestampedContainer AuthorizationCode), !Cbor SignedAuthorizationCode}.

(** The token store of the context is the shared state the program acts on. *)
Record TokenIssueContext := mkTokenIssueContext {
  tic_clients : ClientRegistry;
  tic_jwt_issuer : JwtIssuer;
  tic_id_token_ttl : Duration;
  tic_access_token_ttl : Duration;
}.

Definition map_code_verification_error (err : AuthorizationCodeVerificationError) : OIDCError :=
  match err with
  | InvalidTimestamp _ => InvalidGrant "Authorization code has expired"
  | InvalidSignature => InvalidGrant "Authorization code is invalid"
  | InvalidBase64Encoding _ | InvalidSignedDataContainerEncoding _ =>
      InvalidGrant "Authorization code is malformed"
  end.

Definition code_replay_key (code : string) : string :=
  b64_encode URL_SAFE_NO_PAD (blake3_hash (as_bytes code)).

Definition authorization_request (self : OIDCAuthCodePKCEFlow) (req : AuthorizationRequest) :
    prog (result (AuthorizationCode * string) OIDCError) :=
  let* now := system_time_now in
  let code := mkAuthorizationCode (ar_client_id req) (ar_redirect_uri req)
    (ar_code_challenge req) (ar_code_challenge_method req) now (ar_subject req)
    (ar_nonce req) (ar_groups req) (ar_scope req) in
  let* encoded := AuthorizationCode_sign_and_encode code (hmac_key self) in
  Ret (Ok (code, encoded)).

Definition server_error (e : JwtError) : OIDCError := ServerError (JwtError_to_string e).

(** The second half of [access_token_request]: from the consumption of the code
    to the response. *)
Definition redeem_code (req : AccessTokenRequest) (ctx : TokenIssueContext)
    (auth_code : AuthorizationCode) : prog (result TokenResponse OIDCError) :=
  let code_hash := code_replay_key (tr_code req) in
  let* first_use := ts_consume_code code_hash in
  if negb first_use
  then Ret (Err (InvalidGrant "Authorization code has already been used"))
  else
    let* jti := random_jti in
    let* r := issue_id_token (tic_jwt_issuer ctx) (ac_subject auth_code) (tr_client req)
                (ac_groups auth_code) (ac_nonce auth_code) (tic_id_token_ttl ctx) in
    let*? id_token := Ret (map_err server_error r) in
    let* r := issue_access_token (tic_jwt_issuer ctx) (ac_subject auth_code) (tr_client req)
                (ac_groups auth_code) (ac_scope auth_code) jti (tic_access_token_ttl ctx) in
    let*? access_token := Ret (map_err server_error r) in
    let* now := system_time_now in
    let* expires_at := lift_outcome (system_time_add now (tic_access_token_ttl ctx)) in
    let* _ := ts_issue jti (ac_subject auth_code) (tr_client req) (ac_scope auth_code)
                (ac_groups auth_code) expires_at in
    Ret (Ok (mkTokenResponse access_token "Bearer"
      (duration_as_secs (tic_access_token_ttl ctx)) id_token
      (Some (str_join " " (ac_scope auth_code))))).

Definition access_token_request (self : OIDCAuthCodePKCEFlow) (req : AccessTokenRequest)
    (ctx : TokenIssueContext) : prog (result TokenResponse OIDCError) :=
  match tr_grant_type req with
  | GrantType_AuthorizationCode =>
      let* r := AuthorizationCode_decode_and_verify (tr_code req) (hmac_key self)
                  (code_max_age self) in
      let*? auth_code := Ret (map_err map_code_verification_error r) in
      let*? _ := Ret (map_err map_token_request_error
        (validate_token_request auth_code (tr_client req) (tr_redirect_uri req)
           (tr_code_verifier req))) in
      if negb (validate_redirect_uri (tic_clients ctx) (tr_client req) (tr_redirect_uri req))
      then Ret (Err (InvalidGrant "Invalid redirect_uri for this client"))
      else
        match validate_client_secret (tic_clients ctx) (tr_client req) (tr_client_secret req) with
        | Deny => Ret (Err (InvalidClient "Client authentication failed"))
        | Allow => redeem_code req ctx auth_code
        end
  end.
End flow.

(** ** Identifiers *)

Lemma jti_of_eq fill :
  jti_of fill =
    let h i := fmt_02x (fill i) in
    h 0 +:+ h 1 +:+ h 2 +:+ h 3 +:+ "-" +:+ h 4 +:+ h 5 +:+ "-" +:+
    fmt_02x (set_version (fill 6)) +:+ h 7 +:+ "-" +:+
    fmt_02x (set_variant (fill 8)) +:+ h 9 +:+ "-" +:+
    h 10 +:+ h 11 +:+ h 12 +:+ h 13 +:+ h 14 +:+ h 15.
Proof. done. Qed.

Lemma fmt_02x_two b : ∃ c d, fmt_02x b = String c (String d "").
Proof. by eexists _, _. Qed.

Lemma fmt_02x_app_inj b b' s s' :
  fmt_02x b +:+ s = fmt_02x b' +:+ s' ↔ b = b' ∧ s = s'.
Proof.
  destruct (fmt_02x_two b) as (c & d & Hb), (fmt_02x_two b') as (c' & d' & Hb').
  rewrite Hb, Hb'. simpl_str. split.
  - intros [= -> -> ->]. split; [|done]. apply (inj fmt_02x). congruence.
  - intros [-> ->]. by rewrite Hb in Hb'; simplify_eq.
Qed.

Lemma dash_app_inj s s' : "-" +:+ s = "-" +:+ s' ↔ s = s'.
Proof. simpl_str. naive_solver. Qed.

(** The version digit is 4 and the variant digit one of [89ab]. *)
Lemma set_version_hex b : ∃ c, fmt_02x (set_version b) = String "4"%char (String c "").
Proof. destruct b; eexists; vm_compute; reflexivity. Qed.

Lemma set_variant_hex b :
  ∃ v c, fmt_02x (set_variant b) = String v (String c "") ∧ v ∈ ["8"; "9"; "a"; "b"]%char.
Proof.
  destruct b; eexists _, _; (split; [vm_compute; reflexivity|]);
    repeat (apply list_elem_of_here || apply list_elem_of_further).
Qed.

(** Forcing bits outside a mask forgets nothing inside it. *)
Lemma masked_u8_eq m v x y :
  Z.land 255 m = m → Z.land v m = 0%Z →
  u8_of (Z.lor (Z.land x m) v) = u8_of (Z.lor (Z.land y m) v) ↔ Z.land x m = Z.land y m.
Proof.
  intros Hm Hv. split; [|by intros ->]. intros E%(f_equal u8_val).
  assert (Hin : ∀ z, Z.land (u8_val (u8_of (Z.lor (Z.land z m) v))) m = Z.land z m).
  { intros z. rewrite u8_val_of. change 256%Z with (2 ^ 8)%Z. rewrite <- Z.land_ones by lia.
    rewrite <- Z.land_assoc. change (Z.ones 8) with 255%Z.
    by rewrite Hm, Z.land_lor_distr_l, <- Z.land_assoc, Z.land_diag, Hv, Z.lor_0_r. }
  by rewrite <- (Hin x), E, Hin.
Qed.

Lemma set_version_eq b b' :
  set_version b = set_version b' ↔ Z.land (u8_val b) 0x0f = Z.land (u8_val b') 0x0f.
Proof. by apply masked_u8_eq. Qed.

Lemma set_variant_eq b b' :
  set_variant b = set_variant b' ↔ Z.land (u8_val b) 0x3f = Z.land (u8_val b') 0x3f.
Proof. by apply masked_u8_eq. Qed.

(** The random bits of a buffer that the identifier keeps: 122 of the 128. *)
Definition random_bits (fill : nat → byte) : list Z :=
  imap (λ i b, match i with
               | 6 => Z.land (u8_val b) 0x0f
               | 8 => Z.land (u8_val b) 0x3f
               | _ => u8_val b
               end) (fill <$> seq 0 16).

Lemma jti_of_inj fill fill' : jti_of fill = jti_of fill' ↔ random_bits fill = random_bits fill'.
Proof.
  rewrite !jti_of_eq. cbv zeta.
  repeat first [rewrite fmt_02x_app_inj | rewrite dash_app_inj].
  rewrite set_version_eq, set_variant_eq. unfold random_bits. simpl.
  assert (Hval : ∀ b b', u8_val b = u8_val b' ↔ b = b')
    by (intros; split; [apply (inj u8_val)|by intros ->]).
  rewrite <- !Hval. split.
  - intros H. destruct_and! H.
    match goal with H : fmt_02x _ = _ |- _ => apply (inj fmt_02x) in H; rewrite H end.
    by repeat match goal with H : ?a = ?b |- context [?a] => rewrite H; clear H end.
  - intros [=]. split_and!; try done. f_equal. by apply (inj u8_val).
Qed.

Lemma run_random_jti {S} `{TokenStore S} (w : World S) :
  run random_jti w = (Done (jti_of (w_random w 0)), draw w).
Proof. done. Qed.

(** C28: [random_jti] draws one buffer and prints a version 4 UUID: 36 ASCII
    characters with dashes, version digit and variant digit in their places; two
    identifiers coincide exactly when the 122 random bits they keep do. *)
Theorem random_jti_uuid_v4 {S} `{TokenStore S} (w w' : World S) :
  let jti := jti_of (w_random w 0) in
  run random_jti w = (Done jti, draw w) ∧
  length (as_bytes jti) = 36 ∧
  (∀ i, i ∈ [8; 13; 18; 23] → String.get i jti = Some "-"%char) ∧
  String.get 14 jti = Some "4"%char ∧
  (∃ v, String.get 19 jti = Some v ∧ v ∈ ["8"; "9"; "a"; "b"]%char) ∧
  ((run random_jti w').1 = Done jti ↔
   random_bits (w_random w' 0) = random_bits (w_random w 0)).
Proof.
  intros jti. split; [done|]. split_and!.
  - done.
  - intros i Hi. rewrite !elem_of_cons, elem_of_nil in Hi.
    by destruct_or! Hi; subst.
  - unfold jti. rewrite jti_of_eq. destruct (set_version_hex (w_random w 0 6)) as [c Hc].
    cbv zeta. rewrite Hc. done.
  - unfold jti. rewrite jti_of_eq.
    destruct (set_variant_hex (w_random w 0 8)) as (v & c & Hc & Hv).
    cbv zeta. rewrite Hc. exists v. done.
  - unfold jti. rewrite run_random_jti. cbn [fst]. by rewrite Done_eq, jti_of_inj.
Qed.

(** ** What a redemption checks *)

Section flow_lemmas.
Context `{BuildProfile, Hashes, Base64, Rsa, Jwt, CborErrors,
  !Cbor (TimestampedContainer AuthorizationCode), !Cbor SignedAuthorizationCode}.
Implicit Types (self : OIDCAuthCodePKCEFlow) (req : AccessTokenRequest)
  (ctx : TokenIssueContext) (code : AuthorizationCode).

(** The client of a request is registered with this redirect URI, and is public
    or presents its own secret. *)
Definition client_admitted (clients : ClientRegistry) req : Prop :=
  ∃ c, find_by_id clients (tr_client req) = Some c ∧
    tr_redirect_uri req ∈ cc_redirect_uris c ∧
    match cc_client_secret c with
    | None => True
    | Some s => tr_client_secret req = Some s
    end.

(** The abstract condition for a code string to be worth tokens at an instant:
    it opens, under the key of the flow, to a code that is fresh, was issued to
    the client and redirect URI of the request, and whose challenge the request
    answers. *)
Definition redeemable self (clients : ClientRegistry) req (now : SystemTime) code : Prop :=
  (∃ t, open_code (hmac_key self) (tr_code req) = Ok (mkTimestamped code t) ∧
        (t ≤ now < t + code_max_age self)%Z) ∧
  ac_client_id code = tr_client req ∧ ac_redirect_uri code = tr_redirect_uri req ∧
  pkce_matches code (tr_code_verifier req) ∧ client_admitted clients req.

(** The checks of [access_token_request] as a function of the one clock reading
    they take, in the order in which they are made. *)
Definition check_code self (clients : ClientRegistry) req (now : SystemTime) :
    result AuthorizationCode OIDCError :=
  let? c := map_err map_code_verification_error (open_code (hmac_key self) (tr_code req)) in
  if negb (fresh_at (timestamp c) (code_max_age self) now)
  then Err (InvalidGrant "Authorization code has expired")
  else
    let? _ := map_err map_token_request_error
      (validate_token_request (content c) (tr_client req) (tr_redirect_uri req)
         (tr_code_verifier req)) in
    if negb (validate_redirect_uri clients (tr_client req) (tr_redirect_uri req))
    then Err (InvalidGrant "Invalid redirect_uri for this client")
    else
      match validate_client_secret clients (tr_client req) (tr_client_secret req) with
      | Deny => Err (InvalidClient "Client authentication failed")
      | Allow => Ok (content c)
      end.

Lemma fresh_at_iff t max_age now : fresh_at t max_age now = true ↔ (t ≤ now < t + max_age)%Z.
Proof. unfold fresh_at. rewrite andb_true_iff, Z.leb_le, Z.ltb_lt. lia. Qed.

Lemma client_admitted_iff clients req :
  validate_redirect_uri clients (tr_client req) (tr_redirect_uri req) = true ∧
  validate_client_secret clients (tr_client req) (tr_client_secret req) = Allow ↔
  client_admitted clients req.
Proof.
  rewrite validate_redirect_uri_iff, validate_client_secret_Allow. unfold client_admitted.
  destruct (find_by_id clients (tr_client req)); naive_solver.
Qed.

Lemma check_code_Ok self clients req now code :
  check_code self clients req now = Ok code ↔ redeemable self clients req now code.
Proof.
  unfold check_code, redeemable. rewrite <- client_admitted_iff, rbind_Ok.
  setoid_rewrite map_err_Ok. split.
  - intros ([x t] & Hopen & Hc). simpl in Hc.
    destruct (fresh_at t (code_max_age self) now) eqn:Hf; [|done]. apply fresh_at_iff in Hf.
    cbn [negb] in Hc.
    apply rbind_Ok in Hc as ([] & (? & ? & ?)%map_err_Ok%validate_token_request_Ok & Hc).
    destruct (validate_redirect_uri _ _ _) eqn:Hr; [|done].
    destruct (validate_client_secret _ _ _) eqn:Hs; [|done].
    injection Hc as ->. split_and!; eauto.
  - intros ((t & Hopen & Hf%fresh_at_iff) & Hc & Hu & Hp & Hr & Hs).
    exists (mkTimestamped code t). split; [done|]. simpl. rewrite Hf. cbn [negb].
    rewrite (proj2 (validate_token_request_Ok _ _ _ _) (conj Hc (conj Hu Hp))). simpl.
    by rewrite Hr, Hs.
Qed.

(** A failed check is an [invalid_grant], or [invalid_client] when only the
    authentication of the client failed. *)
Lemma check_code_Err self clients req now e :
  check_code self clients req now = Err e →
  error_code e = "invalid_grant" ∨ error_code e = "invalid_client".
Proof.
  unfold check_code. intros [He|([x t] & _ & Hc)]%rbind_Err.
  { apply map_err_Err in He as ([] & _ & ->); by left. }
  destruct (fresh_at _ _ _); cbn [negb] in Hc; [|by simplify_eq; left].
  apply rbind_Err in Hc as [(e' & _ & ->)%map_err_Err|([] & _ & Hc)]; [by left|].
  destruct (validate_redirect_uri _ _ _); cbn [negb] in Hc; [|by simplify_eq; left].
  destruct (validate_client_secret _ _ _); simplify_eq; by right.
Qed.

Lemma redeemable_check self clients req now :
  (∃ code, redeemable self clients req now code) ∨
  (∃ e, check_code self clients req now = Err e ∧ ∀ code, ¬ redeemable self clients req now code).
Proof.
  destruct (check_code self clients req now) as [code|e] eqn:E.
  - left. exists code. by apply check_code_Ok.
  - right. exists e. split; [done|]. intros code Hc%check_code_Ok. congruence.
Qed.

Section run.
Context {S : Type} `{TokenStore S}.
Implicit Types w : World S.

(** The world after the checks: the clock is read iff the code string opens. *)
Definition checked self req w : World S :=
  if is_ok (open_code (hmac_key self) (tr_code req)) then tick w else w.

Lemma w_store_checked self req w : w_store (checked self req w) = w_store w.
Proof. unfold checked. by destruct (is_ok _). Qed.

Lemma run_access_token_request self req ctx w :
  run (access_token_request self req ctx) w =
    match check_code self (tic_clients ctx) req (w_clock w 0) with
    | Ok code => run (redeem_code req ctx code) (tick w)
    | Err e => (Done (Err e), checked self req w)
    end.
Proof.
  unfold access_token_request, check_code, checked, AuthorizationCode_decode_and_verify.
  destruct (tr_grant_type req). rewrite run_bind, run_decode_and_verify.
  destruct (open_code _ _) as [[x t]|e]; [|by destruct e]. cbn [is_ok map_err rbind].
  simpl timestamp. simpl content. destruct (fresh_at _ _ _); [|done].
  cbn [map_err pbind_ok pbind negb].
  destruct (validate_token_request _ _ _ _) as [[]|e]; [|done].
  cbn [map_err pbind_ok pbind rbind].
  destruct (validate_redirect_uri _ _ _); [|done]. by destruct (validate_client_secret _ _ _).
Qed.
End run.
End flow_lemmas.

(** ** What a redemption does *)

Section redemption.
Context `{BuildProfile, Hashes, Base64, Rsa, Jwt, CborErrors,
  !Cbor (TimestampedContainer AuthorizationCode), !Cbor SignedAuthorizationCode}.
Context {S : Type} `{TokenStoreSpec S}.
Implicit Types (self : OIDCAuthCodePKCEFlow) (req : AccessTokenRequest)
  (ctx : TokenIssueContext) (code : AuthorizationCode) (w : World S).

(** The response for a code when the tokens are issued at [t_id] and [t_at]:
    both tokens speak of the subject and groups of the code, the ID token to the
    client, the access token about the scope and the identifier [jti]. *)
Definition response_for ctx req code (jti : string) (t_id t_at : SystemTime)
    (rsp : TokenResponse) : Prop :=
  let ji := tic_jwt_issuer ctx in
  (∃ exp, u64_add (unix_secs t_id) (duration_as_secs (tic_id_token_ttl ctx)) = Done exp ∧
    jwt_encode (jwt_header ji) (to_json (mkIdTokenClaims (issuer ji) (ac_subject code)
      (tr_client req) exp (unix_secs t_id) (ac_nonce code) (Some (ac_groups code))))
      (encoding_key ji) = Ok (rsp_id_token rsp)) ∧
  (∃ exp, u64_add (unix_secs t_at) (duration_as_secs (tic_access_token_ttl ctx)) = Done exp ∧
    jwt_encode (jwt_header ji) (to_json (mkAccessTokenClaims (issuer ji) (ac_subject code)
      (issuer ji) exp (unix_secs t_at) jti (ac_scope code) (ac_groups code) (tr_client req)))
      (encoding_key ji) = Ok (rsp_access_token rsp)) ∧
  rsp_token_type rsp = "Bearer" ∧
  rsp_expires_in rsp = duration_as_secs (tic_access_token_ttl ctx) ∧
  rsp_scope rsp = Some (str_join " " (ac_scope code)).

(** The record kept for the access token. *)
Definition record_for ctx req code (jti : string) (now : SystemTime) : TokenRecord :=
  mkTokenRecord (ac_subject code) (tr_client req) (ac_scope code) (ac_groups code)
    (now + tic_access_token_ttl ctx)%Z jti.

(** The three ways the second half ends, and what each leaves in the store: the
    code is consumed in any case; only a response comes with a record. *)
Definition redemption_effect req ctx code w (r : outcome (result TokenResponse OIDCError) * World S)
    : Prop :=
  let key := code_replay_key (tr_code req) in
  let before := w_store w in
  let after := w_store r.2 in
  store_ok after ∧ store_consumed after = {[key]} ∪ store_consumed before ∧
  match r.1 with
  | Done (Ok rsp) =>
      key ∉ store_consumed before ∧
      let jti := jti_of (w_random w 0) in
      response_for ctx req code jti (w_clock w 0) (w_clock w 1) rsp ∧
      store_records after =
        <[jti := record_for ctx req code jti (w_clock w 2)]> (store_records before)
  | Done (Err e) =>
      store_records after = store_records before ∧
      (key ∈ store_consumed before ∧
         e = InvalidGrant "Authorization code has already been used" ∨
       key ∉ store_consumed before ∧ error_code e = "server_error")
  | Panicked _ => key ∉ store_consumed before ∧ store_records after = store_records before
  end.

Lemma store_free_same {A} (p : prog A) w r w' :
  store_free p → run p w = (r, w') → w_store w' = w_store w.
Proof. intros Hp E. pose proof (run_store_free p w Hp) as Hs. by rewrite E in Hs. Qed.

Lemma redeem_code_effect req ctx code w :
  store_ok (w_store w) → redemption_effect req ctx code w (run (redeem_code req ctx code) w).
Proof.
  intros Hok. unfold redeem_code. cbv zeta. rewrite run_bind.
  destruct (run_ts_consume_code (code_replay_key (tr_code req)) w Hok)
    as (s & -> & Hs & Hrec & Hcons).
  case_bool_decide as Hnew; cbn [negb]; [|unfold redemption_effect; simpl; by eauto 10].
  rewrite run_bind, run_random_jti, run_bind. set (w1 := draw (set_store s w)).
  destruct (run (issue_id_token _ _ _ _ _ _) w1) as [r1 w2] eqn:E1.
  pose proof (store_free_same _ _ _ _ (store_free_issue_id_token _ _ _ _ _ _) E1) as S1.
  assert (Hstop : ∀ w', w_store w' = s →
    (∀ m, redemption_effect req ctx code w (Panicked m, w')) ∧
    (∀ e, redemption_effect req ctx code w (Done (Err (server_error e)), w'))).
  { intros w' Hw'. unfold redemption_effect. simpl. rewrite Hw'. split; intros; split_and!; auto. }
  destruct r1 as [[idt|e]|m]; [|by apply Hstop..].
  apply issue_id_token_claims in E1 as [-> Hid]. cbn [map_err pbind_ok pbind].
  rewrite run_bind.
  destruct (run (issue_access_token _ _ _ _ _ _ _) (tick w1)) as [r2 w3] eqn:E2.
  pose proof (store_free_same _ _ _ _ (store_free_issue_access_token _ _ _ _ _ _ _) E2) as S2.
  destruct r2 as [[att|e]|m]; [|by apply Hstop..].
  apply issue_access_token_claims in E2 as [-> Hat]. cbn [map_err pbind_ok pbind].
  rewrite run_bind, run_now, run_bind, run_lift_outcome.
  destruct (system_time_add _ _) as [ex|m] eqn:E3; [|by apply Hstop].
  rewrite run_bind. apply system_time_add_Done in E3 as ->.
  edestruct (run_ts_issue (jti_of (w_random (set_store s w) 0)) (ac_subject code)
    (tr_client req) (ac_scope code) (ac_groups code)) as (s' & -> & Hs' & Hrec' & Hcons').
  { exact Hs. }
  unfold redemption_effect. simpl. rewrite Hcons', Hrec'. split_and!; [done..|].
  by rewrite <- Hrec.
Qed.
End redemption.

(** Only a clock or a lifetime out of range can make a redemption panic. *)
Section total.
Context `{BuildProfile, Hashes, Base64, Rsa, Jwt, CborErrors,
  !Cbor (TimestampedContainer AuthorizationCode), !Cbor SignedAuthorizationCode}.
Context {S : Type} `{TokenStoreSpec S}.

(** The expiries of the tokens issued in a world can be represented. *)
Definition ttls_fit (ctx : TokenIssueContext) (w : World S) : Prop :=
  ∀ n, exp_fits (tic_id_token_ttl ctx) (w_clock w n) ∧
    exp_fits (tic_access_token_ttl ctx) (w_clock w n) ∧
    (w_clock w n + tic_access_token_ttl ctx < system_time_max)%Z.

Lemma redeem_code_total req ctx code (w : World S) :
  store_ok (w_store w) → ttls_fit ctx w →
  ∃ r w', run (redeem_code req ctx code) w = (Done r, w').
Proof.
  intros Hok Hfit. unfold redeem_code. cbv zeta. rewrite run_bind.
  destruct (run_ts_consume_code (code_replay_key (tr_code req)) w Hok) as (s & -> & Hs & _).
  case_bool_decide; cbn [negb]; [|by eexists _, _].
  rewrite run_bind, run_random_jti, run_bind, run_issue_id_token by apply (Hfit 0).
  destruct (jwt_encode _ _ _); cbn [map_err pbind_ok pbind]; [|by eexists _, _].
  rewrite run_bind, run_issue_access_token by apply (Hfit 1).
  destruct (jwt_encode _ _ _); cbn [map_err pbind_ok pbind]; [|by eexists _, _].
  rewrite run_bind, run_now, run_bind, run_lift_outcome.
  rewrite system_time_add_small by apply (Hfit 2). rewrite run_bind.
  edestruct (run_ts_issue (jti_of (w_random (set_store s w) 0)) (ac_subject code)
    (tr_client req) (ac_scope code) (ac_groups code)) as (s' & -> & _); [exact Hs|].
  by eexists _, _.
Qed.

Lemma access_token_request_total self req ctx (w : World S) :
  store_ok (w_store w) → ttls_fit ctx w →
  ∃ r w', run (access_token_request self req ctx) w = (Done r, w').
Proof.
  intros Hok Hfit. rewrite run_access_token_request.
  destruct (check_code _ _ _ _); [|by eexists _, _].
  apply redeem_code_total; [done|]. intros n. apply (Hfit (Datatypes.S n)).
Qed.

Lemma authorization_request_total self ar (w : World S)
    `{!CborLaws (TimestampedContainer AuthorizationCode) after_epoch} :
  (0 ≤ w_clock w 0)%Z → (0 ≤ w_clock w 1)%Z →
  ∃ r w', run (authorization_request self ar) w = (Done r, w').
Proof.
  intros Ht0 Ht1. unfold authorization_request. rewrite run_bind, run_now, run_bind.
  unfold AuthorizationCode_sign_and_encode. rewrite run_sign_and_encode; [by eexists _, _|].
  by apply (into_writer_ok (P := after_epoch)).
Qed.
End total.

(** ** Properties *)

Section properties.
Context `{BuildProfile, Hashes, Base64, Rsa, Jwt, CborErrors,
  !Cbor (TimestampedContainer AuthorizationCode), !Cbor SignedAuthorizationCode}.
Context {S : Type} `{TokenStoreSpec S}.

Lemma access_token_request_cases (self : OIDCAuthCodePKCEFlow) (req : AccessTokenRequest)
    (ctx : TokenIssueContext) (w : World S) :
  store_ok (w_store w) →
  (∃ code, redeemable self (tic_clients ctx) req (w_clock w 0) code ∧
     redemption_effect req ctx code (tick w) (run (access_token_request self req ctx) w)) ∨
  (∃ e, check_code self (tic_clients ctx) req (w_clock w 0) = Err e ∧
     (∀ code, ¬ redeemable self (tic_clients ctx) req (w_clock w 0) code) ∧
     run (access_token_request self req ctx) w = (Done (Err e), checked self req w)).
Proof.
  intros Hok. rewrite run_access_token_request.
  destruct (redeemable_check self (tic_clients ctx) req (w_clock w 0))
    as [[code Hc]|(e & He & Hno)].
  - left. exists code. split; [done|]. rewrite (proj2 (check_code_Ok _ _ _ _ _) Hc).
    by apply redeem_code_effect.
  - right. exists e. by rewrite He.
Qed.

(** C1: tokens are handed out only for a code that is authentic, fresh, issued to
    this client and redirect URI, bound to the presented proof key, and never
    redeemed before, and only to an authenticated registered client; the code is
    then spent, the response speaks of the subject, nonce, groups and scope of
    the code, and exactly one record, that of the access token, joins the store. *)
Theorem access_token_request_sound (self : OIDCAuthCodePKCEFlow) (req : AccessTokenRequest)
    (ctx : TokenIssueContext) (w w' : World S) (rsp : TokenResponse)
    (Hok : store_ok (w_store w))
    (Hrun : run (access_token_request self req ctx) w = (Done (Ok rsp), w')) :
  let key := code_replay_key (tr_code req) in
  let jti := jti_of (w_random w 0) in
  ∃ code, redeemable self (tic_clients ctx) req (w_clock w 0) code ∧
    key ∉ store_consumed (w_store w) ∧
    store_consumed (w_store w') = {[key]} ∪ store_consumed (w_store w) ∧
    response_for ctx req code jti (w_clock w 1) (w_clock w 2) rsp ∧
    store_records (w_store w') =
      <[jti := record_for ctx req code jti (w_clock w 3)]> (store_records (w_store w)).
Proof.
  destruct (access_token_request_cases self req ctx w Hok) as [(code & Hc & He)|(e & _ & _ & E)];
    [|by rewrite E in Hrun].
  rewrite Hrun in He. destruct He as (_ & Hcons & Hnew & Hrsp & Hrec). by exists code.
Qed.

(** C8: whatever goes wrong, nothing is half done: the store gains a record only
    together with a response; a request that fails a check leaves the world's
    store as it was and is answered [invalid_grant] or [invalid_client]; one
    whose code was spent before is [invalid_grant]; and a failure after that
    point is a [server_error] or a panic that has spent the code and recorded
    nothing. *)
Theorem access_token_request_failure (self : OIDCAuthCodePKCEFlow) (req : AccessTokenRequest)
    (ctx : TokenIssueContext) (w w' : World S) (out : outcome (result TokenResponse OIDCError))
    (Hok : store_ok (w_store w))
    (Hrun : run (access_token_request self req ctx) w = (out, w'))
    (Hfail : ∀ rsp, out ≠ Done (Ok rsp)) :
  let key := code_replay_key (tr_code req) in
  store_records (w_store w') = store_records (w_store w) ∧
  ((∀ code, ¬ redeemable self (tic_clients ctx) req (w_clock w 0) code) ∧
     w_store w' = w_store w ∧
     (∃ e, out = Done (Err e) ∧
        (error_code e = "invalid_grant" ∨ error_code e = "invalid_client")) ∨
   (∃ code, redeemable self (tic_clients ctx) req (w_clock w 0) code) ∧
     key ∈ store_consumed (w_store w) ∧
     store_consumed (w_store w') = store_consumed (w_store w) ∧
     (∃ e, out = Done (Err e) ∧ error_code e = "invalid_grant") ∨
   (∃ code, redeemable self (tic_clients ctx) req (w_clock w 0) code) ∧
     key ∉ store_consumed (w_store w) ∧
     store_consumed (w_store w') = {[key]} ∪ store_consumed (w_store w) ∧
     ((∃ e, out = Done (Err e) ∧ error_code e = "server_error") ∨ ∃ m, out = Panicked m)).
Proof.
  intros key.
  destruct (access_token_request_cases self req ctx w Hok) as [(code & Hc & Hr)|(e & He & Hno & E)].
  - rewrite Hrun in Hr. destruct Hr as (_ & Hcons & Hr). simpl in Hcons, Hr.
    destruct out as [[rsp|e]|m]; [by destruct (Hfail rsp)| |].
    + destruct Hr as [Hrec [[Hin ->]|[Hin He]]]; (split; [done|right]);
        [left|right]; split_and!; eauto. rewrite Hcons. set_solver.
    + destruct Hr as [Hin Hrec]. split; [done|]. right; right. eauto 10.
  - rewrite E in Hrun. injection Hrun as <- <-. rewrite w_store_checked. split; [done|].
    left. split_and!; [done..|]. exists e. split; [done|]. by eapply check_code_Err.
Qed.

(** Serving a request that meets every condition. *)
Lemma serve_redeemable (self : OIDCAuthCodePKCEFlow) (req : AccessTokenRequest)
    (ctx : TokenIssueContext) (code : AuthorizationCode) (w : World S) (idt att : string)
    (ji := tic_jwt_issuer ctx) (jti := jti_of (w_random w 0))
    (Hok : store_ok (w_store w))
    (Hred : redeemable self (tic_clients ctx) req (w_clock w 0) code)
    (Hnew : code_replay_key (tr_code req) ∉ store_consumed (w_store w))
    (Hid : exp_fits (tic_id_token_ttl ctx) (w_clock w 1))
    (Hat : exp_fits (tic_access_token_ttl ctx) (w_clock w 2))
    (Hexp : (w_clock w 3 + tic_access_token_ttl ctx < system_time_max)%Z)
    (Hidt : jwt_encode (jwt_header ji) (to_json (id_claims_at ji (ac_subject code)
       (tr_client req) (ac_groups code) (ac_nonce code) (tic_id_token_ttl ctx) (w_clock w 1)))
       (encoding_key ji) = Ok idt)
    (Hatt : jwt_encode (jwt_header ji) (to_json (access_claims_at ji (ac_subject code)
       (tr_client req) (ac_groups code) (ac_scope code) jti (tic_access_token_ttl ctx)
       (w_clock w 2))) (encoding_key ji) = Ok att) :
  ∃ w', run (access_token_request self req ctx) w =
      (Done (Ok (mkTokenResponse att "Bearer" (duration_as_secs (tic_access_token_ttl ctx)) idt
         (Some (str_join " " (ac_scope code))))), w') ∧
    store_ok (w_store w') ∧
    store_consumed (w_store w') =
      {[code_replay_key (tr_code req)]} ∪ store_consumed (w_store w) ∧
    store_records (w_store w') =
      <[jti := record_for ctx req code jti (w_clock w 3)]> (store_records (w_store w)).
Proof.
  rewrite run_access_token_request, (proj2 (check_code_Ok _ _ _ _ _) Hred).
  unfold redeem_code. cbv zeta. rewrite run_bind.
  destruct (run_ts_consume_code (code_replay_key (tr_code req)) (tick w) Hok)
    as (s & -> & Hs & Hrec & Hcons).
  rewrite bool_decide_eq_true_2 by done. cbn [negb].
  rewrite run_bind, run_random_jti, run_bind, run_issue_id_token by done.
  simpl w_clock. fold ji. rewrite Hidt. cbn [map_err pbind_ok pbind].
  rewrite run_bind, run_issue_access_token by done.
  simpl w_clock. simpl w_random. fold ji jti. rewrite Hatt. cbn [map_err pbind_ok pbind].
  rewrite run_bind, run_now, run_bind, run_lift_outcome. simpl w_clock.
  rewrite system_time_add_small by done. rewrite run_bind.
  edestruct (run_ts_issue jti (ac_subject code) (tr_client req) (ac_scope code)
    (ac_groups code)) as (s' & -> & Hs' & Hrec' & Hcons').
  { exact Hs. }
  eexists. split; [done|]. simpl in *. rewrite Hcons', Hrec', Hrec. by split_and!.
Qed.

(** C10: a request that meets every condition is served: with the signatures
    made and the expiries representable, the response is the expected one, the
    code is spent and the access token recorded. *)
Theorem access_token_request_complete (self : OIDCAuthCodePKCEFlow) (req : AccessTokenRequest)
    (ctx : TokenIssueContext) (code : AuthorizationCode) (w : World S) (idt att : string)
    (ji := tic_jwt_issuer ctx) (jti := jti_of (w_random w 0))
    (Hok : store_ok (w_store w))
    (Hred : redeemable self (tic_clients ctx) req (w_clock w 0) code)
    (Hnew : code_replay_key (tr_code req) ∉ store_consumed (w_store w))
    (Hid : exp_fits (tic_id_token_ttl ctx) (w_clock w 1))
    (Hat : exp_fits (tic_access_token_ttl ctx) (w_clock w 2))
    (Hexp : (w_clock w 3 + tic_access_token_ttl ctx < system_time_max)%Z)
    (Hidt : jwt_encode (jwt_header ji) (to_json (id_claims_at ji (ac_subject code)
       (tr_client req) (ac_groups code) (ac_nonce code) (tic_id_token_ttl ctx) (w_clock w 1)))
       (encoding_key ji) = Ok idt)
    (Hatt : jwt_encode (jwt_header ji) (to_json (access_claims_at ji (ac_subject code)
       (tr_client req) (ac_groups code) (ac_scope code) jti (tic_access_token_ttl ctx)
       (w_clock w 2))) (encoding_key ji) = Ok att) :
  ∃ w', run (access_token_request self req ctx) w =
      (Done (Ok (mkTokenResponse att "Bearer" (duration_as_secs (tic_access_token_ttl ctx)) idt
         (Some (str_join " " (ac_scope code))))), w') ∧
    store_ok (w_store w') ∧
    store_consumed (w_store w') =
      {[code_replay_key (tr_code req)]} ∪ store_consumed (w_store w) ∧
    store_records (w_store w') =
      <[jti := record_for ctx req code jti (w_clock w 3)]> (store_records (w_store w)).
Proof. by apply serve_redeemable with (code := code). Qed.

(** C2: a code string is worth tokens at most once: after a response, whatever
    requests are served in between and whenever the clock says it is, presenting
    the same string again, by any client and to any flow sharing the store, ends
    in an error without touching the records. *)
Theorem code_single_use {A} (self self' : OIDCAuthCodePKCEFlow) (req req' : AccessTokenRequest)
    (ctx ctx' : TokenIssueContext) (between : prog A) (w w1 w2 : World S)
    (rsp : TokenResponse)
    (Hok : store_ok (w_store w))
    (Hfirst : run (access_token_request self req ctx) w = (Done (Ok rsp), w1))
    (Hbetween : w_store w2 = w_store (run between w1).2)
    (Hcode : tr_code req' = tr_code req) :
  ∃ e w3, run (access_token_request self' req' ctx') w2 = (Done (Err e), w3) ∧
    (error_code e = "invalid_grant" ∨ error_code e = "invalid_client") ∧
    store_records (w_store w3) = store_records (w_store w2).
Proof.
  destruct (access_token_request_cases self req ctx w Hok) as [(code & _ & He)|(e & _ & _ & E)];
    [|by rewrite E in Hfirst].
  rewrite Hfirst in He. destruct He as (Hok1 & Hcons & _). simpl in Hok1, Hcons.
  destruct (run_store_ok between w1 Hok1) as [Hok2 Hsub]. rewrite <- Hbetween in Hok2, Hsub.
  assert (Hspent : code_replay_key (tr_code req') ∈ store_consumed (w_store w2))
    by (rewrite Hcode; set_solver).
  destruct (access_token_request_cases self' req' ctx' w2 Hok2)
    as [(code' & _ & He)|(e & He & _ & E)].
  - destruct (run _ w2) as [[[rsp'|e]|m] w3']; destruct He as (_ & _ & Hr); simpl in Hr.
    + by destruct Hr.
    + destruct Hr as [? [[_ ->]|[? _]]]; [|done]. eexists _, _. split_and!; eauto.
    + by destruct Hr.
  - exists e, (checked self' req' w2). rewrite w_store_checked. split_and!; [done| |done].
    by eapply check_code_Err.
Qed.

(** An authorization request always yields a code, and the string it hands
    out is worth exactly what was asked for: at an instant within the lifetime,
    to the client and redirect URI of the request, against its proof key if it
    sent a challenge, and nothing else; what it opens to is the subject, nonce,
    groups and scope of the request. *)
Theorem authorization_request_redeemable
    (HH : HashesLaws) (HB : Base64Laws)
    (HT : CborLaws (TimestampedContainer AuthorizationCode) after_epoch)
    (HS : CborLaws SignedAuthorizationCode tag_32)
    (self : OIDCAuthCodePKCEFlow) (ar : AuthorizationRequest) (w : World S)
    (Ht0 : (0 ≤ w_clock w 0)%Z) (Ht1 : (0 ≤ w_clock w 1)%Z) :
  let code := mkAuthorizationCode (ar_client_id ar) (ar_redirect_uri ar) (ar_code_challenge ar)
    (ar_code_challenge_method ar) (w_clock w 0) (ar_subject ar) (ar_nonce ar)
    (ar_groups ar) (ar_scope ar) in
  ∃ encoded,
    run (authorization_request self ar) w = (Done (Ok (code, encoded)), tick (tick w)) ∧
    ∀ clients req now code', tr_code req = encoded →
      redeemable self clients req now code' ↔
      code' = code ∧ (w_clock w 1 ≤ now < w_clock w 1 + code_max_age self)%Z ∧
      tr_client req = ar_client_id ar ∧ tr_redirect_uri req = ar_redirect_uri ar ∧
      pkce_matches code (tr_code_verifier req) ∧ client_admitted clients req.
Proof.
  intros code.
  assert (Hae : after_epoch (mkTimestamped code (w_clock (tick w) 0))) by done.
  exists (encode_stamped (hmac_key self) (mkTimestamped code (w_clock w 1))). split.
  - unfold authorization_request. rewrite run_bind, run_now, run_bind.
    unfold AuthorizationCode_sign_and_encode. fold code.
    by rewrite (run_sign_after_epoch _ _ _ Hae).
  - intros clients req now code' Hcode. unfold redeemable. rewrite Hcode, (open_encode_stamped _ _ Hae).
    split.
    + intros ((t & [= <- <-] & ?) & <- & <- & ? & ?). do 4 (split; [done|]). done.
    + intros (-> & ? & -> & -> & ? & ?). split_and!; [|done..]. by eexists.
Qed.
End properties.
