(* ===== verification/Discovery.v ===== *)
(** * Provider metadata ([src/oidc/endpoints.rs], [src/oidc/discovery.rs]) *)
From S2P Require Import Prelude RustStd Externs.

Record OIDCEndpointPaths := mkEndpointPaths {
  path_authorization_endpoint : string;
  path_token_endpoint : string;
  path_userinfo_endpoint : string;
  path_jwks_uri : string;
}.

#[export] Instance OIDCEndpointPaths_ToJson : ToJson OIDCEndpointPaths := λ p,
  JObj [("authorization_endpoint", JStr (path_authorization_endpoint p));
        ("token_endpoint", JStr (path_token_endpoint p));
        ("userinfo_endpoint", JStr (path_userinfo_endpoint p));
        ("jwks_uri", JStr (path_jwks_uri p))].

#[export] Instance OIDCEndpointPaths_FromJson : FromJson OIDCEndpointPaths := λ j,
  authorization_endpoint ← json_field "authorization_endpoint" j ≫= json_str;
  token_endpoint ← json_field "token_endpoint" j ≫= json_str;
  userinfo_endpoint ← json_field "userinfo_endpoint" j ≫= json_str;
  jwks_uri ← json_field "jwks_uri" j ≫= json_str;
  Some (mkEndpointPaths authorization_endpoint token_endpoint userinfo_endpoint jwks_uri).

(** The [Default] instance. *)
Definition default_paths : OIDCEndpointPaths :=
  mkEndpointPaths "/authorize" "/token" "/userinfo" "/jwks".

Record OIDCDiscovery := mkDiscovery {
  disc_issuer : string;
  authorization_endpoint : string;
  token_endpoint : string;
  userinfo_endpoint : string;
  jwks_uri : string;
  scopes_supported : list string;
  response_types_supported : list string;
  grant_types_supported : list string;
  subject_types_supported : list string;
  id_token_signing_alg_values_supported : list string;
  code_challenge_methods_supported : list string;
}.

#[export] Instance OIDCDiscovery_ToJson : ToJson OIDCDiscovery := λ d,
  JObj [("issuer", JStr (disc_issuer d));
        ("authorization_endpoint", JStr (authorization_endpoint d));
        ("token_endpoint", JStr (token_endpoint d));
        ("userinfo_endpoint", JStr (userinfo_endpoint d));
        ("jwks_uri", JStr (jwks_uri d));
        ("scopes_supported", to_json (scopes_supported d));
        ("response_types_supported", to_json (response_types_supported d));
        ("grant_types_supported", to_json (grant_types_supported d));
        ("subject_types_supported", to_json (subject_types_supported d));
        ("id_token_signing_alg_values_supported",
          to_json (id_token_signing_alg_values_supported d));
        ("code_challenge_methods_supported", to_json (code_challenge_methods_supported d))].

Section discovery.
Context `{UrlLib}.

Definition canonicalize_issuer (issuer : Url) : string :=
  let s := url_to_string issuer in
  if ends_with s "/"%char then drop_last s else s.

(** [base.join(path).unwrap().to_string()]. *)
Definition join_path (base : Url) (path : string) : outcome string :=
  let! u := unwrap (url_join base path) in Done (url_to_string u).

Definition discovery_info (issuer : Url) (paths : OIDCEndpointPaths) : outcome OIDCDiscovery :=
  let canonical_issuer := canonicalize_issuer issuer in
  let base := unwrap_or issuer (url_parse canonical_issuer) in
  let! authorization_endpoint := join_path base (path_authorization_endpoint paths) in
  let! token_endpoint := join_path base (path_token_endpoint paths) in
  let! userinfo_endpoint := join_path base (path_userinfo_endpoint paths) in
  let! jwks_uri := join_path base (path_jwks_uri paths) in
  Done (mkDiscovery canonical_issuer authorization_endpoint token_endpoint userinfo_endpoint
          jwks_uri ["openid"; "email"; "profile"] ["code"] ["authorization_code"] ["public"]
          ["RS256"] ["S256"; "plain"]).

Record DiscoveryManager := mkDiscoveryManager { discovery : OIDCDiscovery }.

Definition DiscoveryManager_new (issuer : Url) (paths : OIDCEndpointPaths) :
    outcome DiscoveryManager :=
  let! d := discovery_info issuer paths in Done (mkDiscoveryManager d).

Definition get_discovery_info (self : DiscoveryManager) : OIDCDiscovery := discovery self.

(** ** Lemmas *)

(** The canonical issuer is the URL without one trailing slash. *)
Lemma canonicalize_issuer_spec u :
  let s := url_to_string u in
  (s = canonicalize_issuer u +:+ "/") ∨
  (s = canonicalize_issuer u ∧ ends_with s "/"%char = false).
Proof.
  unfold canonicalize_issuer. cbv zeta. destruct (ends_with _ _) eqn:E; [left|by right].
  unfold ends_with in E. apply bool_decide_eq_true, str_last_Some in E as [s ->].
  by rewrite drop_last_app.
Qed.

Lemma canonicalize_issuer_iff u s :
  canonicalize_issuer u = s ↔
    url_to_string u = s +:+ "/" ∨ url_to_string u = s ∧ ends_with s "/"%char = false.
Proof.
  split.
  - intros <-. destruct (canonicalize_issuer_spec u) as [E|[E Hs]]; [by left|right].
    by rewrite <- E.
  - unfold canonicalize_issuer. intros [->|[-> ->]]; [|done].
    unfold ends_with. by rewrite str_last_app, bool_decide_eq_true_2, drop_last_app.
Qed.

Lemma default_paths_plain :
  plain_path (path_authorization_endpoint default_paths) ∧
  plain_path (path_token_endpoint default_paths) ∧
  plain_path (path_userinfo_endpoint default_paths) ∧
  plain_path (path_jwks_uri default_paths).
Proof.
  split_and!; eexists; (split; [reflexivity|]); repeat constructor; by vm_compute.
Qed.

Lemma join_path_plain `{!UrlLaws} u o p :
  url_origin u = Some o → plain_path p → join_path u p = Done (o +:+ p).
Proof.
  intros Ho Hp. destruct (url_join_plain u o p Ho Hp) as (u' & Hj & Hs).
  unfold join_path. rewrite Hj. simpl. by rewrite Hs.
Qed.

Lemma discovery_info_issuer u paths d :
  discovery_info u paths = Done d → disc_issuer d = canonicalize_issuer u.
Proof.
  unfold discovery_info.
  intros (? & _ & (? & _ & (? & _ & (? & _ & [= <-])%obind_Done)%obind_Done)%obind_Done)%obind_Done.
  done.
Qed.
End discovery.
