(* ===== verification/Router.v ===== *)
(** * HTTP handlers ([src/oidc/router.rs])

    The five endpoints over the shared [AppState], from deserialised parameters
    and a header map to a response. *)
From S2P Require Import Prelude RustStd Storage Effects Externs Users Client Pkce Timestamp.
From S2P Require Import AuthorizationCode Signature Token Protocol Discovery.

(** ** Parameters and responses *)

Record AuthorizeParams := mkAuthorizeParams {
  ap_response_type : string;
  ap_client_id : string;
  ap_redirect_uri : string;
  ap_scope : option string;
  ap_state : option string;
  ap_code_challenge : option string;
  ap_code_challenge_method : option string;
  ap_nonce : option string;
}.

Record TokenParams := mkTokenParams {
  tp_grant_type : string;
  tp_code : string;
  tp_redirect_uri : string;
  tp_code_verifier : option string;
  tp_client_id : option string;
  tp_client_secret : option string;
}.

Record ErrorResponse := mkErrorResponse { error : string; error_description : option string }.

#[export] Instance ErrorResponse_ToJson : ToJson ErrorResponse := λ r,
  JObj ([("error", JStr (error r))] ++ skip_none "error_description" (error_description r)).

(** A JSON body under a status code, or a redirect to a location. *)
Inductive Response :=
| JsonResponse (status : Z) (body : json)
| RedirectResponse (status : Z) (location : string).

Definition status_for_error (err : OIDCError) : Z :=
  match err with
  | AccessDenied _ => 403
  | InvalidClient _ => 401
  | ServerError _ => 500
  | TemporarilyUnavailable _ => 503
  | _ => 400
  end.

Definition OIDCError_into_response (self : OIDCError) : Response :=
  let body := mkErrorResponse (error_code self) (Some (OIDCError_to_string self)) in
  JsonResponse (status_for_error self) (to_json body).

Definition unauthenticated_error (description : string) : Response :=
  JsonResponse 401 (to_json (mkErrorResponse "invalid_token" (Some description))).

(** [Json(v)] and [Redirect::temporary(uri)] as responses. *)
Definition Json {T} `{ToJson T} (v : T) : Response := JsonResponse 200 (to_json v).
Definition Redirect_temporary (uri : string) : Response := RedirectResponse 307 uri.

Section headers.
Context `{Base64, Http}.

(** [headers.get(name).and_then(|v| v.to_str().ok())]. *)
Definition header_str (headers : HeaderMap) (name : string) : option string :=
  header_get headers name ≫= header_to_str.

Definition parse_basic_auth (headers : HeaderMap) : option string * option string :=
  match header_str headers "authorization" with
  | None => (None, None)
  | Some header =>
      match option_or (strip_prefix "Basic " header) (strip_prefix "basic " header) with
      | None => (None, None)
      | Some e =>
          let encoded := trim e in
          match b64_decode STANDARD encoded with
          | Err _ => (None, None)
          | Ok decoded =>
              match from_utf8 decoded with
              | None => (None, None)
              | Some decoded_str =>
                  match split_once ":"%char decoded_str with
                  | None => (None, None)
                  | Some (id, secret) => (Some id, Some secret)
                  end
              end
          end
      end
  end.
End headers.

Section router.
Context `{BuildProfile, UnicodeCase, Hashes, Base64, Rsa, Jwt, CborErrors,
  !Cbor (TimestampedContainer AuthorizationCode), !Cbor SignedAuthorizationCode, Http, UrlLib}.

(** The token store is the state the handlers share. *)
Record AppState := mkAppState {
  flow : OIDCAuthCodePKCEFlow;
  jwt_issuer : JwtIssuer;
  st_clients : ClientRegistry;
  user_manager : UserManager;
  discovery_manager : DiscoveryManager;
  user_header : string;
  id_token_ttl : Duration;
  access_token_ttl : Duration;
  default_groups : list string;
}.

Definition token_context (self : AppState) : TokenIssueContext :=
  mkTokenIssueContext (st_clients self) (jwt_issuer self) (id_token_ttl self)
    (access_token_ttl self).

Definition discovery_handler (state : AppState) : prog OIDCDiscovery :=
  Ret (get_discovery_info (discovery_manager state)).

Definition parse_challenge_method (m : option string) : result CodeChallengeMethod OIDCError :=
  match m with
  | None => Ok Plain
  | Some other =>
      if bool_decide (other = "S256") then Ok S256
      else if bool_decide (other = "plain") then Ok Plain
      else Err (InvalidRequest ("Unsupported code_challenge_method: " +:+ other))
  end.

(** The redirect of a successful authorization. *)
Definition redirect_location (redirect_uri encoded_code : string) (state : option string) :
    result string OIDCError :=
  let? redirect_url := map_err (λ e, ServerError ("Invalid redirect_uri: " +:+ e))
                         (url_parse redirect_uri) in
  let redirect_url := url_append_pair redirect_url "code" encoded_code in
  let redirect_url := match state with
                      | Some state_val => url_append_pair redirect_url "state" state_val
                      | None => redirect_url
                      end in
  Ok (url_to_string redirect_url).

Definition authorize_handler (state : AppState) (headers : HeaderMap)
    (params : AuthorizeParams) : prog (result Response OIDCError) :=
  let*? _response_type := Ret (ResponseType_from_str (ap_response_type params)) in
  let*? code_challenge_method := Ret (parse_challenge_method (ap_code_challenge_method params)) in
  let*? client := Ret (ok_or (UnauthorizedClient ("Unknown client_id: " +:+ ap_client_id params))
    (find_by_id (st_clients state) (ap_client_id params))) in
  if negb (validate_redirect_uri (st_clients state) (ap_client_id params)
             (ap_redirect_uri params))
  then Ret (Err (InvalidRequest "Invalid redirect_uri for this client"))
  else
    let*? header_value :=
      Ret (ok_or (AccessDenied ("Missing required header: " +:+ user_header state))
             (header_str headers (user_header state))) in
    let* r := lift_outcome (resolve (user_manager state) header_value) in
    let*? user := Ret (map_err (λ e, AccessDenied ("Failed to resolve user: " +:+
                    UserError_to_string e)) r) in
    let groups := resolve_groups (cc_groups client) (default_groups state) in
    let scope := match ap_scope params with Some s => split_whitespace s | None => [] end in
    let*? code_enc := authorization_request (flow state)
      (mkAuthorizationRequest (ap_client_id params) (ap_redirect_uri params)
         (ap_code_challenge params) code_challenge_method (subject user) (ap_nonce params)
         groups scope) in
    let*? location := Ret (redirect_location (ap_redirect_uri params) code_enc.2
                             (ap_state params)) in
    Ret (Ok (Redirect_temporary location)).

Definition token_handler (state : AppState) (headers : HeaderMap) (params : TokenParams) :
    prog (result TokenResponse OIDCError) :=
  let*? grant_type := Ret (GrantType_from_str (tp_grant_type params)) in
  let '(basic_client_id, basic_client_secret) := parse_basic_auth headers in
  let*? client_id := Ret (ok_or (InvalidRequest "Missing client_id")
                            (option_or basic_client_id (tp_client_id params))) in
  let client_secret := option_or basic_client_secret (tp_client_secret params) in
  access_token_request (flow state)
    (mkAccessTokenRequest grant_type client_id client_secret (tp_code params)
       (tp_redirect_uri params) (tp_code_verifier params))
    (token_context state).

Definition verify_bearer_token (state : AppState) (headers : HeaderMap) :
    prog (result AccessTokenClaims Response) :=
  let*? auth_header := Ret (ok_or (unauthenticated_error "Missing Authorization header")
                              (header_str headers "authorization")) in
  let*? token := Ret (ok_or
    (unauthenticated_error "Authorization header must use Bearer scheme")
    (strip_prefix "Bearer " auth_header)) in
  let* r := verify_access_token (jwt_issuer state) token in
  Ret (map_err (λ _, unauthenticated_error "Invalid or expired access token") r).

(** The [json!] object of [/userinfo], its fields in the order they are written
    (as text, [serde_json] sorts them). *)
Definition userinfo_json (record : TokenRecord) : json :=
  JObj [("sub", JStr (tr_subject record)); ("groups", to_json (tr_groups record));
        ("scope", to_json (tr_scope record)); ("client_id", JStr (tr_client_id record))].

Definition userinfo_handler (state : AppState) (headers : HeaderMap) :
    prog (result json Response) :=
  let*? claims := verify_bearer_token state headers in
  let* record := ts_lookup (at_jti claims) in
  let*? record := Ret (ok_or (unauthenticated_error "Token has been revoked or is unknown")
                         record) in
  Ret (Ok (userinfo_json record)).

Definition jwks_handler (state : AppState) : prog Jwks := Ret (get_jwks (jwt_issuer state)).

(** ** The router *)

(** A request as its handler sees it, after axum's extractors. *)
Inductive Request :=
| DiscoveryRequest
| AuthorizeRequest (headers : HeaderMap) (params : AuthorizeParams)
| TokenRequest (headers : HeaderMap) (params : TokenParams)
| UserinfoRequest (headers : HeaderMap)
| JwksRequest.

(** [oidc_router]: the method and path under which each handler is registered. *)
Definition request_route (r : Request) : Method * string :=
  match r with
  | DiscoveryRequest => (GET, "/.well-known/openid-configuration")
  | AuthorizeRequest _ _ => (GET, "/authorize")
  | TokenRequest _ _ => (POST, "/token")
  | UserinfoRequest _ => (GET, "/userinfo")
  | JwksRequest => (GET, "/jwks")
  end.

(** [IntoResponse] of a handler's result. *)
Definition into_response {T E} (ok : T → Response) (err : E → Response) (r : result T E) :
    Response :=
  match r with Ok v => ok v | Err e => err e end.

Definition oidc_router (state : AppState) (r : Request) : prog Response :=
  match r with
  | DiscoveryRequest => let* d := discovery_handler state in Ret (Json d)
  | AuthorizeRequest h p =>
      let* r := authorize_handler state h p in
      Ret (into_response id OIDCError_into_response r)
  | TokenRequest h p =>
      let* r := token_handler state h p in Ret (into_response Json OIDCError_into_response r)
  | UserinfoRequest h =>
      let* r := userinfo_handler state h in Ret (into_response (JsonResponse 200) id r)
  | JwksRequest => let* k := jwks_handler state in Ret (Json k)
  end.
End router.

(** ** Lemmas *)

Section basic_auth.
Context `{Base64, Http, !Base64Laws}.

(** The header a client sends for [client_secret_basic]. *)
Definition basic_header (scheme id secret : string) : string :=
  scheme +:+ b64_encode STANDARD (as_bytes (id +:+ String ":" secret)).

Lemma parse_basic_header h scheme id secret :
  scheme = "Basic " ∨ scheme = "basic " →
  str_mem ":"%char id = false → valid_str (id +:+ String ":" secret) →
  header_str h "authorization" = Some (basic_header scheme id secret) →
  parse_basic_auth h = (Some id, Some secret).
Proof.
  intros Hs Hid Hv Hh. unfold parse_basic_auth. rewrite Hh.
  assert (option_or (strip_prefix "Basic " (basic_header scheme id secret))
            (strip_prefix "basic " (basic_header scheme id secret)) =
          Some (b64_encode STANDARD (as_bytes (id +:+ String ":" secret)))) as ->.
  { unfold basic_header. by destruct Hs as [-> | ->]. }
  rewrite trim_visible by apply b64_encode_visible. rewrite b64_decode_encode.
  rewrite from_utf8_valid by done.
  by rewrite (proj2 (split_once_Some _ _ _ _) (conj eq_refl Hid)).
Qed.
End basic_auth.

Section router_lemmas.
Context `{BuildProfile, UnicodeCase, Hashes, Base64, Rsa, Jwt, CborErrors,
  !Cbor (TimestampedContainer AuthorizationCode), !Cbor SignedAuthorizationCode, Http, UrlLib}.
Context {S : Type} `{TokenStore S}.
Implicit Types (st : AppState) (h : HeaderMap) (w : World S).

(** The authorization request the handler makes for a client and a user. *)
Definition requested st (p : AuthorizeParams) (c : ClientConfig) (m : CodeChallengeMethod)
    (u : User) : AuthorizationRequest :=
  mkAuthorizationRequest (ap_client_id p) (ap_redirect_uri p) (ap_code_challenge p) m
    (subject u) (ap_nonce p) (resolve_groups (cc_groups c) (default_groups st))
    (match ap_scope p with Some s => split_whitespace s | None => [] end).

(** The client and user a request is authorized for. *)
Definition authorizes st h (p : AuthorizeParams) (c : ClientConfig) (m : CodeChallengeMethod)
    (u : User) : Prop :=
  ap_response_type p = "code" ∧ parse_challenge_method (ap_code_challenge_method p) = Ok m ∧
  find_by_id (st_clients st) (ap_client_id p) = Some c ∧
  ap_redirect_uri p ∈ cc_redirect_uris c ∧
  ∃ dn, header_str h (user_header st) = Some dn ∧ resolve (user_manager st) dn = Done (Ok u).

Lemma ResponseType_from_str_Ok s r : ResponseType_from_str s = Ok r ↔ s = "code".
Proof. unfold ResponseType_from_str. destruct r. case_bool_decide; naive_solver. Qed.

Lemma GrantType_from_str_Ok s r : GrantType_from_str s = Ok r ↔ s = "authorization_code".
Proof. unfold GrantType_from_str. destruct r. case_bool_decide; naive_solver. Qed.

Lemma validate_redirect_uri_find reg id uri c :
  find_by_id reg id = Some c → validate_redirect_uri reg id uri = true ↔ uri ∈ cc_redirect_uris c.
Proof. intros Hc. rewrite validate_redirect_uri_iff. naive_solver. Qed.

Lemma run_authorize_handler_Ok st h p w rsp w' :
  run (authorize_handler st h p) w = (Done (Ok rsp), w') ↔
  ∃ c m u ce loc, authorizes st h p c m u ∧
    run (authorization_request (flow st) (requested st p c m u)) w = (Done (Ok ce), w') ∧
    redirect_location (ap_redirect_uri p) ce.2 (ap_state p) = Ok loc ∧
    rsp = Redirect_temporary loc.
Proof.
  unfold authorize_handler, authorizes, requested. rewrite run_bind_ok_Ok.
  setoid_rewrite run_ret_Done. split.
  - intros (r & w0 & (Hr%ResponseType_from_str_Ok & ->) & Hrun).
    apply run_bind_ok_Ok in Hrun as (m & ? & (Hm & ->)%run_ret_Done & Hrun).
    apply run_bind_ok_Ok in Hrun as (c & ? & (Hc%ok_or_Ok & ->)%run_ret_Done & Hrun).
    destruct (validate_redirect_uri _ _ _) eqn:Hu; [|done]. cbn [negb] in Hrun.
    apply run_bind_ok_Ok in Hrun as (dn & ? & (Hdn%ok_or_Ok & ->)%run_ret_Done & Hrun).
    apply run_bind_Done in Hrun as (ru & ? & (Hru & ->)%run_lift_Done & Hrun).
    apply run_bind_ok_Ok in Hrun as (u & ? & (->%map_err_Ok & ->)%run_ret_Done & Hrun).
    apply run_bind_ok_Ok in Hrun as (ce & w1 & Hce & Hrun).
    apply run_bind_ok_Ok in Hrun as (loc & ? & (Hloc & ->)%run_ret_Done & Hrun).
    apply run_ret_Done in Hrun as [[= <-] ->].
    exists c, m, u, ce, loc. split_and!; try done; [|by eexists].
    by eapply validate_redirect_uri_find.
  - intros (c & m & u & ce & loc & (Hr & Hm & Hc & Hu & dn & Hdn & Hres) & Hce & Hloc & ->).
    exists ResponseType_Code, w. split; [split; [by apply ResponseType_from_str_Ok|done]|].
    rewrite run_bind_ok. cbn [run]. rewrite Hm, run_bind_ok, Hc. cbn [ok_or run].
    rewrite (proj2 (validate_redirect_uri_find _ _ _ _ Hc) Hu). cbn [negb].
    rewrite run_bind_ok, Hdn. cbn [ok_or run]. rewrite run_bind, Hres. cbn [lift_outcome run].
    rewrite run_bind_ok. cbn [map_err run]. rewrite run_bind_ok, Hce, run_bind_ok. cbn [run].
    by rewrite Hloc.
Qed.

(** Asking for a code cannot be refused (it can only panic). *)
Lemma authorization_request_not_Err self ar w e :
  (run (authorization_request self ar) w).1 ≠ Done (Err e).
Proof.
  unfold authorization_request. rewrite run_bind, run_now, run_bind.
  by destruct (run (AuthorizationCode_sign_and_encode _ _) _) as [[]].
Qed.

(** A code string is text. *)
Lemma authorization_request_valid (HB : Base64Laws) self ar w ce w' :
  run (authorization_request self ar) w = (Done (Ok ce), w') → valid_str ce.2.
Proof.
  unfold authorization_request.
  intros (now & w1 & _ & (enc & w2 & Henc & [[= <-] _]%run_ret_Done)%run_bind_Done)%run_bind_Done.
  unfold AuthorizationCode_sign_and_encode, sign_and_encode in Henc.
  apply run_bind_Done in Henc as (ts & w3 & _ & Henc). destruct (into_writer ts) as [r d].
  apply run_bind_Done in Henc as (x & w4 & _ & Henc).
  destruct (into_writer (mkSigned _ _)) as [r' d'].
  apply run_ret_Done in Henc as [<- _]. apply ascii_valid, visible_ascii, b64_encode_visible.
Qed.

Lemma store_free_authorization_request self ar : store_free (authorization_request self ar).
Proof.
  apply store_free_bind; [done|]. intros t. apply store_free_bind; [|done].
  apply store_free_sign_and_encode.
Qed.

Lemma store_free_authorize_handler st h p : store_free (authorize_handler st h p).
Proof.
  unfold authorize_handler. do 3 (apply store_free_bind_ok; [done|]; intros ?).
  destruct (negb _); [done|]. apply store_free_bind_ok; [done|]. intros dn.
  apply store_free_bind; [apply store_free_lift_outcome|]. intros r.
  apply store_free_bind_ok; [done|]. intros u.
  apply store_free_bind_ok; [apply store_free_authorization_request|]. intros ce.
  by apply store_free_bind_ok.
Qed.

(** The request [token_handler] makes, when the parameters name a client. *)
Definition token_request h (p : TokenParams) : option AccessTokenRequest :=
  client_id ← option_or (parse_basic_auth h).1 (tp_client_id p);
  Some (mkAccessTokenRequest GrantType_AuthorizationCode client_id
    (option_or (parse_basic_auth h).2 (tp_client_secret p)) (tp_code p)
    (tp_redirect_uri p) (tp_code_verifier p)).

Lemma run_token_handler st h p w :
  run (token_handler st h p) w =
    if bool_decide (tp_grant_type p = "authorization_code") then
      match token_request h p with
      | Some req => run (access_token_request (flow st) req (token_context st)) w
      | None => (Done (Err (InvalidRequest "Missing client_id")), w)
      end
    else (Done (Err (InvalidRequest ("Unsupported grant_type: " +:+ tp_grant_type p))), w).
Proof.
  unfold token_handler, token_request, GrantType_from_str. rewrite run_bind_ok.
  case_bool_decide; [|done]. cbn [run]. destruct (parse_basic_auth h) as [bi bs].
  rewrite run_bind_ok. simpl fst.
  destruct (option_or bi (tp_client_id p)); reflexivity.
Qed.

Lemma run_verify_bearer_token st h w :
  run (verify_bearer_token st h) w =
    match header_str h "authorization" ≫= strip_prefix "Bearer " with
    | Some tok =>
        let '(r, w') := run (verify_access_token (jwt_issuer st) tok) w in
        (match r with
         | Done r => Done (map_err (λ _, unauthenticated_error "Invalid or expired access token") r)
         | Panicked m => Panicked m
         end, w')
    | None =>
        (Done (Err (unauthenticated_error
           (match header_str h "authorization" with
            | None => "Missing Authorization header"
            | Some _ => "Authorization header must use Bearer scheme"
            end))), w)
    end.
Proof.
  unfold verify_bearer_token. rewrite run_bind_ok.
  destruct (header_str h "authorization") as [a|]; [|done]. cbn [ok_or run].
  rewrite run_bind_ok. change (Some a ≫= strip_prefix "Bearer ") with (strip_prefix "Bearer " a).
  destruct (strip_prefix "Bearer " a) as [tok|]; [|reflexivity].
  cbn [ok_or run]. rewrite run_bind. by destruct (run (verify_access_token _ _) w) as [[]].
Qed.
(** A code string is worth a code from an instant on: exactly the requests that
    answer the code within its lifetime can redeem the string. *)
Definition worth (self : OIDCAuthCodePKCEFlow) (encoded : string) (code : AuthorizationCode)
    (t : SystemTime) : Prop :=
  ∀ clients req now code', tr_code req = encoded →
    redeemable self clients req now code' ↔
    code' = code ∧ (t ≤ now < t + code_max_age self)%Z ∧
    tr_client req = ac_client_id code ∧ tr_redirect_uri req = ac_redirect_uri code ∧
    pkce_matches code (tr_code_verifier req) ∧ client_admitted clients req.

(** The code of an authorization at an instant. *)
Definition code_for st (p : AuthorizeParams) (c : ClientConfig) (m : CodeChallengeMethod)
    (u : User) (t : SystemTime) : AuthorizationCode :=
  mkAuthorizationCode (ap_client_id p) (ap_redirect_uri p) (ap_code_challenge p) m t (subject u)
    (ap_nonce p) (resolve_groups (cc_groups c) (default_groups st))
    (match ap_scope p with Some s => split_whitespace s | None => [] end).

(** The location of a redirect with a code string. *)
Definition location_of (p : AuthorizeParams) (url : Url) (encoded : string) : string :=
  let url := url_append_pair url "code" encoded in
  url_to_string match ap_state p with Some s => url_append_pair url "state" s | None => url end.

(** What a refusal of [/authorize] says. *)
Definition authorize_refusal (st : AppState) (h : HeaderMap) (p : AuthorizeParams)
    (e : OIDCError) : Prop :=
  match e with
  | UnsupportedResponseType _ => ap_response_type p ≠ "code" ∧ status_for_error e = 400%Z
  | UnauthorizedClient _ =>
      find_by_id (st_clients st) (ap_client_id p) = None ∧ status_for_error e = 400%Z
  | InvalidRequest _ =>
      ((∃ s, ap_code_challenge_method p = Some s ∧ s ≠ "S256" ∧ s ≠ "plain") ∨
       validate_redirect_uri (st_clients st) (ap_client_id p) (ap_redirect_uri p) = false) ∧
      status_for_error e = 400%Z
  | AccessDenied _ =>
      (header_str h (user_header st) = None ∨
       ∃ dn ue, header_str h (user_header st) = Some dn ∧
         resolve (user_manager st) dn = Done (Err ue)) ∧ status_for_error e = 403%Z
  | ServerError _ =>
      (∃ ue, url_parse (ap_redirect_uri p) = Err ue) ∧ status_for_error e = 500%Z
  | _ => False
  end.

Lemma authorize_handler_refuses st h p w w' e :
  run (authorize_handler st h p) w = (Done (Err e), w') → authorize_refusal st h p e.
Proof.
  intros Hrun. unfold authorize_refusal.
  unfold authorize_handler in Hrun. rewrite run_bind_ok in Hrun. cbn [run] in Hrun.
  destruct (ResponseType_from_str _) as [r|?] eqn:Hr.
  2:{ unfold ResponseType_from_str in Hr. case_bool_decide; by simplify_eq. }
  rewrite run_bind_ok in Hrun. cbn [run] in Hrun.
  destruct (parse_challenge_method _) as [m|?] eqn:Hm.
  2:{ unfold parse_challenge_method in Hm. destruct (ap_code_challenge_method p); [|done].
      repeat case_bool_decide; simplify_eq. naive_solver. }
  rewrite run_bind_ok in Hrun. cbn [run] in Hrun.
  destruct (find_by_id _ _) as [c|] eqn:Hc; cbn [ok_or] in Hrun; [|by simplify_eq].
  destruct (validate_redirect_uri _ _ _) eqn:Hv; cbn [negb] in Hrun;
    [|cbn [run] in Hrun; simplify_eq; split; [by right|done]].
  rewrite run_bind_ok in Hrun. cbn [run] in Hrun.
  destruct (header_str h _) as [dn|] eqn:Hh; cbn [ok_or] in Hrun;
    [|cbn [run] in Hrun; simplify_eq; split; [by left|done]].
  rewrite run_bind, run_lift_outcome in Hrun.
  destruct (resolve _ dn) as [[u|ue]|] eqn:Hu; [| |done].
  2:{ rewrite run_bind_ok in Hrun. cbn [map_err run] in Hrun. simplify_eq. split; [right; by exists dn, ue|done]. }
  rewrite run_bind_ok in Hrun. cbn [map_err run] in Hrun. rewrite run_bind_ok in Hrun.
  destruct (run (authorization_request _ _) w) as [[[ce|e']|] w1] eqn:Ha; [| |done].
  2:{ edestruct authorization_request_not_Err. by rewrite Ha. }
  rewrite run_bind_ok in Hrun. cbn [run] in Hrun. unfold redirect_location in Hrun.
  destruct (url_parse _) as [url|ue]; simplify_eq/=. split; [by eexists|done].
Qed.

End router_lemmas.

(** ** Properties *)

Section properties.
Context `{BuildProfile, UnicodeCase, Hashes, Base64, Rsa, Jwt, CborErrors,
  !Cbor (TimestampedContainer AuthorizationCode), !Cbor SignedAuthorizationCode, Http, UrlLib}.
Context {S : Type} `{TokenStoreSpec S}.

(** A redirect of [/authorize] carries a string that is worth the code of its
    authorization. *)
Lemma authorize_handler_redirects
    (HH : HashesLaws) (HB : Base64Laws)
    (HT : CborLaws (TimestampedContainer AuthorizationCode) after_epoch)
    (HS : CborLaws SignedAuthorizationCode tag_32)
    (st : AppState) (h : HeaderMap) (p : AuthorizeParams) (w w' : World S) (rsp : Response) :
  (0 ≤ w_clock w 0)%Z → (0 ≤ w_clock w 1)%Z →
  run (authorize_handler st h p) w = (Done (Ok rsp), w') →
  w' = tick (tick w) ∧
  ∃ c m u encoded url, authorizes st h p c m u ∧ url_parse (ap_redirect_uri p) = Ok url ∧
    rsp = RedirectResponse 307 (location_of p url encoded) ∧
    worth (flow st) encoded (code_for st p c m u (w_clock w 0)) (w_clock w 1).
Proof.
  intros Ht0 Ht1 (c & m & u & ce & loc & Ha & Hce & Hloc & ->)%run_authorize_handler_Ok.
  destruct (authorization_request_redeemable HH HB HT HS (flow st) (requested st p c m u) w
    Ht0 Ht1) as (enc & Hrun & Hred).
  rewrite Hrun in Hce. injection Hce as <- <-. split; [done|]. exists c, m, u, enc.
  unfold redirect_location in Hloc. apply rbind_Ok in Hloc as (url & Hurl%map_err_Ok & [= <-]).
  exists url. split_and!; done.
Qed.

(** C9: [/authorize] redirects only a request of an identified user for a known
    client to one of that client's registered URIs, and the code it appends is
    worth tokens for exactly that user, client, URI, proof key and scope, within
    its lifetime. *)
Theorem authorize_handler_sound
    (HH : HashesLaws) (HB : Base64Laws)
    (HT : CborLaws (TimestampedContainer AuthorizationCode) after_epoch)
    (HS : CborLaws SignedAuthorizationCode tag_32)
    (st : AppState) (h : HeaderMap) (p : AuthorizeParams) (w w' : World S) (rsp : Response)
    (Ht0 : (0 ≤ w_clock w 0)%Z) (Ht1 : (0 ≤ w_clock w 1)%Z)
    (Hrun : run (authorize_handler st h p) w = (Done (Ok rsp), w')) :
  w' = tick (tick w) ∧
  ∃ c m u encoded url, authorizes st h p c m u ∧ url_parse (ap_redirect_uri p) = Ok url ∧
    (let url := url_append_pair url "code" encoded in
     rsp = RedirectResponse 307 (url_to_string
       match ap_state p with Some s => url_append_pair url "state" s | None => url end)) ∧
    ∀ clients req now code, tr_code req = encoded →
      redeemable (flow st) clients req now code ↔
      code = mkAuthorizationCode (ap_client_id p) (ap_redirect_uri p) (ap_code_challenge p) m
        (w_clock w 0) (subject u) (ap_nonce p)
        (resolve_groups (cc_groups c) (default_groups st))
        (match ap_scope p with Some s => split_whitespace s | None => [] end) ∧
      (w_clock w 1 ≤ now < w_clock w 1 + code_max_age (flow st))%Z ∧
      tr_client req = ap_client_id p ∧ tr_redirect_uri req = ap_redirect_uri p ∧
      pkce_matches code (tr_code_verifier req) ∧ client_admitted clients req.
Proof.
  destruct (authorize_handler_redirects HH HB HT HS st h p w w' rsp Ht0 Ht1 Hrun)
    as (-> & c & m & u & enc & url & Ha & Hurl & -> & Hw).
  split; [done|]. exists c, m, u, enc, url. do 3 (split; [done|]).
  intros clients req now code Hcode. rewrite (Hw clients req now code Hcode).
  split; intros (-> & ?); (split; [done|]); done.
Qed.

(** C21: [/authorize] never touches the store, and each way it refuses has one
    cause, with the status the error class prescribes. *)
Theorem authorize_handler_refusals (st : AppState) (h : HeaderMap) (p : AuthorizeParams)
    (w w' : World S) (e : OIDCError)
    (Hrun : run (authorize_handler st h p) w = (Done (Err e), w')) :
  w_store w' = w_store w ∧
  match e with
  | UnsupportedResponseType _ => ap_response_type p ≠ "code" ∧ status_for_error e = 400%Z
  | UnauthorizedClient _ =>
      find_by_id (st_clients st) (ap_client_id p) = None ∧ status_for_error e = 400%Z
  | InvalidRequest _ =>
      ((∃ s, ap_code_challenge_method p = Some s ∧ s ≠ "S256" ∧ s ≠ "plain") ∨
       validate_redirect_uri (st_clients st) (ap_client_id p) (ap_redirect_uri p) = false) ∧
      status_for_error e = 400%Z
  | AccessDenied _ =>
      (header_str h (user_header st) = None ∨
       ∃ dn ue, header_str h (user_header st) = Some dn ∧
         resolve (user_manager st) dn = Done (Err ue)) ∧ status_for_error e = 403%Z
  | ServerError _ =>
      (∃ ue, url_parse (ap_redirect_uri p) = Err ue) ∧ status_for_error e = 500%Z
  | _ => False
  end.
Proof.
  split; [|by eapply authorize_handler_refuses].
  pose proof (run_store_free _ w (store_free_authorize_handler st h p)) as Hs.
  by rewrite Hrun in Hs.
Qed.

(** C29: credentials in a Basic header are decoded to the very pair the client
    sent, secrets with colons included, and win over credentials in the body. *)
Theorem basic_credentials_win (HB : Base64Laws) (st : AppState) (h : HeaderMap)
    (p : TokenParams) (scheme id secret : string) (w : World S)
    (Hscheme : scheme = "Basic " ∨ scheme = "basic ")
    (Hcolon : str_mem ":"%char id = false)
    (Hvalid : valid_str (id +:+ String ":" secret))
    (Hheader : header_str h "authorization" = Some (basic_header scheme id secret))
    (Hgrant : tp_grant_type p = "authorization_code") :
  run (token_handler st h p) w =
    run (access_token_request (flow st)
      (mkAccessTokenRequest GrantType_AuthorizationCode id (Some secret) (tp_code p)
         (tp_redirect_uri p) (tp_code_verifier p)) (token_context st)) w.
Proof.
  rewrite run_token_handler, bool_decide_eq_true_2 by done. unfold token_request.
  by rewrite (parse_basic_header h scheme id secret).
Qed.

(** What [/userinfo] reads. *)
Lemma userinfo_handler_reads (st : AppState) (h : HeaderMap) (w : World S)
    (Hok : store_ok (w_store w)) :
  let accepted tok c r :=
    header_str h "authorization" = Some ("Bearer " +:+ tok) ∧
    (run (verify_access_token (jwt_issuer st) tok) w).1 = Done (Ok c) ∧
    store_records (w_store w) !! at_jti c = Some r in
  let out := run (userinfo_handler st h) w in
  w_store out.2 = w_store w ∧
  match out.1 with
  | Done (Ok j) => ∃ tok c r, accepted tok c r ∧ j = userinfo_json r
  | Done (Err rsp) =>
      (∃ d, rsp = unauthenticated_error d) ∧ ∀ tok c r, ¬ accepted tok c r
  | Panicked _ => False
  end.
Proof.
  intros accepted out. unfold out, userinfo_handler. rewrite run_bind_ok, run_verify_bearer_token.
  destruct (header_str h "authorization") as [a|] eqn:Ha;
    [|simpl; split_and!; [done|by eexists|]; intros ??? (? & _); congruence].
  change (Some a ≫= strip_prefix "Bearer ") with (strip_prefix "Bearer " a).
  destruct (strip_prefix "Bearer " a) as [tok|] eqn:Hp.
  2:{ simpl. split_and!; [done|by eexists|]. intros tok c r ([= ->] & _).
      by rewrite strip_prefix_app in Hp. }
  apply strip_prefix_Some in Hp as ->.
  assert (Htok : ∀ tok' c r, accepted tok' c r → tok' = tok).
  { intros tok' c r (E & _). apply (inj Some), (f_equal (strip_prefix "Bearer ")) in E.
    rewrite !strip_prefix_app in E. congruence. }
  rewrite run_verify_access_token.
  set (v := let? j := _ in _). destruct v as [c|e] eqn:Hv; cbn [map_err].
  - rewrite run_bind, run_ts_lookup by done. rewrite run_bind_ok. cbn [run].
    destruct (store_records _ !! at_jti c) as [r|] eqn:Hr; cbn [ok_or]; simpl.
    + split; [done|]. exists tok, c, r. split; [|done]. split_and!; [done| |done].
      rewrite run_verify_access_token. by fold v; rewrite Hv.
    + split_and!; [done|by eexists|]. intros tok' c' r' Hacc. pose proof (Htok _ _ _ Hacc) as ->.
      destruct Hacc as (_ & E & Hr'). rewrite run_verify_access_token in E. fold v in E.
      rewrite Hv in E. simpl in E. simplify_eq. simpl in Hr. congruence.
  - simpl. split_and!; [done|by eexists|]. intros tok' c' r' Hacc.
    pose proof (Htok _ _ _ Hacc) as ->. destruct Hacc as (_ & E & _).
    rewrite run_verify_access_token in E. fold v in E. rewrite Hv in E. done.
Qed.

(** C20: [/userinfo] answers with the stored record of a bearer token that
    verifies and is still recorded, and with 401 in every other case; a revoked
    token is refused however valid its signature; the store is only read. *)
Theorem userinfo_handler_decides (st : AppState) (h : HeaderMap) (w : World S)
    (Hok : store_ok (w_store w)) :
  let accepted tok c r :=
    header_str h "authorization" = Some ("Bearer " +:+ tok) ∧
    (run (verify_access_token (jwt_issuer st) tok) w).1 = Done (Ok c) ∧
    store_records (w_store w) !! at_jti c = Some r in
  let out := run (userinfo_handler st h) w in
  w_store out.2 = w_store w ∧
  match out.1 with
  | Done (Ok j) => ∃ tok c r, accepted tok c r ∧ j = userinfo_json r
  | Done (Err rsp) =>
      (∃ d, rsp = unauthenticated_error d) ∧ ∀ tok c r, ¬ accepted tok c r
  | Panicked _ => False
  end.
Proof. by apply userinfo_handler_reads. Qed.

(** A token request that answers the authorization of [p] for client [c] with
    the code string [encoded]. *)
Definition answers (p : AuthorizeParams) (c : ClientConfig) (m : CodeChallengeMethod)
    (encoded : string) (h : HeaderMap) (tp : TokenParams) : Prop :=
  tp_grant_type tp = "authorization_code" ∧ tp_code tp = encoded ∧
  tp_redirect_uri tp = ap_redirect_uri p ∧
  match ap_code_challenge p with
  | None => True
  | Some ch => ∃ v, tp_code_verifier tp = Some v ∧ ch = pkce_challenge m v
  end ∧
  ∃ secret,
    option_or (parse_basic_auth h).1 (tp_client_id tp) = Some (ap_client_id p) ∧
    option_or (parse_basic_auth h).2 (tp_client_secret tp) = secret ∧
    match cc_client_secret c with None => True | Some s => secret = Some s end.

(** The expiries of the tokens issued in a world can be represented. *)
Definition expiries_fit (st : AppState) (w : World S) : Prop :=
  (0 ≤ id_token_ttl st)%Z ∧ (0 ≤ access_token_ttl st)%Z ∧
  exp_fits (id_token_ttl st) (w_clock w 1) ∧
  exp_fits (access_token_ttl st) (w_clock w 2) ∧
  (w_clock w 3 + access_token_ttl st < system_time_max)%Z.

Lemma answers_request p c m encoded h tp :
  answers p c m encoded h tp →
  ∃ req, token_request h tp = Some req ∧ tr_code req = encoded ∧
    tr_client req = ap_client_id p ∧ tr_redirect_uri req = ap_redirect_uri p ∧
    tr_code_verifier req = tp_code_verifier tp ∧
    match cc_client_secret c with None => True | Some s => tr_client_secret req = Some s end.
Proof.
  intros (Hg & <- & Hu & _ & s & Hid & <- & Hs). unfold token_request. rewrite Hid. simpl.
  eexists. by split_and!.
Qed.

(** Redeeming the code of an authorization: what [/token] answers and stores. *)
Lemma token_handler_answers st p c m u code encoded h tp w :
  store_ok (w_store w) → signs (jwt_issuer st) → expiries_fit st w →
  code_replay_key encoded ∉ store_consumed (w_store w) →
  answers p c m encoded h tp →
  find_by_id (st_clients st) (ap_client_id p) = Some c → ap_redirect_uri p ∈ cc_redirect_uris c →
  code = mkAuthorizationCode (ap_client_id p) (ap_redirect_uri p) (ap_code_challenge p) m
    (ac_timestamp code) (subject u) (ap_nonce p)
    (resolve_groups (cc_groups c) (default_groups st))
    (match ap_scope p with Some s => split_whitespace s | None => [] end) →
  (∀ req, tr_code req = encoded → tr_client req = ap_client_id p →
     tr_redirect_uri req = ap_redirect_uri p → pkce_matches code (tr_code_verifier req) →
     client_admitted (st_clients st) req →
     redeemable (flow st) (st_clients st) req (w_clock w 0) code) →
  let jti := jti_of (w_random w 0) in
  ∃ rsp w', run (token_handler st h tp) w = (Done (Ok rsp), w') ∧ store_ok (w_store w') ∧
    rsp_expires_in rsp = duration_as_secs (access_token_ttl st) ∧
    jwt_encode (jwt_header (jwt_issuer st)) (to_json (access_claims_at (jwt_issuer st)
      (subject u) (ap_client_id p) (ac_groups code) (ac_scope code) jti (access_token_ttl st)
      (w_clock w 2))) (encoding_key (jwt_issuer st)) = Ok (rsp_access_token rsp) ∧
    jwt_encode (jwt_header (jwt_issuer st)) (to_json (id_claims_at (jwt_issuer st)
      (subject u) (ap_client_id p) (ac_groups code) (ap_nonce p) (id_token_ttl st)
      (w_clock w 1))) (encoding_key (jwt_issuer st)) = Ok (rsp_id_token rsp) ∧
    store_records (w_store w') !! jti = Some (mkTokenRecord (subject u) (ap_client_id p)
      (ac_scope code) (ac_groups code) (w_clock w 3 + access_token_ttl st)%Z jti).
Proof.
  intros Hok Hsign (Httl & Httl' & Hid & Hat & Hex) Hnew Hans Hc Hu Hcode Hred jti.
  destruct (answers_request _ _ _ _ _ _ Hans) as (req & Hreq & Henc & Hcl & Huri & Hver & Hsec).
  destruct Hans as (Hg & _ & _ & Hp & _).
  rewrite run_token_handler, bool_decide_eq_true_2, Hreq by done.
  destruct (Hsign (to_json (id_claims_at (jwt_issuer st) (ac_subject code) (tr_client req)
    (ac_groups code) (ac_nonce code) (id_token_ttl st) (w_clock w 1)))) as [idt Hidt].
  destruct (Hsign (to_json (access_claims_at (jwt_issuer st) (ac_subject code) (tr_client req)
    (ac_groups code) (ac_scope code) jti (access_token_ttl st) (w_clock w 2)))) as [att Hatt].
  destruct (serve_redeemable (flow st) req (token_context st) code w idt att)
    as (w' & Hrun & Hok' & _ & Hrec); try done.
  { apply Hred; [done..| |].
    - rewrite Hcode. unfold pkce_matches. simpl. by rewrite Hver.
    - exists c. by rewrite Hcl, Huri. }
  { by rewrite Henc. }
  eexists _, w'. split; [exact Hrun|]. rewrite Hrec. unfold record_for.
  rewrite Hcl in *. rewrite Hcode in Hidt, Hatt |- *. simpl in *.
  split_and!; [done..|]. by rewrite lookup_insert_eq.
Qed.

(** The flow of the handlers: an identified user of a registered client is
    redirected with a code; the client, answering within the code's lifetime with
    its own URI, proof key and secret, gets tokens; the ID token verifies, for
    that client, to the user's subject, groups and nonce; and [/userinfo] answers
    the access token with the user's subject, groups and scope, until it expires. *)
Theorem authorize_token_userinfo
    (HH : HashesLaws) (HB : Base64Laws)
    (HT : CborLaws (TimestampedContainer AuthorizationCode) after_epoch)
    (HS : CborLaws SignedAuthorizationCode tag_32) (HJ : JwtLaws)
    (st : AppState) (hA : HeaderMap) (p : AuthorizeParams) (c : ClientConfig)
    (m : CodeChallengeMethod) (u : User) (w : World S)
    (groups := resolve_groups (cc_groups c) (default_groups st))
    (scope := match ap_scope p with Some s => split_whitespace s | None => [] end)
    (Hok : store_ok (w_store w))
    (Hkeys : issuer_keys_match (jwt_issuer st)) (Hsign : signs (jwt_issuer st))
    (Hauth : authorizes st hA p c m u) (Hurl : is_ok (url_parse (ap_redirect_uri p)) = true)
    (Ht0 : (0 ≤ w_clock w 0)%Z) (Ht1 : (0 ≤ w_clock w 1)%Z) :
  ∃ encoded loc,
    run (authorize_handler st hA p) w = (Done (Ok (Redirect_temporary loc)), tick (tick w)) ∧
    redirect_location (ap_redirect_uri p) encoded (ap_state p) = Ok loc ∧ valid_str encoded ∧
    ∀ (w2 : World S) hT tp, w_store w2 = w_store w →
      code_replay_key encoded ∉ store_consumed (w_store w) → answers p c m encoded hT tp →
      (w_clock w 1 ≤ w_clock w2 0 < w_clock w 1 + code_max_age (flow st))%Z →
      expiries_fit st w2 →
      ∃ rsp w3, run (token_handler st hT tp) w2 = (Done (Ok rsp), w3) ∧
        is_u64 (rsp_expires_in rsp) ∧
        (∀ w4 : World S, (0 ≤ w_clock w4 0)%Z →
           (unix_secs (w_clock w4 0) ≤
              unix_secs (w_clock w2 1) + duration_as_secs (id_token_ttl st) + 5)%Z →
           (run (verify_id_token (jwt_issuer st) (rsp_id_token rsp) (ap_client_id p)) w4).1 =
             Done (Ok (id_claims_at (jwt_issuer st) (subject u) (ap_client_id p) groups
               (ap_nonce p) (id_token_ttl st) (w_clock w2 1)))) ∧
        (∀ (w4 : World S) hU, w_store w4 = w_store w3 → (0 ≤ w_clock w4 0)%Z →
           header_str hU "authorization" = Some ("Bearer " +:+ rsp_access_token rsp) →
           (unix_secs (w_clock w4 0) ≤
              unix_secs (w_clock w2 2) + duration_as_secs (access_token_ttl st) + 5)%Z →
           run (userinfo_handler st hU) w4 =
             (Done (Ok (JObj [("sub", JStr (subject u)); ("groups", to_json groups);
                              ("scope", to_json scope); ("client_id", JStr (ap_client_id p))])),
              tick w4)).
Proof.
  destruct (authorization_request_redeemable HH HB HT HS (flow st) (requested st p c m u) w
    Ht0 Ht1) as (enc & Hrun & Hred).
  destruct (url_parse (ap_redirect_uri p)) as [url|] eqn:Hu; [|done].
  assert (∃ loc, redirect_location (ap_redirect_uri p) enc (ap_state p) = Ok loc) as [loc Hloc].
  { unfold redirect_location. rewrite Hu. by eexists. }
  exists enc, loc. split_and!; [|done|by apply (authorization_request_valid HB) in Hrun|].
  { apply run_authorize_handler_Ok. by eexists c, m, u, _, loc. }
  intros w2 hT tp Hst Hnew Hans Hfresh Hfit.
  pose proof Hauth as (_ & _ & Hc & Hreg & _).
  edestruct (token_handler_answers st p c m u) as (rsp & w3 & Hrsp & Hok3 & Hin & Hatt & Hidt & Hrec);
    [by rewrite Hst|done|done|by rewrite Hst|done|done|done| |..].
  2:{ intros req Henc Hcl Huri Hp Had. apply Hred; [done|].
      split; [reflexivity|]. do 3 (split; [done|]). done. }
  { done. }
  change (ac_groups _) with groups in Hatt, Hidt, Hrec. change (ac_scope _) with scope in Hatt, Hrec.
  destruct Hfit as (Hti & Hta & Hfi & Hfa & _).
  exists rsp, w3. split_and!; [done| |..].
  { rewrite Hin. by apply (is_u64_ttl (access_token_ttl st) (w_clock w2 2)). }
  - intros w4 Hw4 Hexp. destruct (is_u64_exp _ _ Hti Hfi) as [He Hi].
    by rewrite (verify_id_fresh (jwt_issuer st) (id_claims_at _ _ _ _ _ _ _) _ w4
      Hkeys He Hi eq_refl Hidt Hw4 Hexp).
  - intros w4 hU Hw4s Hw4 Hh Hexp. destruct (is_u64_exp _ _ Hta Hfa) as [He Hi].
    unfold userinfo_handler. rewrite run_bind_ok, run_verify_bearer_token, Hh.
    change (Some ?x ≫= ?f) with (f x).
    rewrite strip_prefix_app, (verify_access_fresh (jwt_issuer st)
      (access_claims_at _ _ _ _ _ _ _ _) _ w4 Hkeys He Hi eq_refl eq_refl Hatt Hw4 Hexp).
    cbn [map_err]. rewrite run_bind, run_ts_lookup by (simpl; by rewrite Hw4s). simpl w_store.
    rewrite Hw4s. cbn [at_jti access_claims_at]. by rewrite Hrec.
Qed.

Lemma router_reads_only st r w out w' :
  store_ok (w_store w) → run (oidc_router st r) w = (out, w') →
  match r with TokenRequest _ _ => False | _ => True end → w_store w' = w_store w.
Proof.
  intros Hok Hrun Hr. destruct r as [|h p|h p|h|]; cbn [oidc_router] in Hrun; try done.
  - by injection Hrun as _ <-.
  - rewrite run_bind in Hrun.
    pose proof (run_store_free _ w (store_free_authorize_handler st h p)) as Hs.
    destruct (run (authorize_handler st h p) w) as [[]]; cbn [run] in Hrun;
      by injection Hrun as _ <-.
  - rewrite run_bind in Hrun. destruct (userinfo_handler_reads st h w Hok) as [Hs _].
    destruct (run (userinfo_handler st h) w) as [[]]; cbn [run] in Hrun;
      by injection Hrun as _ <-.
  - by injection Hrun as _ <-.
Qed.

(** C17: of all requests the router serves, only a token request changes the
    store, and it adds a record exactly when its answer is a token response,
    which it sends with status 200; codes stay spent. *)
Theorem router_store_effects (st : AppState) (r : Request) (w w' : World S)
    (out : outcome Response) (Hok : store_ok (w_store w))
    (Hrun : run (oidc_router st r) w = (out, w')) :
  store_ok (w_store w') ∧ store_consumed (w_store w) ⊆ store_consumed (w_store w') ∧
  match r with
  | TokenRequest h p =>
      store_records (w_store w') = store_records (w_store w) ∧
        (∀ rsp, out = Done rsp → ∃ status body, rsp = JsonResponse status body ∧ status ≠ 200%Z) ∨
      ∃ rsp req code jti now, out = Done (Json (T := TokenResponse) rsp) ∧
        token_request h p = Some req ∧
        redeemable (flow st) (st_clients st) req (w_clock w 0) code ∧
        store_records (w_store w') =
          <[jti := record_for (token_context st) req code jti now]> (store_records (w_store w))
  | _ => w_store w' = w_store w
  end.
Proof.
  pose proof (run_store_ok (oidc_router st r) w Hok) as Hmono. rewrite Hrun in Hmono.
  split; [apply Hmono|]. split; [apply Hmono|].
  destruct r as [|h p|h p|h|]; try exact (router_reads_only _ _ _ _ _ Hok Hrun I).
  cbn [oidc_router] in Hrun. rewrite run_bind, run_token_handler in Hrun.
  assert (Herr : ∀ e rsp, Done (OIDCError_into_response e) = Done rsp →
    ∃ status body, rsp = JsonResponse status body ∧ status ≠ 200%Z).
  { intros e rsp [= <-]. unfold OIDCError_into_response. eexists _, _. split; [done|].
    by destruct e. }
  case_bool_decide; [|left; injection Hrun as <- <-; split; [done|apply Herr]].
  destruct (token_request h p) as [req|]; [|left; injection Hrun as <- <-; split; [done|apply Herr]].
  destruct (access_token_request_cases (flow st) req (token_context st) w Hok)
    as [(code & Hc & He)|(e & _ & _ & E)].
  - destruct (run (access_token_request _ _ _) w) as [[[rsp|e]|msg] w1];
      cbn [run into_response] in Hrun; injection Hrun as <- <-.
    + destruct He as (_ & _ & _ & _ & Hrec). right. by eexists rsp, req, code, _, _.
    + destruct He as (_ & _ & Hrec & _). left. split; [done|apply Herr].
    + destruct He as (_ & _ & _ & Hrec). by left.
  - rewrite E in Hrun. cbn [run into_response] in Hrun. injection Hrun as <- <-.
    rewrite w_store_checked. left. split; [done|apply Herr].
Qed.

(** C30: the metadata tell the truth: with the default paths, the advertised
    endpoints are the origin of the issuer followed by the very paths the router
    serves, and the advertised response types, grant types and challenge methods
    are exactly the values the endpoints accept. *)
Theorem discovery_advertises (HU : UrlLaws) (issuer : Url) (o : string)
    (Ho : url_origin (unwrap_or issuer (url_parse (canonicalize_issuer issuer))) = Some o) :
  ∃ d, discovery_info issuer default_paths = Done d ∧
    disc_issuer d = canonicalize_issuer issuer ∧
    (∀ h p, authorization_endpoint d = o +:+ (request_route (AuthorizeRequest h p)).2) ∧
    (∀ h p, token_endpoint d = o +:+ (request_route (TokenRequest h p)).2) ∧
    (∀ h, userinfo_endpoint d = o +:+ (request_route (UserinfoRequest h)).2) ∧
    jwks_uri d = o +:+ (request_route JwksRequest).2 ∧
    (∀ s, s ∈ response_types_supported d ↔ is_ok (ResponseType_from_str s) = true) ∧
    (∀ s, s ∈ grant_types_supported d ↔ is_ok (GrantType_from_str s) = true) ∧
    (∀ s, s ∈ code_challenge_methods_supported d ↔
       is_ok (parse_challenge_method (Some s)) = true).
Proof.
  destruct default_paths_plain as (P1 & P2 & P3 & P4). eexists. split.
  { unfold discovery_info. by rewrite !(join_path_plain _ o) by done. }
  split_and!; try done; intros s; simpl; rewrite !elem_of_cons, elem_of_nil.
  - unfold ResponseType_from_str. case_bool_decide; naive_solver.
  - unfold GrantType_from_str. case_bool_decide; naive_solver.
  - unfold parse_challenge_method. repeat case_bool_decide; naive_solver.
Qed.
Lemma authorize_handler_total (HL : HttpLaws)
    (HT : CborLaws (TimestampedContainer AuthorizationCode) after_epoch)
    (st : AppState) (h : HeaderMap) (p : AuthorizeParams) (w : World S) :
  (0 ≤ w_clock w 0)%Z → (0 ≤ w_clock w 1)%Z →
  ∃ r w', run (authorize_handler st h p) w = (Done r, w').
Proof.
  intros Ht0 Ht1. unfold authorize_handler. rewrite run_bind_ok. cbn [run].
  destruct (ResponseType_from_str _); [|by eexists _, _]. rewrite run_bind_ok. cbn [run].
  destruct (parse_challenge_method _); [|by eexists _, _]. rewrite run_bind_ok. cbn [run].
  destruct (ok_or _ _) as [c|e]; [|by eexists _, _].
  destruct (negb _); [by eexists _, _|]. rewrite run_bind_ok. cbn [run].
  destruct (header_str h _) as [dn|] eqn:Hh; cbn [ok_or]; [|by eexists _, _].
  unfold header_str in Hh. apply bind_Some in Hh as (v & _ & Hv%header_to_str_ascii).
  destruct (resolve_total (user_manager st) dn) as [u Hu]; [by apply ascii_valid|].
  rewrite run_bind, run_lift_outcome, Hu, run_bind_ok. cbn [run].
  destruct u as [u|]; cbn [map_err]; [|by eexists _, _]. rewrite run_bind_ok.
  edestruct (authorization_request_total (flow st)) as (r & w' & ->); [exact HT|exact Ht0|exact Ht1|].
  destruct r as [ce|]; [|by eexists _, _]. rewrite run_bind_ok. cbn [run].
  destruct (redirect_location _ _ _); by eexists _, _.
Qed.

(** Every request is answered: while the clock is past the epoch and the
    configured lifetimes fit the time types, no request, whatever its headers and
    parameters, makes a handler panic. *)
Theorem router_total (HL : HttpLaws)
    (HT : CborLaws (TimestampedContainer AuthorizationCode) after_epoch)
    (st : AppState) (r : Request) (w : World S)
    (Hok : store_ok (w_store w)) (Hclock : ∀ n, (0 ≤ w_clock w n)%Z)
    (Hfit : ttls_fit (token_context st) w) :
  ∃ rsp w', run (oidc_router st r) w = (Done rsp, w').
Proof.
  destruct r as [|h p|h p|h|]; cbn [oidc_router]; rewrite run_bind.
  - by eexists _, _.
  - destruct (authorize_handler_total HL HT st h p w) as (r & w' & ->); [done..|].
    by eexists _, _.
  - rewrite run_token_handler. case_bool_decide; [|by eexists _, _].
    destruct (token_request h p) as [req|]; [|by eexists _, _].
    destruct (access_token_request_total (flow st) req (token_context st) w Hok Hfit)
      as (r & w' & ->). by eexists _, _.
  - destruct (userinfo_handler_reads st h w Hok) as [_ Hout].
    destruct (run (userinfo_handler st h) w) as [[r|m] w']; [by eexists _, _|done].
  - by eexists _, _.
Qed.
End properties.
