(* ===== verification/Extractors.v ===== *)
(** * From HTTP requests to handlers ([src/oidc/router.rs])

    What [oidc_router] registers: five routes, each with a method router, the
    extractors of its handler, and the handler.  The parameters of [/authorize]
    come from the query and those of [/token] from the form body, by the derived
    [Deserialize] of [AuthorizeParams] and [TokenParams]; parsing the pairs,
    matching methods and content types, and the framework's own answers are
    axum's. *)
From S2P Require Import Prelude RustStd Storage Effects Wp Externs Users Client Pkce Timestamp.
From S2P Require Import AuthorizationCode Signature Token Protocol Discovery Router.

(** ** Derived [Deserialize] over string pairs *)

Class FromForm (T : Type) := from_form : list (string * string) → result T FormError.

(** The visitor reads the pairs in order: a key it has a value for already is an
    error, an unknown key is ignored. *)
Fixpoint visit_pairs (fields seen : list string) (l : list (string * string)) :
    result unit FormError :=
  match l with
  | [] => Ok tt
  | (k, _) :: l =>
      if bool_decide (k ∈ fields) then
        if bool_decide (k ∈ seen) then Err (DuplicateField k)
        else visit_pairs fields (k :: seen) l
      else visit_pairs fields seen l
  end.

Fixpoint form_get (k : string) (l : list (string * string)) : option string :=
  match l with
  | [] => None
  | (k', v) :: l => if bool_decide (k' = k) then Some v else form_get k l
  end.

(** A [String] field. *)
Definition form_field (k : string) (l : list (string * string)) : result string FormError :=
  ok_or (MissingField k) (form_get k l).

Definition AuthorizeParams_fields : list string :=
  ["response_type"; "client_id"; "redirect_uri"; "scope"; "state"; "code_challenge";
   "code_challenge_method"; "nonce"].

#[export] Instance AuthorizeParams_FromForm : FromForm AuthorizeParams := λ l,
  let? _ := visit_pairs AuthorizeParams_fields [] l in
  let? response_type := form_field "response_type" l in
  let? client_id := form_field "client_id" l in
  let? redirect_uri := form_field "redirect_uri" l in
  Ok (mkAuthorizeParams response_type client_id redirect_uri (form_get "scope" l)
        (form_get "state" l) (form_get "code_challenge" l)
        (form_get "code_challenge_method" l) (form_get "nonce" l)).

Definition TokenParams_fields : list string :=
  ["grant_type"; "code"; "redirect_uri"; "code_verifier"; "client_id"; "client_secret"].

#[export] Instance TokenParams_FromForm : FromForm TokenParams := λ l,
  let? _ := visit_pairs TokenParams_fields [] l in
  let? grant_type := form_field "grant_type" l in
  let? code := form_field "code" l in
  let? redirect_uri := form_field "redirect_uri" l in
  Ok (mkTokenParams grant_type code redirect_uri (form_get "code_verifier" l)
        (form_get "client_id" l) (form_get "client_secret" l)).

(** ** The routes *)

Section http.
Context `{BuildProfile, UnicodeCase, Hashes, Base64, Rsa, Jwt, CborErrors,
  !Cbor (TimestampedContainer AuthorizationCode), !Cbor SignedAuthorizationCode, Http, UrlLib,
  FormUrlencoded, !Axum}.

(** A request as it arrives: the URI is a path and, after [?], a query. *)
Record HttpRequest := mkHttpRequest {
  rq_method : HttpMethod;
  rq_path : string;
  rq_query : option string;
  rq_headers : HeaderMap;
  rq_body : list byte;
}.

Inductive HttpResponse :=
| Handled (r : Response)
| Rejected (r : Rejection).

(** [Query(params): Query<AuthorizeParams>]. *)
Definition extract_query {T} `{FromForm T} (r : HttpRequest) : result T Rejection :=
  map_err QueryRejection (from_form (form_parse (as_bytes (default "" (rq_query r))))).

(** [Form(params): Form<TokenParams>], under [post]. *)
Definition extract_form {T} `{FromForm T} (r : HttpRequest) : result T Rejection :=
  if negb (is_form (rq_headers r)) then Err FormContentType
  else map_err FormRejection (from_form (form_parse (rq_body r))).

(** The routes of [oidc_router], each with the extractors of its handler. *)
Definition routes : list (string * (Method * (HttpRequest → result Request Rejection))) :=
  [("/.well-known/openid-configuration", (GET, λ _, Ok DiscoveryRequest));
   ("/authorize", (GET, λ r,
      let? params := extract_query r in Ok (AuthorizeRequest (rq_headers r) params)));
   ("/token", (POST, λ r,
      let? params := extract_form r in Ok (TokenRequest (rq_headers r) params)));
   ("/userinfo", (GET, λ r, Ok (UserinfoRequest (rq_headers r))));
   ("/jwks", (GET, λ _, Ok JwksRequest))].

Fixpoint find_route {A} (path : string) (l : list (string * A)) : option A :=
  match l with
  | [] => None
  | (p, a) :: l => if bool_decide (p = path) then Some a else find_route path l
  end.

(** The request a handler sees, or the framework's rejection. *)
Definition dispatch (r : HttpRequest) : result Request Rejection :=
  match find_route (rq_path r) routes with
  | None => Err NotFound
  | Some (m, extract) => if routed m (rq_method r) then extract r else Err MethodNotAllowed
  end.

Definition http_router (state : AppState) (r : HttpRequest) : prog HttpResponse :=
  match dispatch r with
  | Ok q => let* rsp := oidc_router state q in Ret (Handled rsp)
  | Err e => Ret (Rejected e)
  end.
End http.

(** ** Reading pairs *)

(** The pairs under the keys of a struct. *)
Definition field_pairs (fields : list string) (l : list (string * string)) :
    list (string * string) :=
  filter (λ e, e.1 ∈ fields) l.

Lemma visit_pairs_Ok fields seen l :
  visit_pairs fields seen l = Ok tt ↔
  NoDup (field_pairs fields l).*1 ∧ ∀ k, k ∈ seen → k ∉ (field_pairs fields l).*1.
Proof.
  revert seen. induction l as [|[k v] l IH]; intros seen.
  { simpl. split; [|done]. intros _. split; [constructor|set_solver]. }
  unfold field_pairs. simpl visit_pairs. rewrite filter_cons. fold (field_pairs fields l). simpl.
  repeat case_bool_decide; case_decide; try done.
  - split; [done|]. intros [_ Hseen]. edestruct Hseen; [done|]. simpl. set_solver.
  - rewrite IH. simpl. rewrite NoDup_cons. set_solver.
Qed.

Lemma form_get_Some k v l :
  NoDup (field_pairs [k] l).*1 → form_get k l = Some v ↔ (k, v) ∈ l.
Proof.
  unfold field_pairs. induction l as [|[k' v'] l IH]; simpl; [set_solver|].
  rewrite filter_cons. simpl. case_bool_decide as Hk; case_decide; try set_solver.
  subst k'. simpl. rewrite NoDup_cons. intros [Hnin _].
  split; [intros [= ->]; set_solver|]. intros [[= ->]|Hin]%elem_of_cons; [done|].
  destruct Hnin. apply list_elem_of_fmap. exists (k, v). split; [done|].
  apply list_elem_of_filter. set_solver.
Qed.

Lemma form_get_None k l : form_get k l = None ↔ k ∉ l.*1.
Proof.
  induction l as [|[k' v] l IH]; simpl; [set_solver|]. case_bool_decide; [set_solver|].
  rewrite IH. set_solver.
Qed.

(** A struct only reads its own keys. *)
Lemma form_get_field_pairs k fields l :
  k ∈ fields → form_get k (field_pairs fields l) = form_get k l.
Proof.
  intros Hk. unfold field_pairs. induction l as [|[k' v] l IH]; [done|]. rewrite filter_cons.
  simpl. case_decide as Hin; simpl; case_bool_decide; [done|done| |done]. by subst.
Qed.

Lemma NoDup_field_pairs_single k fields l :
  k ∈ fields → NoDup (field_pairs fields l).*1 → NoDup (field_pairs [k] l).*1.
Proof.
  intros Hk. unfold field_pairs. induction l as [|[k' v] l IH]; simpl; [done|].
  rewrite !filter_cons. simpl. case_decide as H1; case_decide as H2; simpl; try done.
  - rewrite !NoDup_cons. intros [Hn Hl]. split; [|by apply IH].
    intros (e & -> & [He1 He2]%list_elem_of_filter)%list_elem_of_fmap. apply Hn.
    apply list_elem_of_fmap. exists e. split; [done|]. by apply list_elem_of_filter.
  - rewrite NoDup_cons. intros [_ Hl]. by apply IH.
  - destruct H1. set_solver.
Qed.

(** Permuted pairs with distinct keys read the same. *)
Lemma form_get_perm k l l' : l ≡ₚ l' → NoDup l.*1 → form_get k l = form_get k l'.
Proof.
  intros Hl Hnd. assert (NoDup l'.*1) as Hnd' by by rewrite <- Hl.
  assert (∀ m : list (string * string), NoDup m.*1 → NoDup (field_pairs [k] m).*1) as Hf.
  { intros m Hm. unfold field_pairs. induction m as [|[k' v] m IH]; [constructor|].
    rewrite filter_cons. simpl in *. apply NoDup_cons in Hm as [Hk Hm].
    case_decide; [|by apply IH]. simpl. apply NoDup_cons. split; [|by apply IH].
    intros (e & -> & [_ He]%list_elem_of_filter)%list_elem_of_fmap. apply Hk.
    apply list_elem_of_fmap. by exists e. }
  apply option_eq. intros v. rewrite !form_get_Some by auto. by rewrite Hl.
Qed.

(** The pairs a struct reads, in the order of its fields. *)
Definition collect (fields : list string) (l : list (string * string)) :
    list (string * string) :=
  omap (λ k, (k,.) <$> form_get k l) fields.

Lemma field_pairs_collect fields l :
  NoDup fields → NoDup (field_pairs fields l).*1 → field_pairs fields l ≡ₚ collect fields l.
Proof.
  intros Hf Hl. apply NoDup_Permutation; [by eapply NoDup_fmap_1| |].
  - unfold collect. clear Hl. induction fields as [|k fields IH]; [constructor|].
    apply NoDup_cons in Hf as [Hk Hf]. simpl. destruct (form_get k l) as [v|]; simpl; [|by apply IH].
    apply NoDup_cons. split; [|by apply IH].
    intros (k' & Hk' & (v' & _ & [= -> _])%fmap_Some)%list_elem_of_omap. done.
  - intros [k v]. unfold collect. rewrite list_elem_of_omap. unfold field_pairs at 1.
    rewrite list_elem_of_filter. simpl. split.
    + intros [Hk Hin]. exists k. split; [done|]. apply fmap_Some. exists v. split; [|done].
      apply form_get_Some; [by eapply NoDup_field_pairs_single|done].
    + intros (k' & Hk & (v' & Hv & [= <- <-])%fmap_Some). split; [done|].
      apply form_get_Some in Hv; [done|]. by eapply NoDup_field_pairs_single.
Qed.

(** Reading [l] is reading [l'], when the keys of the struct in [l] are those of
    [l'] in some order. *)
Lemma reads_as fields l l' :
  NoDup l'.*1 → field_pairs fields l ≡ₚ l' →
  visit_pairs fields [] l = Ok tt ∧ ∀ k, k ∈ fields → form_get k l = form_get k l'.
Proof.
  intros Hnd Hl. assert (NoDup (field_pairs fields l).*1) as Hnd' by by rewrite Hl.
  split; [apply visit_pairs_Ok; set_solver|]. intros k Hk.
  rewrite <- (form_get_field_pairs k fields) by done. by apply form_get_perm.
Qed.

Lemma visit_pairs_Err fields seen l e :
  visit_pairs fields seen l = Err e →
  ∃ k, e = DuplicateField k ∧ k ∈ fields ∧
    ∃ l1 v l2, l = l1 ++ (k, v) :: l2 ∧ (k ∈ seen ∨ k ∈ l1.*1).
Proof.
  revert seen. induction l as [|[k v] l IH]; intros seen; simpl; [done|].
  repeat case_bool_decide.
  - intros [= <-]. exists k. split_and!; [done..|]. exists [], v, l. auto.
  - intros (k' & -> & Hf & l1 & v' & l2 & -> & Hs)%IH. exists k'. split_and!; [done..|].
    exists ((k, v) :: l1), v', l2. split; [done|]. set_solver.
  - intros (k' & -> & Hf & l1 & v' & l2 & -> & Hs)%IH. exists k'. split_and!; [done..|].
    exists ((k, v) :: l1), v', l2. split; [done|]. set_solver.
Qed.

Lemma form_field_Ok k l v : form_field k l = Ok v ↔ form_get k l = Some v.
Proof. apply ok_or_Ok. Qed.

Lemma form_field_Err k l e : form_field k l = Err e ↔ e = MissingField k ∧ k ∉ l.*1.
Proof.
  unfold form_field. rewrite <- form_get_None. destruct (form_get k l); simpl; [naive_solver|].
  split; [by intros [= <-]|by intros [-> _]].
Qed.

(** ** The structs as pairs *)

(** How a client writes parameters: absent ones not at all. *)
Definition opt_pair (k : string) (o : option string) : list (string * string) :=
  match o with Some v => [(k, v)] | None => [] end.

Definition AuthorizeParams_pairs (p : AuthorizeParams) : list (string * string) :=
  [("response_type", ap_response_type p); ("client_id", ap_client_id p);
   ("redirect_uri", ap_redirect_uri p)] ++
  opt_pair "scope" (ap_scope p) ++ opt_pair "state" (ap_state p) ++
  opt_pair "code_challenge" (ap_code_challenge p) ++
  opt_pair "code_challenge_method" (ap_code_challenge_method p) ++
  opt_pair "nonce" (ap_nonce p).

Definition TokenParams_pairs (p : TokenParams) : list (string * string) :=
  [("grant_type", tp_grant_type p); ("code", tp_code p); ("redirect_uri", tp_redirect_uri p)] ++
  opt_pair "code_verifier" (tp_code_verifier p) ++ opt_pair "client_id" (tp_client_id p) ++
  opt_pair "client_secret" (tp_client_secret p).

(** Pairs carry parameters: their recognised pairs are those of the parameters,
    in any order, among any others. *)
Definition carries_authorize (l : list (string * string)) (p : AuthorizeParams) : Prop :=
  field_pairs AuthorizeParams_fields l ≡ₚ AuthorizeParams_pairs p.
Definition carries_token (l : list (string * string)) (p : TokenParams) : Prop :=
  field_pairs TokenParams_fields l ≡ₚ TokenParams_pairs p.

(** Case analysis on which optional parameters are there. *)
Ltac optional_cases :=
  repeat match goal with
  | |- context [opt_pair _ ?o] => destruct o; cbn [opt_pair]
  end.

Lemma AuthorizeParams_pairs_NoDup p : NoDup (AuthorizeParams_pairs p).*1.
Proof.
  unfold AuthorizeParams_pairs. optional_cases; apply (bool_decide_unpack _); reflexivity.
Qed.

Lemma TokenParams_pairs_NoDup p : NoDup (TokenParams_pairs p).*1.
Proof.
  unfold TokenParams_pairs. optional_cases; apply (bool_decide_unpack _); reflexivity.
Qed.

Lemma AuthorizeParams_read l p :
  from_form l = Ok p ↔ carries_authorize l p.
Proof.
  unfold carries_authorize, from_form, AuthorizeParams_FromForm. split.
  - intros ([] & [Hnd _]%visit_pairs_Ok & Hp)%rbind_Ok.
    apply rbind_Ok in Hp as (rt & Hrt%form_field_Ok & Hp).
    apply rbind_Ok in Hp as (id & Hid%form_field_Ok & Hp).
    apply rbind_Ok in Hp as (uri & Huri%form_field_Ok & [= <-]).
    rewrite field_pairs_collect by (done || apply (bool_decide_unpack _); reflexivity).
    unfold AuthorizeParams_pairs, collect, AuthorizeParams_fields. cbn.
    rewrite Hrt, Hid, Huri. cbn. optional_cases; reflexivity.
  - intros Hl. destruct (reads_as _ _ _ (AuthorizeParams_pairs_NoDup p) Hl) as [-> Hget].
    unfold form_field. cbn [rbind].
    rewrite !Hget by (apply (bool_decide_unpack _); reflexivity).
    destruct p as [rt id uri sc sta ch me no]. unfold AuthorizeParams_pairs.
    cbn [ap_response_type ap_client_id ap_redirect_uri ap_scope ap_state ap_code_challenge
      ap_code_challenge_method ap_nonce].
    optional_cases; reflexivity.
Qed.

Lemma TokenParams_read l p : from_form l = Ok p ↔ carries_token l p.
Proof.
  unfold carries_token, from_form, TokenParams_FromForm. split.
  - intros ([] & [Hnd _]%visit_pairs_Ok & Hp)%rbind_Ok.
    apply rbind_Ok in Hp as (gt & Hgt%form_field_Ok & Hp).
    apply rbind_Ok in Hp as (code & Hcode%form_field_Ok & Hp).
    apply rbind_Ok in Hp as (uri & Huri%form_field_Ok & [= <-]).
    rewrite field_pairs_collect by (done || apply (bool_decide_unpack _); reflexivity).
    unfold TokenParams_pairs, collect, TokenParams_fields. cbn.
    rewrite Hgt, Hcode, Huri. cbn. optional_cases; reflexivity.
  - intros Hl. destruct (reads_as _ _ _ (TokenParams_pairs_NoDup p) Hl) as [-> Hget].
    unfold form_field. cbn [rbind].
    rewrite !Hget by (apply (bool_decide_unpack _); reflexivity).
    destruct p as [gt co uri ve id se]. unfold TokenParams_pairs.
    cbn [tp_grant_type tp_code tp_redirect_uri tp_code_verifier tp_client_id tp_client_secret].
    optional_cases; reflexivity.
Qed.

(** Why pairs are refused: a key of the struct twice, or a required key missing. *)
Definition form_refusal (fields required : list string) (l : list (string * string))
    (e : FormError) : Prop :=
  match e with
  | DuplicateField k => k ∈ fields ∧ ∃ l1 v l2, l = l1 ++ (k, v) :: l2 ∧ k ∈ l1.*1
  | MissingField k => k ∈ required ∧ k ∉ l.*1
  end.

(** The error of a struct that reads its required fields one after the other. *)
Lemma form_refused {T} fields k1 k2 k3 l (f : string → string → string → T) e :
  (let? _ := visit_pairs fields [] l in
   let? a := form_field k1 l in
   let? b := form_field k2 l in
   let? c := form_field k3 l in Ok (f a b c)) = Err e →
  form_refusal fields [k1; k2; k3] l e.
Proof.
  intros [Hv|([] & _ & He)]%rbind_Err.
  - apply visit_pairs_Err in Hv as (k & -> & Hk & l1 & v & l2 & -> & [?|?]); [set_solver|].
    split; [done|]. by exists l1, v, l2.
  - repeat match type of He with
    | rbind (form_field _ _) _ = Err _ =>
        apply rbind_Err in He as [[-> Hk]%form_field_Err|(? & _ & He)]
    end; [split; [set_solver|done]..|done].
Qed.

(** C19: parameters are read from a query or form exactly: in any order and among
    any other pairs, a struct is read precisely when the pairs under its keys are
    those that write it, so nothing is lost, guessed or taken twice; otherwise the
    error names a key of the struct that comes twice, or a required one that is
    missing. *)
Theorem form_params_exact :
  (∀ l (p : AuthorizeParams), from_form l = Ok p ↔ carries_authorize l p) ∧
  (∀ l (p : TokenParams), from_form l = Ok p ↔ carries_token l p) ∧
  (∀ l e, from_form (T := AuthorizeParams) l = Err e →
     form_refusal AuthorizeParams_fields ["response_type"; "client_id"; "redirect_uri"] l e) ∧
  (∀ l e, from_form (T := TokenParams) l = Err e →
     form_refusal TokenParams_fields ["grant_type"; "code"; "redirect_uri"] l e).
Proof.
  split; [apply AuthorizeParams_read|]. split; [apply TokenParams_read|].
  split; intros l e; apply form_refused.
Qed.

(** ** Dispatch *)

Section dispatch.
Context `{BuildProfile, UnicodeCase, Hashes, Base64, Rsa, Jwt, CborErrors,
  !Cbor (TimestampedContainer AuthorizationCode), !Cbor SignedAuthorizationCode, Http, UrlLib,
  FormUrlencoded, !Axum}.
Implicit Types (r : HttpRequest) (st : AppState).

(** A request to a route carries its handler's request. *)
Definition carries r (q : Request) : Prop :=
  rq_path r = (request_route q).2 ∧ routed (request_route q).1 (rq_method r) = true ∧
  match q with
  | AuthorizeRequest h p =>
      h = rq_headers r ∧ carries_authorize (form_parse (as_bytes (default "" (rq_query r)))) p
  | TokenRequest h p =>
      h = rq_headers r ∧ is_form h = true ∧ carries_token (form_parse (rq_body r)) p
  | UserinfoRequest h => h = rq_headers r
  | DiscoveryRequest | JwksRequest => True
  end.

Lemma dispatch_Ok r q : dispatch r = Ok q ↔ carries r q.
Proof.
  unfold dispatch, carries, routes. split.
  - cbn [find_route]. intros Hr. repeat match type of Hr with
    | context [bool_decide (?x = rq_path r)] =>
        destruct (decide (x = rq_path r)) as [Hp|Hp];
        [rewrite bool_decide_eq_true_2 in Hr by done; rewrite <- Hp;
         destruct (routed _ _) eqn:Hm in Hr; [|done]
        |rewrite bool_decide_eq_false_2 in Hr by done; clear Hp]
    end; [| | | | |done].
    + by injection Hr as <-.
    + apply rbind_Ok in Hr as (p & Hr%map_err_Ok%AuthorizeParams_read & [= <-]). done.
    + apply rbind_Ok in Hr as (p & Hr & [= <-]). unfold extract_form in Hr.
      destruct (is_form _) eqn:Hf; [|done]. by apply map_err_Ok, TokenParams_read in Hr.
    + by injection Hr as <-.
    + by injection Hr as <-.
  - intros (Hp & Hm & Hq). destruct q; simpl in Hp, Hm; rewrite Hp; cbn [find_route];
      simpl; rewrite Hm; [done| | |by rewrite Hq|done].
    + destruct Hq as [-> Hq%AuthorizeParams_read]. unfold extract_query. by rewrite Hq.
    + destruct Hq as (-> & Hf & Hq%TokenParams_read). unfold extract_form. by rewrite Hf, Hq.
Qed.

Context {S : Type} `{TokenStore S}.

Lemma run_http_router st r q (w w' : World S) rsp :
  carries r q → run (oidc_router st q) w = (Done rsp, w') →
  run (http_router st r) w = (Done (Handled rsp), w').
Proof.
  intros Hq%dispatch_Ok Hrun. unfold http_router. by rewrite Hq, run_bind, Hrun.
Qed.
End dispatch.
