(* ===== verification/HandlerPaths.v ===== *)
(** * The handlers, path by path

    What every path of a token request and of the router as a whole looks like,
    in terms of [wp]: the checks depend on one clock reading, the code is
    consumed once, and what follows the first use ends in the tokens.  The files
    on concurrent requests build on these facts. *)
From S2P Require Import Prelude RustStd Storage Effects Wp Externs Users Client Pkce Timestamp.
From S2P Require Import AuthorizationCode Signature Token Protocol Discovery Router.

(** [consumes_only K p]: every code key the program consumes satisfies [K]. *)
Fixpoint consumes_only {A} (K : string → Prop) (p : prog A) : Prop :=
  match p with
  | Ret _ | Panic _ => True
  | Now k => ∀ t, consumes_only K (k t)
  | RandomBytes k => ∀ f, consumes_only K (k f)
  | StoreIssue _ _ _ _ _ _ k => consumes_only K k
  | StoreLookup _ k => ∀ r, consumes_only K (k r)
  | StoreRevoke _ k => ∀ b, consumes_only K (k b)
  | StoreConsume c k => K c ∧ ∀ b, consumes_only K (k b)
  end.

Lemma consumes_only_bind {A B} K (p : prog A) (f : A → prog B) :
  consumes_only K p → (∀ a, consumes_only K (f a)) → consumes_only K (pbind p f).
Proof. intros Hp Hf. induction p; simpl in *; naive_solver. Qed.

Lemma consumes_only_bind_ok {A B X} K (p : prog (result A X)) (f : A → prog (result B X)) :
  consumes_only K p → (∀ a, consumes_only K (f a)) → consumes_only K (pbind_ok p f).
Proof. intros Hp Hf. apply consumes_only_bind; [done|]. by intros []. Qed.

Lemma consumes_only_store_free {A} K (p : prog A) : store_free p → consumes_only K p.
Proof. intros Hp. induction p; simpl in *; naive_solver. Qed.

Lemma consumes_only_mono {A} (K K' : string → Prop) (p : prog A) :
  consumes_only K p → (∀ c, K c → K' c) → consumes_only K' p.
Proof. intros Hp HK. induction p; simpl in *; naive_solver. Qed.

(** The same when the rest is known only for the results that can come. *)
Lemma consumes_only_bind_post {A B} K (Q : A → Prop) (p : prog A) (f : A → prog B) :
  store_free p → wp (λ _, True) True Q p → (∀ a, Q a → consumes_only K (f a)) →
  consumes_only K (pbind p f).
Proof. intros Hp HQ Hf. induction p; simpl in *; naive_solver. Qed.

#[export] Hint Resolve consumes_only_store_free consumes_only_bind consumes_only_bind_ok
  store_free_issue_id_token store_free_issue_access_token store_free_verify_access_token
  store_free_decode_and_verify store_free_authorize_handler : rust.

Section token_request.
Context `{BuildProfile, Hashes, Base64, Rsa, Jwt, CborErrors,
  !Cbor (TimestampedContainer AuthorizationCode), !Cbor SignedAuthorizationCode}.
Context (T : SystemTime → Prop) (E : Prop) (t0 : SystemTime) (Ht0 : T t0).
Implicit Types (self : OIDCAuthCodePKCEFlow) (req : AccessTokenRequest)
  (ctx : TokenIssueContext) (code : AuthorizationCode).

(** What decoding the code string of a request gives at an instant. *)
Definition decoded self req (now : SystemTime) :
    result AuthorizationCode AuthorizationCodeVerificationError :=
  let? c := open_code (hmac_key self) (tr_code req) in
  if fresh_at (timestamp c) (code_max_age self) now then Ok (content c)
  else Err (InvalidTimestamp NotFresh).

Lemma wp_decode self req :
  wp T E (λ r, ∃ now, T now ∧ r = decoded self req now)
    (AuthorizationCode_decode_and_verify (tr_code req) (hmac_key self) (code_max_age self)).
Proof using Ht0.
  apply wp_store_free with (t0 := t0); [apply store_free_decode_and_verify|done|].
  intros w Hw. unfold AuthorizationCode_decode_and_verify. rewrite run_decode_and_verify.
  unfold decoded. destruct (open_code _ _) as [c|e]; simpl; eauto.
Qed.

(** A token request decodes, and what it does next is decided by the checks. *)
Lemma access_token_request_split self req ctx :
  ∃ k, access_token_request self req ctx =
      pbind (AuthorizationCode_decode_and_verify (tr_code req) (hmac_key self)
               (code_max_age self)) k ∧
    ∀ now, k (decoded self req now) =
      match check_code self (tic_clients ctx) req now with
      | Ok code => redeem_code req ctx code
      | Err e => Ret (Err e)
      end.
Proof.
  unfold access_token_request. destruct (tr_grant_type req). eexists. split; [reflexivity|].
  intros now. unfold decoded, check_code. cbv beta.
  destruct (open_code _ _) as [[x t]|e]; [|by destruct e]. cbn [map_err rbind].
  simpl timestamp. simpl content. destruct (fresh_at _ _ _); [|done].
  cbn [map_err pbind_ok pbind negb].
  destruct (validate_token_request _ _ _ _) as [[]|e]; [|done].
  cbn [map_err pbind_ok pbind rbind].
  destruct (validate_redirect_uri _ _ _); [|done]. by destruct (validate_client_secret _ _ _).
Qed.

Lemma wp_access_token_request (P : result TokenResponse OIDCError → Prop) self req ctx :
  (∀ now code, T now → redeemable self (tic_clients ctx) req now code →
     wp T E P (redeem_code req ctx code)) →
  (∀ now e, T now → check_code self (tic_clients ctx) req now = Err e → P (Err e)) →
  wp T E P (access_token_request self req ctx).
Proof using Ht0.
  intros Hok Herr. destruct (access_token_request_split self req ctx) as (k & -> & Hk).
  eapply wp_bind_mono; [apply wp_decode|]. intros ? (now & Hnow & ->). rewrite Hk.
  destruct (check_code _ _ _ now) as [code|e] eqn:Hc; [|simpl; eauto].
  apply (Hok now); [done|]. by apply check_code_Ok.
Qed.

(** Issuing a token: whenever it ends in one, it is that of some representable
    expiry, and with the clock in range it ends in the signed claims. *)
Lemma wp_issue_id_token ji sub aud groups nonce ttl :
  wp T True (λ r, ∀ tok, r = Ok tok → ∃ t exp, T t ∧
      u64_add (unix_secs t) (duration_as_secs ttl) = Done exp ∧
      jwt_encode (jwt_header ji) (to_json (mkIdTokenClaims (issuer ji) sub aud exp
        (unix_secs t) nonce (Some groups))) (encoding_key ji) = Ok tok)
    (issue_id_token ji sub aud groups nonce ttl).
Proof using Ht0.
  apply wp_store_free with (t0 := t0); [apply store_free_issue_id_token|done|].
  intros w Hw. destruct (run _ w) as [[r|] w'] eqn:Hrun; [|done].
  intros tok ->. apply issue_id_token_claims in Hrun as (_ & exp & ? & ?). eauto.
Qed.

Lemma wp_issue_access_token ji sub cid groups scope jti ttl :
  wp T True (λ r, ∀ tok, r = Ok tok → ∃ t exp, T t ∧
      u64_add (unix_secs t) (duration_as_secs ttl) = Done exp ∧
      jwt_encode (jwt_header ji) (to_json (mkAccessTokenClaims (issuer ji) sub (issuer ji) exp
        (unix_secs t) jti scope groups cid)) (encoding_key ji) = Ok tok)
    (issue_access_token ji sub cid groups scope jti ttl).
Proof using Ht0.
  apply wp_store_free with (t0 := t0); [apply store_free_issue_access_token|done|].
  intros w Hw. destruct (run _ w) as [[r|] w'] eqn:Hrun; [|done].
  intros tok ->. apply issue_access_token_claims in Hrun as (_ & exp & ? & ?). eauto.
Qed.

Lemma wp_issue_id_token_fits ji sub aud groups nonce ttl :
  (∀ t, T t → exp_fits ttl t) →
  wp T False (λ r, ∃ t, T t ∧ r = map_err JwtLib (jwt_encode (jwt_header ji)
      (to_json (id_claims_at ji sub aud groups nonce ttl t)) (encoding_key ji)))
    (issue_id_token ji sub aud groups nonce ttl).
Proof using Ht0.
  intros Hfit. apply wp_store_free with (t0 := t0); [apply store_free_issue_id_token|done|].
  intros w Hw. rewrite run_issue_id_token by auto. simpl. eauto.
Qed.

Lemma wp_issue_access_token_fits ji sub cid groups scope jti ttl :
  (∀ t, T t → exp_fits ttl t) →
  wp T False (λ r, ∃ t, T t ∧ r = map_err JwtLib (jwt_encode (jwt_header ji)
      (to_json (access_claims_at ji sub cid groups scope jti ttl t)) (encoding_key ji)))
    (issue_access_token ji sub cid groups scope jti ttl).
Proof using Ht0.
  intros Hfit. apply wp_store_free with (t0 := t0); [apply store_free_issue_access_token|done|].
  intros w Hw. rewrite run_issue_access_token by auto. simpl. eauto.
Qed.

Lemma signs_not_Err ji j e :
  signs ji → jwt_encode (jwt_header ji) j (encoding_key ji) ≠ Err e.
Proof. intros Hs E'. destruct (Hs j) as [tok Htok]. congruence. Qed.

(** What follows the consumption of a code, given the answer of the store. *)
Definition after_consume req ctx code : bool → prog (result TokenResponse OIDCError) :=
  match redeem_code req ctx code with StoreConsume _ k => k | _ => λ _, Panic "" end.

Lemma redeem_code_consume req ctx code :
  redeem_code req ctx code =
    StoreConsume (code_replay_key (tr_code req)) (after_consume req ctx code).
Proof. reflexivity. Qed.

Lemma after_consume_replay req ctx code :
  after_consume req ctx code false =
    Ret (Err (InvalidGrant "Authorization code has already been used")).
Proof. reflexivity. Qed.

Lemma consumes_only_after_consume K req ctx code b :
  consumes_only K (after_consume req ctx code b).
Proof.
  destruct b; [|done]. cbn [after_consume redeem_code pbind ts_consume_code negb].
  apply consumes_only_bind; [done|]. intros jti.
  apply consumes_only_bind; [auto with rust|]. intros r.
  apply consumes_only_bind_ok; [done|]. intros idt.
  apply consumes_only_bind; [auto with rust|]. intros r'.
  apply consumes_only_bind_ok; [done|]. intros att. apply consumes_only_bind; [done|].
  intros now. apply consumes_only_bind; [|done]. auto with rust.
Qed.

(** A first use that ends in a response ends in one for the code. *)
Lemma wp_first_use req ctx code :
  wp T True (λ r, ∀ rsp, r = Ok rsp → ∃ jti t_id t_at, T t_id ∧ T t_at ∧
    response_for ctx req code jti t_id t_at rsp) (after_consume req ctx code true).
Proof using Ht0.
  cbn [after_consume redeem_code pbind ts_consume_code negb random_jti rng_fill wp]. intros fill.
  eapply wp_bind_mono; [apply wp_issue_id_token|].
  intros [idt|e] Hid; [|done]. destruct (Hid idt eq_refl) as (ti & expi & Hti & Hexpi & Hidt).
  cbn [map_err pbind_ok pbind]. eapply wp_bind_mono; [apply wp_issue_access_token|].
  intros [att|e] Hat; [|done]. destruct (Hat att eq_refl) as (ta & expa & Hta & Hexpa & Hatt).
  cbn [map_err pbind_ok pbind system_time_now wp]. intros now _.
  rewrite wp_bind, wp_lift_outcome. destruct (system_time_add _ _); [|done].
  simpl. intros rsp [= <-]. exists (jti_of fill), ti, ta. split; [done|]. split; [done|].
  unfold response_for. simpl. split_and!; eauto.
Qed.

(** The instants at which the tokens of a context can be issued. *)
Definition issuable ctx (t : SystemTime) : Prop :=
  exp_fits (tic_id_token_ttl ctx) t ∧ exp_fits (tic_access_token_ttl ctx) t ∧
  (t + tic_access_token_ttl ctx < system_time_max)%Z.

(** At such instants a first use does not panic, and when the keys sign, it ends
    in a response. *)
Lemma wp_first_use_fits req ctx code :
  (∀ t, T t → issuable ctx t) →
  wp T False (λ r, signs (tic_jwt_issuer ctx) → is_ok r = true)
    (after_consume req ctx code true).
Proof using Ht0.
  intros Hfit.
  cbn [after_consume redeem_code pbind ts_consume_code negb random_jti rng_fill wp]. intros fill.
  eapply wp_bind_mono; [apply wp_issue_id_token_fits; intros t Ht; apply (Hfit t Ht)|].
  intros ? (ti & _ & ->). destruct (jwt_encode _ _ _) eqn:E1; cbn [map_err pbind_ok pbind wp].
  2:{ intros Hs. by destruct (signs_not_Err _ _ _ Hs E1). }
  clear E1.
  eapply wp_bind_mono; [apply wp_issue_access_token_fits; intros t Ht; apply (Hfit t Ht)|].
  intros ? (ta & _ & ->). destruct (jwt_encode _ _ _) eqn:E2; cbn [map_err pbind_ok pbind wp].
  2:{ intros Hs. by destruct (signs_not_Err _ _ _ Hs E2). }
  cbn [system_time_now pbind wp]. intros now Hnow.
  rewrite system_time_add_small by apply (Hfit now Hnow). done.
Qed.
End token_request.

Section router.
Context `{BuildProfile, UnicodeCase, Hashes, Base64, Rsa, Jwt, CborErrors,
  !Cbor (TimestampedContainer AuthorizationCode), !Cbor SignedAuthorizationCode, Http, UrlLib}.
Implicit Types (st : AppState) (h : HeaderMap) (r : Request).

Lemma consumes_only_access_token_request (self : OIDCAuthCodePKCEFlow) (req : AccessTokenRequest)
    (ctx : TokenIssueContext) :
  consumes_only (λ key, code_replay_key (tr_code req) = key) (access_token_request self req ctx).
Proof.
  destruct (access_token_request_split self req ctx) as (k & -> & Hk).
  eapply consumes_only_bind_post; [apply store_free_decode_and_verify
    |apply (wp_decode _ True 0%Z); done|]. intros ? (now & _ & ->). rewrite Hk.
  destruct (check_code _ _ _ now); [|done]. rewrite redeem_code_consume. split; [done|].
  intros b. apply consumes_only_after_consume.
Qed.

Lemma token_handler_split st h p :
  token_handler st h p =
    if bool_decide (tp_grant_type p = "authorization_code") then
      match token_request h p with
      | Some req => access_token_request (flow st) req (token_context st)
      | None => Ret (Err (InvalidRequest "Missing client_id"))
      end
    else Ret (Err (InvalidRequest ("Unsupported grant_type: " +:+ tp_grant_type p))).
Proof.
  unfold token_handler, token_request, GrantType_from_str. case_bool_decide; [|done].
  cbn [pbind_ok pbind]. destruct (parse_basic_auth h) as [bi bs]. simpl fst.
  by destruct (option_or bi (tp_client_id p)).
Qed.

Lemma token_request_code h p req : token_request h p = Some req → tr_code req = tp_code p.
Proof. by intros (cid & _ & [= <-])%bind_Some. Qed.

(** The only code a request consumes is the one it presents to [/token]. *)
Definition presents (key : string) r : Prop :=
  match r with TokenRequest _ p => code_replay_key (tp_code p) = key | _ => False end.

#[export] Instance presents_dec key r : Decision (presents key r).
Proof. unfold presents. destruct r; apply _. Defined.

Lemma consumes_only_router st r : consumes_only (λ key, presents key r) (oidc_router st r).
Proof.
  destruct r as [|h p|h p|h|]; cbn [oidc_router]; [done|..].
  - apply consumes_only_bind; [|done]. auto with rust.
  - apply consumes_only_bind; [|done]. rewrite token_handler_split.
    case_bool_decide; [|done]. destruct (token_request h p) as [req|] eqn:Hreq; [|done].
    apply token_request_code in Hreq. cbn [presents]. rewrite <- Hreq.
    apply consumes_only_access_token_request.
  - apply consumes_only_bind; [|done]. unfold userinfo_handler, verify_bearer_token.
    apply consumes_only_bind_ok; [|by intros c []]. apply consumes_only_bind_ok; [done|]. intros ?.
    apply consumes_only_bind_ok; [done|]. intros ?. apply consumes_only_bind; [|done].
    auto with rust.
  - done.
Qed.

(** A response that carries tokens. *)
Definition served (r : Response) : Prop := ∃ body, r = JsonResponse 200 body.

Lemma error_not_served e : ¬ served (OIDCError_into_response e).
Proof. intros [body Hb]. by destruct e. Qed.

(** The result of a token request. *)
Lemma wp_token_request T E (P : Response → Prop) st h p :
  (∀ e, P (OIDCError_into_response e)) →
  (∀ req, token_request h p = Some req →
     wp T E (λ out, P (into_response Json OIDCError_into_response out))
       (access_token_request (flow st) req (token_context st))) →
  wp T E P (oidc_router st (TokenRequest h p)).
Proof.
  intros Herr Hok. cbn [oidc_router]. rewrite wp_bind, token_handler_split. simpl.
  case_bool_decide; [|apply Herr]. destruct (token_request h p) as [req|]; [|apply Herr].
  by apply Hok.
Qed.

(** Tokens are answers to redeemable codes: whatever the store says and for any
    clock readings in [T], they come from a code that was redeemable, and were
    issued, at some of these. *)
Lemma wp_token_request_sound (T : SystemTime → Prop) t0 st h p :
  T t0 →
  wp T True (λ rsp, ∀ body, rsp = JsonResponse 200 body →
      ∃ req code now jti t_id t_at tokens,
        token_request h p = Some req ∧ T now ∧ T t_id ∧ T t_at ∧
        redeemable (flow st) (st_clients st) req now code ∧
        response_for (token_context st) req code jti t_id t_at tokens ∧ body = to_json tokens)
    (oidc_router st (TokenRequest h p)).
Proof.
  intros Ht0. apply wp_token_request.
  { intros e body Hb. edestruct (error_not_served e). by exists body. }
  intros req Hreq. apply (wp_access_token_request T True t0 Ht0).
  - intros now code Hnow Hred. rewrite redeem_code_consume. intros [].
    + eapply wp_mono; [by apply (wp_first_use T t0 Ht0)|].
      intros [rsp|e] Hrsp body; simpl; [|intros Hb; edestruct (error_not_served e); by exists body].
      intros [= <-]. destruct (Hrsp rsp eq_refl) as (jti & ti & ta & Hti & Hta & Hfor).
      by exists req, code, now, jti, ti, ta, rsp.
    + rewrite after_consume_replay. intros body [=].
  - intros now e _ _ body Hb. edestruct (error_not_served e). by exists body.
Qed.

(** The clock readings under which no handler panics. *)
Definition in_range st (t : SystemTime) : Prop := (0 ≤ t)%Z ∧ issuable (token_context st) t.

Lemma wp_router_total (HL : HttpLaws)
    (HT : CborLaws (TimestampedContainer AuthorizationCode) after_epoch)
    (T : SystemTime → Prop) t0 st r :
  T t0 → (∀ t, T t → in_range st t) → wp T False (λ _, True) (oidc_router st r).
Proof.
  intros Ht0 HTr. destruct r as [|h p|h p|h|]; cbn [oidc_router]; [done|..].
  - apply wp_bind. apply wp_store_free with (t0 := t0); [apply store_free_authorize_handler|done|].
    intros w Hw.
    destruct (authorize_handler_total HL HT st h p w) as (r & w' & ->);
      [apply HTr, Hw..|]. done.
  - apply wp_token_request; [done|]. intros req _.
    apply (wp_access_token_request T False t0 Ht0); [|done].
    intros now code _ _. rewrite redeem_code_consume. intros []; [|done].
    eapply wp_mono; [|done]. apply (wp_first_use_fits T t0 Ht0). intros t Ht.
    by apply HTr.
  - apply wp_bind. unfold userinfo_handler. apply wp_bind_ok.
    unfold verify_bearer_token. apply wp_bind_ok. simpl.
    destruct (ok_or _ (header_str h _)); [|done]. apply wp_bind_ok. simpl.
    destruct (ok_or _ _); [|done]. intros t _. simpl. destruct (map_err _ _); [|done].
    intros o. by destruct o.
  - done.
Qed.
End router.
