(* ===== verification/Server.v ===== *)
(** * Configuration and start-up ([src/bin/server/config.rs], [src/bin/server/main.rs])

    The configuration file and its defaults, the decoding of the key that
    authenticates authorization codes, the construction of the shared state, and
    [main] from the command line to the call that serves the router. *)
From S2P Require Import Prelude RustStd Storage Effects Externs Users Client Pkce Timestamp.
From S2P Require Import AuthorizationCode Signature Token Protocol Discovery Router.

(** ** Configuration *)

Record Config := mkConfig {
  cfg_issuer : string;
  listen_addr : string;
  code_max_age_seconds : Z;
  code_hmac_key : string;
  cfg_user_header : string;
  cfg_dn_attribute : string;
  id_token_ttl_seconds : Z;
  access_token_ttl_seconds : Z;
  signing_key_path : string;
  cfg_clients : list ClientConfig;
  cfg_default_groups : list string;
}.

Definition default_user_header : string := "X-Client-Cert-Subject".
Definition default_dn_attribute : string := "CN".
Definition default_id_token_ttl : Z := 3600.
Definition default_access_token_ttl : Z := 3600.

(** The fields of a configuration file; those with a [serde] default may be
    missing. *)
Record ConfigFile := mkConfigFile {
  f_issuer : string;
  f_listen_addr : string;
  f_code_max_age_seconds : Z;
  f_code_hmac_key : string;
  f_user_header : option string;
  f_dn_attribute : option string;
  f_id_token_ttl_seconds : option Z;
  f_access_token_ttl_seconds : option Z;
  f_signing_key_path : string;
  f_clients : option (list ClientConfig);
  f_default_groups : option (list string);
}.

Definition Config_of_file (f : ConfigFile) : Config :=
  mkConfig (f_issuer f) (f_listen_addr f) (f_code_max_age_seconds f) (f_code_hmac_key f)
    (default default_user_header (f_user_header f))
    (default default_dn_attribute (f_dn_attribute f))
    (default default_id_token_ttl (f_id_token_ttl_seconds f))
    (default default_access_token_ttl (f_access_token_ttl_seconds f))
    (f_signing_key_path f) (default [] (f_clients f)) (default [] (f_default_groups f)).

(** The derived [Deserialize]: the fields of the file, then the defaults. *)
Definition ConfigFile_from_toml (t : toml) : option ConfigFile :=
  issuer ← toml_field toml_str "issuer" t;
  listen_addr ← toml_field toml_str "listen_addr" t;
  code_max_age_seconds ← toml_field toml_u64 "code_max_age_seconds" t;
  code_hmac_key ← toml_field toml_str "code_hmac_key" t;
  user_header ← toml_opt_field toml_str "user_header" t;
  dn_attribute ← toml_opt_field toml_str "dn_attribute" t;
  id_token_ttl_seconds ← toml_opt_field toml_u64 "id_token_ttl_seconds" t;
  access_token_ttl_seconds ← toml_opt_field toml_u64 "access_token_ttl_seconds" t;
  signing_key_path ← toml_field toml_str "signing_key_path" t;
  clients ← toml_opt_field (toml_list ClientConfig_FromToml) "clients" t;
  default_groups ← toml_opt_field (toml_list toml_str) "default_groups" t;
  Some (mkConfigFile issuer listen_addr code_max_age_seconds code_hmac_key user_header
    dn_attribute id_token_ttl_seconds access_token_ttl_seconds signing_key_path clients
    default_groups).

#[export] Instance Config_FromToml : FromToml Config := λ t,
  Config_of_file <$> ConfigFile_from_toml t.

(** The [Box<dyn Error>] of [Config::load]. *)
Inductive LoadError `{Io, Toml} :=
| ReadError (e : IoError)
| ParseError (e : TomlError).

(** [Config::load]; [read_to_string] is the file system. *)
Definition Config_load `{Io, Toml} (read_to_string : string → result string IoError)
    (path : string) : result Config LoadError :=
  let? contents := map_err ReadError (read_to_string path) in
  let? config := map_err ParseError (toml_from_str contents) in
  Ok config.

(** ** The key of the authorization codes *)

(** The [for] loop over [0..32]: a slice off a character boundary panics. *)
Fixpoint hex_loop (hex : string) (idxs : list nat) (bytes : list byte) :
    outcome (option (list byte)) :=
  match idxs with
  | [] => Done (Some bytes)
  | i :: idxs' =>
      let! s := str_slice hex (i * 2) (i * 2 + 2) in
      match u8_from_str_radix_16 s with
      | None => Done None
      | Some b => hex_loop hex idxs' (<[i := b]> bytes)
      end
  end.

Definition hex_to_32_bytes (hex : string) : outcome (option (list byte)) :=
  if negb (bool_decide (length (as_bytes hex) = 64)) then Done None
  else hex_loop hex (seq 0 32) (replicate 32 x00).

(** ** Start-up *)

(** The errors of the construction of the state that [main] returns (the others
    are panics). *)
Inductive StartupError :=
| RegistryError (e : ClientRegistryError)
| UrlError (msg : string).

Section startup.
Context `{BuildProfile, UnicodeCase, Hashes, Base64, Rsa, Jwt, CborErrors,
  !Cbor (TimestampedContainer AuthorizationCode), !Cbor SignedAuthorizationCode, Http, UrlLib,
  Io, Toml}.

(** [main] from the loaded configuration to the state it serves; the token store
    starts as [InMemory.new]. *)
Definition startup (read_to_string : string → result string IoError) (config : Config) :
    outcome (result AppState StartupError) :=
  let! hex := hex_to_32_bytes (code_hmac_key config) in
  let! hmac_key_bytes := expect "code_hmac_key must be 64 hex characters (32 bytes)" hex in
  let! signing_key_pem := expect "Failed to read signing key PEM file"
                            (result_ok (read_to_string (signing_key_path config))) in
  let! jwt_issuer := expect "Failed to initialize JWT issuer"
                       (result_ok (from_pem signing_key_pem (cfg_issuer config))) in
  let clients := (λ c, mkClientConfig (cc_client_id c) (cc_client_secret c)
                         (cc_redirect_uris c) (cc_groups c)) <$> cfg_clients config in
  match map_err RegistryError (ClientRegistry_new clients) with
  | Err e => Done (Err e)
  | Ok client_registry =>
      let endpoints := default_paths in
      match map_err UrlError (url_parse (cfg_issuer config)) with
      | Err e => Done (Err e)
      | Ok issuer_url =>
          let! discovery_manager := DiscoveryManager_new issuer_url endpoints in
          Done (Ok (mkAppState
            (flow_new (duration_from_secs (code_max_age_seconds config)) hmac_key_bytes)
            jwt_issuer client_registry (UserManager_new (cfg_dn_attribute config))
            discovery_manager (cfg_user_header config)
            (duration_from_secs (id_token_ttl_seconds config))
            (duration_from_secs (access_token_ttl_seconds config))
            (cfg_default_groups config)))
      end
  end.

(** What the process does to the outside world. *)
Inductive MainEvent :=
| Bound (addr : string)
| Printed (line : string)
| Serving (app : Request → prog Response) (store : InMemory.InMemoryTokenStore).

Inductive MainError :=
| LoadFailed (e : LoadError)
| StartupFailed (e : StartupError)
| BindFailed (e : IoError)
| ServeFailed (e : IoError).

(** [main]: the command line, the file system, the listener's [bind], and how
    [axum::serve] ends, to the result of the process and what it did. *)
Definition main (args : list string) (read_to_string : string → result string IoError)
    (bind : string → result unit IoError) (serve : result unit IoError) :
    outcome (result unit MainError) * list MainEvent :=
  let config_path := default "config.toml" (args !! 1) in
  match map_err LoadFailed (Config_load read_to_string config_path) with
  | Err e => (Done (Err e), [])
  | Ok config =>
      match startup read_to_string config with
      | Panicked m => (Panicked m, [])
      | Done (Err e) => (Done (Err (StartupFailed e)), [])
      | Done (Ok state) =>
          let app := oidc_router state in
          match map_err BindFailed (bind (listen_addr config)) with
          | Err e => (Done (Err e), [])
          | Ok _ =>
              (Done (map_err ServeFailed serve),
               [Bound (listen_addr config); Printed ("Listening on " +:+ listen_addr config);
                Serving app InMemory.new])
          end
      end
  end.
End startup.

(** ** Lemmas *)

Lemma char_boundary_ascii_all s i :
  ascii_str s → i ≤ length (as_bytes s) → is_char_boundary s i = true.
Proof.
  intros Hs Hi. unfold is_char_boundary. destruct (as_bytes s !! i) as [b|] eqn:E.
  - rewrite ascii_not_continuation; [done|]. by eapply Forall_lookup_1 in Hs.
  - apply lookup_ge_None in E. rewrite bool_decide_eq_true. lia.
Qed.

(** The [i]-th pair of digits of a string. *)
Definition hex_pair (s : string) (i : nat) : string :=
  of_bytes (take 2 (drop (i * 2) (as_bytes s))).

Lemma str_slice_pair s i :
  ascii_str s → i * 2 + 2 ≤ length (as_bytes s) →
  str_slice s (i * 2) (i * 2 + 2) = Done (hex_pair s i).
Proof.
  intros Hs Hi. rewrite str_slice_Done by (done || (apply char_boundary_ascii_all; done || lia) || lia).
  by replace (i * 2 + 2 - i * 2) with 2 by lia.
Qed.

(** The loop fills the buffer from the left with the decoded pairs. *)
Lemma hex_loop_spec s k n acc :
  ascii_str s → (k + n) * 2 ≤ length (as_bytes s) → length acc = k + n →
  hex_loop s (seq k n) acc =
    Done (app (take k acc) <$> mapM (λ i, u8_from_str_radix_16 (hex_pair s i)) (seq k n)).
Proof.
  intros Hs. revert k acc. induction n as [|n IH]; intros k acc Hlen Hacc; simpl.
  { rewrite app_nil_r, take_ge by lia. done. }
  rewrite str_slice_pair by (done || lia). simpl.
  destruct (u8_from_str_radix_16 (hex_pair s k)) as [b|]; [|done]. simpl.
  rewrite IH by (rewrite ?length_insert; lia).
  destruct (mapM _ (seq (Datatypes.S k) n)) as [bs|]; [|done]. simpl. do 2 f_equal.
  erewrite take_S_r by (apply list_lookup_insert_eq; lia).
  by rewrite take_insert_ge, <- app_assoc by lia.
Qed.

Lemma hex_to_32_bytes_ascii s :
  ascii_str s →
  hex_to_32_bytes s = Done (if bool_decide (length (as_bytes s) = 64)
    then mapM (λ i, u8_from_str_radix_16 (hex_pair s i)) (seq 0 32) else None).
Proof.
  intros Hs. unfold hex_to_32_bytes. case_bool_decide; cbn [negb]; [|done].
  rewrite hex_loop_spec by (done || lia). by destruct (mapM _ _).
Qed.

(** What a key is printed as. *)
Definition hex_of (bs : list byte) : string := foldr (λ b s, fmt_02x b +:+ s) "" bs.

Lemma as_bytes_hex_of bs : as_bytes (hex_of bs) = bs ≫= (λ b, as_bytes (fmt_02x b)).
Proof. induction bs as [|b bs IH]; [done|]. simpl hex_of. by rewrite as_bytes_app, IH. Qed.

Lemma length_hex_of bs : length (as_bytes (hex_of bs)) = 2 * length bs.
Proof.
  rewrite as_bytes_hex_of. induction bs as [|b bs IH]; [done|].
  rewrite bind_cons, length_app, length_fmt_02x, IH. simpl. lia.
Qed.

Lemma hex_of_ascii bs : ascii_str (hex_of bs).
Proof.
  unfold ascii_str. rewrite as_bytes_hex_of. apply Forall_bind, Forall_true.
  intros b. apply fmt_02x_ascii.
Qed.

Lemma hex_pair_hex_of bs i b : bs !! i = Some b → hex_pair (hex_of bs) i = fmt_02x b.
Proof.
  unfold hex_pair. rewrite as_bytes_hex_of.
  revert i. induction bs as [|b' bs IH]; intros [|i] Hi; simplify_eq/=.
  - rewrite take_0. exact (of_as_bytes (fmt_02x b)).
  - by apply IH.
Qed.

Lemma mapM_hex_pairs s key :
  mapM (λ i, u8_from_str_radix_16 (hex_pair s i)) (seq 0 32) = Some key ↔
  length key = 32 ∧ ∀ i b, key !! i = Some b → u8_from_str_radix_16 (hex_pair s i) = Some b.
Proof.
  rewrite mapM_Some. split.
  - intros Hall. pose proof (Forall2_length _ _ _ Hall) as Hlen. rewrite length_seq in Hlen.
    split; [done|]. intros i b Hb.
    destruct (Forall2_lookup_r _ _ _ _ _ Hall Hb) as (j & [-> _]%lookup_seq & Hp). done.
  - intros [Hlen Hall]. apply Forall2_same_length_lookup_2; [by rewrite length_seq|].
    intros i j b [-> _]%lookup_seq Hb. by apply Hall.
Qed.

(** ** Properties *)

(** C34: decoding the key of the authorization codes inverts printing it, and on
    any ASCII string it is total: it succeeds exactly on 64 bytes whose 32 pairs
    each parse, with a key of 32 bytes. *)
Theorem hex_to_32_bytes_correct (s : string) (Hs : ascii_str s) :
  (∀ key, length key = 32 → s = hex_of key → hex_to_32_bytes s = Done (Some key)) ∧
  ∃ r, hex_to_32_bytes s = Done r ∧
    (∀ key, r = Some key ↔ length (as_bytes s) = 64 ∧ length key = 32 ∧
       ∀ i b, key !! i = Some b → u8_from_str_radix_16 (hex_pair s i) = Some b).
Proof.
  rewrite hex_to_32_bytes_ascii by done. split.
  - intros key Hkey ->. rewrite bool_decide_eq_true_2 by (rewrite length_hex_of; lia).
    f_equal. apply mapM_hex_pairs. split; [done|]. intros i b Hb.
    rewrite (hex_pair_hex_of _ _ _ Hb). apply u8_from_str_radix_16_fmt.
  - eexists. split; [done|]. intros key. case_bool_decide; [rewrite mapM_hex_pairs|]; naive_solver.
Qed.

Lemma hex_loop_length s idxs acc key :
  hex_loop s idxs acc = Done (Some key) → length key = length acc.
Proof.
  revert acc. induction idxs as [|i idxs IH]; intros acc; simpl; [congruence|].
  intros (p & _ & Hrun)%obind_Done. destruct (u8_from_str_radix_16 p) as [b|]; [|done].
  rewrite (IH _ Hrun). apply length_insert.
Qed.

Lemma hex_to_32_bytes_length s key : hex_to_32_bytes s = Done (Some key) → length key = 32.
Proof.
  unfold hex_to_32_bytes. destruct (negb _); [done|]. intros Hk%hex_loop_length. done.
Qed.

(** A sixty-four byte string that is no hexadecimal number is accepted: the
    integer parser takes a sign in front of the one digit of each pair. *)
Example hex_to_32_bytes_accepts_signs :
  hex_to_32_bytes "+0+1+2+3+4+5+6+7+8+9+a+b+c+d+e+f+0+1+2+3+4+5+6+7+8+9+a+b+c+d+e+f" =
    Done (Some (u8_of <$> (Z.of_nat <$> (seq 0 16 ++ seq 0 16)))).
Proof. vm_compute. reflexivity. Qed.

Lemma string_app_slash_ne s : s +:+ "/" ≠ s.
Proof.
  intros E%(f_equal as_bytes)%(f_equal length). rewrite as_bytes_app, length_app in E.
  simpl in E. lia.
Qed.

Lemma clients_copied (cs : list ClientConfig) :
  (λ c, mkClientConfig (cc_client_id c) (cc_client_secret c) (cc_redirect_uris c)
          (cc_groups c)) <$> cs = cs.
Proof. induction cs as [|[] cs IH]; [done|]. by rewrite fmap_cons, IH. Qed.

Section startup_properties.
Context `{BuildProfile, UnicodeCase, Hashes, Base64, Rsa, Jwt, CborErrors,
  !Cbor (TimestampedContainer AuthorizationCode), !Cbor SignedAuthorizationCode, Http, UrlLib,
  Io, Toml}.
Implicit Types fs : string → result string IoError.

Lemma from_pem_Ok pem iss ji :
  from_pem pem iss = Ok ji ↔ ∃ sk, from_pkcs8_pem pem = Ok sk ∧ from_private_key sk iss = Ok ji.
Proof. unfold from_pem. rewrite rbind_Ok. by setoid_rewrite map_err_Ok. Qed.

Lemma startup_Ok fs config st :
  startup fs config = Done (Ok st) →
  ∃ key pem ji reg url dm, hex_to_32_bytes (code_hmac_key config) = Done (Some key) ∧
    fs (signing_key_path config) = Ok pem ∧
    from_pem pem (cfg_issuer config) = Ok ji ∧
    ClientRegistry_new (cfg_clients config) = Ok reg ∧
    url_parse (cfg_issuer config) = Ok url ∧
    DiscoveryManager_new url default_paths = Done dm ∧
    hmac_key (flow st) = key ∧ jwt_issuer st = ji ∧ st_clients st = reg ∧
    discovery_manager st = dm.
Proof.
  unfold startup. intros (hx & Hhx & (key & Hkey & (pem & Hpem & (ji & Hji & Hrest)%obind_Done)
    %obind_Done)%obind_Done)%obind_Done.
  destruct hx as [key'|]; simpl in Hkey; simplify_eq.
  destruct (fs _) as [pem'|] eqn:Hfs; simpl in Hpem; simplify_eq.
  destruct (from_pem _ _) as [ji'|] eqn:Hp; simpl in Hji; simplify_eq.
  rewrite clients_copied in Hrest.
  destruct (ClientRegistry_new _) as [reg|]; simpl in Hrest; [|done].
  destruct (url_parse _) as [url|]; simpl in Hrest; [|done].
  apply obind_Done in Hrest as (dm & Hdm & [= <-]). by exists key, pem, ji, reg, url, dm.
Qed.

Lemma main_serves_new args fs bind serve app store :
  Serving app store ∈ (main args fs bind serve).2 → store = InMemory.new.
Proof.
  unfold main. repeat case_match; cbn [snd]; rewrite ?elem_of_cons, ?elem_of_nil; naive_solver.
Qed.

(** C33: a server that starts, starts well: the registry holds exactly the
    configured clients, without a repeated id; codes are authenticated under a
    key of 32 bytes; tokens are issued under the configured issuer name with the
    two halves of one key pair; and whatever the process then serves is over a
    store that is usable and empty, with no code spent. *)
Theorem startup_establishes (HJ : JwtLaws) (HR : JwtRsaLaws)
    (fs : string → result string IoError) (config : Config) (st : AppState)
    (Hstart : startup fs config = Done (Ok st)) :
  clients (st_clients st) = cfg_clients config ∧ registry_ok (st_clients st) ∧
  length (hmac_key (flow st)) = 32 ∧
  issuer (jwt_issuer st) = cfg_issuer config ∧ issuer_keys_match (jwt_issuer st) ∧
  (∀ args bind serve app store,
     Serving app store ∈ (main args fs bind serve).2 → store = InMemory.new) ∧
  store_ok InMemory.new ∧ store_records InMemory.new = ∅ ∧ store_consumed InMemory.new = ∅.
Proof.
  apply startup_Ok in Hstart
    as (key & pem & ji & reg & url & dm & Hkey & _ & Hji & Hreg & _ & _ & -> & -> & -> & _).
  apply from_pem_Ok in Hji as (sk & _ & Hji).
  destruct (from_private_key_consistent HJ HR sk (cfg_issuer config) ji Hji) as (-> & Hkeys & _).
  unfold ClientRegistry_new in Hreg.
  apply rbind_Ok in Hreg as ([] & [Hnd _]%check_duplicates_Ok & [= <-]).
  split_and!; try done; [by apply hex_to_32_bytes_length in Hkey|].
  intros args bind serve app store. apply main_serves_new.
Qed.

(** C35: the issuer in the tokens is the configured string as it stands, the one in
    the metadata the text of the URL it parses to, without a trailing slash.  They
    agree exactly when that text is the configured string, which then has no
    trailing slash, or is one slash longer; a configured trailing slash that
    parsing keeps is the difference of the two, and where parsing changes the
    string otherwise (a host in upper case, a default port) they differ as well. *)
Theorem issuer_names_agree (fs : string → result string IoError) (config : Config)
    (st : AppState) (url : Url) (Hstart : startup fs config = Done (Ok st))
    (Hurl : url_parse (cfg_issuer config) = Ok url) :
  let advertised := disc_issuer (get_discovery_info (discovery_manager st)) in
  let iss := issuer (jwt_issuer st) in
  iss = cfg_issuer config ∧
  (iss = advertised ↔
     url_to_string url = cfg_issuer config +:+ "/" ∨
     url_to_string url = cfg_issuer config ∧ ends_with (cfg_issuer config) "/"%char = false) ∧
  (url_to_string url = cfg_issuer config → ends_with (cfg_issuer config) "/"%char = true →
     iss = advertised +:+ "/" ∧ iss ≠ advertised).
Proof.
  intros advertised iss. unfold advertised, iss.
  apply startup_Ok in Hstart
    as (key & pem & ji & reg & url' & dm & _ & _ & Hji & _ & Hurl' & Hdm & _ & -> & _ & ->).
  rewrite Hurl in Hurl'. injection Hurl' as <-.
  apply obind_Done in Hdm as (d & Hd & [= <-]). unfold get_discovery_info. simpl.
  rewrite (discovery_info_issuer _ _ _ Hd).
  apply from_pem_Ok in Hji as (sk & _ & ->%from_private_key_issuer).
  split; [done|]. split; [rewrite <- canonicalize_issuer_iff; split; congruence|].
  intros Hs He. destruct (canonicalize_issuer_spec url) as [E|[_ ?]]; [|congruence].
  rewrite <- Hs. split; [done|]. rewrite E. apply string_app_slash_ne.
Qed.

Lemma Config_load_Ok fs path config :
  Config_load fs path = Ok config ↔
  ∃ contents t, fs path = Ok contents ∧ toml_parse contents = Ok t ∧ from_toml t = Some config.
Proof.
  unfold Config_load, toml_from_str. split.
  - intros (contents & Hc%map_err_Ok & Hrest)%rbind_Ok.
    apply rbind_Ok in Hrest as (c & Ht & [= ->]). apply map_err_Ok, rbind_Ok in Ht.
    destruct Ht as (t & Ht & Hf%ok_or_Ok). eauto.
  - intros (contents & t & -> & Ht & Hf). simpl. rewrite Ht. simpl. by rewrite Hf.
Qed.

(** A configuration that loads has the defaults of [serde] where the file is
    silent. *)
Lemma Config_defaults t config :
  from_toml t = Some config →
  (toml_get "user_header" t = Some None → cfg_user_header config = "X-Client-Cert-Subject") ∧
  (toml_get "dn_attribute" t = Some None → cfg_dn_attribute config = "CN") ∧
  (toml_get "id_token_ttl_seconds" t = Some None → id_token_ttl_seconds config = 3600%Z) ∧
  (toml_get "access_token_ttl_seconds" t = Some None →
     access_token_ttl_seconds config = 3600%Z) ∧
  (toml_get "clients" t = Some None → cfg_clients config = []) ∧
  (toml_get "default_groups" t = Some None → cfg_default_groups config = []).
Proof.
  unfold from_toml, Config_FromToml. intros (f & Hf & ->)%fmap_Some.
  unfold ConfigFile_from_toml in Hf.
  repeat match goal with
  | H : _ ≫= _ = Some _ |- _ => apply bind_Some in H as (? & ? & ?)
  end.
  simplify_eq/=. unfold toml_opt_field in *.
  split_and!; intros Hg; rewrite Hg in *; by simplify_eq/=.
Qed.

(** What keeps a loaded configuration from becoming a state. *)
Definition key_refused config : Prop :=
  ∀ key, hex_to_32_bytes (code_hmac_key config) ≠ Done (Some key).

Definition signing_key_refused fs config : Prop :=
  ∀ pem ji, fs (signing_key_path config) = Ok pem → from_pem pem (cfg_issuer config) ≠ Ok ji.

Definition metadata_refused config : Prop :=
  ∃ url m, url_parse (cfg_issuer config) = Ok url ∧ DiscoveryManager_new url default_paths = Panicked m.

Lemma startup_fails fs config :
  match startup fs config with
  | Done (Ok _) => True
  | Done (Err (RegistryError (DuplicateClientId id))) =>
      ∃ pre c mid c' post, cfg_clients config = pre ++ c :: mid ++ c' :: post ∧
        cc_client_id c = id ∧ cc_client_id c' = id
  | Done (Err (UrlError m)) => url_parse (cfg_issuer config) = Err m
  | Panicked _ =>
      key_refused config ∨ signing_key_refused fs config ∨ metadata_refused config
  end.
Proof.
  unfold startup, key_refused, signing_key_refused, metadata_refused.
  destruct (hex_to_32_bytes _) as [[key|]|m]; simpl; [|by left..].
  destruct (fs _) as [pem|e]; simpl; [|by right; left].
  destruct (from_pem _ _) as [ji|e] eqn:Hp; simpl; [|right; left; intros ? ? [= <-]; by rewrite Hp].
  rewrite clients_copied.
  destruct (ClientRegistry_new _) as [reg|[id]] eqn:Hreg; simpl; [|by apply ClientRegistry_new_Err].
  destruct (url_parse _) as [url|e]; simpl; [|done].
  destruct (DiscoveryManager_new _ _) as [dm|m] eqn:Hd; simpl; [done|].
  right; right. by exists url, m.
Qed.

(** C31: start-up is all or nothing: the process listens, says so and serves the
    router over an empty store exactly when the file named on the command line
    (or [config.toml]) reads, parses and has the shape of a configuration, the
    state can be built from it and its key file, and the address binds; it then
    ends as the server ends.  In every other case nothing is bound, printed or
    served, and the process fails: with the error of the file, of a repeated
    client id, of the issuer URL or of the socket, or with a panic, for which the
    code key, the signing key or the endpoint URLs are the only causes. *)
Theorem main_outcome (args : list string) (fs : string → result string IoError)
    (bind : string → result unit IoError) (serve : result unit IoError) :
  let path := default "config.toml" (args !! 1) in
  let '(ended, events) := main args fs bind serve in
  (∃ contents t config st,
     fs path = Ok contents ∧ toml_parse contents = Ok t ∧ from_toml t = Some config ∧
     startup fs config = Done (Ok st) ∧ bind (listen_addr config) = Ok tt ∧
     events = [Bound (listen_addr config);
               Printed ("Listening on " +:+ listen_addr config);
               Serving (oidc_router st) InMemory.new] ∧
     ended = Done (map_err ServeFailed serve)) ∨
  events = [] ∧
  match ended with
  | Done (Ok _) | Done (Err (ServeFailed _)) => False
  | Done (Err (LoadFailed e)) => Config_load fs path = Err e
  | Done (Err (StartupFailed e)) =>
      ∃ config, Config_load fs path = Ok config ∧
        match e with
        | RegistryError (DuplicateClientId id) =>
            ∃ pre c mid c' post, cfg_clients config = pre ++ c :: mid ++ c' :: post ∧
              cc_client_id c = id ∧ cc_client_id c' = id
        | UrlError m => url_parse (cfg_issuer config) = Err m
        end
  | Done (Err (BindFailed e)) =>
      ∃ config st, Config_load fs path = Ok config ∧ startup fs config = Done (Ok st) ∧
        bind (listen_addr config) = Err e
  | Panicked m =>
      ∃ config, Config_load fs path = Ok config ∧
        (key_refused config ∨ signing_key_refused fs config ∨ metadata_refused config)
  end.
Proof.
  intros path. unfold main. fold path.
  destruct (Config_load fs path) as [config|e] eqn:Hload; simpl; [|by right].
  pose proof (startup_fails fs config) as Hfail.
  destruct (startup fs config) as [[st|e]|m] eqn:Hst; [|right; by eauto..].
  destruct (bind (listen_addr config)) as [[]|e] eqn:Hbind; simpl; [left|right; eauto 6].
  apply Config_load_Ok in Hload as (contents & t & Hc & Ht & Hf).
  by exists contents, t, config, st.
Qed.
End startup_properties.
