(* ===== verification/Interleaving.v ===== *)
(** * Concurrent requests

    The server handles requests in parallel; what they share is the token store,
    whose operations are atomic (each takes one lock once).  A pool is the
    programs still running, the store, and a log of the code keys that were
    consumed for the first time, with the thread that did it.  A step performs
    one effect of one thread; the clock readings and random bytes a thread gets
    are arbitrary. *)
From S2P Require Import Prelude RustStd Storage Effects Externs Users Client Pkce Timestamp.
From S2P Require Import AuthorizationCode Signature Token Protocol Discovery Router.
From S2P Require Import Wp HandlerPaths.
From stdpp Require Import relations.

Record Pool (A S : Type) := mkPool {
  threads : list (prog A);
  shared : S;
  first_uses : list (nat * string);
}.
Arguments mkPool {A S} threads shared first_uses.
Arguments threads {A S} p.
Arguments shared {A S} p.
Arguments first_uses {A S} p.

(** One effect of one program: the store afterwards, and the key of a first use. *)
Inductive effect_step {A S} `{TokenStore S} : prog A → S → prog A → S → option string → Prop :=
| step_now k t s : effect_step (Now k) s (k t) s None
| step_random k f s : effect_step (RandomBytes k) s (k f) s None
| step_issue jti sub cid scope groups exp k s s' :
    store_issue jti sub cid scope groups exp s = Done s' →
    effect_step (StoreIssue jti sub cid scope groups exp k) s k s' None
| step_lookup jti k s r :
    store_lookup jti s = Done r → effect_step (StoreLookup jti k) s (k r) s None
| step_revoke jti k s b s' :
    store_revoke jti s = Done (b, s') → effect_step (StoreRevoke jti k) s (k b) s' None
| step_consume key k s b s' :
    store_consume_code key s = Done (b, s') →
    effect_step (StoreConsume key k) s (k b) s' (if b then Some key else None).

Inductive pool_step {A S} `{TokenStore S} : Pool A S → Pool A S → Prop :=
| step_thread ps s log i p p' s' use :
    ps !! i = Some p → effect_step p s p' s' use →
    pool_step (mkPool ps s log)
      (mkPool (<[i := p']> ps) s' (match use with Some k => (i, k) :: log | None => log end)).

(** The steps whose clock readings, if any, satisfy [T]. *)
Definition timely {A} (T : SystemTime → Prop) (p p' : prog A) : Prop :=
  match p with Now k => ∃ t, T t ∧ p' = k t | _ => True end.

Inductive timed_step {A S} `{TokenStore S} (T : SystemTime → Prop) :
    Pool A S → Pool A S → Prop :=
| timed_thread ps s log i p p' s' use :
    ps !! i = Some p → effect_step p s p' s' use → timely T p p' →
    timed_step T (mkPool ps s log)
      (mkPool (<[i := p']> ps) s' (match use with Some k => (i, k) :: log | None => log end)).

(** [guarded key P p]: a run of [p] reaches a result satisfying [P] only past a
    first use of [key]. *)
Fixpoint guarded {A} (key : string) (P : A → Prop) (p : prog A) : Prop :=
  match p with
  | Ret a => ¬ P a
  | Panic _ => True
  | Now k => ∀ t, guarded key P (k t)
  | RandomBytes k => ∀ f, guarded key P (k f)
  | StoreIssue _ _ _ _ _ _ k => guarded key P k
  | StoreLookup _ k => ∀ r, guarded key P (k r)
  | StoreRevoke _ k => ∀ b, guarded key P (k b)
  | StoreConsume c k => guarded key P (k false) ∧ (c = key ∨ guarded key P (k true))
  end.

Lemma guarded_bind {A B} key (Q : A → Prop) (P : B → Prop) p f :
  guarded key Q p → (∀ a, ¬ Q a → guarded key P (f a)) → guarded key P (pbind p f).
Proof. intros Hp Hf. induction p; simpl in *; naive_solver. Qed.

Lemma guarded_store_free {A B} key (P : B → Prop) (p : prog A) f :
  store_free p → (∀ a, guarded key P (f a)) → guarded key P (pbind p f).
Proof. intros Hp Hf. induction p; simpl in *; naive_solver. Qed.

Section pool.
Context {A S : Type} `{TokenStoreSpec S}.
Implicit Types q : Pool A S.

Lemma effect_step_store p (s : S) p' s' use :
  store_ok s → effect_step (A := A) p s p' s' use →
  store_ok s' ∧ store_consumed s ⊆ store_consumed s' ∧
  ∀ k, use = Some k → k ∉ store_consumed s ∧ k ∈ store_consumed s'.
Proof.
  intros Hok Hst. destruct Hst as [| |????????? E|???? E|????? E|key k s b s' E]; try done.
  - apply issue_Done in E as (? & _ & ->); [|done]. done.
  - apply revoke_Done in E as (? & _ & -> & _); [|done]. done.
  - apply consume_code_Done in E as (? & _ & Hc & Hb); [|done]. split; [done|].
    split; [set_solver|]. intros k' Hk'. destruct b; simplify_eq. set_solver.
Qed.

(** A step keeps a program guarded, unless it was the first use. *)
Lemma effect_step_guarded key (P : A → Prop) p (s : S) p' s' use :
  effect_step p s p' s' use → guarded key P p → use ≠ Some key → guarded key P p'.
Proof.
  destruct 1 as [| | | | |c k s b s' _]; simpl; try naive_solver.
  destruct b; naive_solver.
Qed.

Lemma effect_step_consumes_only K p (s : S) p' s' use :
  effect_step p s p' s' use → consumes_only K p →
  consumes_only K (A := A) p' ∧ ∀ key, use = Some key → K key.
Proof. destruct 1; simpl; try naive_solver. destruct b; naive_solver. Qed.

(** The invariant of a pool: its store is usable, and the log holds spent keys,
    each once. *)
Definition pool_ok q : Prop :=
  store_ok (shared q) ∧ NoDup (first_uses q).*2 ∧
  ∀ k, k ∈ (first_uses q).*2 → k ∈ store_consumed (shared q).

Lemma pool_ok_start (ps : list (prog A)) (s : S) : store_ok s → pool_ok (mkPool ps s []).
Proof. split; [done|]. split; [constructor|]. intros k Hk. by apply elem_of_nil in Hk. Qed.

Lemma pool_step_ok q q' : pool_step q q' → pool_ok q → pool_ok q'.
Proof.
  destruct 1 as [ps s log i p p' s' use Hi Hst]. intros (Hok & Hnd & Hlog). simpl in *.
  destruct (effect_step_store _ _ _ _ _ Hok Hst) as (Hok' & Hsub & Huse).
  unfold pool_ok. simpl. destruct use as [k|]; [|set_solver].
  destruct (Huse k eq_refl) as [Hnew Hin]. split; [done|]. split.
  - constructor; [|done]. intros ?%Hlog. done.
  - intros k'. rewrite fmap_cons. set_solver.
Qed.

Lemma pool_steps_ok q q' : rtc pool_step q q' → pool_ok q → pool_ok q'.
Proof. induction 1; eauto using pool_step_ok. Qed.

(** A thread that starts guarded stays so, or has logged its first use. *)
Lemma pool_steps_guarded key (P : A → Prop) i q q' :
  rtc pool_step q q' →
  ((i, key) ∈ first_uses q ∨ ∀ p, threads q !! i = Some p → guarded key P p) →
  (i, key) ∈ first_uses q' ∨ ∀ p, threads q' !! i = Some p → guarded key P p.
Proof.
  induction 1 as [|q1 q2 q3 Hst _ IH]; [done|]. intros Hi. apply IH. clear IH.
  destruct Hst as [ps s log j p p' s' use Hj Hst]. simpl in *.
  destruct Hi as [Hi|Hi]; [left; destruct use; set_solver|].
  destruct (decide (i = j)) as [<-|Hne].
  - destruct (decide (use = Some key)) as [->|Huse]; [left; set_solver|right].
    intros p'' Hp. rewrite list_lookup_insert_eq in Hp by by eapply lookup_lt_Some.
    simplify_eq. by eapply effect_step_guarded; eauto.
  - right. intros p'' Hp. rewrite list_lookup_insert_ne in Hp by done. by apply Hi.
Qed.

(** Two threads guarded by the same key cannot both get there. *)
Lemma guarded_exclusive key (P : A → Prop) ps (s : S) q i j pi pj a b :
  store_ok s → rtc pool_step (mkPool ps s []) q →
  ps !! i = Some pi → ps !! j = Some pj → guarded key P pi → guarded key P pj →
  threads q !! i = Some (Ret a) → threads q !! j = Some (Ret b) → P a → P b → i = j.
Proof.
  intros Hok Hsteps Hi Hj Hgi Hgj Ha Hb HPa HPb.
  destruct (pool_steps_ok _ _ Hsteps) as (_ & Hnd & _); [by apply pool_ok_start|].
  assert (Hlog : ∀ n p c, ps !! n = Some p → guarded key P p →
    threads q !! n = Some (Ret c) → P c → (n, key) ∈ first_uses q).
  { intros n p c Hn Hg Hc HP.
    destruct (pool_steps_guarded key P n _ _ Hsteps) as [|Hno]; [|done|].
    - right. simpl. congruence.
    - by destruct (Hno _ Hc). }
  pose proof (Hlog i pi a Hi Hgi Ha HPa) as Li. pose proof (Hlog j pj b Hj Hgj Hb HPb) as Lj.
  apply list_elem_of_lookup in Li as [m Hm], Lj as [n Hn].
  assert (m = n) as ->; [|congruence].
  apply (NoDup_lookup _ m n key Hnd); rewrite list_lookup_fmap; [rewrite Hm|rewrite Hn]; done.
Qed.
End pool.

(** ** Steps with clock readings in a set *)

Section timed.
Context {A S : Type} `{TokenStore S} (T : SystemTime → Prop).
Implicit Types q : Pool A S.

Lemma timed_pool_step q q' : timed_step T q q' → pool_step q q'.
Proof. destruct 1. by econstructor. Qed.

Lemma timed_pool_steps q q' : rtc (timed_step T) q q' → rtc pool_step q q'.
Proof. induction 1; econstructor; eauto using timed_pool_step. Qed.

(** Every step is timely when any reading is. *)
Lemma pool_steps_timed q q' : rtc pool_step q q' → rtc (timed_step (λ _, True)) q q'.
Proof.
  induction 1 as [|q1 q2 q3 Hst _ IH]; [done|]. eapply rtc_l; [|done].
  destruct Hst as [ps s log i p p' s' use Hi Hst]. econstructor; [done..|].
  destruct Hst; simpl; eauto.
Qed.

(** What every step of a thread keeps, a thread keeps among the others. *)
Lemma timed_steps_thread (F : prog A → Prop) i q q' :
  (∀ p (s : S) p' s' use, effect_step p s p' s' use → timely T p p' → F p → F p') →
  rtc (timed_step T) q q' →
  (∀ p, threads q !! i = Some p → F p) → ∀ p, threads q' !! i = Some p → F p.
Proof.
  intros HF. induction 1 as [|q1 q2 q3 Hst _ IH]; [done|]. intros Hi. apply IH. clear IH.
  destruct Hst as [ps s log j p p' s' use Hj Hst Ht]. simpl in *. intros p''.
  destruct (decide (i = j)) as [<-|Hne].
  - rewrite list_lookup_insert_eq by by eapply lookup_lt_Some. intros [= <-]. eauto.
  - rewrite list_lookup_insert_ne by done. apply Hi.
Qed.

Lemma timed_steps_length q q' :
  rtc (timed_step T) q q' → length (threads q') = length (threads q).
Proof. induction 1 as [|? ? ? []]; [done|]. simpl in *. by rewrite length_insert in *. Qed.

Lemma effect_step_wp E (P : A → Prop) p (s : S) p' s' use :
  effect_step p s p' s' use → timely T p p' → wp T E P p → wp T E P p'.
Proof. destruct 1; simpl; try naive_solver. intros (t' & Ht & ->). auto. Qed.

(** A thread that has ended has ended as its paths say. *)
Lemma timed_steps_wp E (P : A → Prop) i p q q' a :
  rtc (timed_step T) q q' → threads q !! i = Some p → wp T E P p →
  threads q' !! i = Some (Ret a) → P a.
Proof.
  intros Hsteps Hi Hp Ha. apply (timed_steps_thread (wp T E P) i q q') with (p := Ret a); eauto.
  - eauto using effect_step_wp.
  - intros p' Hp'. congruence.
Qed.
End timed.

(** ** Running alone is one of the interleavings *)

Section adequacy.
Context {A S : Type} `{TokenStore S}.

Lemma run_timed_steps (T : SystemTime → Prop) (p : prog A) (w w' : World S) a ps i log :
  (∀ n, T (w_clock w n)) → ps !! i = Some p → run p w = (Done a, w') →
  ∃ log', rtc (timed_step T) (mkPool ps (w_store w) log)
            (mkPool (<[i := Ret a]> ps) (w_store w') log').
Proof.
  assert (Hnext : ∀ p p' s s' use ps log s2,
    ps !! i = Some p → effect_step p s p' s' use → timely T p p' →
    (∀ ps log, ps !! i = Some p' → ∃ log', rtc (timed_step T) (mkPool ps s' log)
       (mkPool (<[i := Ret a]> ps) s2 log')) →
    ∃ log', rtc (timed_step T) (mkPool ps s log) (mkPool (<[i := Ret a]> ps) s2 log')).
  { clear. intros p p' s s' use ps log s2 Hi Hst Ht Hrest.
    destruct (Hrest (<[i := p']> ps) (match use with Some k => (i, k) :: log | None => log end))
      as [log' Hsteps]; [apply list_lookup_insert_eq; by eapply lookup_lt_Some|].
    exists log'. eapply rtc_l; [by econstructor|]. by rewrite list_insert_insert_eq in Hsteps. }
  revert w ps log. induction p as [b| |k IH|k IH|jti sub cid sc gr ex k IH|jti k IH|jti k IH|key k IH];
    intros w ps log HT Hi Hrun; simpl in Hrun.
  - injection Hrun as -> ->. exists log. by rewrite list_insert_id.
  - done.
  - eapply Hnext; [done|constructor|by eexists|]. intros. eapply (IH _ (tick w)); [|done..].
    intros n. apply (HT (Datatypes.S n)).
  - eapply Hnext; [done|constructor|done|]. intros. by eapply (IH _ (draw w)).
  - destruct (store_issue _ _ _ _ _ _ _) as [s|] eqn:E; [|done].
    eapply Hnext; [done|by constructor|done|]. intros. by eapply (IH (set_store s w)).
  - destruct (store_lookup _ _) as [r|] eqn:E; [|done].
    eapply Hnext; [done|by constructor|done|]. intros. by eapply IH.
  - destruct (store_revoke _ _) as [[b s]|] eqn:E; [|done].
    eapply Hnext; [done|by constructor|done|]. intros. by eapply (IH _ (set_store s w)).
  - destruct (store_consume_code _ _) as [[b s]|] eqn:E; [|done].
    eapply Hnext; [done|by econstructor|done|]. intros. by eapply (IH _ (set_store s w)).
Qed.

Lemma run_steps (p : prog A) (w w' : World S) a ps i log :
  ps !! i = Some p → run p w = (Done a, w') →
  ∃ log', rtc pool_step (mkPool ps (w_store w) log)
            (mkPool (<[i := Ret a]> ps) (w_store w') log').
Proof.
  intros Hi Hrun. destruct (run_timed_steps (λ _, True) p w w' a ps i log) as [log' Hsteps];
    [done..|]. exists log'. by eapply timed_pool_steps.
Qed.
End adequacy.

(** ** The server's requests in parallel *)

Section server.
Context `{BuildProfile, UnicodeCase, Hashes, Base64, Rsa, Jwt, CborErrors,
  !Cbor (TimestampedContainer AuthorizationCode), !Cbor SignedAuthorizationCode, Http, UrlLib}.

Lemma access_token_request_guarded self req ctx :
  guarded (code_replay_key (tr_code req)) (λ r, is_ok r = true)
    (access_token_request self req ctx).
Proof.
  unfold access_token_request. destruct (tr_grant_type req).
  apply guarded_store_free; [apply store_free_decode_and_verify|]. intros r.
  destruct (map_err map_code_verification_error r) as [code|e]; [|done]. cbn [pbind_ok pbind].
  destruct (validate_token_request _ _ _ _); [|done]. cbn [map_err pbind_ok pbind].
  destruct (negb _); [done|]. destruct (validate_client_secret _ _ _); [|done].
  unfold redeem_code. cbv zeta. simpl. auto.
Qed.

Lemma token_request_guarded st h p :
  guarded (code_replay_key (tp_code p)) served (oidc_router st (TokenRequest h p)).
Proof.
  cbn [oidc_router].
  apply (guarded_bind _ (λ r : result TokenResponse OIDCError, is_ok r = true)).
  - unfold token_handler. destruct (GrantType_from_str _) as [g|]; [|done].
    cbn [pbind_ok pbind]. destruct (parse_basic_auth h) as [bi bs].
    destruct (ok_or _ _) as [cid|]; [|done]. cbn [pbind_ok pbind].
    change (tp_code p) with (tr_code (mkAccessTokenRequest g cid
      (option_or bs (tp_client_secret p)) (tp_code p) (tp_redirect_uri p)
      (tp_code_verifier p))). apply access_token_request_guarded.
  - intros [rsp|e] Hr; [by destruct Hr|]. simpl. intros [body Hb]. by destruct e.
Qed.

Context {S : Type} `{TokenStoreSpec S}.

(** C5: however requests are interleaved on the shared store, whatever the clock
    readings and random bytes each gets: of all the token requests in flight
    that present one code string, at most one is answered with tokens. *)
Theorem concurrent_code_single_use (st : AppState) (requests : list Request) (s : S)
    (q : Pool Response S) (i j : nat) (hi hj : HeaderMap) (pi pj : TokenParams)
    (ri rj : Response)
    (Hok : store_ok s)
    (Hsteps : rtc pool_step (mkPool (oidc_router st <$> requests) s []) q)
    (Hi : requests !! i = Some (TokenRequest hi pi))
    (Hj : requests !! j = Some (TokenRequest hj pj))
    (Hcode : tp_code pi = tp_code pj)
    (Hri : threads q !! i = Some (Ret ri)) (Hrj : threads q !! j = Some (Ret rj))
    (Hsi : served ri) (Hsj : served rj) :
  i = j.
Proof.
  assert (Hthread : ∀ n h p, requests !! n = Some (TokenRequest h p) →
    (oidc_router st <$> requests) !! n = Some (oidc_router st (TokenRequest h p)))
    by (intros n h p Hn; by rewrite list_lookup_fmap, Hn).
  eapply (guarded_exclusive (code_replay_key (tp_code pi)) served); eauto.
  - apply token_request_guarded.
  - rewrite Hcode. apply token_request_guarded.
Qed.

(** C11: tokens are never handed out for less under concurrency: whatever other
    requests run in between, a token request that is answered with tokens had a
    code that was redeemable, by that very request, at one of the clock readings
    taken during the interleaving, and the tokens are the response for that
    code, issued at two of these readings. *)
Theorem concurrent_tokens_sound (T : SystemTime → Prop) (t0 : SystemTime) (st : AppState)
    (requests : list Request) (s : S) (q : Pool Response S) (i : nat) (h : HeaderMap)
    (p : TokenParams) (body : json)
    (Ht0 : T t0)
    (Hsteps : rtc (timed_step T) (mkPool (oidc_router st <$> requests) s []) q)
    (Hi : requests !! i = Some (TokenRequest h p))
    (Hserved : threads q !! i = Some (Ret (JsonResponse 200 body))) :
  ∃ req code now jti t_id t_at tokens,
    token_request h p = Some req ∧ T now ∧ T t_id ∧ T t_at ∧
    redeemable (flow st) (st_clients st) req now code ∧
    response_for (token_context st) req code jti t_id t_at tokens ∧ body = to_json tokens.
Proof.
  pose proof (wp_token_request_sound T t0 st h p Ht0) as Hwp.
  eapply (timed_steps_wp T) in Hwp; [by eapply Hwp|exact Hsteps| |exact Hserved].
  simpl. by rewrite list_lookup_fmap, Hi.
Qed.

(** The sequential and the concurrent reading of a request agree: a request
    served alone in a world, among any others at rest, is one interleaving of
    the pool. *)
Theorem run_is_an_interleaving (st : AppState) (requests : list Request) (i : nat)
    (r : Request) (w w' : World S) (rsp : Response)
    (Hi : requests !! i = Some r)
    (Hrun : run (oidc_router st r) w = (Done rsp, w')) :
  ∃ log, rtc pool_step (mkPool (oidc_router st <$> requests) (w_store w) [])
           (mkPool (<[i := Ret rsp]> (oidc_router st <$> requests)) (w_store w') log).
Proof. eapply run_steps; [|done]. by rewrite list_lookup_fmap, Hi. Qed.
End server.
