(* ===== verification/Provider.v ===== *)
(** * What the server promises, as an abstract machine

    A role is how far one request has come: waiting, its code accepted, answered.
    Roles act on a ledger of spent codes and recorded tokens, and their actions
    mention neither the handlers' code nor cryptography: a code string is worth a
    code or it is not, a bearer token is accepted or it is not.  The pool of
    handlers refines this machine under any interleaving, over any store that
    keeps the contract of the trait, so that what is proved of the machine holds
    of the server. *)
From stdpp Require Import relations.
From S2P Require Import Prelude RustStd Storage Effects Wp Externs Users Client Pkce Timestamp.
From S2P Require Import AuthorizationCode Signature Token Protocol Discovery Router.
From S2P Require Import HandlerPaths Interleaving.

(** ** Machines over a ledger *)

Inductive Label :=
| Silent
| Spends (key : string)
| Replays (key : string)
| Grants (jti : string) (r : TokenRecord)
| Reads (jti : string) (o : option TokenRecord).

(** What a label asks of the ledger and does to it. *)
Definition permits (l : Label) (a a' : AbstractStore) : Prop :=
  match l with
  | Silent => a' = a
  | Spends key =>
      key ∉ abs_consumed a ∧ a' = mkAbstractStore (abs_records a) ({[key]} ∪ abs_consumed a)
  | Replays key => key ∈ abs_consumed a ∧ a' = a
  | Grants jti r => a' = mkAbstractStore (<[jti := r]> (abs_records a)) (abs_consumed a)
  | Reads jti o => abs_records a !! jti = o ∧ a' = a
  end.

Record Machine (R : Type) := mkMachine { roles : list R; ledger : AbstractStore }.
Arguments mkMachine {R} roles ledger.
Arguments roles {R} m.
Arguments ledger {R} m.

Inductive machine_step {R} (acts : R → Label → R → Prop) : Machine R → Machine R → Prop :=
| machine_acts rs a i r l r' a' :
    rs !! i = Some r → acts r l r' → permits l a a' →
    machine_step acts (mkMachine rs a) (mkMachine (<[i := r']> rs) a').

(** ** A program that follows a role *)

Section follows.
Context {R : Type} (acts : R → Label → R → Prop) (T : SystemTime → Prop).

(** Each store effect of the program is an action of the role, whatever the store
    answers; the end of the program is related to the role by [fin].  The clock
    reads instants of [T].  Panics are out of scope here. *)
Fixpoint follows {A} (fin : A → R → Prop) (p : prog A) (r : R) : Prop :=
  match p with
  | Ret a => fin a r
  | Panic _ => True
  | Now k => ∀ t, T t → follows fin (k t) r
  | RandomBytes k => ∀ f, follows fin (k f) r
  | StoreIssue jti sub cid scope groups exp k =>
      ∃ r', acts r (Grants jti (mkTokenRecord sub cid scope groups exp jti)) r' ∧
        follows fin k r'
  | StoreLookup jti k => ∀ o, ∃ r', acts r (Reads jti o) r' ∧ follows fin (k o) r'
  | StoreRevoke _ _ => False
  | StoreConsume key k =>
      (∃ r', acts r (Spends key) r' ∧ follows fin (k true) r') ∧
      (∃ r', acts r (Replays key) r' ∧ follows fin (k false) r')
  end.

Lemma follows_mono {A} (fin fin' : A → R → Prop) p r :
  follows fin p r → (∀ a r', fin a r' → fin' a r') → follows fin' p r.
Proof.
  intros Hp Hfin. revert r Hp.
  induction p as [x|m|k IH|k IH|?????? k IH|? k IH|? k IH|? k IH]; intros r Hp; simpl in *;
    try done; [by apply Hfin|..].
  - intros t Ht. apply IH, Hp, Ht.
  - intros f. apply IH, Hp.
  - destruct Hp as (r' & ? & ?). exists r'. eauto.
  - intros o. destruct (Hp o) as (r' & ? & ?). exists r'. eauto.
  - destruct Hp as [(r1 & ? & ?) (r2 & ? & ?)]. split; [exists r1|exists r2]; eauto.
Qed.

Lemma follows_bind {A B} (fin : B → R → Prop) (p : prog A) (f : A → prog B) r :
  follows (λ a, follows fin (f a)) p r → follows fin (pbind p f) r.
Proof.
  revert r. induction p as [x|m|k IH|k IH|?????? k IH|? k IH|? k IH|? k IH]; intros r Hp;
    simpl in *; try done.
  - intros t Ht. apply IH, Hp, Ht.
  - intros g. apply IH, Hp.
  - destruct Hp as (r' & ? & ?). exists r'. eauto.
  - intros o. destruct (Hp o) as (r' & ? & ?). exists r'. eauto.
  - destruct Hp as [(r1 & ? & ?) (r2 & ? & ?)]. split; [exists r1|exists r2]; eauto.
Qed.

(** A program without store effects stays in its role, and ends as its paths say. *)
Lemma follows_wp {A} (Q : A → Prop) (fin : A → R → Prop) (p : prog A) r :
  store_free p → wp T True Q p → (∀ a, Q a → fin a r) → follows fin p r.
Proof. intros Hp HQ Hfin. induction p; simpl in *; try naive_solver. Qed.
End follows.

(** ** Simulation *)

Section simulation.
Context {A R S : Type} `{TokenStoreSpec S}.
Context (acts : R → Label → R → Prop) (T : SystemTime → Prop) (answered : A → R).
Implicit Types (q : Pool A S) (rs : list R) (a : AbstractStore).

(** The program has ended once its role can end silently. *)
Definition ends (x : A) (r : R) : Prop := rtc (λ r r', acts r Silent r') r (answered x).

Notation steps := (rtc (machine_step acts)).

Lemma silent_steps rs a i r r' :
  rs !! i = Some r → rtc (λ r r', acts r Silent r') r r' →
  steps (mkMachine rs a) (mkMachine (<[i := r']> rs) a).
Proof.
  intros Hi Hr. revert rs Hi. induction Hr as [r|r1 r2 r3 H12 _ IH]; intros rs Hi.
  { by rewrite list_insert_id. }
  eapply rtc_l; [by eapply (machine_acts _ _ a i r1 Silent r2 a)|].
  rewrite <- (list_insert_insert_eq rs i r3 r2). apply IH.
  apply list_lookup_insert_eq. by eapply lookup_lt_Some.
Qed.

(** One effect of a program is at most one action of its role. *)
Lemma effect_simulated p (s : S) p' s' use r :
  store_ok s → effect_step p s p' s' use → timely T p p' → follows acts T ends p r →
  store_ok s' ∧
  ∃ r', follows acts T ends p' r' ∧
    (r' = r ∧ abstract_store s' = abstract_store s ∨
     ∃ l, acts r l r' ∧ permits l (abstract_store s) (abstract_store s')).
Proof.
  intros Hok Hst Ht Hp.
  destruct Hst as [k t s|k f s|jti sub cid sc gr ex k s s' E|jti k s o E|jti k s b s' E
    |key k s b s' E]; simpl in Hp.
  - destruct Ht as (t' & Ht' & ->). split; [done|]. exists r. split; [by apply Hp|]. by left.
  - split; [done|]. exists r. split; [apply Hp|by left].
  - destruct (issue_Done _ _ _ _ _ _ _ _ Hok E) as (Hok' & Hr & Hc). split; [done|].
    destruct Hp as (r' & Hact & Hk). exists r'. split; [done|]. right. eexists. split; [done|].
    unfold permits, abstract_store. by rewrite Hr, Hc.
  - rewrite store_lookup_spec in E by done. injection E as <-. split; [done|].
    destruct (Hp (store_records s !! jti)) as (r' & Hact & Hk). exists r'. split; [done|]. right.
    by eexists.
  - done.
  - destruct (consume_code_Done _ _ _ _ Hok E) as (Hok' & Hr & Hc & Hb). split; [done|].
    unfold permits, abstract_store. destruct Hp as [(r1 & Hact1 & Hk1) (r2 & Hact2 & Hk2)].
    destruct b.
    + exists r1. split; [done|]. right. exists (Spends key). split; [done|].
      split; [by apply Hb|]. simpl. by rewrite Hr, Hc.
    + assert (key ∈ store_consumed s) as Hin
        by (destruct (decide (key ∈ store_consumed s)); [done|naive_solver]).
      exists r2. split; [done|]. right. exists (Replays key). split; [done|].
      split; [done|]. rewrite Hr, Hc. f_equal. set_solver.
Qed.

Lemma step_simulated q q' rs :
  timed_step T q q' → store_ok (shared q) → Forall2 (follows acts T ends) (threads q) rs →
  store_ok (shared q') ∧
  ∃ rs', Forall2 (follows acts T ends) (threads q') rs' ∧
    steps (mkMachine rs (abstract_store (shared q))) (mkMachine rs' (abstract_store (shared q'))).
Proof.
  intros [ps s log i p p' s' use Hi Hst Ht] Hok Hall. simpl in *.
  destruct (Forall2_lookup_l _ _ _ _ _ Hall Hi) as (r & Hr & Hp).
  destruct (effect_simulated _ _ _ _ _ _ Hok Hst Ht Hp) as (Hok' & r' & Hp' & Hstep).
  split; [done|]. exists (<[i := r']> rs). split; [by apply Forall2_insert|].
  destruct Hstep as [[-> ->]|(l & Hact & Hl)]; [by rewrite list_insert_id|].
  apply rtc_once. by econstructor.
Qed.

Lemma steps_simulated q q' rs :
  rtc (timed_step T) q q' → store_ok (shared q) →
  Forall2 (follows acts T ends) (threads q) rs →
  ∃ rs', Forall2 (follows acts T ends) (threads q') rs' ∧
    steps (mkMachine rs (abstract_store (shared q))) (mkMachine rs' (abstract_store (shared q'))).
Proof.
  intros Hsteps. revert rs. induction Hsteps as [q|q1 q2 q3 H12 _ IH]; intros rs Hok Hall.
  { by exists rs. }
  destruct (step_simulated _ _ _ H12 Hok Hall) as (Hok' & rs1 & Hall1 & Hs1).
  destruct (IH rs1 Hok' Hall1) as (rs2 & Hall2 & Hs2). exists rs2. split; [done|].
  by etrans.
Qed.

(** The roles of the programs that have ended catch up with them. *)
Lemma catch_up (ps : list (prog A)) rs a :
  Forall2 (follows acts T ends) ps rs →
  ∃ rs', steps (mkMachine rs a) (mkMachine rs' a) ∧
    ∀ i x, ps !! i = Some (Ret x) → rs' !! i = Some (answered x).
Proof.
  intros Hall.
  assert (∀ n, ∃ rs', steps (mkMachine rs a) (mkMachine rs' a) ∧
    Forall2 (follows acts T ends) ps rs' ∧
    ∀ i x, i < n → ps !! i = Some (Ret x) → rs' !! i = Some (answered x)) as Hn.
  { induction n as [|n (rs1 & Hs1 & Hall1 & Hend1)].
    { exists rs. split; [done|]. split; [done|]. lia. }
    destruct (ps !! n) as [[x| | | | | | |]|] eqn:Hp.
    2-9: exists rs1; split; [done|]; split; [done|]; intros i y Hi Hy;
      apply Hend1; [|done]; enough (i ≠ n) by lia; intros ->; congruence.
    destruct (Forall2_lookup_l _ _ _ _ _ Hall1 Hp) as (r & Hr & Hx).
    exists (<[n := answered x]> rs1). split; [|split].
    - etrans; [done|]. by eapply silent_steps.
    - rewrite <- (list_insert_id ps n (Ret x)) by done. apply Forall2_insert; [done|].
      simpl. unfold ends. apply rtc_refl.
    - intros i y Hi Hy. destruct (decide (i = n)) as [->|Hne].
      + rewrite Hp in Hy. injection Hy as <-. apply list_lookup_insert_eq.
        by eapply lookup_lt_Some.
      + rewrite list_lookup_insert_ne by done. apply Hend1; [lia|done]. }
  destruct (Hn (length ps)) as (rs' & Hs & _ & Hend). exists rs'. split; [done|].
  intros i x Hi. apply Hend; [by eapply lookup_lt_Some|done].
Qed.

(** A pool whose programs follow their roles is simulated by the machine. *)
Lemma pool_simulated q q' rs :
  rtc (timed_step T) q q' → store_ok (shared q) →
  Forall2 (follows acts T ends) (threads q) rs →
  ∃ m, steps (mkMachine rs (abstract_store (shared q))) m ∧
    ledger m = abstract_store (shared q') ∧
    ∀ i x, threads q' !! i = Some (Ret x) → roles m !! i = Some (answered x).
Proof.
  intros Hsteps Hok Hall. destruct (steps_simulated _ _ _ Hsteps Hok Hall) as (rs1 & Hall1 & Hs1).
  destruct (catch_up _ _ (abstract_store (shared q')) Hall1) as (rs2 & Hs2 & Hend).
  eexists. split; [by etrans|]. by split.
Qed.
End simulation.

(** ** The roles of the server's requests *)

Section provider.
Context `{BuildProfile, UnicodeCase, Hashes, Base64, Rsa, Jwt, CborErrors,
  !Cbor (TimestampedContainer AuthorizationCode), !Cbor SignedAuthorizationCode, Http, UrlLib}.

Inductive Role :=
| Waiting (r : Request)
| Redeeming (req : AccessTokenRequest) (code : AuthorizationCode)
| Answered (rsp : Response).

(** What verifying an access token gives at an instant. *)
Definition access_claims_of (ji : JwtIssuer) (tok : string) (now : SystemTime) :
    result AccessTokenClaims JwtError :=
  let? j := map_err JwtLib (jwt_decode tok (decoding_key ji)
              (mkValidation RS256 (Some [issuer ji]) (Some [issuer ji]) 5) now) in
  ok_or (JwtLib jwt_json_error) (from_json j).

(** A bearer token is accepted at an instant, with its claims. *)
Definition accepted_at (st : AppState) (h : HeaderMap) (now : SystemTime)
    (c : AccessTokenClaims) : Prop :=
  ∃ tok, header_str h "authorization" = Some ("Bearer " +:+ tok) ∧
    access_claims_of (jwt_issuer st) tok now = Ok c.

(** What a token request is refused for, before any code is touched. *)
Definition token_refusal (T : SystemTime → Prop) (st : AppState) (h : HeaderMap)
    (p : TokenParams) (e : OIDCError) : Prop :=
  tp_grant_type p ≠ "authorization_code" ∧ error_code e = "invalid_request" ∨
  token_request h p = None ∧ error_code e = "invalid_request" ∨
  ∃ req now, token_request h p = Some req ∧ T now ∧
    (∀ code, ¬ redeemable (flow st) (st_clients st) req now code) ∧
    (error_code e = "invalid_grant" ∨ error_code e = "invalid_client").

(** The actions of the roles; instants are in [T]. *)
Inductive acts (T : SystemTime → Prop) (st : AppState) : Role → Label → Role → Prop :=
| act_metadata :
    acts T st (Waiting DiscoveryRequest) Silent
      (Answered (Json (get_discovery_info (discovery_manager st))))
| act_keys :
    acts T st (Waiting JwksRequest) Silent (Answered (Json (get_jwks (jwt_issuer st))))
| act_redirect h p c m u encoded url t t' :
    T t → T t' → authorizes st h p c m u → url_parse (ap_redirect_uri p) = Ok url →
    worth (flow st) encoded (code_for st p c m u t) t' →
    acts T st (Waiting (AuthorizeRequest h p)) Silent
      (Answered (RedirectResponse 307 (location_of p url encoded)))
| act_authorize_refused h p e :
    authorize_refusal st h p e →
    acts T st (Waiting (AuthorizeRequest h p)) Silent (Answered (OIDCError_into_response e))
| act_token_refused h p e :
    token_refusal T st h p e →
    acts T st (Waiting (TokenRequest h p)) Silent (Answered (OIDCError_into_response e))
| act_spend h p req code now :
    token_request h p = Some req → T now →
    redeemable (flow st) (st_clients st) req now code →
    acts T st (Waiting (TokenRequest h p)) (Spends (code_replay_key (tp_code p)))
      (Redeeming req code)
| act_replayed h p req code now e :
    token_request h p = Some req → T now →
    redeemable (flow st) (st_clients st) req now code → error_code e = "invalid_grant" →
    acts T st (Waiting (TokenRequest h p)) (Replays (code_replay_key (tp_code p)))
      (Answered (OIDCError_into_response e))
| act_grant req code jti t_id t_at now tokens :
    T t_id → T t_at → T now →
    response_for (token_context st) req code jti t_id t_at tokens →
    acts T st (Redeeming req code) (Grants jti (record_for (token_context st) req code jti now))
      (Answered (Json (T := TokenResponse) tokens))
| act_grant_failed req code e :
    error_code e = "server_error" →
    acts T st (Redeeming req code) Silent (Answered (OIDCError_into_response e))
| act_userinfo h now c r :
    T now → accepted_at st h now c →
    acts T st (Waiting (UserinfoRequest h)) (Reads (at_jti c) (Some r))
      (Answered (JsonResponse 200 (userinfo_json r)))
| act_userinfo_unknown h now c d :
    T now → accepted_at st h now c →
    acts T st (Waiting (UserinfoRequest h)) (Reads (at_jti c) None)
      (Answered (unauthenticated_error d))
| act_unauthenticated h now d :
    T now → (∀ c, ¬ accepted_at st h now c) →
    acts T st (Waiting (UserinfoRequest h)) Silent (Answered (unauthenticated_error d)).

Lemma verify_access_token_now ji tok :
  verify_access_token ji tok = Now (λ t, Ret (access_claims_of ji tok t)).
Proof. reflexivity. Qed.

(** ** The handlers follow their roles *)

Section handlers.
Context (T : SystemTime → Prop) (t0 : SystemTime) (Ht0 : T t0) (st : AppState).

Notation finished := (ends (acts T st) Answered).
Notation plays := (follows (acts T st) T).

Lemma ends_at_once r rsp : acts T st r Silent (Answered rsp) → finished rsp r.
Proof. intros Hr. by apply rtc_once. Qed.

Lemma follows_authorize (HH : HashesLaws) (HB : Base64Laws)
    (HT : CborLaws (TimestampedContainer AuthorizationCode) after_epoch)
    (HS : CborLaws SignedAuthorizationCode tag_32) h p :
  (∀ t, T t → (0 ≤ t)%Z) →
  plays finished (oidc_router st (AuthorizeRequest h p)) (Waiting (AuthorizeRequest h p)).
Proof using Ht0.
  intros Hpos. cbn [oidc_router]. apply follows_bind.
  eapply follows_wp; [apply store_free_authorize_handler| |].
  - apply (wp_store_free T True (λ r, acts T st (Waiting (AuthorizeRequest h p)) Silent
      (Answered (into_response id OIDCError_into_response r)))) with (t0 := t0);
      [apply store_free_authorize_handler|done|].
    intros w Hw. destruct (run _ w) as [[[rsp|e]|] w'] eqn:Hrun; [| |done].
    + apply (authorize_handler_redirects HH HB HT HS) in Hrun
        as (_ & c & m & u & enc & url & Ha & Hurl & -> & Hworth); [|by apply Hpos, Hw..].
      by apply (act_redirect T st h p c m u enc url (w_clock w 0) (w_clock w 1)).
    + apply act_authorize_refused. by eapply authorize_handler_refuses.
  - intros r Hr. by apply ends_at_once.
Qed.

(** From the first use of a code to the end of its request. *)
Lemma follows_first_use req code :
  plays (λ r, plays finished (Ret (into_response Json OIDCError_into_response r)))
    (after_consume req (token_context st) code true) (Redeeming req code).
Proof using Ht0.
  assert (Hfail : ∀ e, error_code e = "server_error" →
    finished (OIDCError_into_response e) (Redeeming req code)).
  { intros e He. by apply ends_at_once, act_grant_failed. }
  cbn [after_consume redeem_code pbind ts_consume_code negb random_jti rng_fill].
  intros fill. apply follows_bind.
  eapply follows_wp; [apply store_free_issue_id_token|by apply (wp_issue_id_token T t0)|].
  intros [idt|e] Hid; [|by apply Hfail].
  destruct (Hid idt eq_refl) as (ti & expi & Hti & Hexpi & Hidt).
  cbn [map_err pbind_ok pbind]. apply follows_bind.
  eapply follows_wp; [apply store_free_issue_access_token|by apply (wp_issue_access_token T t0)|].
  intros [att|e] Hat; [|by apply Hfail].
  destruct (Hat att eq_refl) as (ta & expa & Hta & Hexpa & Hatt).
  cbn [map_err pbind_ok pbind system_time_now]. intros now Hnow.
  unfold system_time_add. destruct (_ <? _)%Z; [|done]. cbn [lift_outcome pbind ts_issue].
  eexists. split.
  - apply (act_grant T st req code (jti_of fill) ti ta now (mkTokenResponse att "Bearer"
      (duration_as_secs (access_token_ttl st)) idt (Some (str_join " " (ac_scope code)))));
      [done..|].
    unfold response_for. simpl. split_and!; eauto.
  - apply rtc_refl.
Qed.

Lemma follows_token h p :
  plays finished (oidc_router st (TokenRequest h p)) (Waiting (TokenRequest h p)).
Proof using Ht0.
  assert (Hrefuse : ∀ e, token_refusal T st h p e →
    finished (OIDCError_into_response e) (Waiting (TokenRequest h p))).
  { intros e He. by apply ends_at_once, act_token_refused. }
  cbn [oidc_router]. apply follows_bind. rewrite token_handler_split.
  case_bool_decide as Hg; [|apply Hrefuse; by left].
  destruct (token_request h p) as [req|] eqn:Hreq; [|apply Hrefuse; right; by left].
  destruct (access_token_request_split (flow st) req (token_context st)) as (k & -> & Hk).
  apply follows_bind.
  eapply follows_wp; [apply store_free_decode_and_verify|by apply (wp_decode T True t0)|].
  intros ? (now & Hnow & ->). rewrite Hk.
  change (tic_clients (token_context st)) with (st_clients st).
  destruct (check_code _ _ _ now) as [code|e] eqn:Hc.
  - apply check_code_Ok in Hc. rewrite redeem_code_consume.
    rewrite (token_request_code h p req) by done. split.
    + eexists. split; [by eapply act_spend|]. apply follows_first_use.
    + rewrite after_consume_replay. eexists. split; [|apply rtc_refl].
      by apply (act_replayed T st h p req code now).
  - apply Hrefuse. right; right. exists req, now. split_and!; try done.
    + intros code Hred%check_code_Ok. congruence.
    + by eapply check_code_Err.
Qed.

Lemma follows_userinfo h :
  plays finished (oidc_router st (UserinfoRequest h)) (Waiting (UserinfoRequest h)).
Proof using Ht0.
  assert (Hno : ∀ now d, T now → (∀ tok, header_str h "authorization" = Some ("Bearer " +:+ tok) →
      ∃ e, access_claims_of (jwt_issuer st) tok now = Err e) →
    finished (unauthenticated_error d) (Waiting (UserinfoRequest h))).
  { intros now d Hnow Hall. apply ends_at_once, (act_unauthenticated T st h now); [done|].
    intros c (tok & Htok & Hc). destruct (Hall tok Htok) as [e He]. congruence. }
  cbn [oidc_router]. apply follows_bind. unfold userinfo_handler, verify_bearer_token.
  apply follows_bind, follows_bind.
  destruct (header_str h "authorization") as [a|] eqn:Ha; [|by apply (Hno t0)].
  cbn [ok_or follows pbind_ok pbind].
  destruct (strip_prefix "Bearer " a) as [tok|] eqn:Hp.
  2:{ apply (Hno t0); [done|]. intros tok [= ->]. by rewrite strip_prefix_app in Hp. }
  apply strip_prefix_Some in Hp as ->. cbn [ok_or pbind_ok pbind].
  rewrite verify_access_token_now. intros now Hnow.
  destruct (access_claims_of _ tok now) as [c|e] eqn:Hc.
  2:{ apply (Hno now); [done|]. intros tok' E. apply (inj Some), (f_equal (strip_prefix "Bearer ")) in E.
      rewrite !strip_prefix_app in E. injection E as <-. by exists e. }
  assert (accepted_at st h now c) as Hacc by (exists tok; by rewrite Ha).
  cbn [map_err pbind_ok pbind ts_lookup]. intros [r|].
  - eexists. split; [by apply (act_userinfo T st h now c r)|]. apply rtc_refl.
  - eexists. split; [by eapply (act_userinfo_unknown T st h now c)|]. apply rtc_refl.
Qed.

Lemma follows_router (HH : HashesLaws) (HB : Base64Laws)
    (HT : CborLaws (TimestampedContainer AuthorizationCode) after_epoch)
    (HS : CborLaws SignedAuthorizationCode tag_32) r :
  (∀ t, T t → (0 ≤ t)%Z) → plays finished (oidc_router st r) (Waiting r).
Proof using Ht0.
  intros Hpos. destruct r.
  - apply ends_at_once, act_metadata.
  - by apply follows_authorize.
  - apply follows_token.
  - apply follows_userinfo.
  - apply ends_at_once, act_keys.
Qed.
End handlers.

(** ** Accountability of the machine *)

Section accountability.
Context (T : SystemTime → Prop) (st : AppState) (requests : list Request) (a0 : AbstractStore).

(** A request of the pool redeemed this code, whose key is spent. *)
Definition redeemed (a : AbstractStore) (i : nat) (req : AccessTokenRequest)
    (code : AuthorizationCode) : Prop :=
  ∃ h p now, requests !! i = Some (TokenRequest h p) ∧ token_request h p = Some req ∧
    T now ∧ redeemable (flow st) (st_clients st) req now code ∧
    code_replay_key (tp_code p) ∈ abs_consumed a.

(** Where a record comes from: it was there, or a redeemed code granted it. *)
Definition accountable (a : AbstractStore) (jti : string) (r : TokenRecord) : Prop :=
  abs_records a0 !! jti = Some r ∨
  ∃ i req code t, redeemed a i req code ∧ T t ∧ r = record_for (token_context st) req code jti t.

Definition role_ok (a : AbstractStore) (i : nat) (r : Role) : Prop :=
  match r with
  | Waiting q => requests !! i = Some q
  | Redeeming req code => redeemed a i req code
  | Answered rsp => ∀ h body, requests !! i = Some (UserinfoRequest h) →
      rsp = JsonResponse 200 body →
      ∃ now c r, T now ∧ accepted_at st h now c ∧ body = userinfo_json r ∧
        accountable a (at_jti c) r
  end.

Definition accounted (m : Machine Role) : Prop :=
  (∀ jti r, abs_records (ledger m) !! jti = Some r → accountable (ledger m) jti r) ∧
  ∀ i r, roles m !! i = Some r → role_ok (ledger m) i r.

Lemma redeemed_mono a a' i req code :
  abs_consumed a ⊆ abs_consumed a' → redeemed a i req code → redeemed a' i req code.
Proof. intros Ha (h & p & now & ? & ? & ? & ? & ?). exists h, p, now. set_solver. Qed.

Lemma accountable_mono a a' jti r :
  abs_consumed a ⊆ abs_consumed a' → accountable a jti r → accountable a' jti r.
Proof.
  intros Ha [?|(i & req & code & t & ? & ?)]; [by left|right].
  exists i, req, code, t. eauto using redeemed_mono.
Qed.

Lemma role_ok_mono a a' i r :
  abs_consumed a ⊆ abs_consumed a' → role_ok a i r → role_ok a' i r.
Proof.
  intros Ha. destruct r as [q|req code|rsp]; simpl; [done|by apply redeemed_mono|].
  intros Hr h body Hi Hb. destruct (Hr h body Hi Hb) as (now & c & r & ? & ? & ? & ?).
  exists now, c, r. eauto using accountable_mono.
Qed.

Lemma permits_consumed l a a' : permits l a a' → abs_consumed a ⊆ abs_consumed a'.
Proof. destruct l; simpl; intros Hl; destruct_and?; simplify_eq; set_solver. Qed.

(** An action leads from an accounted role to another. *)
Lemma acts_role_ok a a' i r l r' :
  acts T st r l r' → permits l a a' → role_ok a i r →
  (∀ jti r, abs_records a !! jti = Some r → accountable a jti r) →
  role_ok a' i r'.
Proof.
  intros Hact Hl Hr Hrec. pose proof (permits_consumed _ _ _ Hl) as Hsub.
  destruct Hact; simpl in *; destruct_and?; simplify_eq; try (intros ? ? ? ?; congruence).
  - exists h, p, now. set_solver.
  - intros h' body Hi. destruct Hr as (h & p & now' & ? & _). congruence.
  - intros h' body Hi. destruct Hr as (h & p & now' & ? & _). congruence.
  - intros h' body Hi [= <-]. simplify_eq. exists now, c, r. eauto.
  - by intros h' body _ [=].
  - by intros h' body _ [=].
Qed.

Lemma accounted_step m m' : machine_step (acts T st) m m' → accounted m → accounted m'.
Proof.
  intros [rs a i r l r' a' Hi Hact Hl] [Hrec Hroles]. simpl in *.
  pose proof (permits_consumed _ _ _ Hl) as Hsub. split; simpl.
  - intros jti rec Hjti. destruct l as [|key|key|jti' rec'|jti' o]; simpl in Hl;
      destruct_and?; simplify_eq/=; try (eapply accountable_mono; eauto; done).
    destruct (decide (jti' = jti)) as [->|Hne].
    + rewrite lookup_insert_eq in Hjti. injection Hjti as <-.
      pose proof (Hroles i r Hi) as Hr. inversion Hact; simplify_eq. right. eauto 8.
    + rewrite lookup_insert_ne in Hjti by done. eapply accountable_mono; eauto.
  - intros j rj Hj. destruct (decide (i = j)) as [<-|Hne].
    + rewrite list_lookup_insert_eq in Hj by by eapply lookup_lt_Some. injection Hj as <-.
      eapply acts_role_ok; eauto.
    + rewrite list_lookup_insert_ne in Hj by done. eapply role_ok_mono; eauto.
Qed.

Lemma accounted_reachable m :
  rtc (machine_step (acts T st)) (mkMachine (Waiting <$> requests) a0) m → accounted m.
Proof.
  apply (rtc_ind_r accounted); [|eauto using accounted_step]. split; simpl; [by left|].
  intros i r (q & -> & Hq)%list_lookup_fmap_Some. done.
Qed.
End accountability.

(** ** The server refines the machine *)

Section properties.
Context {S : Type} `{TokenStoreSpec S}.

Lemma router_simulated
    (HH : HashesLaws) (HB : Base64Laws)
    (HT : CborLaws (TimestampedContainer AuthorizationCode) after_epoch)
    (HS : CborLaws SignedAuthorizationCode tag_32)
    (T : SystemTime → Prop) (t0 : SystemTime) (st : AppState) (requests : list Request) (s : S)
    (q : Pool Response S) :
  store_ok s → T t0 → (∀ t, T t → (0 ≤ t)%Z) →
  rtc (timed_step T) (mkPool (oidc_router st <$> requests) s []) q →
  ∃ m, rtc (machine_step (acts T st))
         (mkMachine (Waiting <$> requests) (abstract_store s)) m ∧
    ledger m = abstract_store (shared q) ∧
    ∀ i rsp, threads q !! i = Some (Ret rsp) → roles m !! i = Some (Answered rsp).
Proof.
  intros Hok Ht0 Hpos Hsteps.
  eapply (pool_simulated (acts T st) T Answered) in Hsteps; [exact Hsteps|done|].
  apply Forall2_fmap, Forall_Forall2_diag, Forall_true. intros r.
  by apply (follows_router T t0).
Qed.

(** C4: the server implements its specification: under any interleaving of any
    requests, with any clock readings from [T] and over any store that keeps the
    contract of the trait, what the handlers have answered and left in the store
    is what a run of the abstract machine answers and leaves in its ledger. *)
Theorem router_refines_provider
    (HH : HashesLaws) (HB : Base64Laws)
    (HT : CborLaws (TimestampedContainer AuthorizationCode) after_epoch)
    (HS : CborLaws SignedAuthorizationCode tag_32)
    (T : SystemTime → Prop) (t0 : SystemTime) (st : AppState) (requests : list Request) (s : S)
    (q : Pool Response S)
    (Hok : store_ok s) (Ht0 : T t0) (Hpos : ∀ t, T t → (0 ≤ t)%Z)
    (Hsteps : rtc (timed_step T) (mkPool (oidc_router st <$> requests) s []) q) :
  ∃ m, rtc (machine_step (acts T st))
         (mkMachine (Waiting <$> requests) (abstract_store s)) m ∧
    ledger m = abstract_store (shared q) ∧
    ∀ i rsp, threads q !! i = Some (Ret rsp) → roles m !! i = Some (Answered rsp).
Proof. by apply (router_simulated HH HB HT HS T t0). Qed.

(** C7: user info is only given for tokens that were granted: whatever else runs,
    an answer of [/userinfo] with status 200 is for a bearer token that was
    accepted at one of the clock readings, and shows its record, which was in the
    store at the start or was made by a token request of this run that redeemed a
    code it was entitled to, now spent, with the subject, groups and scope of that
    code. *)
Theorem userinfo_only_granted
    (HH : HashesLaws) (HB : Base64Laws)
    (HT : CborLaws (TimestampedContainer AuthorizationCode) after_epoch)
    (HS : CborLaws SignedAuthorizationCode tag_32)
    (T : SystemTime → Prop) (t0 : SystemTime) (st : AppState) (requests : list Request) (s : S)
    (q : Pool Response S) (i : nat) (h : HeaderMap) (body : json)
    (Hok : store_ok s) (Ht0 : T t0) (Hpos : ∀ t, T t → (0 ≤ t)%Z)
    (Hsteps : rtc (timed_step T) (mkPool (oidc_router st <$> requests) s []) q)
    (Hi : requests !! i = Some (UserinfoRequest h))
    (Hserved : threads q !! i = Some (Ret (JsonResponse 200 body))) :
  ∃ now c r, T now ∧ accepted_at st h now c ∧ body = userinfo_json r ∧
    (store_records s !! at_jti c = Some r ∨
     ∃ j hT p req code t t', requests !! j = Some (TokenRequest hT p) ∧
       token_request hT p = Some req ∧ T t ∧ T t' ∧
       redeemable (flow st) (st_clients st) req t code ∧
       code_replay_key (tp_code p) ∈ store_consumed (shared q) ∧
       r = record_for (token_context st) req code (at_jti c) t').
Proof.
  destruct (router_simulated HH HB HT HS T t0 st requests s q Hok Ht0 Hpos Hsteps)
    as (m & Hm & Hledger & Hend).
  apply accounted_reachable in Hm as [_ Hroles].
  destruct (Hroles i _ (Hend i _ Hserved) h body Hi eq_refl)
    as (now & c & r & Hnow & Hacc & Hbody & Hr).
  exists now, c, r. do 3 (split; [done|]).
  destruct Hr as [Hr|(j & req & code & t' & (hT & p & t & ? & ? & ? & ? & Hkey) & ? & ?)];
    [by left|right].
  rewrite Hledger in Hkey. by exists j, hT, p, req, code, t, t'.
Qed.
End properties.
End provider.
