(* ===== verification/Liveness.v ===== *)
(** * What concurrent requests eventually do

    Every interleaving of a pool of requests is finite, and when the clock
    readings are in range none of its threads can be stuck or panic: each request
    is answered, in every schedule.  Of the requests that present one code string,
    if at least one is entitled to tokens throughout, exactly one gets them. *)
From S2P Require Import Prelude RustStd Storage Effects Wp Externs Users Client Pkce Timestamp.
From S2P Require Import AuthorizationCode Signature Token Protocol Discovery Router.
From S2P Require Import HandlerPaths Interleaving.
From stdpp Require Import relations well_founded.

(** ** Inevitability *)

(** [eventually step P q]: every maximal sequence of steps from [q] is finite and
    passes through a state that satisfies [P]. *)
Inductive eventually {State} (step : State → State → Prop) (P : State → Prop) (q : State)
    : Prop :=
| eventually_now : P q → eventually step P q
| eventually_later :
    (∃ q', step q q') → (∀ q', step q q' → eventually step P q') → eventually step P q.

(** A measure, an invariant, and progress wherever the goal does not hold yet. *)
Lemma eventually_intro {State} (step : State → State → Prop) (I P : State → Prop) q :
  Acc (flip step) q → I q → (∀ q q', I q → step q q' → I q') →
  (∀ q, I q → P q ∨ ∃ q', step q q') → eventually step P q.
Proof.
  intros Hacc HI Hpres Hprog. induction Hacc as [q _ IH].
  destruct (Hprog q HI) as [HP|Hst]; [by apply eventually_now|].
  apply eventually_later; [done|]. intros q' Hq'. apply IH; [done|by eapply Hpres].
Qed.

(** ** Every interleaving is finite *)

(** One of the programs another may become. *)
Definition next {A} (p' p : prog A) : Prop :=
  match p with
  | Ret _ | Panic _ => False
  | Now k => ∃ t, p' = k t
  | RandomBytes k => ∃ f, p' = k f
  | StoreIssue _ _ _ _ _ _ k => p' = k
  | StoreLookup _ k => ∃ r, p' = k r
  | StoreRevoke _ k | StoreConsume _ k => ∃ b, p' = k b
  end.

Lemma next_wf {A} : well_founded (@next A).
Proof.
  intros p. induction p as [| |k IH|k IH|?????? k IH|? k IH|? k IH|? k IH];
    constructor; intros p' Hp'; simpl in Hp'; [destruct Hp'..| | | | | |].
  1,2,4-6: destruct Hp' as [x ->]; apply IH.
  by rewrite Hp'.
Qed.

(** One program of a list moves. *)
Definition next_list {A} (ps' ps : list (prog A)) : Prop :=
  ∃ i p p', ps !! i = Some p ∧ next p' p ∧ ps' = <[i := p']> ps.

Lemma next_list_wf {A} : well_founded (@next_list A).
Proof.
  intros ps. induction ps as [|p ps Hps].
  { constructor. by intros ? (? & ? & ? & ? & _). }
  revert ps Hps. induction (next_wf p) as [p _ IHp]. intros ps Hps.
  induction Hps as [ps Hps IHps]. constructor. intros ? ([|i] & q & q' & Hi & Hq & ->); simpl in *.
  - simplify_eq. by apply IHp; [|constructor].
  - apply IHps. by exists i, q, q'.
Qed.

Section pool.
Context {A S : Type} `{TokenStoreSpec S} (T : SystemTime → Prop).
Implicit Types q : Pool A S.

Lemma effect_step_next p (s : S) p' s' use : effect_step (A := A) p s p' s' use → next p' p.
Proof. destruct 1; simpl; eauto. Qed.

Lemma timed_step_wf : well_founded (flip (timed_step (A := A) (S := S) T)).
Proof.
  apply (wf_projected next_list threads); [|apply next_list_wf].
  intros q' q Hst. destruct Hst as [ps s log i p p' s' use Hi Hst _].
  exists i, p, p'. simpl. eauto using effect_step_next.
Qed.

(** A program that has not ended can take a timely step. *)
Lemma effect_step_progress t0 p (s : S) :
  store_ok s → T t0 → (∃ a, p = Ret a) ∨ (∃ m, p = Panic m) ∨
  ∃ p' s' use, effect_step (A := A) p s p' s' use ∧ timely T p p'.
Proof.
  intros Hok Ht0. destruct p as [a|m|k|k|jti sub cid sc gr ex k|jti k|jti k|key k];
    [by eauto|by eauto|right; right..].
  - exists (k t0), s, None. split; [constructor|by exists t0].
  - exists (k (λ _, x00)), s, None. by split; [constructor|].
  - destruct (store_issue_spec jti sub cid sc gr ex s Hok) as (s' & E & _).
    exists k, s', None. by split; [constructor|].
  - exists (k (store_records s !! jti)), s, None. split; [|done].
    constructor. by apply store_lookup_spec.
  - destruct (store_revoke_spec jti s Hok) as (s' & E & _).
    eexists _, s', None. by split; [by econstructor|].
  - destruct (store_consume_code_spec key s Hok) as (s' & E & _).
    eexists _, s', _. by split; [by econstructor|].
Qed.

(** Either all threads have their answer, or some thread can step. *)
Lemma pool_progress t0 q :
  store_ok (shared q) → T t0 → (∀ i p, threads q !! i = Some p → ∀ m, p ≠ Panic m) →
  (∀ i p, threads q !! i = Some p → ∃ a, p = Ret a) ∨ ∃ q', timed_step T q q'.
Proof.
  destruct q as [ps s log]. simpl. intros Hok Ht0 Hnp.
  assert (Hall : (∀ p, p ∈ ps → ∃ a, p = Ret a) ∨
    ∃ p p' s' use, p ∈ ps ∧ effect_step p s p' s' use ∧ timely T p p').
  { assert (Hnp' : ∀ p, p ∈ ps → ∀ m, p ≠ Panic m)
      by (intros p [i Hi]%list_elem_of_lookup; eauto).
    clear Hnp. induction ps as [|p ps IH]; [left; by intros p ?%elem_of_nil|].
    destruct (effect_step_progress t0 p s Hok Ht0) as [Hr|[[m ->]|(p' & s' & use & ?)]].
    - destruct IH as [Hall|(p' & p'' & ? & ? & ? & ?)];
        [intros; apply Hnp'; by right|left; set_solver|right; set_solver].
    - by destruct (Hnp' (Panic m) ltac:(by left) m).
    - right. exists p, p', s', use. split; [by left|done]. }
  destruct Hall as [Hall|(p & p' & s' & use & [i Hi]%list_elem_of_lookup & Hst & Ht)].
  - left. intros i p Hi. apply Hall. by eapply list_elem_of_lookup_2.
  - right. eexists. by econstructor.
Qed.

(** Programs that end well on every path all end, in every schedule. *)
Lemma eventually_all_end t0 (P : nat → A → Prop) (Q : Pool A S → Prop) ps (s : S) :
  store_ok s → T t0 →
  (∀ i p, ps !! i = Some p → wp T False (P i) p) →
  (∀ q, rtc (timed_step T) (mkPool ps s []) q →
     (∀ i p, threads q !! i = Some p → ∃ a, p = Ret a ∧ P i a) → Q q) →
  eventually (timed_step T) Q (mkPool ps s []).
Proof.
  intros Hok Ht0 Hwp HQ.
  apply (eventually_intro _ (rtc (timed_step T) (mkPool ps s []))); [apply timed_step_wf|done|..].
  { intros. by eapply rtc_r. }
  intros q Hq.
  assert (Hthread : ∀ i p', threads q !! i = Some p' → wp T False (P i) p').
  { intros i p' Hp'. eapply (timed_steps_thread T (wp T False (P i)) i _ _);
      [eauto using effect_step_wp|exact Hq| |exact Hp']. simpl. eauto. }
  destruct (pool_progress t0 q) as [Hend|Hst]; [|done| | |by right].
  - eapply pool_steps_ok, pool_ok_start; [by eapply timed_pool_steps|done].
  - intros i p Hi m ->. by apply Hthread in Hi.
  - left. apply HQ; [done|]. intros i p Hi. destruct (Hend i p Hi) as [a ->].
    exists a. split; [done|]. exact (Hthread i _ Hi).
Qed.
End pool.

(** ** The first use of a code wins *)

(** [wins T key P p]: with clock readings in [T], a first use of [key] by [p] leads
    to a result satisfying [P], whatever comes next. *)
Fixpoint wins {A} (T : SystemTime → Prop) (key : string) (P : A → Prop) (p : prog A) : Prop :=
  match p with
  | Ret _ | Panic _ => True
  | Now k => ∀ t, T t → wins T key P (k t)
  | RandomBytes k => ∀ f, wins T key P (k f)
  | StoreIssue _ _ _ _ _ _ k => wins T key P k
  | StoreLookup _ k => ∀ r, wins T key P (k r)
  | StoreRevoke _ k => ∀ b, wins T key P (k b)
  | StoreConsume c k =>
      wins T key P (k false) ∧ (if decide (c = key) then wp T False P (k true)
                                else wins T key P (k true))
  end.

(** [reaches T key p]: every path of [p] with clock readings in [T] consumes [key]. *)
Fixpoint reaches {A} (T : SystemTime → Prop) (key : string) (p : prog A) : Prop :=
  match p with
  | Ret _ | Panic _ => False
  | Now k => ∀ t, T t → reaches T key (k t)
  | RandomBytes k => ∀ f, reaches T key (k f)
  | StoreIssue _ _ _ _ _ _ k => reaches T key k
  | StoreLookup _ k => ∀ r, reaches T key (k r)
  | StoreRevoke _ k => ∀ b, reaches T key (k b)
  | StoreConsume c k => c = key ∨ ∀ b, reaches T key (k b)
  end.

Lemma wins_bind_post {A B} T key (Q : A → Prop) (P : B → Prop) (p : prog A) (f : A → prog B) :
  store_free p → wp T True Q p → (∀ a, Q a → wins T key P (f a)) → wins T key P (pbind p f).
Proof. intros Hp HQ Hf. induction p; simpl in *; naive_solver. Qed.

(** A program that never consumes the key wins vacuously. *)
Lemma consumes_only_wins {A} T key (P : A → Prop) K (p : prog A) :
  consumes_only K p → ¬ K key → wins T key P p.
Proof.
  intros Hp HK. induction p as [| |k IH|k IH|?????? k IH|? k IH|? k IH|c k IH]; simpl in *; eauto.
  destruct Hp as [Hc Hk]. split; [by apply IH|]. destruct (decide (c = key)); [naive_solver|eauto].
Qed.

Lemma wins_bind {A B} T key (Q : A → Prop) (P : B → Prop) (p : prog A) (f : A → prog B) :
  wins T key Q p → (∀ a, consumes_only (λ _, False) (f a)) → (∀ a, Q a → wp T False P (f a)) →
  wins T key P (pbind p f).
Proof.
  intros Hp Hf HQ. induction p as [a| |k IH|k IH|?????? k IH|? k IH|? k IH|c k IH]; simpl in *;
    auto; [apply consumes_only_wins with (K := λ _, False); auto|].
  destruct Hp as [Hfalse Htrue]. split; [auto|]. destruct (decide (c = key)); [|auto].
  by eapply wp_bind_mono.
Qed.

Lemma reaches_bind_post {A B} T key (Q : A → Prop) (p : prog A) (f : A → prog B) :
  wp T False Q p → (∀ a, Q a → reaches T key (f a)) → reaches T key (pbind p f).
Proof. intros HQ Hf. induction p; simpl in *; naive_solver. Qed.

Lemma reaches_bind {A B} T key (p : prog A) (f : A → prog B) :
  reaches T key p → reaches T key (pbind p f).
Proof. intros Hp. induction p; simpl in *; naive_solver. Qed.

Section winner.
Context {A S : Type} `{TokenStoreSpec S} (T : SystemTime → Prop) (key : string).
Implicit Types q : Pool A S.

Lemma effect_step_wins (P : A → Prop) p (s : S) p' s' use :
  effect_step p s p' s' use → timely T p p' → wins T key P p →
  if decide (use = Some key) then wp T False P p' else wins T key P p'.
Proof.
  destruct 1 as [k t s|k f s| | | |c k s b s' E]; simpl; try naive_solver.
  - intros (t' & Ht & ->). eauto.
  - intros _ [Hf Ht]. destruct b; [|by rewrite decide_False].
    destruct (decide (c = key)) as [->|Hne]; [by rewrite decide_True|].
    rewrite decide_False; naive_solver.
Qed.

Lemma effect_step_reaches p (s : S) p' s' use :
  store_ok s → effect_step (A := A) p s p' s' use → timely T p p' → reaches T key p →
  reaches T key p' ∨ key ∈ store_consumed s'.
Proof.
  intros Hok. destruct 1 as [k t s|k f s| | | |c k s b s' E]; simpl; try naive_solver.
  - intros (t' & Ht & ->). eauto.
  - intros _ [->|Hr]; [right|by left]. apply consume_code_Done in E as (_ & _ & -> & _); set_solver.
Qed.

(** A key that is spent has a first use in the log. *)
Lemma effect_step_spent p (s : S) p' s' use :
  store_ok s → effect_step (A := A) p s p' s' use → key ∈ store_consumed s' →
  key ∈ store_consumed s ∨ use = Some key.
Proof.
  intros Hok. destruct 1 as [| |????????? E|???? E|????? E|c k s b s' E]; try by left.
  - apply issue_Done in E as (_ & _ & ->); [|done]. by left.
  - apply revoke_Done in E as (_ & _ & -> & _); [|done]. by left.
  - apply consume_code_Done in E as (_ & _ & -> & Hb); [|done].
    destruct (decide (key ∈ store_consumed s)) as [|Hnew]; [by left|].
    intros [->%elem_of_singleton|]%elem_of_union; [|by left]. right. by rewrite (proj2 Hb).
Qed.

Lemma timed_steps_spent q q' :
  rtc (timed_step T) q q' → pool_ok q → key ∈ store_consumed (shared q') →
  key ∈ store_consumed (shared q) ∨ key ∈ (first_uses q').*2.
Proof.
  intros Hsteps Hok. revert q' Hsteps.
  apply (rtc_ind_r (λ q', key ∈ store_consumed (shared q') →
    key ∈ store_consumed (shared q) ∨ key ∈ (first_uses q').*2)); [by left|].
  intros q1 q2 H1 Hst IH. pose proof (pool_steps_ok _ _ (timed_pool_steps T _ _ H1) Hok) as [Hs _].
  destruct Hst as [ps s log i p p' s' use Hi Hst _]. simpl in *. intros Hspent.
  destruct (effect_step_spent _ _ _ _ _ Hs Hst Hspent) as [Hold| ->].
  - destruct (IH Hold); [by left|right]. destruct use; [|done]. rewrite fmap_cons. by right.
  - right. rewrite fmap_cons. by left.
Qed.

(** A thread that is about to consume the key stays so until the key is spent. *)
Lemma timed_steps_reaches i q q' :
  rtc (timed_step T) q q' → pool_ok q →
  ((∀ p, threads q !! i = Some p → reaches T key p) ∨ key ∈ store_consumed (shared q)) →
  (∀ p, threads q' !! i = Some p → reaches T key p) ∨ key ∈ store_consumed (shared q').
Proof.
  induction 1 as [|q1 q2 q3 Hst _ IH]; [done|]. intros Hok Hi.
  apply IH; [by eapply pool_step_ok; [eapply timed_pool_step|]|]. clear IH.
  destruct Hok as [Hs _]. destruct Hst as [ps s log j p p' s' use Hj Hst Ht]. simpl in *.
  destruct (effect_step_store _ _ _ _ _ Hs Hst) as (_ & Hmono & _).
  destruct Hi as [Hi|Hi]; [|right; set_solver].
  destruct (decide (i = j)) as [<-|Hne].
  - destruct (effect_step_reaches _ _ _ _ _ Hs Hst Ht (Hi p Hj)); [left|by right].
    intros p''. rewrite list_lookup_insert_eq by by eapply lookup_lt_Some. by intros [= <-].
  - left. intros p''. rewrite list_lookup_insert_ne by done. apply Hi.
Qed.

(** A thread that logged the first use is bound to end well. *)
Lemma timed_steps_wins (P : A → Prop) i q q' :
  rtc (timed_step T) q q' →
  (∀ p, threads q !! i = Some p →
     if decide ((i, key) ∈ first_uses q) then wp T False P p else wins T key P p) →
  ∀ p, threads q' !! i = Some p →
     if decide ((i, key) ∈ first_uses q') then wp T False P p else wins T key P p.
Proof.
  induction 1 as [|q1 q2 q3 Hst _ IH]; [done|]. intros Hi. apply IH. clear IH.
  destruct Hst as [ps s log j p p' s' use Hj Hst Ht]. simpl in *. intros p''.
  set (log' := match use with Some k => _ | None => log end).
  assert (Hlog : (i, key) ∈ log' ↔ (i, key) ∈ log ∨ i = j ∧ use = Some key)
    by (unfold log'; destruct use; set_solver).
  destruct (decide (i = j)) as [<-|Hne].
  - rewrite list_lookup_insert_eq by by eapply lookup_lt_Some. intros [= <-].
    specialize (Hi p Hj). destruct (decide ((i, key) ∈ log)) as [Hin|Hout].
    + rewrite decide_True by tauto. by eapply effect_step_wp.
    + pose proof (effect_step_wins _ _ _ _ _ _ Hst Ht Hi) as Hw.
      destruct (decide (use = Some key)); [rewrite decide_True by tauto|rewrite decide_False by tauto];
        done.
  - rewrite list_lookup_insert_ne by done. intros Hp''. specialize (Hi p'' Hp'').
    destruct (decide ((i, key) ∈ log)); [rewrite decide_True by tauto|rewrite decide_False by tauto];
      done.
Qed.

(** What is logged was done by one of the threads. *)
Lemma timed_steps_logged (i : nat) k q q' :
  rtc (timed_step T) q q' → ((i, k) ∈ first_uses q → i < length (threads q)) →
  (i, k) ∈ first_uses q' → i < length (threads q').
Proof.
  induction 1 as [|q1 q2 q3 Hst _ IH]; [done|]. intros Hi. apply IH. clear IH.
  destruct Hst as [ps s log j p p' s' use Hj%lookup_lt_Some Hst _]. simpl in *.
  rewrite length_insert. destruct use; [|done].
  intros [[= -> ->]|]%elem_of_cons; auto.
Qed.

(** A thread logs only keys it may consume. *)
Lemma timed_steps_log_key (K : string → Prop) (i : nat) q q' :
  rtc (timed_step T) q q' →
  (∀ p, threads q !! i = Some p → consumes_only K p) ∧ ((i, key) ∈ first_uses q → K key) →
  (∀ p, threads q' !! i = Some p → consumes_only K p) ∧ ((i, key) ∈ first_uses q' → K key).
Proof.
  induction 1 as [|q1 q2 q3 Hst _ IH]; [done|]. intros [Hi Hlog]. apply IH. clear IH.
  destruct Hst as [ps s log j p p' s' use Hj Hst _]. simpl in *.
  destruct (decide (i = j)) as [<-|Hne].
  - destruct (effect_step_consumes_only K _ _ _ _ _ Hst (Hi _ Hj)) as [Hp' Huse]. split.
    + intros p''. rewrite list_lookup_insert_eq by by eapply lookup_lt_Some. by intros [= <-].
    + destruct use as [k|]; [|done]. intros [[= ->]|]%elem_of_cons; auto.
  - split; [intros p''; rewrite list_lookup_insert_ne by done; apply Hi|].
    destruct use as [k|]; [|done]. intros [[= ? ?]|]%elem_of_cons; [done|auto].
Qed.

(** When every thread wins by the key and one is bound to consume it, one wins. *)
Lemma winner_exists (P : A → Prop) ps (s : S) q i0 p0 :
  store_ok s → key ∉ store_consumed s → rtc (timed_step T) (mkPool ps s []) q →
  (∀ p, p ∈ ps → wins T key P p) → ps !! i0 = Some p0 → reaches T key p0 →
  (∀ i p, threads q !! i = Some p → ∃ a, p = Ret a) →
  ∃ i a, (i, key) ∈ first_uses q ∧ threads q !! i = Some (Ret a) ∧ P a.
Proof.
  intros Hok Hnew Hsteps Hwins Hi0 Hreach Hend.
  pose proof (pool_ok_start ps s Hok) as Hpool.
  assert (Hspent : key ∈ store_consumed (shared q)).
  { destruct (timed_steps_reaches i0 _ _ Hsteps Hpool) as [Hr|]; [| |done].
    - left. simpl. congruence.
    - destruct (lookup_lt_is_Some_2 (threads q) i0) as [p Hp].
      { rewrite (timed_steps_length T _ _ Hsteps). simpl. by eapply lookup_lt_Some. }
      destruct (Hend _ _ Hp) as [a ->]. by destruct (Hr _ Hp). }
  destruct (timed_steps_spent _ _ Hsteps Hpool Hspent) as [?|Hlog]; [done|].
  apply list_elem_of_fmap in Hlog as ([i k] & Hk & Hlog). simpl in Hk. subst k. exists i.
  destruct (lookup_lt_is_Some_2 (threads q) i) as [p Hp].
  { apply (timed_steps_logged i key _ _ Hsteps); [|done]. simpl. by rewrite elem_of_nil. }
  destruct (Hend _ _ Hp) as [a ->]. exists a. split_and!; [done..|].
  assert (Hw : ∀ p, ps !! i = Some p →
    if decide ((i, key) ∈ first_uses (mkPool ps s [])) then wp T False P p else wins T key P p).
  { intros p' Hip. destruct (decide _) as [Hin|_]; [by apply elem_of_nil in Hin|].
    apply Hwins. by eapply list_elem_of_lookup_2. }
  pose proof (timed_steps_wins P i _ _ Hsteps Hw _ Hp) as Hr. by rewrite decide_True in Hr.
Qed.
End winner.

(** ** The server's requests *)

Section server.
Context `{BuildProfile, UnicodeCase, Hashes, Base64, Rsa, Jwt, CborErrors,
  !Cbor (TimestampedContainer AuthorizationCode), !Cbor SignedAuthorizationCode, Http, UrlLib}.
Context (T : SystemTime → Prop) (t0 : SystemTime) (st : AppState).

(** Once a request has spent its code, only a lifetime out of range or a failing
    signature keeps it from being served. *)
Lemma wins_router key r :
  T t0 → (∀ t, T t → in_range st t) → signs (jwt_issuer st) →
  wins T key served (oidc_router st r).
Proof.
  intros Ht0 Hrange Hsign.
  destruct (decide (presents key r)) as [Hkey|Hkey];
    [|by eapply consumes_only_wins; [apply consumes_only_router|]].
  destruct r as [|h p|h p|h|]; try done. cbn [presents oidc_router] in Hkey |- *.
  rewrite token_handler_split. case_bool_decide; [|done].
  destruct (token_request h p) as [req|] eqn:Hreq; [|done]. apply token_request_code in Hreq.
  apply wins_bind with (Q := λ out, is_ok out = true);
    [|done|by intros [rsp|] ?; [eexists|]].
  destruct (access_token_request_split (flow st) req (token_context st)) as (k & -> & Hk).
  eapply wins_bind_post; [apply store_free_decode_and_verify|by apply (wp_decode T True t0)|].
  intros ? (now & _ & ->). rewrite Hk. destruct (check_code _ _ _ now) as [code|]; [|done].
  rewrite redeem_code_consume, Hreq, Hkey. split; [done|]. rewrite decide_True by done.
  eapply wp_mono; [apply (wp_first_use_fits T t0 Ht0); intros t Ht; by apply Hrange|auto].
Qed.

(** A request that is entitled to tokens at every instant is bound to consume its
    code. *)
Lemma reaches_router h p req code :
  T t0 → tp_grant_type p = "authorization_code" → token_request h p = Some req →
  (∀ t, T t → redeemable (flow st) (st_clients st) req t code) →
  reaches T (code_replay_key (tp_code p)) (oidc_router st (TokenRequest h p)).
Proof.
  intros Ht0 Hg Hreq Hred. cbn [oidc_router]. apply reaches_bind.
  rewrite token_handler_split, bool_decide_eq_true_2, Hreq by done.
  apply token_request_code in Hreq as <-.
  destruct (access_token_request_split (flow st) req (token_context st)) as (k & -> & Hk).
  eapply reaches_bind_post; [by apply (wp_decode T False t0)|].
  intros ? (now & Hnow & ->). rewrite Hk.
  change (tic_clients _) with (st_clients st).
  rewrite (proj2 (check_code_Ok _ _ _ _ _) (Hred now Hnow)).
  rewrite redeem_code_consume. by left.
Qed.

Context {S : Type} `{TokenStoreSpec S}.
Implicit Types q : Pool Response S.

(** All requests have their response. *)
Definition all_answered (requests : list Request) q : Prop :=
  ∀ i r, requests !! i = Some r → ∃ rsp, threads q !! i = Some (Ret rsp).

Lemma all_answered_end requests (s : S) q :
  rtc (timed_step T) (mkPool (oidc_router st <$> requests) s []) q →
  (∀ i p, threads q !! i = Some p → ∃ rsp, p = Ret rsp ∧ True) → all_answered requests q.
Proof.
  intros Hsteps Hend i r Hi. destruct (lookup_lt_is_Some_2 (threads q) i) as [p Hp].
  { rewrite (timed_steps_length T _ _ Hsteps). simpl. rewrite length_fmap.
    by eapply lookup_lt_Some. }
  destruct (Hend i p Hp) as (rsp & -> & _). by exists rsp.
Qed.

(** C12: no request is left hanging: with clock readings in range and a usable
    store, every schedule of any set of concurrent requests is finite and ends
    with each of them answered; no order of the steps, no random bytes and no
    content of the store makes one of them panic or wait for another. *)
Theorem every_request_answered (HL : HttpLaws)
    (HT : CborLaws (TimestampedContainer AuthorizationCode) after_epoch)
    (requests : list Request) (s : S)
    (Hok : store_ok s) (Ht0 : T t0) (Hrange : ∀ t, T t → in_range st t) :
  eventually (timed_step T) (all_answered requests)
    (mkPool (oidc_router st <$> requests) s []).
Proof using All.
  apply (eventually_all_end T t0 (λ _ _, True)); [done..| |].
  - intros i p (r & -> & _)%list_lookup_fmap_Some. by apply (wp_router_total HL HT T t0).
  - apply all_answered_end.
Qed.

(** The requests presenting the code with this key that were served. *)
Definition served_for (requests : list Request) (key : string) q (i : nat) : Prop :=
  ∃ r rsp, requests !! i = Some r ∧ presents key r ∧ threads q !! i = Some (Ret rsp) ∧
    served rsp.

(** Only a request presenting a code logs its first use. *)
Lemma logged_presents requests (s : S) q i key :
  rtc (timed_step T) (mkPool (oidc_router st <$> requests) s []) q →
  (i, key) ∈ first_uses q → ∃ r, requests !! i = Some r ∧ presents key r.
Proof.
  intros Hsteps.
  apply (timed_steps_log_key T key (λ k, ∃ r, requests !! i = Some r ∧ presents k r) i _ _ Hsteps).
  simpl. split; [|by rewrite elem_of_nil].
  intros p (r & -> & Hr)%list_lookup_fmap_Some.
  eapply consumes_only_mono; [apply consumes_only_router|]. eauto.
Qed.

Lemma served_for_unique requests (s : S) q key i j :
  store_ok s → rtc (timed_step T) (mkPool (oidc_router st <$> requests) s []) q →
  served_for requests key q i → served_for requests key q j → i = j.
Proof.
  intros Hok Hsteps (ri & rspi & Hri & Hki & Hti & Hsi) (rj & rspj & Hrj & Hkj & Htj & Hsj).
  destruct ri as [|? ?|hi pi|?|]; try done. destruct rj as [|? ?|hj pj|?|]; try done.
  simpl in Hki, Hkj.
  eapply (guarded_exclusive key served); [done|by eapply timed_pool_steps|..|done|done|done|done].
  - by rewrite list_lookup_fmap, Hri.
  - by rewrite list_lookup_fmap, Hrj.
  - rewrite <- Hki. apply token_request_guarded.
  - rewrite <- Hkj. apply token_request_guarded.
Qed.

(** C6: a code string that is worth tokens is redeemed exactly once under
    concurrency: of the requests in flight that present it (a correct one,
    retries, thieves), if one is entitled to tokens for as long as the clock
    readings last and the code is unspent, every schedule ends with all requests
    answered and exactly one of those presenting the code served. *)
Theorem concurrent_code_exactly_once (HL : HttpLaws)
    (HT : CborLaws (TimestampedContainer AuthorizationCode) after_epoch)
    (requests : list Request) (s : S) (i0 : nat) (h : HeaderMap) (p : TokenParams)
    (req : AccessTokenRequest) (code : AuthorizationCode)
    (key := code_replay_key (tp_code p))
    (Hok : store_ok s) (Hnew : key ∉ store_consumed s)
    (Ht0 : T t0) (Hrange : ∀ t, T t → in_range st t) (Hsign : signs (jwt_issuer st))
    (Hi0 : requests !! i0 = Some (TokenRequest h p))
    (Hgrant : tp_grant_type p = "authorization_code") (Hreq : token_request h p = Some req)
    (Hred : ∀ t, T t → redeemable (flow st) (st_clients st) req t code) :
  eventually (timed_step T)
    (λ q, all_answered requests q ∧
          ∃ i, served_for requests key q i ∧ ∀ j, served_for requests key q j → j = i)
    (mkPool (oidc_router st <$> requests) s []).
Proof using All.
  apply (eventually_all_end T t0 (λ _ _, True)); [done..| |].
  { intros i p' (r & -> & _)%list_lookup_fmap_Some. by apply (wp_router_total HL HT T t0). }
  intros q Hsteps Hend. split; [by eapply all_answered_end|].
  destruct (winner_exists T key served (oidc_router st <$> requests) s q i0
    (oidc_router st (TokenRequest h p))) as (i & rsp & Hlog & Hrsp & Hserved); try done.
  - intros p' (r & -> & _)%list_elem_of_fmap. by apply wins_router.
  - by rewrite list_lookup_fmap, Hi0.
  - by eapply reaches_router.
  - intros i p' Hp'. destruct (Hend i p' Hp') as (rsp & ? & _). by exists rsp.
  - destruct (logged_presents _ _ _ _ _ Hsteps Hlog) as (r & Hr & Hkey).
    exists i. split; [by exists r, rsp|]. intros j Hj.
    eapply served_for_unique; [done|done|exact Hj|by exists r, rsp].
Qed.
End server.
