(* ===== verification/Schema.v ===== *)
(** * The JSON the server exchanges, as types

    A [schema] describes the JSON objects a [Serialize] struct is printed as; the
    boolean [json_matches] checks a document against one.  Every struct that
    crosses the wire has its schema, its values are printed as documents of the
    schema and, for those that are also read, every document of the schema is
    read back as the value that prints it.  Every response of every route then
    has the type its route promises. *)
From stdpp Require Import relations.
From S2P Require Import Prelude RustStd Storage Effects Wp Externs Users Client Pkce Timestamp.
From S2P Require Import AuthorizationCode Signature Token Protocol Discovery Router.
From S2P Require Import HandlerPaths Interleaving.

(** ** Schemas *)

Inductive schema :=
| SStr
| SU64
| SArr (t : schema)
| SNullable (t : schema)                           (* [Option<T>] as [null] *)
| SObj (fields : list (string * bool * schema)).   (* name, always present, type *)

Fixpoint json_matches (t : schema) (j : json) {struct t} : bool :=
  match t with
  | SStr => match j with JStr _ => true | _ => false end
  | SU64 => match j with JNum n => ((0 <=? n) && (n <? 2 ^ 64))%Z | _ => false end
  | SArr t => match j with JArr l => forallb (json_matches t) l | _ => false end
  | SNullable t => match j with JNull => true | _ => json_matches t j end
  | SObj fields =>
      match j with
      | JObj fs =>
          (fix go (fields : list (string * bool * schema)) (fs : list (string * json)) : bool :=
             match fields with
             | [] => match fs with [] => true | _ => false end
             | (k, required, t) :: fields =>
                 match fs with
                 | (k', v) :: fs' =>
                     if String.eqb k' k then json_matches t v && go fields fs'
                     else negb required && go fields fs
                 | [] => negb required && go fields fs
                 end
             end) fields fs
      | _ => false
      end
  end.

(** A field that is always there, and one that [skip_serializing_if] may drop. *)
Definition req (k : string) (t : schema) : string * bool * schema := (k, true, t).
Definition opt (k : string) (t : schema) : string * bool * schema := (k, false, t).

Definition id_token_schema : schema :=
  SObj [req "iss" SStr; req "sub" SStr; req "aud" SStr; req "exp" SU64; req "iat" SU64;
        opt "nonce" SStr; opt "groups" (SArr SStr)].

Definition access_token_schema : schema :=
  SObj [req "iss" SStr; req "sub" SStr; req "aud" SStr; req "exp" SU64; req "iat" SU64;
        req "jti" SStr; req "scope" (SArr SStr); req "groups" (SArr SStr);
        req "client_id" SStr].

Definition token_response_schema : schema :=
  SObj [req "access_token" SStr; req "token_type" SStr; req "expires_in" SU64;
        req "id_token" SStr; req "scope" (SNullable SStr)].

Definition paths_schema : schema :=
  SObj [req "authorization_endpoint" SStr; req "token_endpoint" SStr;
        req "userinfo_endpoint" SStr; req "jwks_uri" SStr].

Definition discovery_schema : schema :=
  SObj [req "issuer" SStr; req "authorization_endpoint" SStr; req "token_endpoint" SStr;
        req "userinfo_endpoint" SStr; req "jwks_uri" SStr; req "scopes_supported" (SArr SStr);
        req "response_types_supported" (SArr SStr); req "grant_types_supported" (SArr SStr);
        req "subject_types_supported" (SArr SStr);
        req "id_token_signing_alg_values_supported" (SArr SStr);
        req "code_challenge_methods_supported" (SArr SStr)].

Definition jwks_schema : schema :=
  SObj [req "keys" (SArr (SObj [req "kty" SStr; req "use" SStr; req "kid" SStr; req "alg" SStr;
                                req "n" SStr; req "e" SStr]))].

Definition userinfo_schema : schema :=
  SObj [req "sub" SStr; req "groups" (SArr SStr); req "scope" (SArr SStr);
        req "client_id" SStr].

Definition error_schema : schema :=
  SObj [req "error" SStr; opt "error_description" SStr].

(** ** Matching, rule by rule *)

Lemma matches_str j : json_matches SStr j = true ↔ ∃ s, j = JStr s.
Proof. destruct j; simpl; naive_solver. Qed.

Lemma matches_u64 j : json_matches SU64 j = true ↔ ∃ n, j = JNum n ∧ is_u64 n.
Proof.
  unfold is_u64. destruct j as [|n| | |]; try (split; [done|by intros (? & [=] & _)]). simpl.
  rewrite andb_true_iff, Z.leb_le, Z.ltb_lt. split; [eauto|by intros (? & [= ->] & ?)].
Qed.

Lemma matches_strs j : json_matches (SArr SStr) j = true ↔ ∃ l : list string, j = to_json l.
Proof.
  split; [|intros [l ->]; simpl; by rewrite forallb_forall; intros ? [? [<- _]]%in_map_iff].
  destruct j as [| | |l|]; simpl; try done. intros Hl. unfold to_json, strings_ToJson.
  induction l as [|v l IH]; simpl in Hl; [by exists []|].
  apply andb_true_iff in Hl as [[s ->]%matches_str Hl]. destruct (IH Hl) as [l' [= ->]].
  by exists (s :: l').
Qed.

Lemma matches_nullable_str j :
  json_matches (SNullable SStr) j = true ↔ ∃ o : option string, j = json_or_null o.
Proof.
  split.
  - destruct j as [| |s| |]; simpl; try done; intros _; [by exists None|by exists (Some s)].
  - by intros [[s|] ->].
Qed.

Lemma matches_nil j : json_matches (SObj []) j = true ↔ j = JObj [].
Proof. destruct j as [| | | |[|? ?]]; simpl; naive_solver. Qed.

Lemma matches_req k t fields j :
  json_matches (SObj (req k t :: fields)) j = true ↔
  ∃ v fs, j = JObj ((k, v) :: fs) ∧ json_matches t v = true ∧
    json_matches (SObj fields) (JObj fs) = true.
Proof.
  destruct j as [| | | |[|[k' v] fs]]; try (split; [done|by intros (? & ? & [=] & _)]). simpl.
  destruct (String.eqb_spec k' k) as [->|Hk]; [rewrite andb_true_iff|].
  - split; [intros []; by exists v, fs|by intros (? & ? & [= -> ->] & ? & ?)].
  - split; [done|by intros (? & ? & [= -> _ _] & _)].
Qed.

(** An optional field whose name is not that of a later one. *)
Lemma matches_opt k t fields j :
  json_matches (SObj (opt k t :: fields)) j = true →
  (∃ v fs, j = JObj ((k, v) :: fs) ∧ json_matches t v = true ∧
     json_matches (SObj fields) (JObj fs) = true) ∨
  json_matches (SObj fields) j = true.
Proof.
  destruct j as [| | | |[|[k' v] fs]]; try done; simpl; [by right|].
  destruct (String.eqb_spec k' k) as [->|]; [rewrite andb_true_iff|by right].
  intros []. left. by exists v, fs.
Qed.

(** Take a match apart field by field. *)
Ltac matches_inv :=
  repeat match goal with
  | H : json_matches (SObj (req _ _ :: _)) _ = true |- _ =>
      apply matches_req in H as (? & ? & ? & ? & ?); simplify_eq
  | H : json_matches (SObj (opt _ _ :: _)) _ = true |- _ =>
      apply matches_opt in H as [(? & ? & ? & ? & ?)|?]; simplify_eq
  | H : json_matches (SObj []) _ = true |- _ => apply matches_nil in H; simplify_eq
  | H : json_matches SStr _ = true |- _ => apply matches_str in H as [? ->]
  | H : json_matches SU64 _ = true |- _ => apply matches_u64 in H as (? & -> & ?)
  | H : json_matches (SArr SStr) _ = true |- _ => apply matches_strs in H as [? ->]
  | H : json_matches (SNullable SStr) _ = true |- _ => apply matches_nullable_str in H as [? ->]
  end.

(** ** Reading back what a schema describes *)

(** The documents of the schema [t] are exactly the printed values of a type, and
    each is read back as the value that prints it. *)
Definition describes {V} `{ToJson V, FromJson V} (t : schema) (wf : V → Prop) : Prop :=
  (∀ v, wf v → json_matches t (to_json v) = true ∧ from_json (to_json v) = Some v) ∧
  ∀ j, json_matches t j = true → ∃ v, wf v ∧ to_json v = j ∧ from_json j = Some v.

Lemma describes_intro {V} `{ToJson V, FromJson V} t (wf : V → Prop) :
  (∀ v, wf v → json_matches t (to_json v) = true) →
  (∀ v, wf v → from_json (to_json v) = Some v) →
  (∀ j, json_matches t j = true → ∃ v, wf v ∧ to_json v = j) → describes t wf.
Proof.
  intros H1 H2 H3. split; [auto|]. intros j (v & Hv & <-)%H3. by exists v; auto.
Qed.

Lemma json_u64_matches n : is_u64 n → json_matches SU64 (JNum n) = true.
Proof. intros Hn. apply matches_u64. eauto. Qed.

Lemma strs_match (l : list string) : json_matches (SArr SStr) (to_json l) = true.
Proof. apply matches_strs. eauto. Qed.

Lemma matches_opt_some k t fields v fs :
  json_matches t v = true → json_matches (SObj fields) (JObj fs) = true →
  json_matches (SObj (opt k t :: fields)) (JObj ((k, v) :: fs)) = true.
Proof. intros Hv Hfs. simpl in *. by rewrite String.eqb_refl, Hv, Hfs. Qed.

Lemma matches_opt_none k t fields fs :
  Forall (λ f, f.1 ≠ k) (take 1 fs) → json_matches (SObj fields) (JObj fs) = true →
  json_matches (SObj (opt k t :: fields)) (JObj fs) = true.
Proof.
  intros Hk Hfs. destruct fs as [|[k' v] fs]; [done|].
  apply Forall_cons in Hk as [Hk _]. simpl in *.
  by destruct (String.eqb_spec k' k).
Qed.

(** Build a match field by field. *)
Ltac matches_build :=
  repeat first
    [ apply matches_req; eexists _, _; split; [reflexivity|split]
    | by apply matches_nil
    | by apply matches_str; eexists
    | by apply json_u64_matches
    | apply strs_match
    | by apply matches_nullable_str; eexists
    | apply matches_opt_some
    | apply matches_opt_none; [by repeat constructor|] ].

(** ** The structs that are read and written *)

Definition id_claims_wf (c : IdTokenClaims) : Prop := is_u64 (id_exp c) ∧ is_u64 (id_iat c).
Definition access_claims_wf (c : AccessTokenClaims) : Prop :=
  is_u64 (at_exp c) ∧ is_u64 (at_iat c).
Definition token_response_wf (r : TokenResponse) : Prop := is_u64 (rsp_expires_in r).

Lemma id_claims_described : describes id_token_schema id_claims_wf.
Proof.
  apply describes_intro.
  - intros [iss sub aud exp iat [nonce|] [groups|]] [He Hi]; simpl in He, Hi;
      unfold id_token_schema; matches_build.
  - intros c [? ?]. by apply id_claims_roundtrip.
  - intros j Hj. unfold id_token_schema in Hj. matches_inv.
    + eexists (mkIdTokenClaims _ _ _ _ _ (Some _) (Some _)). by refine (conj _ eq_refl).
    + eexists (mkIdTokenClaims _ _ _ _ _ (Some _) None). by refine (conj _ eq_refl).
    + eexists (mkIdTokenClaims _ _ _ _ _ None (Some _)). by refine (conj _ eq_refl).
    + eexists (mkIdTokenClaims _ _ _ _ _ None None). by refine (conj _ eq_refl).
Qed.

Lemma access_claims_described : describes access_token_schema access_claims_wf.
Proof.
  apply describes_intro.
  - intros [] [He Hi]; simpl in He, Hi; unfold access_token_schema; matches_build.
  - intros c [? ?]. by apply access_claims_roundtrip.
  - intros j Hj. unfold access_token_schema in Hj. matches_inv.
    eexists (mkAccessTokenClaims _ _ _ _ _ _ _ _ _). by refine (conj _ eq_refl).
Qed.

Lemma token_response_described : describes token_response_schema token_response_wf.
Proof.
  apply describes_intro.
  - intros [] He; simpl in He; unfold token_response_schema; matches_build.
  - intros [at_ ty ex it sc] He. unfold from_json, TokenResponse_FromJson, to_json,
      TokenResponse_ToJson, json_field, json_opt_field. simpl in *.
    rewrite json_u64_num by done. by destruct sc.
  - intros j Hj. unfold token_response_schema in Hj. matches_inv.
    eexists (mkTokenResponse _ _ _ _ _). by refine (conj _ eq_refl).
Qed.

Lemma paths_described : describes paths_schema (λ _ : OIDCEndpointPaths, True).
Proof.
  apply describes_intro.
  - intros [] _; unfold paths_schema; matches_build.
  - by intros [] _.
  - intros j Hj. unfold paths_schema in Hj. matches_inv.
    eexists (mkEndpointPaths _ _ _ _). by refine (conj _ eq_refl).
Qed.

(** ** The structs that are only written *)

Lemma discovery_matches (d : OIDCDiscovery) : json_matches discovery_schema (to_json d) = true.
Proof. destruct d. unfold discovery_schema. matches_build. Qed.

Lemma jwks_matches (k : Jwks) : json_matches jwks_schema (to_json k) = true.
Proof.
  destruct k as [ks]. unfold jwks_schema. matches_build. simpl.
  induction ks as [|[] ks IH]; [done|]. simpl in *. exact IH.
Qed.

Lemma userinfo_matches r : json_matches userinfo_schema (userinfo_json r) = true.
Proof. destruct r. unfold userinfo_schema. matches_build. Qed.

Lemma error_matches (e : ErrorResponse) : json_matches error_schema (to_json e) = true.
Proof. destruct e as [? []]; unfold error_schema; matches_build. Qed.

(** ** The type of a route *)

Section routes.
Context `{BuildProfile, UnicodeCase, Hashes, Base64, Rsa, Jwt, CborErrors,
  !Cbor (TimestampedContainer AuthorizationCode), !Cbor SignedAuthorizationCode, Http, UrlLib}.
Implicit Types (st : AppState) (r : Request).

(** What may come back from a request: a redirect from [/authorize], the document
    of its route under 200, or an error document under a status its handler has. *)
Definition response_typed (r : Request) (rsp : Response) : bool :=
  match rsp with
  | RedirectResponse status _ =>
      match r with AuthorizeRequest _ _ => bool_decide (status = 307%Z) | _ => false end
  | JsonResponse status body =>
      if bool_decide (status = 200%Z) then
        match r with
        | DiscoveryRequest => json_matches discovery_schema body
        | TokenRequest _ _ => json_matches token_response_schema body
        | UserinfoRequest _ => json_matches userinfo_schema body
        | JwksRequest => json_matches jwks_schema body
        | AuthorizeRequest _ _ => false
        end
      else
        json_matches error_schema body &&
        match r with
        | AuthorizeRequest _ _ | TokenRequest _ _ =>
            bool_decide (status ∈ [400; 401; 403; 500; 503]%Z)
        | UserinfoRequest _ => bool_decide (status = 401%Z)
        | DiscoveryRequest | JwksRequest => false
        end
  end.

(** The lifetime announced to clients is a [u64], as [Duration::as_secs] returns. *)
Definition ttl_typed st : Prop := is_u64 (duration_as_secs (access_token_ttl st)).

Lemma error_typed_oauth r e :
  match r with AuthorizeRequest _ _ | TokenRequest _ _ => True | _ => False end →
  response_typed r (OIDCError_into_response e) = true.
Proof. intros Hr. destruct r; try done; by destruct e. Qed.

Notation any_time := (λ _ : SystemTime, True).

Lemma wp_redirects st h p :
  wp any_time True (λ out, response_typed (AuthorizeRequest h p)
    (into_response id OIDCError_into_response out) = true) (authorize_handler st h p).
Proof.
  apply wp_store_free with (t0 := 0%Z); [apply store_free_authorize_handler|done|].
  intros w _. destruct (run _ w) as [[[rsp|e]|m] w'] eqn:Hrun;
    cbn [fst]; [|exact (error_typed_oauth (AuthorizeRequest h p) e I)|done].
  apply run_authorize_handler_Ok in Hrun as (c & m & u & ce & loc & _ & _ & _ & ->). done.
Qed.

Lemma wp_tokens st req :
  ttl_typed st →
  wp any_time True (λ out, ∀ rsp, out = Ok rsp → json_matches token_response_schema (to_json rsp) = true)
    (access_token_request (flow st) req (token_context st)).
Proof.
  intros Httl. apply (wp_access_token_request any_time True 0%Z I).
  - intros now code _ _. rewrite redeem_code_consume. intros [].
    + eapply wp_mono; [by apply (wp_first_use any_time 0%Z I)|].
      intros r Hr rsp ->. destruct (Hr rsp eq_refl) as (? & ? & ? & _ & _ & _ & _ & _ & He & _).
      apply token_response_described. unfold token_response_wf. by rewrite He.
    + by rewrite after_consume_replay.
  - done.
Qed.

(** Every path of every request ends in a response of its type. *)
Lemma wp_router_typed st r :
  ttl_typed st → wp any_time True (λ rsp, response_typed r rsp = true) (oidc_router st r).
Proof.
  intros Httl. destruct r as [|h p|h p|h|]; cbn [oidc_router].
  - apply discovery_matches.
  - apply wp_bind. apply wp_redirects.
  - apply wp_token_request; [intros e; exact (error_typed_oauth (TokenRequest h p) e I)|]. intros req _.
    eapply wp_mono; [by apply wp_tokens|]. intros [rsp|e] Hr; [by apply Hr|].
    exact (error_typed_oauth (TokenRequest h p) e I).
  - apply wp_bind. unfold userinfo_handler. apply wp_bind_ok.
    unfold verify_bearer_token. apply wp_bind_ok. cbn [wp].
    destruct (header_str h _) as [a|]; cbn [ok_or]; [|done]. apply wp_bind_ok. cbn [wp].
    destruct (strip_prefix "Bearer " a); cbn [ok_or]; [|done]. intros t _. simpl. destruct (map_err _ _) as [c|e] eqn:E.
    + intros [rec|]; [|done]. apply userinfo_matches.
    + by apply map_err_Err in E as (? & _ & ->).
  - apply jwks_matches.
Qed.

Context {S : Type} `{TokenStoreSpec S}.

(** C18: every response has the type of its route: whatever is requested, in
    whatever interleaving, an answer is a redirect (of [/authorize] only), the
    document of the route's struct under status 200, or an error document under
    one of the statuses of the route's errors; numbers in it fit their widths and
    no field is missing. *)
Theorem responses_well_typed (st : AppState) (requests : list Request) (s : S)
    (q : Pool Response S) (i : nat) (r : Request) (rsp : Response)
    (Httl : ttl_typed st)
    (Hsteps : rtc pool_step (mkPool (oidc_router st <$> requests) s []) q)
    (Hi : requests !! i = Some r) (Hrsp : threads q !! i = Some (Ret rsp)) :
  response_typed r rsp = true.
Proof.
  apply pool_steps_timed in Hsteps.
  eapply (timed_steps_wp any_time) in Hrsp; [exact Hrsp|exact Hsteps| |by apply wp_router_typed].
  simpl. by rewrite list_lookup_fmap, Hi.
Qed.
End routes.

(** C32: the structs that are both written and read (the claims of both tokens, the
    token response, the endpoint paths) are described by their schemas exactly:
    every value of the struct is printed as a document of the schema and read back
    unchanged, and every document of the schema is read, as the value that prints
    it. *)
Theorem wire_structs_described :
  describes id_token_schema id_claims_wf ∧ describes access_token_schema access_claims_wf ∧
  describes token_response_schema token_response_wf ∧
  describes paths_schema (λ _ : OIDCEndpointPaths, True).
Proof.
  split_and!; [apply id_claims_described|apply access_claims_described
    |apply token_response_described|apply paths_described].
Qed.
