(* ===== verification/HttpFlow.v ===== *)
(** * The whole flow over HTTP

    The three requests of an authorization code flow as they arrive on the wire:
    the query that asks for a code, the form that redeems it, the bearer token
    that asks for user info, each through the routes and extractors to the
    handlers and back, the redirect through the browser included. *)
From S2P Require Import Prelude RustStd Storage Effects Externs Users Client Pkce Timestamp.
From S2P Require Import AuthorizationCode Signature Token Protocol Discovery Router Extractors.
From S2P Require Import Schema.

Section flow.
Context `{BuildProfile, UnicodeCase, Hashes, Base64, Rsa, Jwt, CborErrors,
  !Cbor (TimestampedContainer AuthorizationCode), !Cbor SignedAuthorizationCode, Http, UrlLib,
  !UrlQuery, FormUrlencoded, !Axum}.
Context {S : Type} `{TokenStoreSpec S}.

(** The browser reads the code and the state off the redirect, after whatever
    query the registered URI had. *)
Lemma redirect_carries uri url encoded state loc :
  redirect_location uri encoded state = Ok loc → url_parse uri = Ok url → valid_str encoded →
  (∀ s, state = Some s → valid_str s) →
  ∃ url', url_parse loc = Ok url' ∧
    url_pairs url' = url_pairs url ++ ("code", encoded) :: opt_pair "state" state.
Proof.
  unfold redirect_location. intros Hloc Hurl Hval Hstate. rewrite Hurl in Hloc.
  assert (valid_str "code" ∧ valid_str "state") as [Hc Hs]
    by (split; apply ascii_valid; apply (bool_decide_unpack _); reflexivity).
  destruct (url_reparse uri url (("code", encoded) :: opt_pair "state" state) Hurl) as [Hp Hq].
  { constructor; [done|]. destruct state as [s|]; simpl; [|constructor].
    constructor; [|constructor]. split; [done|]. by apply Hstate. }
  eexists. split; [|exact Hq]. rewrite <- Hp. f_equal.
  cbn [map_err rbind] in Hloc. injection Hloc as <-. by destruct state.
Qed.

(** C3: the flow over HTTP, end to end: an identified user of a registered
    client, sent to [/authorize] with any query that carries the parameters, is
    redirected to the client's URI with the code and the state on top of its own
    query; the client, posting any form that carries its answer to that code
    within its lifetime, gets a token response; the ID token verifies, for that
    client, to the user's subject, groups and nonce; and [/userinfo] answers the
    access token with the user's subject, groups and scope, until it expires. *)
Theorem http_flow
    (HH : HashesLaws) (HB : Base64Laws)
    (HT : CborLaws (TimestampedContainer AuthorizationCode) after_epoch)
    (HS : CborLaws SignedAuthorizationCode tag_32) (HJ : JwtLaws)
    (st : AppState) (rA : HttpRequest) (p : AuthorizeParams) (c : ClientConfig)
    (m : CodeChallengeMethod) (u : User) (url : Url) (w : World S)
    (groups := resolve_groups (cc_groups c) (default_groups st))
    (scope := match ap_scope p with Some s => split_whitespace s | None => [] end)
    (Hok : store_ok (w_store w))
    (Hkeys : issuer_keys_match (jwt_issuer st)) (Hsign : signs (jwt_issuer st))
    (HrA : carries rA (AuthorizeRequest (rq_headers rA) p))
    (Hauth : authorizes st (rq_headers rA) p c m u)
    (Hurl : url_parse (ap_redirect_uri p) = Ok url)
    (Hstate : ∀ s, ap_state p = Some s → valid_str s)
    (Ht0 : (0 ≤ w_clock w 0)%Z) (Ht1 : (0 ≤ w_clock w 1)%Z) :
  ∃ encoded loc url',
    run (http_router st rA) w = (Done (Handled (RedirectResponse 307 loc)), tick (tick w)) ∧
    url_parse loc = Ok url' ∧
    url_pairs url' = url_pairs url ++ ("code", encoded) :: opt_pair "state" (ap_state p) ∧
    ∀ (w2 : World S) rT tp, w_store w2 = w_store w →
      code_replay_key encoded ∉ store_consumed (w_store w) →
      carries rT (TokenRequest (rq_headers rT) tp) → answers p c m encoded (rq_headers rT) tp →
      (w_clock w 1 ≤ w_clock w2 0 < w_clock w 1 + code_max_age (flow st))%Z →
      expiries_fit st w2 →
      ∃ body tokens w3,
        run (http_router st rT) w2 = (Done (Handled (JsonResponse 200 body)), w3) ∧
        from_json body = Some tokens ∧
        (∀ w4 : World S, (0 ≤ w_clock w4 0)%Z →
           (unix_secs (w_clock w4 0) ≤
              unix_secs (w_clock w2 1) + duration_as_secs (id_token_ttl st) + 5)%Z →
           (run (verify_id_token (jwt_issuer st) (rsp_id_token tokens) (ap_client_id p)) w4).1 =
             Done (Ok (id_claims_at (jwt_issuer st) (subject u) (ap_client_id p) groups
               (ap_nonce p) (id_token_ttl st) (w_clock w2 1)))) ∧
        (∀ (w4 : World S) rU, w_store w4 = w_store w3 → (0 ≤ w_clock w4 0)%Z →
           carries rU (UserinfoRequest (rq_headers rU)) →
           header_str (rq_headers rU) "authorization" =
             Some ("Bearer " +:+ rsp_access_token tokens) →
           (unix_secs (w_clock w4 0) ≤
              unix_secs (w_clock w2 2) + duration_as_secs (access_token_ttl st) + 5)%Z →
           run (http_router st rU) w4 =
             (Done (Handled (JsonResponse 200
                (JObj [("sub", JStr (subject u)); ("groups", to_json groups);
                       ("scope", to_json scope); ("client_id", JStr (ap_client_id p))]))),
              tick w4)).
Proof.
  destruct (authorize_token_userinfo HH HB HT HS HJ st (rq_headers rA) p c m u w)
    as (enc & loc & Hrun & Hloc & Hval & Hnext); try done; [by rewrite Hurl|].
  destruct (redirect_carries _ _ _ _ _ Hloc Hurl Hval Hstate) as (url' & Hurl' & Hpairs).
  exists enc, loc, url'. split_and!; [|done..|].
  { apply (run_http_router st rA (AuthorizeRequest (rq_headers rA) p)); [done|].
    cbn [oidc_router]. by rewrite run_bind, Hrun. }
  intros w2 rT tp Hs Hnew HrT Hans Hfresh Hfit.
  destruct (Hnext w2 _ tp Hs Hnew Hans Hfresh Hfit) as (tokens & w3 & Htok & Hexp & Hid & Hinfo).
  exists (to_json tokens), tokens, w3. split_and!; [| |done|].
  - apply (run_http_router st rT (TokenRequest (rq_headers rT) tp)); [done|].
    cbn [oidc_router]. by rewrite run_bind, Htok.
  - by apply token_response_described.
  - intros w4 rU Hs4 Ht4 HrU Hh Ht. apply (run_http_router st rU (UserinfoRequest (rq_headers rU)));
      [done|].
    cbn [oidc_router]. by rewrite run_bind, (Hinfo w4 _ Hs4 Ht4 Hh Ht).
Qed.
End flow.
