(* ===== verification/Replay.v ===== *)
(** * What the replay protection identifies

    [access_token_request] remembers a spent code by a hash of its string.  The
    string is base64 of a container whose reader stops after one value, and only
    the inner data of the container is authenticated: bytes appended to the
    container change the string, hence its key, and nothing else.  This file
    states what follows. *)
From S2P Require Import Prelude RustStd Storage Effects Externs Client Pkce Timestamp.
From S2P Require Import AuthorizationCode Signature Token Protocol.

Section replay.
Context `{BuildProfile, Hashes, Base64, Rsa, Jwt, CborErrors,
  !Cbor (TimestampedContainer AuthorizationCode), !Cbor SignedAuthorizationCode}.

(** The same request with another code string. *)
Definition with_code (code : string) (req : AccessTokenRequest) : AccessTokenRequest :=
  mkAccessTokenRequest (tr_grant_type req) (tr_client req) (tr_client_secret req) code
    (tr_redirect_uri req) (tr_code_verifier req).

Lemma open_code_trailing `{!Base64Laws, !CborPrefix SignedAuthorizationCode} key bs junk c :
  open_code key (b64_encode URL_SAFE bs) = Ok c →
  open_code key (b64_encode URL_SAFE (bs ++ junk)) = Ok c.
Proof.
  rewrite !open_code_Ok. setoid_rewrite b64_decode_encode.
  intros (bs' & sc & [= <-] & Hsc & Htag & Hc). eexists _, sc.
  split_and!; [done|by apply from_reader_app|done|done].
Qed.

Lemma redeemable_trailing `{!Base64Laws, !CborPrefix SignedAuthorizationCode}
    self clients req bs junk now code :
  tr_code req = b64_encode URL_SAFE bs →
  redeemable self clients req now code →
  redeemable self clients (with_code (b64_encode URL_SAFE (bs ++ junk)) req) now code.
Proof.
  intros Hbs ((t & Hopen & Hf) & Hrest). rewrite Hbs in Hopen.
  split; [|exact Hrest]. exists t. split; [|done]. by apply open_code_trailing.
Qed.

Lemma redeemable_inj self clients clients' req now now' code code' :
  redeemable self clients req now code → redeemable self clients' req now' code' → code = code'.
Proof. intros ((t & Ho & _) & _) ((t' & Ho' & _) & _). congruence. Qed.

Context {S : Type} `{TokenStoreSpec S}.

(** C16: one authorization can be redeemed more than once: appending bytes to the
    container of a code string gives a different string that is worth the same
    code, so after a response for the first, the second is served too, as long as
    its own key (the hash of the longer string) has not been spent. *)
Theorem trailing_bytes_redeem_again (HB : Base64Laws) (HP : CborPrefix SignedAuthorizationCode)
    (self : OIDCAuthCodePKCEFlow) (req : AccessTokenRequest) (ctx : TokenIssueContext)
    (code : AuthorizationCode) (bs junk : list byte) (w w1 w2 : World S) (rsp : TokenResponse)
    (req' := with_code (b64_encode URL_SAFE (bs ++ junk)) req)
    (Hok : store_ok (w_store w))
    (Hbs : tr_code req = b64_encode URL_SAFE bs) (Hjunk : junk ≠ [])
    (Hfirst : run (access_token_request self req ctx) w = (Done (Ok rsp), w1))
    (Hstore : w_store w2 = w_store w1)
    (Hred : redeemable self (tic_clients ctx) req (w_clock w2 0) code)
    (Hhash : code_replay_key (tr_code req') ∉ store_consumed (w_store w1))
    (Hsign : signs (tic_jwt_issuer ctx))
    (Hid : exp_fits (tic_id_token_ttl ctx) (w_clock w2 1))
    (Hat : exp_fits (tic_access_token_ttl ctx) (w_clock w2 2))
    (Hexp : (w_clock w2 3 + tic_access_token_ttl ctx < system_time_max)%Z) :
  tr_code req' ≠ tr_code req ∧
  ∃ rsp' w3, run (access_token_request self req' ctx) w2 = (Done (Ok rsp'), w3) ∧
    rsp_scope rsp' = rsp_scope rsp.
Proof.
  split.
  { simpl. rewrite Hbs. intros Heq%(b64_encode_inj URL_SAFE).
    by rewrite <- (app_nil_r bs) in Heq at 2; simplify_list_eq. }
  destruct (access_token_request_cases self req ctx w Hok) as [(code' & Hc & He)|(e & _ & _ & E)];
    [|by rewrite E in Hfirst].
  rewrite Hfirst in He. destruct He as (Hok1 & _ & _ & Hrsp & _). simpl in Hok1.
  assert (code' = code) as -> by by eapply redeemable_inj.
  destruct (Hsign (to_json (id_claims_at (tic_jwt_issuer ctx) (ac_subject code) (tr_client req)
    (ac_groups code) (ac_nonce code) (tic_id_token_ttl ctx) (w_clock w2 1)))) as [idt Hidt].
  destruct (Hsign (to_json (access_claims_at (tic_jwt_issuer ctx) (ac_subject code)
    (tr_client req) (ac_groups code) (ac_scope code) (jti_of (w_random w2 0))
    (tic_access_token_ttl ctx) (w_clock w2 2)))) as [att Hatt].
  edestruct (serve_redeemable self req' ctx code w2 idt att) as (w3 & Hrun & _);
    [by rewrite Hstore| |by rewrite Hstore|done|done|done|exact Hidt|exact Hatt|].
  { by apply redeemable_trailing. }
  eexists _, w3. split; [exact Hrun|]. by destruct Hrsp as (_ & _ & _ & _ & ->).
Qed.
End replay.
