(* ===== verification/ConcreteHttp.v ===== *)
(** * Lawful instances of the HTTP crates

    Headers, form coding, URLs and axum for the closed examples.  Pairs are coded
    as [application/x-www-form-urlencoded] prescribes: [&] between pairs, [=]
    inside, [+] for a space, [%XX] for other bytes. *)
From S2P Require Import Prelude RustStd Storage Effects Externs Users Client Pkce Timestamp.
From S2P Require Import AuthorizationCode Signature Token Protocol Discovery Router Extractors.

(** ** Headers *)

(** Header names are compared ignoring case. *)
Definition name_upper (name : string) : string := @to_uppercase ascii_case name.

#[export] Instance concrete_Http : Http := {|
  HeaderMap := list (string * string);
  HeaderValue := string;
  header_get m name := snd <$> head (filter (λ h, name_upper h.1 = name_upper name) m);
  header_to_str v := if decide (ascii_bytes (as_bytes v)) then Some v else None;
|}.

#[export] Instance concrete_HttpLaws : HttpLaws.
Proof. split. simpl. intros v s. case_decide; [|done]. by intros [= <-]. Qed.

(** ** Percent coding *)

(** Letters, digits and four marks stand for themselves. *)
Definition unreserved (b : byte) : bool :=
  byte_in 0x30 0x39 b || byte_in 0x41 0x5A b || byte_in 0x61 0x7A b ||
  bool_decide (b ∈ [x2a; x2d; x2e; x5f]).

(** The upper-case hexadecimal digit of a number below sixteen. *)
Definition hex_byte (n : Z) : byte := u8_of (if (n <? 10)%Z then 48 + n else 55 + n).

Definition enc_byte (b : byte) : list byte :=
  if unreserved b then [b]
  else if bool_decide (b = x20) then [x2b]
  else [x25; hex_byte (u8_val b / 16); hex_byte (u8_val b mod 16)].

Definition form_encode (s : string) : list byte := as_bytes s ≫= enc_byte.

Fixpoint pct_decode (bs : list byte) : list byte :=
  match bs with
  | [] => []
  | c :: rest =>
      if bool_decide (c = x25) then
        match rest with
        | hi :: lo :: rest' =>
            match hex_digit_val hi, hex_digit_val lo with
            | Some x, Some y => u8_of (x * 16 + y) :: pct_decode rest'
            | _, _ => c :: pct_decode rest
            end
        | _ => c :: pct_decode rest
        end
      else c :: pct_decode rest
  end.

Definition plus_space (b : byte) : byte := if bool_decide (b = x2b) then x20 else b.

Definition form_decode (bs : list byte) : string := of_bytes (pct_decode (plus_space <$> bs)).

Lemma pct_decode_enc b rest :
  pct_decode ((plus_space <$> enc_byte b) ++ rest) = b :: pct_decode rest.
Proof. destruct b; reflexivity. Qed.

Lemma form_decode_encode s : form_decode (form_encode s) = s.
Proof.
  unfold form_decode, form_encode. rewrite <- (of_as_bytes s) at 2. f_equal.
  induction (as_bytes s) as [|b bs IH]; [done|].
  rewrite bind_cons, fmap_app, pct_decode_enc. by rewrite IH.
Qed.

Lemma form_encode_plain s d : d ∈ [x26; x3d] → d ∉ form_encode s.
Proof.
  intros Hd. unfold form_encode. rewrite list_elem_of_bind. intros (b & Hb & _).
  revert Hb. apply elem_of_cons in Hd as [-> | ->%list_elem_of_singleton].
  all: apply (bool_decide_unpack (_ ∉ _)); destruct b; reflexivity.
Qed.

(** ** Pairs *)

Fixpoint split_byte (d : byte) (bs : list byte) : list (list byte) :=
  match bs with
  | [] => [[]]
  | c :: bs =>
      if bool_decide (c = d) then [] :: split_byte d bs
      else match split_byte d bs with w :: ws => (c :: w) :: ws | [] => [[c]] end
  end.

Lemma split_byte_app d a b : split_byte d (a ++ d :: b) = split_byte d a ++ split_byte d b.
Proof.
  induction a as [|c a IH]; simpl; [by rewrite bool_decide_eq_true_2|].
  case_bool_decide; rewrite IH; [done|]. destruct (split_byte d a) eqn:E; [|done].
  destruct a; simpl in E; [done|]. case_bool_decide; [done|]. by destruct (split_byte d a).
Qed.

Lemma split_byte_none d a : d ∉ a → split_byte d a = [a].
Proof.
  induction a as [|c a IH]; [done|]. rewrite not_elem_of_cons. intros [Hc Ha]. simpl.
  rewrite bool_decide_eq_false_2 by done. by rewrite IH.
Qed.

(** Up to the first [=], and what follows it. *)
Fixpoint cut_byte (d : byte) (bs : list byte) : list byte * list byte :=
  match bs with
  | [] => ([], [])
  | c :: bs =>
      if bool_decide (c = d) then ([], bs) else let '(x, y) := cut_byte d bs in (c :: x, y)
  end.

Lemma cut_byte_app d a b : d ∉ a → cut_byte d (a ++ d :: b) = (a, b).
Proof.
  induction a as [|c a IH]; simpl; [by rewrite bool_decide_eq_true_2|].
  rewrite not_elem_of_cons. intros [Hc Ha]. rewrite bool_decide_eq_false_2, IH by done. done.
Qed.

Definition pair_bytes (kv : string * string) : list byte :=
  form_encode kv.1 ++ x3d :: form_encode kv.2.

Definition read_pair (bs : list byte) : string * string :=
  let '(k, v) := cut_byte x3d bs in (form_decode k, form_decode v).

(** A query or form: empty pieces do not count. *)
Definition parse_pairs (bs : list byte) : list (string * string) :=
  read_pair <$> filter (λ w, w ≠ []) (split_byte x26 bs).

(** Adding a pair at the end. *)
Definition add_pair (bs : list byte) (kv : string * string) : list byte :=
  match bs with [] => pair_bytes kv | _ => bs ++ x26 :: pair_bytes kv end.

Definition form_bytes (l : list (string * string)) : list byte := foldl add_pair [] l.

Lemma parse_pair kv : parse_pairs (pair_bytes kv) = [kv].
Proof.
  unfold parse_pairs. rewrite split_byte_none.
  - rewrite filter_cons_True by (unfold pair_bytes; by destruct (form_encode _)). simpl.
    unfold read_pair, pair_bytes. rewrite cut_byte_app by (apply form_encode_plain; set_solver).
    rewrite !form_decode_encode. by destruct kv.
  - unfold pair_bytes. rewrite not_elem_of_app, not_elem_of_cons.
    split_and!; [apply form_encode_plain; set_solver|done|apply form_encode_plain; set_solver].
Qed.

Lemma parse_add_pair bs kv : parse_pairs (add_pair bs kv) = parse_pairs bs ++ [kv].
Proof.
  rewrite <- (parse_pair kv). destruct bs as [|b bs]; [done|]. unfold add_pair, parse_pairs.
  by rewrite split_byte_app, filter_app, fmap_app.
Qed.

Lemma parse_add_pairs bs kvs : parse_pairs (foldl add_pair bs kvs) = parse_pairs bs ++ kvs.
Proof.
  revert bs. induction kvs as [|kv kvs IH]; intros bs; simpl; [by rewrite app_nil_r|].
  by rewrite IH, parse_add_pair, <- app_assoc.
Qed.

#[export] Instance concrete_Form : FormUrlencoded := {| form_parse := parse_pairs |}.

(** What a client writes is read back. *)
Lemma form_parse_bytes l : form_parse (form_bytes l) = l.
Proof. apply (parse_add_pairs []). Qed.

(** ** URLs *)

(** The host is not case-sensitive; a parsed URL has it in lower case. *)
Definition lower_ascii (c : ascii) : ascii :=
  let n := Ascii.N_of_ascii c in
  if ((65 <=? n) && (n <=? 90))%N then Ascii.ascii_of_N (n + 32) else c.

Fixpoint lower_host (s : string) : string :=
  match s with "" => "" | String c s => String (lower_ascii c) (lower_host s) end.

Lemma lower_ascii_idem c : lower_ascii (lower_ascii c) = lower_ascii c.
Proof. by destruct c as [[] [] [] [] [] [] [] []]. Qed.

Lemma lower_host_idem s : lower_host (lower_host s) = lower_host s.
Proof. induction s as [|c s IH]; [done|]. simpl. by rewrite lower_ascii_idem, IH. Qed.

Lemma lower_host_mem d s :
  d = "/"%char ∨ d = "?"%char → str_mem d (lower_host s) = str_mem d s.
Proof.
  intros Hd. induction s as [|c s IH]; [done|]. simpl. rewrite IH. f_equal.
  destruct Hd as [-> | ->]; by destruct c as [[] [] [] [] [] [] [] []].
Qed.

(** [https] URLs with an authority, a path and a query. *)
Record SimpleUrl := mkUrl { url_host : string; url_path : string; url_query : option (list byte) }.

Definition simple_parse (s : string) : result SimpleUrl string :=
  match strip_prefix "https://" s with
  | None => Err "relative URL without a base"
  | Some rest =>
      let '(hier, query) := match split_once "?"%char rest with
                            | Some (hier, q) => (hier, Some (as_bytes q))
                            | None => (rest, None)
                            end in
      match split_once "/"%char hier with
      | Some (host, path) => Ok (mkUrl (lower_host host) path query)
      | None => Ok (mkUrl (lower_host hier) "" query)
      end
  end.

Definition simple_string (u : SimpleUrl) : string :=
  "https://" +:+ url_host u +:+ "/" +:+ url_path u +:+
  match url_query u with None => "" | Some q => "?" +:+ of_bytes q end.

Definition simple_append (u : SimpleUrl) (k v : string) : SimpleUrl :=
  mkUrl (url_host u) (url_path u) (Some (add_pair (default [] (url_query u)) (k, v))).

#[export] Instance concrete_Url : UrlLib := {|
  Url := SimpleUrl;
  url_parse := simple_parse;
  url_to_string := simple_string;
  url_join u p :=
    match strip_prefix "/" p with
    | Some q => Ok (mkUrl (url_host u) q None)
    | None => Err "unsupported reference"
    end;
  url_append_pair := simple_append;
|}.

#[export, refine] Instance concrete_UrlLaws : UrlLaws := {
  url_origin u := Some ("https://" +:+ url_host u);
}.
Proof.
  intros u o p [= <-] (q & -> & _). eexists. split; [reflexivity|].
  unfold url_to_string, concrete_Url, simple_string. simpl.
  by rewrite string_app_nil_r, !string_app_assoc.
Defined.

(** The parts of a URL do not hold its delimiters. *)
Definition simple_ok (u : SimpleUrl) : Prop :=
  str_mem "/"%char (url_host u) = false ∧ str_mem "?"%char (url_host u) = false ∧
  str_mem "?"%char (url_path u) = false ∧ lower_host (url_host u) = url_host u.

Lemma simple_parse_ok s u : simple_parse s = Ok u → simple_ok u.
Proof.
  unfold simple_parse, simple_ok. destruct (strip_prefix _ s) as [rest|]; [|done].
  assert (∀ hier q, str_mem "?"%char hier = false →
    match split_once "/"%char hier with
    | Some (host, path) => Ok (mkUrl (lower_host host) path q)
    | None => Ok (mkUrl (lower_host hier) "" q)
    end = Ok (E := string) u → simple_ok u) as Hh.
  { intros hier q Hq. destruct (split_once "/"%char hier) as [[host path]|] eqn:E.
    - apply split_once_Some in E as [-> Hhost]. intros [= <-]. unfold simple_ok. simpl.
      rewrite str_mem_app in Hq. simpl in Hq. apply orb_false_iff in Hq as [??].
      rewrite !lower_host_mem by auto. split_and!; [done..|apply lower_host_idem].
    - apply split_once_None in E. intros [= <-]. unfold simple_ok. simpl.
      rewrite !lower_host_mem by auto. split_and!; [done..|apply lower_host_idem]. }
  destruct (split_once "?"%char rest) as [[hier q]|] eqn:E.
  - apply split_once_Some in E as [_ Hq]. by apply Hh.
  - apply split_once_None in E. by apply Hh.
Qed.

Lemma simple_reparse u : simple_ok u → simple_parse (simple_string u) = Ok u.
Proof.
  intros (H1 & H2 & H3 & H4). unfold simple_parse, simple_string. rewrite strip_prefix_app.
  assert (str_mem "?"%char (url_host u +:+ "/" +:+ url_path u) = false) as Hq.
  { rewrite !str_mem_app, H2, H3. done. }
  assert (split_once "/"%char (url_host u +:+ "/" +:+ url_path u) =
    Some (url_host u, url_path u)) as Hs by (by apply split_once_Some).
  destruct u as [host path [q|]]; simpl in *.
  - assert (split_once "?"%char (host +:+ "/" +:+ path +:+ "?" +:+ of_bytes q) =
      Some (host +:+ "/" +:+ path, of_bytes q)) as ->.
    { apply split_once_Some. split; [|done].
      exact (string_app_assoc host ("/" +:+ path) ("?" +:+ of_bytes q)). }
    by rewrite Hs, as_of_bytes, H4.
  - rewrite string_app_nil_r. rewrite (proj2 (split_once_None _ _) Hq). by rewrite Hs, H4.
Qed.

#[export, refine] Instance concrete_UrlQuery : UrlQuery := {
  url_pairs u := parse_pairs (default [] (url_query u));
}.
Proof.
  intros s u kvs Hs%simple_parse_ok _ u'.
  assert (simple_ok u' ∧ parse_pairs (default [] (url_query u')) =
    parse_pairs (default [] (url_query u)) ++ kvs) as [Hok Hp].
  { unfold u'. clear u'. revert u Hs. induction kvs as [|[k v] kvs IH]; intros u Hs; simpl.
    { by rewrite app_nil_r. }
    destruct (IH (simple_append u k v)) as [Hok Hp]; [done|]. split; [done|].
    etrans; [exact Hp|]. simpl. by rewrite parse_add_pair, <- app_assoc. }
  split; [by apply simple_reparse|done].
Defined.

(** ** axum *)

#[export] Instance concrete_Axum : Axum := {|
  HttpMethod := string;
  routed m name :=
    match m with
    | GET => bool_decide (name = "GET" ∨ name = "HEAD")
    | POST => bool_decide (name = "POST")
    end;
  is_form h := bool_decide (header_get h "content-type" ≫= header_to_str =
                            Some "application/x-www-form-urlencoded");
  rejection_status r :=
    match r with
    | NotFound => 404
    | MethodNotAllowed => 405
    | QueryRejection _ => 400
    | FormContentType => 415
    | FormRejection _ => 422
    end%Z;
|}.

#[export] Instance concrete_AxumLaws : AxumLaws.
Proof. split. intros []; simpl; lia. Qed.
