(* ===== verification/Concrete.v ===== *)
(** * Lawful instances of the third-party interfaces

    One instance of every class of [Externs.v], with its laws proved, so that the
    theorems with laws among their hypotheses can be applied to closed inputs
    ([Witnesses.v]).  They stand for no particular crate: the base64 is RFC 4648's
    and SHA-256 is FIPS 180-4's, which the test vector of RFC 7636 is run on; the
    rest is the simplest code that keeps the laws. *)
From stdpp Require Import countable.
From S2P Require Import Prelude RustStd Storage Effects Externs Users Client Pkce Timestamp.
From S2P Require Import AuthorizationCode Signature Token Protocol Discovery Router Server.
From S2P Require Import Extractors ConcreteHttp.

(** ** A self-delimiting binary code *)

(** The bits of a number as bytes, lowest first, with an end mark. *)
Fixpoint pos_bytes (p : positive) : list byte :=
  match p with
  | xH => [x02]
  | xO p => x00 :: pos_bytes p
  | xI p => x01 :: pos_bytes p
  end.

(** Read one number off the front. *)
Fixpoint read_pos (bs : list byte) : option (positive * list byte) :=
  match bs with
  | x02 :: rest => Some (xH, rest)
  | x00 :: bs' => r ← read_pos bs'; Some (xO r.1, r.2)
  | x01 :: bs' => r ← read_pos bs'; Some (xI r.1, r.2)
  | _ => None
  end.

Lemma read_pos_bytes p rest : read_pos (pos_bytes p ++ rest) = Some (p, rest).
Proof. induction p as [p IH|p IH|]; simpl; by rewrite ?IH. Qed.

Lemma read_pos_app bs p r rest :
  read_pos bs = Some (p, r) → read_pos (bs ++ rest) = Some (p, r ++ rest).
Proof.
  revert p r. induction bs as [|b bs IH]; intros p r; [done|]. simpl.
  destruct b; try done; [| |by intros [= <- <-]];
    (destruct (read_pos bs) as [[p' r']|]; [|done]); simpl; intros [= <- <-];
    by rewrite (IH p' r').
Qed.

(** ** CBOR: any countable type through its numbering *)

#[export] Instance concrete_CborErrors : CborErrors := {| CborError := unit |}.

Section cbor.
Context {T : Type} `{Countable T}.

(** A writer that refuses the values [ok] does not hold of. *)
Definition write_when (ok : T → bool) (v : T) : result unit CborError * list byte :=
  if ok v then (Ok tt, pos_bytes (encode v)) else (Err tt, []).

Definition read_value (bs : list byte) : result T CborError :=
  ok_or tt (r ← read_pos bs; decode r.1).

Lemma read_write ok v : ok v = true → read_value (write_when ok v).2 = Ok v.
Proof.
  intros Hok. unfold read_value, write_when. rewrite Hok. simpl.
  rewrite <- (app_nil_r (pos_bytes _)), read_pos_bytes. simpl. by rewrite decode_encode.
Qed.

Lemma read_value_app bs rest v : read_value bs = Ok v → read_value (bs ++ rest) = Ok v.
Proof.
  unfold read_value. rewrite !ok_or_Ok. destruct (read_pos bs) as [[p r]|] eqn:E; [|done].
  by rewrite (read_pos_app _ _ _ rest E).
Qed.
End cbor.

(** The fields flattened to a list, which keeps their number small. *)
Definition code_fields (c : AuthorizationCode) : list (list (string + Z)) :=
  [[inl (ac_client_id c)]; [inl (ac_redirect_uri c)];
   match ac_code_challenge c with Some x => [inl x] | None => [] end;
   match ac_code_challenge_method c with Plain => [] | S256 => [inr 1%Z] end;
   [inr (ac_timestamp c)]; [inl (ac_subject c)];
   match ac_nonce c with Some x => [inl x] | None => [] end;
   inl <$> ac_groups c; inl <$> ac_scope c].

Definition field_str (f : string + Z) : option string :=
  match f with inl s => Some s | inr _ => None end.

Definition fields_code (fs : list (list (string + Z))) : option AuthorizationCode :=
  match fs with
  | [[inl cid]; [inl uri]; ch; m; [inr t]; [inl sub]; nonce; groups; scope] =>
      groups ← mapM field_str groups;
      scope ← mapM field_str scope;
      Some (mkAuthorizationCode cid uri (head ch ≫= field_str)
        (match m with [] => Plain | _ => S256 end) t sub (head nonce ≫= field_str) groups scope)
  | _ => None
  end.

Lemma mapM_field_str l : mapM field_str (inl <$> l) = Some l.
Proof. apply mapM_Some, Forall2_fmap_l. by apply Forall_Forall2_diag, Forall_true. Qed.

Lemma fields_code_fields c : fields_code (code_fields c) = Some c.
Proof.
  destruct c as [cid uri ch m t sub nonce groups scope]. unfold fields_code, code_fields.
  cbn [ac_client_id ac_redirect_uri ac_code_challenge ac_code_challenge_method ac_timestamp
       ac_subject ac_nonce ac_groups ac_scope].
  rewrite !mapM_field_str. by destruct ch, m, nonce.
Qed.

#[export] Instance Timestamped_eq_dec {T} `{EqDecision T} : EqDecision (TimestampedContainer T).
Proof. solve_decision. Defined.

#[export] Instance Timestamped_countable : Countable (TimestampedContainer AuthorizationCode).
Proof.
  apply (inj_countable (λ c, [inr (timestamp c)] :: code_fields (content c))
    (λ fs, match fs with
           | [inr t] :: fs => c ← fields_code fs; Some (mkTimestamped c t)
           | _ => None
           end)).
  intros [c t]. cbn [timestamp content]. by rewrite fields_code_fields.
Defined.

(** Serialisation of a [SystemTime] before the epoch fails. *)
Definition after_epoch_b (c : TimestampedContainer AuthorizationCode) : bool :=
  ((0 <=? timestamp c) && (0 <=? ac_timestamp (content c)))%Z.

#[export] Instance Timestamped_Cbor : Cbor (TimestampedContainer AuthorizationCode) := {|
  into_writer := write_when after_epoch_b;
  from_reader := read_value;
|}.

(** A byte string after its length. *)
Definition write_bytes (bs : list byte) : list byte :=
  pos_bytes (Pos.of_succ_nat (length bs)) ++ bs.

Definition read_bytes (bs : list byte) : option (list byte * list byte) :=
  r ← read_pos bs;
  let n := pred (Pos.to_nat r.1) in
  if bool_decide (n ≤ length r.2) then Some (take n r.2, drop n r.2) else None.

Lemma read_write_bytes bs rest : read_bytes (write_bytes bs ++ rest) = Some (bs, rest).
Proof.
  unfold read_bytes, write_bytes. rewrite <- app_assoc, read_pos_bytes. simpl.
  rewrite SuccNat2Pos.id_succ. cbn [pred].
  rewrite bool_decide_eq_true_2 by (rewrite length_app; lia).
  by rewrite take_app_length, drop_app_length.
Qed.

Lemma read_bytes_app bs x r rest :
  read_bytes bs = Some (x, r) → read_bytes (bs ++ rest) = Some (x, r ++ rest).
Proof.
  unfold read_bytes. destruct (read_pos bs) as [[p r']|] eqn:E; [|done].
  rewrite (read_pos_app _ _ _ rest E). simpl.
  case_bool_decide; [|done]. intros [= <- <-].
  rewrite bool_decide_eq_true_2 by (rewrite length_app; lia).
  by rewrite take_app_le, drop_app_le by lia.
Qed.

#[export] Instance Signed_Cbor : Cbor SignedAuthorizationCode := {|
  into_writer s := (Ok tt, write_bytes (data s) ++ write_bytes (signature s));
  from_reader bs := ok_or tt
    (d ← read_bytes bs; s ← read_bytes d.2; Some (mkSigned d.1 s.1));
|}.

Lemma after_epoch_b_true c : after_epoch c → after_epoch_b c = true.
Proof. intros [H1 H2]. unfold after_epoch_b. by rewrite !(proj2 (Z.leb_le _ _)). Qed.

#[export] Instance Timestamped_CborLaws :
  CborLaws (TimestampedContainer AuthorizationCode) after_epoch.
Proof.
  split; intros c Hc%after_epoch_b_true.
  - simpl. unfold write_when. by rewrite Hc.
  - by apply read_write.
Qed.

#[export] Instance Signed_CborLaws : CborLaws SignedAuthorizationCode tag_32.
Proof.
  split; intros [d s] _; [done|]. simpl. rewrite read_write_bytes. simpl.
  by rewrite <- (app_nil_r (write_bytes s)), read_write_bytes.
Qed.

#[export] Instance Signed_CborPrefix : CborPrefix SignedAuthorizationCode.
Proof.
  split. intros bs rest v. simpl. rewrite !ok_or_Ok.
  destruct (read_bytes bs) as [[d r]|] eqn:E1; [|done]. simpl.
  destruct (read_bytes r) as [[s r']|] eqn:E2; [|done]. simpl. intros [= <-].
  rewrite (read_bytes_app _ _ _ rest E1). simpl. by rewrite (read_bytes_app _ _ _ rest E2).
Qed.

(** ** Base64 (RFC 4648) *)

Section base64.
Local Open Scope Z_scope.

Definition b64_char (e : Engine) (n : Z) : byte :=
  u8_of (if n <? 26 then 65 + n else if n <? 52 then 71 + n else if n <? 62 then n - 4
         else match e, n with
              | STANDARD, 62 => 43 | STANDARD, _ => 47 | _, 62 => 45 | _, _ => 95
              end).

Definition b64_value (e : Engine) (b : byte) : option Z :=
  let n := u8_val b in
  if (65 <=? n) && (n <=? 90) then Some (n - 65)
  else if (97 <=? n) && (n <=? 122) then Some (n - 71)
  else if (48 <=? n) && (n <=? 57) then Some (n + 4)
  else match e, n with
       | STANDARD, 43 => Some 62 | STANDARD, 47 => Some 63
       | (URL_SAFE | URL_SAFE_NO_PAD), 45 => Some 62
       | (URL_SAFE | URL_SAFE_NO_PAD), 95 => Some 63
       | _, _ => None
       end.

Definition b64_pads (e : Engine) : bool :=
  match e with URL_SAFE_NO_PAD => false | _ => true end.

Definition padding (e : Engine) (n : nat) : list byte :=
  if b64_pads e then replicate n x3d else [].

Fixpoint b64_enc (e : Engine) (bs : list byte) : list byte :=
  match bs with
  | [] => []
  | [a] => let a := u8_val a in
      [b64_char e (a / 4); b64_char e (a mod 4 * 16)] ++ padding e 2
  | [a; b] => let a := u8_val a in let b := u8_val b in
      [b64_char e (a / 4); b64_char e (a mod 4 * 16 + b / 16); b64_char e (b mod 16 * 4)]
      ++ padding e 1
  | a :: b :: c :: rest => let a := u8_val a in let b := u8_val b in let c := u8_val c in
      b64_char e (a / 4) :: b64_char e (a mod 4 * 16 + b / 16) ::
      b64_char e (b mod 16 * 4 + c / 64) :: b64_char e (c mod 64) :: b64_enc e rest
  end.

(** The last group may be short; its unused bits must be zero. *)
Definition b64_dec2 (e : Engine) (a b : byte) : option (list byte) :=
  a ← b64_value e a; b ← b64_value e b;
  if b mod 16 =? 0 then Some [u8_of (a * 4 + b / 16)] else None.

Definition b64_dec3 (e : Engine) (a b c : byte) : option (list byte) :=
  a ← b64_value e a; b ← b64_value e b; c ← b64_value e c;
  if c mod 4 =? 0 then Some [u8_of (a * 4 + b / 16); u8_of (b mod 16 * 16 + c / 4)] else None.

Definition b64_dec4 (e : Engine) (a b c d : byte) : option (list byte) :=
  a ← b64_value e a; b ← b64_value e b; c ← b64_value e c; d ← b64_value e d;
  Some [u8_of (a * 4 + b / 16); u8_of (b mod 16 * 16 + c / 4); u8_of (c mod 4 * 64 + d)].

Fixpoint b64_dec (e : Engine) (cs : list byte) : option (list byte) :=
  match cs with
  | [] => Some []
  | [a] => None
  | [a; b] => if b64_pads e then None else b64_dec2 e a b
  | [a; b; c] => if b64_pads e then None else b64_dec3 e a b c
  | a :: b :: c :: d :: rest =>
      if bool_decide (d = x3d) then
        if negb (b64_pads e && bool_decide (rest = [])) then None
        else if bool_decide (c = x3d) then b64_dec2 e a b else b64_dec3 e a b c
      else g ← b64_dec4 e a b c d; r ← b64_dec e rest; Some (g ++ r)
  end.

(** Facts about the sixty-four digits, by inspection. *)
Definition digit_ok (e : Engine) (n : Z) : bool :=
  bool_decide (b64_value e (b64_char e n) = Some n) &&
  bool_decide (32 < u8_val (b64_char e n) < 127) && negb (bool_decide (b64_char e n = x3d)).

Lemma b64_digits e n : 0 ≤ n < 64 → digit_ok e n = true.
Proof.
  intros Hn. assert (Hall : Forall (λ n, digit_ok e n = true) (seqZ 0 64)).
  { apply (bool_decide_unpack _). destruct e; vm_compute; reflexivity. }
  rewrite Forall_forall in Hall. apply Hall, elem_of_seqZ. lia.
Qed.

Lemma b64_value_char e n : 0 ≤ n < 64 → b64_value e (b64_char e n) = Some n.
Proof.
  intros Hn. pose proof (b64_digits e n Hn) as Hd. unfold digit_ok in Hd.
  rewrite !andb_true_iff, bool_decide_eq_true in Hd. tauto.
Qed.

Lemma b64_char_visible e n : 0 ≤ n < 64 → (0x20 < Byte.to_N (b64_char e n) < 0x7F)%N.
Proof.
  intros Hn. pose proof (b64_digits e n Hn) as Hd. unfold digit_ok, u8_val in Hd.
  rewrite !andb_true_iff, !bool_decide_eq_true in Hd. lia.
Qed.

Lemma b64_char_no_pad e n : 0 ≤ n < 64 → b64_char e n ≠ x3d.
Proof.
  intros Hn. pose proof (b64_digits e n Hn) as Hd. unfold digit_ok in Hd.
  rewrite !andb_true_iff, negb_true_iff, bool_decide_eq_false in Hd. tauto.
Qed.

Lemma u8_of_eq z b : z = u8_val b → u8_of z = b.
Proof. intros ->. apply u8_of_val. Qed.

Lemma div_mul_add x y k : 0 ≤ y < k → (x * k + y) / k = x.
Proof. intros Hy. rewrite Z.add_comm, Z.div_add, Z.div_small by lia. lia. Qed.

Lemma mod_mul_add x y k : 0 ≤ y < k → (x * k + y) mod k = y.
Proof. intros Hy. by rewrite Z.add_comm, Z.mod_add, Z.mod_small by lia. Qed.

(** A byte cut in two at the base [k]. *)
Lemma byte_parts b k : 0 < k → ∃ q r, u8_val b / k = q ∧ u8_val b mod k = r ∧
  u8_val b = q * k + r ∧ 0 ≤ r < k ∧ 0 ≤ q ∧ q * k < 256.
Proof.
  intros Hk. exists (u8_val b / k), (u8_val b mod k).
  pose proof (u8_val_range b). pose proof (Z.div_mod (u8_val b) k).
  pose proof (Z.mod_pos_bound (u8_val b) k). pose proof (Z.div_pos (u8_val b) k).
  split_and!; lia.
Qed.

Ltac cut_byte b k :=
  destruct (byte_parts b k) as (? & ? & -> & -> & ? & ? & ?); [done|].

(** Splitting three bytes in four digits and back. *)
Lemma b64_group e a b c :
  b64_dec4 e (b64_char e (u8_val a / 4)) (b64_char e (u8_val a mod 4 * 16 + u8_val b / 16))
    (b64_char e (u8_val b mod 16 * 4 + u8_val c / 64)) (b64_char e (u8_val c mod 64)) =
    Some [a; b; c].
Proof.
  cut_byte a 4. cut_byte b 16. cut_byte c 64. unfold b64_dec4. rewrite !b64_value_char by lia. simpl.
  rewrite !div_mul_add, !mod_mul_add by lia.
  by rewrite (u8_of_eq _ a), (u8_of_eq _ b), (u8_of_eq _ c) by lia.
Qed.
Lemma b64_group2 e a b :
  b64_dec3 e (b64_char e (u8_val a / 4)) (b64_char e (u8_val a mod 4 * 16 + u8_val b / 16))
    (b64_char e (u8_val b mod 16 * 4)) = Some [a; b].
Proof.
  cut_byte a 4. cut_byte b 16. unfold b64_dec3. rewrite !b64_value_char by lia. simpl.
  rewrite Z.mod_mul, Z.div_mul by lia.
  rewrite !div_mul_add, !mod_mul_add by lia.
  simpl. by rewrite (u8_of_eq _ a), (u8_of_eq _ b) by lia.
Qed.

Lemma b64_group1 e a :
  b64_dec2 e (b64_char e (u8_val a / 4)) (b64_char e (u8_val a mod 4 * 16)) = Some [a].
Proof.
  cut_byte a 4. unfold b64_dec2. rewrite !b64_value_char by lia. simpl.
  rewrite Z.mod_mul, Z.div_mul by lia. simpl. by rewrite (u8_of_eq _ a) by lia.
Qed.

(** Induction three bytes at a time. *)
Lemma triples_ind (P : list byte → Prop) :
  P [] → (∀ a, P [a]) → (∀ a b, P [a; b]) →
  (∀ a b c rest, P rest → P (a :: b :: c :: rest)) → ∀ bs, P bs.
Proof.
  intros H0 H1 H2 H3. fix IH 1. intros [|a [|b [|c rest]]]; [done..|].
  apply H3, IH.
Qed.

Lemma b64_dec_enc e bs : b64_dec e (b64_enc e bs) = Some bs.
Proof.
  induction bs as [|a|a b|a b c rest IH] using triples_ind; [done|..].
  - pose proof (b64_group1 e a) as Hg. cbn [b64_enc app].
    destruct (b64_pads e) eqn:Hp; unfold padding; rewrite Hp; cbn [b64_dec app replicate];
      by rewrite Hp.
  - pose proof (b64_group2 e a b) as Hg. pose proof (u8_val_range b).
    assert (b64_char e (u8_val b mod 16 * 4) ≠ x3d) as Hc.
    { apply b64_char_no_pad. pose proof (Z.mod_pos_bound (u8_val b) 16). lia. }
    cbn [b64_enc app]. destruct (b64_pads e) eqn:Hp; unfold padding; rewrite Hp;
      cbn [b64_dec app replicate]; rewrite Hp; [|done].
    by rewrite bool_decide_eq_true_2, (bool_decide_eq_false_2 _ Hc).
  - cbn [b64_enc b64_dec]. rewrite bool_decide_eq_false_2.
    + by rewrite b64_group, IH.
    + apply b64_char_no_pad, Z.mod_pos_bound. lia.
Qed.

Lemma b64_enc_visible e bs : visible (b64_enc e bs).
Proof.
  assert (Hpad : ∀ n, visible (padding e n)).
  { intros n. unfold padding. destruct (b64_pads e); [|constructor].
    apply Forall_replicate. simpl. lia. }
  induction bs as [|a|a b|a b c rest IH] using triples_ind; [constructor|..]; cbn [b64_enc app].
  - cut_byte a 4. do 2 (constructor; [apply b64_char_visible; lia|]). apply Hpad.
  - cut_byte a 4. cut_byte b 16. do 3 (constructor; [apply b64_char_visible; lia|]). apply Hpad.
  - cut_byte a 4. cut_byte b 16. cut_byte c 64.
    do 4 (constructor; [apply b64_char_visible; lia|]). done.
Qed.
End base64.

#[export] Instance concrete_Base64 : Base64 := {|
  DecodeError := unit;
  b64_encode e bs := of_bytes (b64_enc e bs);
  b64_decode e s := ok_or tt (b64_dec e (as_bytes s));
|}.

#[export] Instance concrete_Base64Laws : Base64Laws.
Proof.
  split; intros e bs; simpl; rewrite as_of_bytes; [|apply b64_enc_visible].
  by rewrite b64_dec_enc.
Qed.

Example base64_ex :
  b64_encode STANDARD (as_bytes "client:s3cret") = "Y2xpZW50OnMzY3JldA==".
Proof. vm_compute. reflexivity. Qed.

(** ** SHA-256 (FIPS 180-4) *)

Section sha256.
Local Open Scope Z_scope.

Definition w32 (x : Z) : Z := Z.land x 0xffffffff.
Definition rotr (n x : Z) : Z := Z.lor (Z.shiftr x n) (w32 (Z.shiftl x (32 - n))).
Definition xor3 (a b c : Z) : Z := Z.lxor a (Z.lxor b c).

(** The constants are the first 32 bits of the fractional parts of the cube roots,
    and for the initial state the square roots, of the first primes. *)
Definition is_prime (n : Z) : bool :=
  forallb (λ d, negb (n mod d =? 0)) (seqZ 2 (n - 2)).

Definition primes : list Z := List.filter is_prime (seqZ 2 310).

(** The cube root by bisection on [fuel] bits. *)
Fixpoint cube_root (fuel : nat) (lo n : Z) : Z :=
  match fuel with
  | O => lo
  | S fuel =>
      let mid := lo + 2 ^ Z.of_nat fuel in
      cube_root fuel (if mid ^ 3 <=? n then mid else lo) n
  end.

Definition sha_k : list Z :=
  Eval vm_compute in map (λ p, w32 (cube_root 36 0 (p * 2 ^ 96))) primes.

Record sha_state := mkSha { sa : Z; sb : Z; sc : Z; sd : Z; se : Z; sf : Z; sg : Z; sh : Z }.

Definition sha_init : sha_state :=
  Eval vm_compute in
    let h i := w32 (Z.sqrt (default 0 (primes !! i) * 2 ^ 64)) in
    mkSha (h 0%nat) (h 1%nat) (h 2%nat) (h 3%nat) (h 4%nat) (h 5%nat) (h 6%nat) (h 7%nat).

Definition sha_round (st : sha_state) (kw : Z * Z) : sha_state :=
  let '(mkSha a b c d e f g h) := st in
  let t1 := h + xor3 (rotr 6 e) (rotr 11 e) (rotr 25 e)
            + Z.lxor (Z.land e f) (Z.land (Z.lxor e 0xffffffff) g) + kw.1 + kw.2 in
  let t2 := xor3 (rotr 2 a) (rotr 13 a) (rotr 22 a)
            + xor3 (Z.land a b) (Z.land a c) (Z.land b c) in
  mkSha (w32 (t1 + t2)) a b c (w32 (d + t1)) e f g.

(** The message schedule, newest word first. *)
Fixpoint sha_schedule (n : nat) (ws : list Z) : list Z :=
  match n with
  | O => ws
  | S n =>
      let at_ i := default 0 (ws !! i) in
      let s0 := xor3 (rotr 7 (at_ 14%nat)) (rotr 18 (at_ 14%nat)) (Z.shiftr (at_ 14%nat) 3) in
      let s1 := xor3 (rotr 17 (at_ 1%nat)) (rotr 19 (at_ 1%nat)) (Z.shiftr (at_ 1%nat) 10) in
      sha_schedule n (w32 (at_ 15%nat + s0 + at_ 6%nat + s1) :: ws)
  end.

Fixpoint be_words (bs : list byte) : list Z :=
  match bs with
  | a :: b :: c :: d :: rest =>
      (((u8_val a * 256 + u8_val b) * 256 + u8_val c) * 256 + u8_val d) :: be_words rest
  | _ => []
  end.

Definition be_bytes (n : nat) (w : Z) : list byte :=
  (λ i, u8_of (Z.shiftr w (8 * Z.of_nat i))) <$> reverse (seq 0 n).

Definition sha_compress (st : sha_state) (block : list byte) : sha_state :=
  let ws := reverse (sha_schedule 48 (reverse (be_words block))) in
  let r := foldl sha_round st (zip sha_k ws) in
  mkSha (w32 (sa st + sa r)) (w32 (sb st + sb r)) (w32 (sc st + sc r)) (w32 (sd st + sd r))
        (w32 (se st + se r)) (w32 (sf st + sf r)) (w32 (sg st + sg r)) (w32 (sh st + sh r)).

Fixpoint sha_blocks (n : nat) (st : sha_state) (bs : list byte) : sha_state :=
  match n with
  | O => st
  | S n => sha_blocks n (sha_compress st (take 64 bs)) (drop 64 bs)
  end.

Definition sha_pad (bs : list byte) : list byte :=
  let n := Z.of_nat (length bs) in
  bs ++ x80 :: replicate (Z.to_nat ((55 - n) mod 64)) x00 ++ be_bytes 8 (8 * n).

Definition sha256 (bs : list byte) : list byte :=
  let p := sha_pad bs in
  let st := sha_blocks (length p / 64)%nat sha_init p in
  be_bytes 4 (sa st) ++ be_bytes 4 (sb st) ++ be_bytes 4 (sc st) ++ be_bytes 4 (sd st) ++
  be_bytes 4 (se st) ++ be_bytes 4 (sf st) ++ be_bytes 4 (sg st) ++ be_bytes 4 (sh st).
End sha256.

(** SHA-256, and the same function standing for the two BLAKE3 modes. *)
Definition sha_Hashes : Hashes := {|
  sha256_digest := sha256;
  blake3_hash := sha256;
  keyed_hash key bs := sha256 (key ++ bs);
|}.

Lemma sha256_length bs : length (sha256 bs) = 32.
Proof. done. Qed.

Lemma sha_HashesLaws : @HashesLaws sha_Hashes.
Proof. by split. Qed.

(** The test vector of RFC 7636, appendix B. *)
Example rfc7636_vector :
  @verify_pkce sha_Hashes concrete_Base64 S256 "E9Melhoa2OwvFrEMTJguCHaoeK1t8URWbuGJSstw-cM"
    "dBjftJeZ4CVP-mB92K27uhbUJU1p1r_wW1gFWFOEjXk" = true.
Proof. vm_compute. reflexivity. Qed.

(** A checksum in place of a hash, where the concrete values are many. *)
Definition checksum (seed : Z) (bs : list byte) : list byte :=
  let h := foldl (λ h b, Z.land (h * 31 + u8_val b + 1) 0xffffff) seed bs in
  be_bytes 3 h ++ replicate 29 x00.

#[export] Instance toy_Hashes : Hashes := {|
  sha256_digest := checksum 1;
  blake3_hash := checksum 2;
  keyed_hash key bs := checksum 3 (key ++ bs);
|}.

#[export] Instance toy_HashesLaws : HashesLaws.
Proof. by split. Qed.

(** ** JSON values are countable *)

Fixpoint json_tree (j : json) : gen_tree (string + Z) :=
  match j with
  | JNull => GenNode 0 []
  | JNum n => GenLeaf (inr n)
  | JStr s => GenLeaf (inl s)
  | JArr l => GenNode 1 (map json_tree l)
  | JObj fs => GenNode 2 (map (λ f, GenNode 3 [GenLeaf (inl f.1); json_tree f.2]) fs)
  end.

Fixpoint tree_json (t : gen_tree (string + Z)) : json :=
  match t with
  | GenLeaf (inr n) => JNum n
  | GenLeaf (inl s) => JStr s
  | GenNode 0 _ => JNull
  | GenNode 1 l => JArr (map tree_json l)
  | GenNode _ l =>
      JObj (map (λ t, match t with
                      | GenNode _ [GenLeaf (inl k); v] => (k, tree_json v)
                      | _ => ("", JNull)
                      end) l)
  end.

Lemma tree_json_tree : ∀ j, tree_json (json_tree j) = j.
Proof.
  fix IH 1. intros [|n|s|l|fs]; simpl; try done; f_equal; rewrite map_map.
  - revert l. fix IHl 1. intros [|j l]; simpl; [done|]. by rewrite IH, IHl.
  - revert fs. fix IHl 1. intros [|[k j] fs]; simpl; [done|]. by rewrite IH, IHl.
Qed.

#[export] Instance json_eq_dec : EqDecision json.
Proof.
  refine (λ a b, cast_if (decide (json_tree a = json_tree b))).
  - abstract (rewrite <- (tree_json_tree a), <- (tree_json_tree b); congruence).
  - abstract congruence.
Defined.

#[export] Instance json_countable : Countable json.
Proof. exact (inj_countable' json_tree tree_json tree_json_tree). Defined.

(** ** Signed tokens: header, claims and key, as three strings of binary digits *)

Fixpoint pos_digits (p : positive) : string :=
  match p with
  | xH => ""
  | xO p => String "0" (pos_digits p)
  | xI p => String "1" (pos_digits p)
  end.

Fixpoint read_digits (s : string) : option positive :=
  match s with
  | "" => Some xH
  | String "0" s => xO <$> read_digits s
  | String "1" s => xI <$> read_digits s
  | _ => None
  end.

Lemma read_pos_digits p : read_digits (pos_digits p) = Some p.
Proof. induction p as [p IH|p IH|]; simpl; by rewrite ?IH. Qed.

Lemma pos_digits_no_dot p : str_mem "."%char (pos_digits p) = false.
Proof. by induction p. Qed.

Definition read_part {A} `{Countable A} (s : string) : option A := read_digits s ≫= decode.

Lemma read_part_digits {A} `{Countable A} (x : A) : read_part (pos_digits (encode x)) = Some x.
Proof. unfold read_part. rewrite read_pos_digits. simpl. by rewrite decode_encode. Qed.

(** [header.claims.signature], and its three parts. *)
Definition token_of (h c s : string) : string := h +:+ "." +:+ c +:+ "." +:+ s.

Definition token_parts (tok : string) : option (string * string * string) :=
  '(h, rest) ← split_once "."%char tok;
  '(c, s) ← split_once "."%char rest;
  Some (h, c, s).

Lemma token_parts_of h c s :
  str_mem "."%char h = false → str_mem "."%char c = false →
  token_parts (token_of h c s) = Some (h, c, s).
Proof.
  intros Hh Hc. unfold token_parts, token_of.
  assert (split_once "."%char (h +:+ "." +:+ c +:+ "." +:+ s) = Some (h, c +:+ "." +:+ s)) as ->
    by (by apply split_once_Some). cbn [mbind option_bind].
  by assert (split_once "."%char (c +:+ "." +:+ s) = Some (c, s)) as ->
    by (by apply split_once_Some).
Qed.

Definition read_token (tok : string) : option (bool * json * string) :=
  '(h, c, s) ← token_parts tok;
  alg ← read_part h; claims ← read_part c; key ← read_part s;
  Some (alg, claims, key).

#[export] Instance concrete_Jwt : Jwt := {|
  EncodingKey := string;
  DecodingKey := string;
  JwtLibError := unit;
  jwt_error_string _ := "InvalidToken";
  jwt_json_error := tt;
  encoding_key_from_rsa_pem bs := Ok (of_bytes bs);
  decoding_key_from_rsa_der bs := of_bytes bs;
  jwt_encode h claims key :=
    Ok (token_of (pos_digits (encode (bool_decide (h_alg h = RS256))))
          (pos_digits (encode claims)) (pos_digits (encode key)));
  jwt_decode tok key v now :=
    match read_token tok with
    | Some (alg, claims, key') =>
        if bool_decide (alg = bool_decide (v_algorithm v = RS256)) && bool_decide (key' = key)
           && claims_valid v claims (duration_as_secs now)
        then Ok claims else Err tt
    | None => Err tt
    end;
|}.

#[export, refine] Instance concrete_JwtLaws : JwtLaws := { jwt_key_pair := @eq string }.
Proof.
  intros h claims ek dk v now tok -> [= <-] Halg _ _. unfold jwt_decode, concrete_Jwt, read_token.
  rewrite token_parts_of by apply pos_digits_no_dot. simpl.
  rewrite !read_part_digits. simpl. rewrite Halg.
  rewrite !bool_decide_eq_true_2 by done. simpl. destruct (claims_valid _ _ _); eauto.
Defined.

(** ** RSA: the private key is a string, and so are its exports *)

#[export] Instance concrete_Rsa : Rsa := {|
  RsaPrivateKey := string;
  RsaPublicKey := string;
  Rng := unit;
  rsa_new _ _ := Ok "fresh key";
  from_pkcs8_pem pem := if bool_decide (pem = "") then Err "empty" else Ok pem;
  to_pkcs8_pem k := Ok k;
  to_public_key k := k;
  to_pkcs1_der k := Ok (as_bytes k);
  key_n_bytes_be k := as_bytes k;
  key_e_bytes_be _ := [x01; x00; x01];
|}.

#[export] Instance concrete_JwtRsaLaws : JwtRsaLaws.
Proof. split. intros sk pem der ek [= <-] [= <-] [= <-]. done. Qed.

(** ** A small deployment *)

(** The parsed configuration file of the deployment; the parser knows one text. *)
Definition demo_toml : toml := TTable
  [("issuer", TStr "https://auth.example.com"); ("listen_addr", TStr "0.0.0.0:8080");
   ("code_max_age_seconds", TInt 60);
   ("code_hmac_key", TStr "000102030405060708090a0b0c0d0e0f101112131415161718191a1b1c1d1e1f");
   ("signing_key_path", TStr "/etc/signing_key.pem");
   ("default_groups", TArr [TStr "users"]);
   ("clients", TArr
     [TTable [("client_id", TStr "public-client");
              ("redirect_uris", TArr [TStr "https://app.example/cb"]);
              ("groups", TArr [TStr "staff"])];
      TTable [("client_id", TStr "confidential"); ("client_secret", TStr "secret123");
              ("redirect_uris", TArr [TStr "https://app.example/cb"])]])].

#[export] Instance concrete_Io : Io := {| IoError := string |}.

#[export] Instance concrete_Toml : Toml := {|
  TomlError := string;
  toml_parse s := if bool_decide (s = "the configuration") then Ok demo_toml
                  else Err "expected an equals";
  toml_shape_error := "missing field";
|}.

Definition demo_files (path : string) : result string IoError :=
  if bool_decide (path = "config.toml") then Ok "the configuration"
  else if bool_decide (path = "/etc/signing_key.pem") then Ok "key"
  else Err "No such file or directory".

#[export] Instance release_profile : BuildProfile := {| overflow_checks := false |}.
#[export] Instance ascii_UnicodeCase : UnicodeCase := ascii_case.

Definition demo_config : Config := Config_of_file (mkConfigFile
  "https://auth.example.com" "0.0.0.0:8080" 60
  "000102030405060708090a0b0c0d0e0f101112131415161718191a1b1c1d1e1f"
  None None None None "/etc/signing_key.pem"
  (Some [mkClientConfig "public-client" None ["https://app.example/cb"] ["staff"];
         mkClientConfig "confidential" (Some "secret123") ["https://app.example/cb"] []])
  (Some ["users"])).

Definition demo_issuer : JwtIssuer :=
  match from_private_key "key" "https://auth.example.com" with
  | Ok ji => ji
  | Err _ => mkJwtIssuer "" "" "" "" (mkJwk "" "" "" "" "" "")
  end.

Definition demo_url : Url := mkUrl "auth.example.com" "" None.

Definition demo_metadata : OIDCDiscovery :=
  match discovery_info demo_url default_paths with
  | Done d => d
  | Panicked _ => mkDiscovery "" "" "" "" "" [] [] [] [] [] []
  end.

Example demo_loads : Config_load demo_files "config.toml" = Ok demo_config.
Proof. vm_compute. reflexivity. Qed.

(** The state [startup] builds from this configuration. *)
Definition demo_state : AppState :=
  mkAppState (flow_new (duration_from_secs 60) (Byte.x00 :: (byte_of_N ∘ N.of_nat <$> seq 1 31)))
    demo_issuer (mkClientRegistry (cfg_clients demo_config)) (UserManager_new "CN")
    (mkDiscoveryManager demo_metadata) "X-Client-Cert-Subject"
    (duration_from_secs 3600) (duration_from_secs 3600) ["users"].

Lemma demo_starts : startup demo_files demo_config = Done (Ok demo_state).
Proof. reflexivity. Qed.

(** A world whose clock shows [t] seconds and then one second more per reading. *)
Definition demo_world (t : Z) (s : InMemory.InMemoryTokenStore) :
    World InMemory.InMemoryTokenStore :=
  mkWorld (λ n, duration_from_secs (t + Z.of_nat n)) (λ n i, byte_of_N (N.of_nat (n + i))) s.

Definition demo_t : Z := 1700000000.
Definition demo_start : World InMemory.InMemoryTokenStore := demo_world demo_t InMemory.new.

(** Alice asks for a code through the public client, with a plain proof key. *)
Definition demo_params : AuthorizeParams :=
  mkAuthorizeParams "code" "public-client" "https://app.example/cb" (Some "openid profile")
    (Some "xyz") (Some "verifier") (Some "plain") (Some "n-0S6_WzA2Mj").

Definition headers_of (l : list (string * string)) : HeaderMap := l.

Definition demo_headers : HeaderMap :=
  headers_of [("X-Client-Cert-Subject", "CN=alice,O=Example")].

(** The code string of the redirect. *)
Definition demo_code : string :=
  match (run (authorization_request (flow demo_state)
           (mkAuthorizationRequest "public-client" "https://app.example/cb" (Some "verifier")
              Plain "alice" (Some "n-0S6_WzA2Mj") ["users"; "staff"] ["openid"; "profile"]))
         demo_start).1 with
  | Done (Ok ce) => ce.2
  | _ => ""
  end.

Definition demo_token_params : TokenParams :=
  mkTokenParams "authorization_code" demo_code "https://app.example/cb" (Some "verifier")
    (Some "public-client") None.

Definition demo_request : AccessTokenRequest :=
  mkAccessTokenRequest GrantType_AuthorizationCode "public-client" None demo_code
    "https://app.example/cb" (Some "verifier").

(** How a handler ended. *)
Definition ended_ok {A E W} (r : outcome (result A E) * W) : bool :=
  match r.1 with Done (Ok _) => true | _ => false end.

Definition ended_err {A E W} (r : outcome (result A E) * W) : bool :=
  match r.1 with Done (Err _) => true | _ => false end.

Lemma ended_ok_true {A E W} (r : outcome (result A E) * W) :
  ended_ok r = true → ∃ a w, r = (Done (Ok a), w).
Proof. destruct r as [[[a|e]|m] w]; [|done..]. eauto. Qed.

Lemma ended_err_true {A E W} (r : outcome (result A E) * W) :
  ended_err r = true → ∃ e w, r = (Done (Err e), w).
Proof. destruct r as [[[a|e]|m] w]; [done| |done]. eauto. Qed.

Definition demo_location : string :=
  match (run (authorize_handler demo_state demo_headers demo_params) demo_start).1 with
  | Done (Ok (RedirectResponse _ l)) => l
  | _ => ""
  end.

(** What the browser carries back: the code and the state, percent-coded. *)
Example demo_redirects :
  url_pairs <$> result_ok (url_parse demo_location) = Some [("code", demo_code); ("state", "xyz")].
Proof. vm_compute. reflexivity. Qed.

Example demo_served :
  ended_ok (run (access_token_request (flow demo_state) demo_request (token_context demo_state))
              (demo_world (demo_t + 10) InMemory.new)) = true.
Proof. vm_compute. reflexivity. Qed.
