(* ===== verification/TestMonad.v ===== *)
(** * Tests as programs

    A test runs programs against a world, can sleep, and panics where an assertion
    or an [unwrap] fails; it passes when it ends in the world the tests start in.
    [UnitTests.v] and [EndToEnd.v] write the tests of the repository with it. *)
From stdpp Require Import countable.
From S2P Require Import Prelude RustStd Storage Effects.

Abbreviation Mem := InMemory.InMemoryTokenStore (only parsing).

(** A test acts on a world; its store is the [InMemoryTokenStore::new()] most
    tests begin with. *)
Definition Test (A : Type) : Type := World Mem → outcome A * World Mem.

Definition tret {A} (a : A) : Test A := λ w, (Done a, w).

Definition tbind {A B} (t : Test A) (f : A → Test B) : Test B := λ w,
  match t w with (Done a, w') => f a w' | (Panicked m, w') => (Panicked m, w') end.

Notation "'let$' x ':=' t 'in' u" := (tbind t (λ x, u))
  (at level 10, x binder, t at level 100, u at level 200) : rust_scope.
Notation "t ';$' u" := (tbind t (λ _, u)) (at level 90, right associativity) : rust_scope.

(** A program, a value that may panic, [Result::unwrap], [thread::sleep]. *)
Definition lift {A} (p : prog A) : Test A := run p.
Definition pure {A} (o : outcome A) : Test A := λ w, (o, w).
Definition get {A E} (r : result A E) : Test A := pure (unwrap r).
Definition sleep (d : Duration) : Test unit := λ w,
  (Done tt, mkWorld (λ n, w_clock w n + d)%Z (w_random w) (w_store w)).

Definition assert (b : bool) : Test unit :=
  pure (if b then Done tt else Panicked "assertion failed").
Definition assert_eq {A} `{EqDecision A} (a b : A) : Test unit := assert (bool_decide (a = b)).

Definition is_err {A E} (r : result A E) : bool := negb (is_ok r).
Definition is_some {A} (o : option A) : bool := match o with Some _ => true | None => false end.
Definition is_none {A} (o : option A) : bool := negb (is_some o).
Definition nonempty (s : string) : bool := bool_decide (s ≠ "").

Definition millis (n : Z) : Duration := (n * 1000000)%Z.

(** The clock advances by a millisecond between two readings. *)
Definition test_world : World Mem :=
  mkWorld (λ n, duration_from_secs 1700000000 + millis (Z.of_nat n))%Z
    (λ n i, byte_of_N (N.of_nat ((n * 37 + i * 11) mod 256))) InMemory.new.

Definition passes (t : Test unit) : bool :=
  match (t test_world).1 with Done _ => true | Panicked _ => false end.
