(* ===== verification/UnitTests.v ===== *)
(** * The unit tests of the repository, run on the model

    Each [#[test]] function of the sources as a definition of the same name, over
    the same fixtures, in the monad of [TestMonad.v]; each is then evaluated.  The
    crates are those of [Concrete.v], with SHA-256 where a test vector asks for it;
    [serde_json] text is its value.  What the tests assert of the code, the
    kernel thereby checks of the definitions that model it. *)
From stdpp Require Import countable.
From S2P Require Import Prelude RustStd Storage Effects Externs Users Client Pkce Timestamp.
From S2P Require Import AuthorizationCode Signature Token Protocol Discovery Router Server.
From S2P Require Import Extractors ConcreteHttp Concrete TestMonad.

(** ** [users/mod.rs] *)

Module Users_tests.
Definition attr_is (dn attr value : string) : Test unit :=
  let$ r := pure (extract_dn_attribute dn attr) in let$ v := get r in assert_eq v value.

Definition test_extract_cn_simple : Test unit :=
  attr_is "CN=alice,OU=eng,O=acme" "CN" "alice".

Definition test_extract_cn_case_insensitive : Test unit :=
  attr_is "cn=alice,OU=eng,O=acme" "CN" "alice".

Definition test_extract_ou : Test unit := attr_is "CN=alice,OU=eng,O=acme" "OU" "eng".

Definition test_extract_o : Test unit := attr_is "CN=alice,OU=eng,O=acme" "O" "acme".

Definition is_AttributeNotFound {A} (r : result A UserError) : bool :=
  match r with Err (AttributeNotFound _) => true | _ => false end.
Definition is_InvalidDn {A} (r : result A UserError) : bool :=
  match r with Err (InvalidDn _) => true | _ => false end.

Definition test_extract_missing_attribute : Test unit :=
  let$ r := pure (extract_dn_attribute "CN=alice,OU=eng" "EMAIL") in
  assert (is_AttributeNotFound r).

Definition test_escaped_comma : Test unit :=
  attr_is "CN=alice\, bob,OU=eng,O=acme" "CN" "alice\, bob".

Definition test_malformed_rdn_returns_invalid_dn : Test unit :=
  let$ r := pure (extract_dn_attribute "not-a-rdn,CN=alice" "CN") in assert (is_InvalidDn r).

Definition test_user_manager_resolve : Test unit :=
  let mgr := UserManager_new "CN" in
  let$ r := pure (resolve mgr "CN=alice,OU=eng,O=acme") in
  let$ user := get r in
  assert_eq (subject user) "alice" ;$
  assert_eq (raw_dn user) "CN=alice,OU=eng,O=acme".

Definition test_user_manager_missing_attr : Test unit :=
  let mgr := UserManager_new "EMAIL" in
  let$ r := pure (resolve mgr "CN=alice,OU=eng") in assert (is_AttributeNotFound r).

Definition test_group_resolution_default_only : Test unit :=
  let default := ["everyone"; "authenticated"] in
  let client_groups := [] in
  let result := resolve_groups client_groups default in
  assert_eq result ["everyone"; "authenticated"].

Definition test_group_resolution_client_only : Test unit :=
  let default := [] in
  let client_groups := ["spa-users"] in
  let result := resolve_groups client_groups default in
  assert_eq result ["spa-users"].

Definition test_group_resolution_union_dedup : Test unit :=
  let default := ["everyone"; "authenticated"] in
  let client_groups := ["authenticated"; "spa-users"] in
  let result := resolve_groups client_groups default in
  assert_eq result ["everyone"; "authenticated"; "spa-users"].

Definition test_split_rdns_respects_escaped_comma : Test unit :=
  let$ parts := pure (split_rdns "a=1,b=2\,3,c=4") in
  assert_eq parts ["a=1"; "b=2\,3"; "c=4"].

Example users_tests_pass : forallb passes
  [test_extract_cn_simple; test_extract_cn_case_insensitive; test_extract_ou; test_extract_o;
   test_extract_missing_attribute; test_escaped_comma; test_malformed_rdn_returns_invalid_dn;
   test_user_manager_resolve; test_user_manager_missing_attr;
   test_group_resolution_default_only; test_group_resolution_client_only;
   test_group_resolution_union_dedup; test_split_rdns_respects_escaped_comma] = true.
Proof. vm_compute. reflexivity. Qed.
End Users_tests.

(** ** [oidc/client.rs] *)

Module Client_tests.
Definition registry : Test ClientRegistry := get (ClientRegistry_new
  [mkClientConfig "public-client" None ["https://app.example/cb"] [];
   mkClientConfig "confidential" (Some "secret123") ["https://app.example/cb"] []]).

Definition test_find_by_id : Test unit :=
  let$ reg := registry in
  assert (is_some (find_by_id reg "public-client")) ;$
  assert (is_none (find_by_id reg "unknown")).

Definition test_validate_redirect_uri : Test unit :=
  let$ reg := registry in
  assert (validate_redirect_uri reg "public-client" "https://app.example/cb") ;$
  assert (negb (validate_redirect_uri reg "public-client" "https://evil.example/cb")) ;$
  assert (negb (validate_redirect_uri reg "unknown" "https://app.example/cb")).

Definition test_public_client_always_allowed : Test unit :=
  let$ reg := registry in
  assert_eq (validate_client_secret reg "public-client" None) Allow ;$
  assert_eq (validate_client_secret reg "public-client" (Some "anything")) Allow.

Definition test_confidential_client_requires_correct_secret : Test unit :=
  let$ reg := registry in
  assert_eq (validate_client_secret reg "confidential" None) Deny ;$
  assert_eq (validate_client_secret reg "confidential" (Some "wrong")) Deny ;$
  assert_eq (validate_client_secret reg "confidential" (Some "secret123")) Allow.

Definition test_unknown_client_denied : Test unit :=
  let$ reg := registry in
  assert_eq (validate_client_secret reg "unknown" None) Deny.

Definition test_duplicate_client_id_rejected : Test unit :=
  let result := ClientRegistry_new [mkClientConfig "dup" None [] []; mkClientConfig "dup" None [] []] in
  assert (is_err result).

Example client_tests_pass : forallb passes
  [test_find_by_id; test_validate_redirect_uri; test_public_client_always_allowed;
   test_confidential_client_requires_correct_secret; test_unknown_client_denied;
   test_duplicate_client_id_rejected] = true.
Proof. vm_compute. reflexivity. Qed.
End Client_tests.

(** ** [oidc/storage.rs] *)

Module Storage_tests.
Definition sample_record (jti : string) : Test TokenRecord :=
  let$ now := lift system_time_now in
  let$ expires_at := pure (system_time_add now (duration_from_secs 3600)) in
  tret (mkTokenRecord "alice" "client1" ["openid"] ["users"] expires_at jti).

Definition issue_record (r : TokenRecord) : Test unit :=
  lift (ts_issue (tr_jti r) (tr_subject r) (tr_client_id r) (tr_scope r) (tr_groups r)
    (tr_expires_at r)).

Definition test_issue_and_lookup : Test unit :=
  let$ r := sample_record "jti-1" in
  issue_record r ;$
  let$ found := lift (ts_lookup "jti-1") in
  let$ found := pure (expect "called `Option::unwrap()` on a `None` value" found) in
  assert_eq (tr_subject found) "alice" ;$
  assert_eq (tr_client_id found) "client1".

Definition test_lookup_missing : Test unit :=
  let$ found := lift (ts_lookup "nope") in assert (is_none found).

Definition test_revoke : Test unit :=
  let$ r := sample_record "jti-2" in
  issue_record r ;$
  let$ removed := lift (ts_revoke "jti-2") in
  assert removed ;$
  let$ found := lift (ts_lookup "jti-2") in
  assert (is_none found) ;$
  let$ removed := lift (ts_revoke "jti-2") in
  assert (negb removed).

Definition test_consume_code_first_use_succeeds : Test unit :=
  let$ first := lift (ts_consume_code "hash-abc") in assert first.

Definition test_consume_code_replay_rejected : Test unit :=
  let$ first := lift (ts_consume_code "hash-abc") in
  assert first ;$
  let$ first := lift (ts_consume_code "hash-abc") in
  assert (negb first).

Example storage_tests_pass : forallb passes
  [test_issue_and_lookup; test_lookup_missing; test_revoke;
   test_consume_code_first_use_succeeds; test_consume_code_replay_rejected] = true.
Proof. vm_compute. reflexivity. Qed.
End Storage_tests.

(** ** [oidc/code/pkce.rs] *)

Module Pkce_tests.
#[local] Existing Instance sha_Hashes.

Definition test_plain_pkce_match : Test unit :=
  let verifier := "some-random-verifier" in
  assert (verify_pkce Plain verifier verifier).

Definition test_plain_pkce_mismatch : Test unit :=
  assert (negb (verify_pkce Plain "challenge" "verifier")).

Definition test_s256_pkce_match : Test unit :=
  let verifier := "dBjftJeZ4CVP-mB92K27uhbUJU1p1r_wW1gFWFOEjXk" in
  let digest := sha256_digest (as_bytes verifier) in
  let challenge := b64_encode URL_SAFE_NO_PAD digest in
  assert (verify_pkce S256 challenge verifier).

Definition test_s256_pkce_mismatch : Test unit :=
  let challenge := "E9Melhoa2OwvFrEMTJguCHaoeK1t8URWbuGJSstw-cM" in
  assert (negb (verify_pkce S256 challenge "wrong-verifier")).

Definition test_s256_known_vector : Test unit :=
  let verifier := "dBjftJeZ4CVP-mB92K27uhbUJU1p1r_wW1gFWFOEjXk" in
  let expected_challenge := "E9Melhoa2OwvFrEMTJguCHaoeK1t8URWbuGJSstw-cM" in
  let digest := sha256_digest (as_bytes verifier) in
  let challenge := b64_encode URL_SAFE_NO_PAD digest in
  assert_eq challenge expected_challenge ;$
  assert (verify_pkce S256 expected_challenge verifier).

Example pkce_tests_pass : forallb passes
  [test_plain_pkce_match; test_plain_pkce_mismatch; test_s256_pkce_match;
   test_s256_pkce_mismatch; test_s256_known_vector] = true.
Proof. vm_compute. reflexivity. Qed.
End Pkce_tests.

(** ** [oidc/code/timestamp.rs] *)

Module Timestamp_tests.
(** [container.timestamp = SystemTime::now() - d]. *)
Definition aged {T} (container : TimestampedContainer T) (d : Duration) :
    Test (TimestampedContainer T) :=
  let$ now := lift system_time_now in tret (mkTimestamped (content container) (now - d)%Z).

Definition is_NotFresh {A} (r : result A TimestampError) : bool :=
  match r with Err NotFresh => true | _ => false end.

Definition test_fresh_container_extracts : Test unit :=
  let$ container := lift (TimestampedContainer_new 42%Z) in
  let$ result := lift (extract container (duration_from_secs 60)) in
  let$ value := get result in
  assert_eq value 42%Z.

Definition test_expired_container_returns_error : Test unit :=
  let$ container := lift (TimestampedContainer_new 42%Z) in
  let$ container := aged container (duration_from_secs 120) in
  let$ result := lift (extract container (duration_from_secs 60)) in
  assert (is_NotFresh result).

Definition test_exactly_at_max_age : Test unit :=
  let$ container := lift (TimestampedContainer_new 42%Z) in
  let$ container := aged container (duration_from_secs 60) in
  let$ result := lift (extract container (duration_from_secs 60)) in
  assert (is_NotFresh result).

Example timestamp_tests_pass : forallb passes
  [test_fresh_container_extracts; test_expired_container_returns_error;
   test_exactly_at_max_age] = true.
Proof. vm_compute. reflexivity. Qed.
End Timestamp_tests.

(** ** [oidc/code/authorization_code.rs] *)

Module AuthorizationCode_tests.
Definition make_code (challenge : string) (method : CodeChallengeMethod) :
    Test AuthorizationCode :=
  let$ now := lift system_time_now in
  tret (mkAuthorizationCode "client1" "https://app.example/cb" (Some challenge) method now
    "user1" None [] ["openid"]).

Definition s256_challenge (verifier : string) : string :=
  b64_encode URL_SAFE_NO_PAD (sha256_digest (as_bytes verifier)).

(** [assert!(matches!(r, Err(e)))]. *)
Definition fails_with (r : result unit TokenRequestError) (e : TokenRequestError) : Test unit :=
  assert (match r, e with
          | Err InvalidClientId, InvalidClientId | Err InvalidRedirectUri, InvalidRedirectUri
          | Err InvalidPKCE, InvalidPKCE => true
          | _, _ => false
          end).

Definition test_validate_matching_request : Test unit :=
  let verifier := "test-verifier" in
  let challenge := s256_challenge verifier in
  let$ code := make_code challenge S256 in
  assert (is_ok (validate_token_request code "client1" "https://app.example/cb" (Some verifier))).

Definition test_validate_wrong_client : Test unit :=
  let verifier := "test-verifier" in
  let challenge := s256_challenge verifier in
  let$ code := make_code challenge S256 in
  fails_with (validate_token_request code "wrong-client" "https://app.example/cb" (Some verifier))
    InvalidClientId.

Definition test_validate_wrong_redirect : Test unit :=
  let verifier := "test-verifier" in
  let challenge := s256_challenge verifier in
  let$ code := make_code challenge S256 in
  fails_with (validate_token_request code "client1" "https://evil.example/cb" (Some verifier))
    InvalidRedirectUri.

Definition test_validate_wrong_verifier : Test unit :=
  let$ code := make_code "challenge" Plain in
  fails_with (validate_token_request code "client1" "https://app.example/cb"
    (Some "wrong-verifier")) InvalidPKCE.

Definition test_validate_plain_pkce : Test unit :=
  let$ code := make_code "my-verifier" Plain in
  assert (is_ok (validate_token_request code "client1" "https://app.example/cb"
    (Some "my-verifier"))).

(** [code.code_challenge = None]. *)
Definition without_challenge (c : AuthorizationCode) : AuthorizationCode :=
  mkAuthorizationCode (ac_client_id c) (ac_redirect_uri c) None (ac_code_challenge_method c)
    (ac_timestamp c) (ac_subject c) (ac_nonce c) (ac_groups c) (ac_scope c).

Definition test_validate_no_challenge_skips_pkce : Test unit :=
  let$ code := make_code "ignored" S256 in
  let code := without_challenge code in
  assert (is_ok (validate_token_request code "client1" "https://app.example/cb" None)) ;$
  assert (is_ok (validate_token_request code "client1" "https://app.example/cb"
    (Some "anything"))).

Definition test_validate_challenge_present_but_verifier_missing : Test unit :=
  let verifier := "test-verifier" in
  let challenge := s256_challenge verifier in
  let$ code := make_code challenge S256 in
  fails_with (validate_token_request code "client1" "https://app.example/cb" None) InvalidPKCE.

Example authorization_code_tests_pass : forallb passes
  [test_validate_matching_request; test_validate_wrong_client; test_validate_wrong_redirect;
   test_validate_wrong_verifier; test_validate_plain_pkce;
   test_validate_no_challenge_skips_pkce;
   test_validate_challenge_present_but_verifier_missing] = true.
Proof. vm_compute. reflexivity. Qed.
End AuthorizationCode_tests.

(** ** [oidc/code/signature.rs] *)

Module Signature_tests.
Definition test_code : Test AuthorizationCode :=
  let$ now := lift system_time_now in
  tret (mkAuthorizationCode "test-client" "https://app.example/cb" (Some "challenge123") S256
    now "test-user" None ["users"] ["openid"]).

Definition test_key : MacKey := replicate 32 (u8_of 42).

Definition is_InvalidSignature {A} (r : result A AuthorizationCodeVerificationError) : bool :=
  match r with Err InvalidSignature => true | _ => false end.
Definition is_InvalidBase64Encoding {A} (r : result A AuthorizationCodeVerificationError) : bool :=
  match r with Err (InvalidBase64Encoding _) => true | _ => false end.
Definition is_InvalidTimestamp {A} (r : result A AuthorizationCodeVerificationError) : bool :=
  match r with Err (InvalidTimestamp _) => true | _ => false end.

Definition test_sign_encode_decode_roundtrip : Test unit :=
  let key := test_key in
  let$ code := test_code in
  let$ encoded := lift (AuthorizationCode_sign_and_encode code key) in
  let$ decoded := lift (AuthorizationCode_decode_and_verify encoded key (duration_from_secs 60)) in
  let$ decoded := get decoded in
  assert_eq (ac_client_id decoded) "test-client" ;$
  assert_eq (ac_redirect_uri decoded) "https://app.example/cb" ;$
  assert_eq (ac_subject decoded) "test-user".

Definition test_wrong_key_returns_invalid_signature : Test unit :=
  let key := test_key in
  let wrong_key := replicate 32 (u8_of 99) in
  let$ code := test_code in
  let$ encoded := lift (AuthorizationCode_sign_and_encode code key) in
  let$ result := lift (AuthorizationCode_decode_and_verify encoded wrong_key
                         (duration_from_secs 60)) in
  assert (is_InvalidSignature result).

Definition test_tampered_base64_returns_error : Test unit :=
  let key := test_key in
  let$ code := test_code in
  let$ encoded := lift (AuthorizationCode_sign_and_encode code key) in
  let bytes := as_bytes encoded in
  let i := Nat.div2 (length bytes) in
  let$ original := pure (expect "index out of bounds" (bytes !! i)) in
  let bytes := <[i := if bool_decide (original = x41) then x42 else x41]> bytes in
  let$ tampered := pure (expect "called `Result::unwrap()` on an `Err` value" (from_utf8 bytes)) in
  let$ result := lift (AuthorizationCode_decode_and_verify tampered key (duration_from_secs 60)) in
  assert (is_err result).

Definition test_bad_base64_returns_error : Test unit :=
  let key := test_key in
  let$ result := lift (AuthorizationCode_decode_and_verify "not-valid-base64!!!" key
                         (duration_from_secs 60)) in
  assert (is_InvalidBase64Encoding result).

Definition test_expired_code_returns_not_fresh : Test unit :=
  let key := test_key in
  let$ code := test_code in
  let$ encoded := lift (AuthorizationCode_sign_and_encode code key) in
  sleep (millis 10) ;$
  let$ result := lift (AuthorizationCode_decode_and_verify encoded key 0%Z) in
  assert (is_InvalidTimestamp result).

Example signature_tests_pass : forallb passes
  [test_sign_encode_decode_roundtrip; test_wrong_key_returns_invalid_signature;
   test_tampered_base64_returns_error; test_bad_base64_returns_error;
   test_expired_code_returns_not_fresh] = true.
Proof. vm_compute. reflexivity. Qed.
End Signature_tests.

(** ** [oidc/token.rs] *)

Module Token_tests.
Definition TEST_ISSUER : string := "https://test.example.com".

Definition test_issuer : Test JwtIssuer := get (generate tt TEST_ISSUER).

Definition test_issue_and_verify_access_token : Test unit :=
  let$ issuer_ := test_issuer in
  let$ token := lift (issue_access_token issuer_ "alice" "client1" ["users"] ["openid"] "jti-123"
                        (duration_from_secs 3600)) in
  let$ token := get token in
  let$ claims := lift (verify_access_token issuer_ token) in
  let$ claims := get claims in
  assert_eq (at_sub claims) "alice" ;$
  assert_eq (at_client_id claims) "client1" ;$
  assert_eq (at_jti claims) "jti-123" ;$
  assert_eq (at_groups claims) ["users"] ;$
  assert_eq (at_scope claims) ["openid"] ;$
  assert_eq (at_iss claims) TEST_ISSUER ;$
  assert_eq (at_aud claims) TEST_ISSUER.

Definition test_issue_and_verify_id_token : Test unit :=
  let$ issuer_ := test_issuer in
  let$ token := lift (issue_id_token issuer_ "alice" "client1" ["users"] (Some "nonce123")
                        (duration_from_secs 3600)) in
  let$ token := get token in
  let$ claims := lift (verify_id_token issuer_ token "client1") in
  let$ claims := get claims in
  assert_eq (id_sub claims) "alice" ;$
  assert_eq (id_aud claims) "client1" ;$
  assert_eq (id_iss claims) TEST_ISSUER ;$
  assert_eq (id_nonce claims) (Some "nonce123") ;$
  assert_eq (id_groups claims) (Some ["users"]).

Definition test_id_token_without_nonce : Test unit :=
  let$ issuer_ := test_issuer in
  let$ token := lift (issue_id_token issuer_ "bob" "spa" [] None (duration_from_secs 60)) in
  let$ token := get token in
  let$ claims := lift (verify_id_token issuer_ token "spa") in
  let$ claims := get claims in
  assert (is_none (id_nonce claims)).

Definition test_id_token_wrong_audience_rejected : Test unit :=
  let$ issuer_ := test_issuer in
  let$ token := lift (issue_id_token issuer_ "bob" "spa" [] None (duration_from_secs 60)) in
  let$ token := get token in
  let$ result := lift (verify_id_token issuer_ token "other-client") in
  assert (is_err result).

Definition test_jwks_contains_key : Test unit :=
  let$ issuer_ := test_issuer in
  let jwks := get_jwks issuer_ in
  assert_eq (length (keys jwks)) 1 ;$
  let$ key := pure (expect "index out of bounds" (keys jwks !! 0)) in
  assert_eq (kty key) "RSA" ;$
  assert_eq (alg key) "RS256" ;$
  assert_eq (use_ key) "sig" ;$
  assert_eq (jwk_kid key) (kid issuer_).

Definition test_expired_token_fails_verification : Test unit :=
  let$ issuer_ := test_issuer in
  let$ token := lift (issue_access_token issuer_ "alice" "client1" [] [] "jti"
                        (duration_from_secs 1)) in
  let$ token := get token in
  sleep (duration_from_secs 7) ;$
  let$ result := lift (verify_access_token issuer_ token) in
  assert (is_err result).

(** The signature with its last character flipped, as the test does. *)
Definition tamper (sig : string) : outcome string :=
  let bytes := as_bytes sig in
  let! l := expect "called `Option::unwrap()` on a `None` value" (last bytes) in
  Done (of_bytes (take (length bytes - 1) bytes ++
    [if bool_decide (l = x41) then x42 else x41])).

Definition test_tampered_token_fails_verification : Test unit :=
  let$ issuer_ := test_issuer in
  let$ token := lift (issue_access_token issuer_ "alice" "client1" [] [] "jti"
                        (duration_from_secs 3600)) in
  let$ token := get token in
  let$ parts := pure (expect "index out of bounds" (token_parts token)) in
  let$ tampered_sig := pure (tamper parts.2) in
  let tampered := token_of parts.1.1 parts.1.2 tampered_sig in
  let$ result := lift (verify_access_token issuer_ tampered) in
  assert (is_err result).

Definition test_from_pem_round_trip : Test unit :=
  let$ key := get (rsa_new tt 2048) in
  let$ pem := get (to_pkcs8_pem key) in
  let$ original := get (from_pem pem TEST_ISSUER) in
  let$ reloaded := get (from_pem pem TEST_ISSUER) in
  let$ token := lift (issue_access_token original "alice" "client1" [] [] "jti"
                        (duration_from_secs 60)) in
  let$ token := get token in
  let$ result := lift (verify_access_token reloaded token) in
  let$ _ := get result in
  tret tt.

Example token_tests_pass : forallb passes
  [test_issue_and_verify_access_token; test_issue_and_verify_id_token;
   test_id_token_without_nonce; test_id_token_wrong_audience_rejected; test_jwks_contains_key;
   test_expired_token_fails_verification; test_tampered_token_fails_verification;
   test_from_pem_round_trip] = true.
Proof. vm_compute. reflexivity. Qed.
End Token_tests.

(** ** [oidc/protocol.rs] *)

Module Protocol_tests.
Definition ISSUER : string := "https://test.example.com".
Definition CLIENT_ID : string := "client1".
Definition REDIRECT_URI : string := "https://app.example/cb".

Definition test_key : MacKey := replicate 32 (u8_of 42).

Definition test_flow : OIDCAuthCodePKCEFlow := flow_new (duration_from_secs 300) test_key.

Definition s256_challenge (verifier : string) : string :=
  b64_encode URL_SAFE_NO_PAD (sha256_digest (as_bytes verifier)).

Definition test_clients : Test ClientRegistry := get (ClientRegistry_new
  [mkClientConfig CLIENT_ID None [REDIRECT_URI] ["users"];
   mkClientConfig "confidential" (Some "s3cr3t") [REDIRECT_URI] []]).

(** The store of the context is the store of the world. *)
Definition test_ctx (clients : ClientRegistry) (jwt : JwtIssuer) : TokenIssueContext :=
  mkTokenIssueContext clients jwt (duration_from_secs 3600) (duration_from_secs 3600).

Definition issue_code (flow : OIDCAuthCodePKCEFlow) (verifier : string) : Test string :=
  let challenge := s256_challenge verifier in
  let$ r := lift (authorization_request flow (mkAuthorizationRequest CLIENT_ID REDIRECT_URI
    (Some challenge) S256 "alice" (Some "nonce-xyz") ["users"] ["openid"])) in
  let$ issued := get r in
  tret issued.2.

(** A confidential client asking for a code. *)
Definition issue_confidential (flow : OIDCAuthCodePKCEFlow) (verifier : string) : Test string :=
  let challenge := s256_challenge verifier in
  let$ r := lift (authorization_request flow (mkAuthorizationRequest "confidential" REDIRECT_URI
    (Some challenge) S256 "bob" None [] ["openid"])) in
  let$ issued := get r in
  tret issued.2.

Definition token_req (client_id : string) (client_secret : option string) (code : string)
    (code_verifier : option string) : AccessTokenRequest :=
  mkAccessTokenRequest GrantType_AuthorizationCode client_id client_secret code REDIRECT_URI
    code_verifier.

Definition is_InvalidGrant {A} (r : result A OIDCError) : bool :=
  match r with Err (InvalidGrant _) => true | _ => false end.
Definition is_InvalidClient {A} (r : result A OIDCError) : bool :=
  match r with Err (InvalidClient _) => true | _ => false end.

Definition test_authorization_request_fields : Test unit :=
  let flow := test_flow in
  let challenge := s256_challenge "verifier" in
  let$ r := lift (authorization_request flow (mkAuthorizationRequest CLIENT_ID REDIRECT_URI
    (Some challenge) S256 "alice" (Some "nonce-1") ["g1"] ["openid"])) in
  let$ issued := get r in
  let '(code, encoded) := issued in
  assert_eq (ac_client_id code) CLIENT_ID ;$
  assert_eq (ac_redirect_uri code) REDIRECT_URI ;$
  assert_eq (ac_subject code) "alice" ;$
  assert_eq (ac_nonce code) (Some "nonce-1") ;$
  assert_eq (ac_groups code) ["g1"] ;$
  assert (nonempty encoded).

Definition test_access_token_request_succeeds : Test unit :=
  let flow := test_flow in
  let$ jwt := get (generate tt ISSUER) in
  let$ clients := test_clients in
  let ctx := test_ctx clients jwt in
  let verifier := "my-verifier" in
  let$ code := issue_code flow verifier in
  let$ r := lift (access_token_request flow (token_req CLIENT_ID None code (Some verifier)) ctx) in
  let$ response := get r in
  assert_eq (rsp_token_type response) "Bearer" ;$
  assert (nonempty (rsp_access_token response)) ;$
  assert (nonempty (rsp_id_token response)) ;$
  assert_eq (rsp_expires_in response) 3600%Z ;$
  let$ id_claims := lift (verify_id_token jwt (rsp_id_token response) CLIENT_ID) in
  let$ id_claims := get id_claims in
  assert_eq (id_sub id_claims) "alice" ;$
  assert_eq (id_nonce id_claims) (Some "nonce-xyz") ;$
  let$ access_claims := lift (verify_access_token jwt (rsp_access_token response)) in
  let$ access_claims := get access_claims in
  assert_eq (at_sub access_claims) "alice" ;$
  assert_eq (at_client_id access_claims) CLIENT_ID.

Definition test_access_token_request_wrong_verifier : Test unit :=
  let flow := test_flow in
  let$ jwt := get (generate tt ISSUER) in
  let$ clients := test_clients in
  let ctx := test_ctx clients jwt in
  let$ code := issue_code flow "correct-verifier" in
  let$ result := lift (access_token_request flow
    (token_req CLIENT_ID None code (Some "wrong-verifier")) ctx) in
  assert (is_InvalidGrant result).

Definition test_access_token_request_wrong_client : Test unit :=
  let flow := test_flow in
  let$ jwt := get (generate tt ISSUER) in
  let$ clients := test_clients in
  let ctx := test_ctx clients jwt in
  let$ code := issue_code flow "verifier" in
  let$ result := lift (access_token_request flow
    (token_req "other-client" None code (Some "verifier")) ctx) in
  assert (is_InvalidGrant result).

Definition test_access_token_request_expired_code : Test unit :=
  let flow := flow_new 0%Z test_key in
  let$ jwt := get (generate tt ISSUER) in
  let$ clients := test_clients in
  let ctx := test_ctx clients jwt in
  let verifier := "v" in
  let$ code := issue_code flow verifier in
  sleep (millis 10) ;$
  let$ result := lift (access_token_request flow (token_req CLIENT_ID None code (Some verifier))
                         ctx) in
  assert (is_InvalidGrant result).

Definition test_access_token_request_replay_rejected : Test unit :=
  let flow := test_flow in
  let$ jwt := get (generate tt ISSUER) in
  let$ clients := test_clients in
  let ctx := test_ctx clients jwt in
  let verifier := "v" in
  let$ code := issue_code flow verifier in
  let req := token_req CLIENT_ID None code (Some verifier) in
  let$ first := lift (access_token_request flow req ctx) in
  let$ _ := get first in
  let$ result := lift (access_token_request flow req ctx) in
  assert (is_InvalidGrant result).

Definition test_confidential_client_requires_secret : Test unit :=
  let flow := test_flow in
  let$ jwt := get (generate tt ISSUER) in
  let$ clients := test_clients in
  let ctx := test_ctx clients jwt in
  let verifier := "v" in
  let$ code := issue_confidential flow verifier in
  let$ result := lift (access_token_request flow
    (token_req "confidential" None code (Some verifier)) ctx) in
  assert (is_InvalidClient result) ;$
  let$ result := lift (access_token_request flow
    (token_req "confidential" (Some "wrong") code (Some verifier)) ctx) in
  assert (is_InvalidClient result).

Definition test_confidential_client_with_correct_secret_succeeds : Test unit :=
  let flow := test_flow in
  let$ jwt := get (generate tt ISSUER) in
  let$ clients := test_clients in
  let ctx := test_ctx clients jwt in
  let verifier := "v" in
  let$ code := issue_confidential flow verifier in
  let$ r := lift (access_token_request flow
    (token_req "confidential" (Some "s3cr3t") code (Some verifier)) ctx) in
  let$ response := get r in
  assert (nonempty (rsp_access_token response)).

Definition test_response_type_from_str : Test unit :=
  let$ t := get (ResponseType_from_str "code") in
  assert (match t with ResponseType_Code => true end) ;$
  assert (is_err (ResponseType_from_str "token")).

Definition test_grant_type_from_str : Test unit :=
  let$ t := get (GrantType_from_str "authorization_code") in
  assert (match t with GrantType_AuthorizationCode => true end) ;$
  assert (is_err (GrantType_from_str "client_credentials")).

Example protocol_tests_pass : forallb passes
  [test_authorization_request_fields; test_access_token_request_succeeds;
   test_access_token_request_wrong_verifier; test_access_token_request_wrong_client;
   test_access_token_request_expired_code; test_access_token_request_replay_rejected;
   test_confidential_client_requires_secret;
   test_confidential_client_with_correct_secret_succeeds; test_response_type_from_str;
   test_grant_type_from_str] = true.
Proof. vm_compute. reflexivity. Qed.
End Protocol_tests.

(** ** [oidc/endpoints.rs] and [oidc/discovery.rs] *)

Module Discovery_tests.
Definition test_default_paths : Test unit :=
  let paths := default_paths in
  assert_eq (path_authorization_endpoint paths) "/authorize" ;$
  assert_eq (path_token_endpoint paths) "/token" ;$
  assert_eq (path_userinfo_endpoint paths) "/userinfo" ;$
  assert_eq (path_jwks_uri paths) "/jwks".

Definition test_serde_round_trip : Test unit :=
  let paths := default_paths in
  let json := to_json paths in
  let$ back := pure (expect "called `Result::unwrap()` on an `Err` value"
                       (from_json json : option OIDCEndpointPaths)) in
  assert_eq (path_authorization_endpoint back) (path_authorization_endpoint paths) ;$
  assert_eq (path_jwks_uri back) (path_jwks_uri paths).

Definition test_paths : OIDCEndpointPaths := default_paths.

Definition test_discovery_info_urls_no_trailing_slash : Test unit :=
  let$ issuer := get (url_parse "https://auth.example.com") in
  let$ info := pure (discovery_info issuer test_paths) in
  assert_eq (disc_issuer info) "https://auth.example.com" ;$
  assert_eq (authorization_endpoint info) "https://auth.example.com/authorize" ;$
  assert_eq (token_endpoint info) "https://auth.example.com/token" ;$
  assert_eq (userinfo_endpoint info) "https://auth.example.com/userinfo" ;$
  assert_eq (jwks_uri info) "https://auth.example.com/jwks".

Definition test_discovery_info_urls_with_trailing_slash : Test unit :=
  let$ issuer := get (url_parse "https://auth.example.com/") in
  let$ info := pure (discovery_info issuer test_paths) in
  assert_eq (disc_issuer info) "https://auth.example.com" ;$
  assert_eq (authorization_endpoint info) "https://auth.example.com/authorize".

Definition test_discovery_info_issuer_with_path : Test unit :=
  let$ issuer := get (url_parse "https://auth.example.com/oidc") in
  let$ info := pure (discovery_info issuer test_paths) in
  assert_eq (disc_issuer info) "https://auth.example.com/oidc" ;$
  assert_eq (authorization_endpoint info) "https://auth.example.com/authorize".

Definition contains (l : list string) (s : string) : Test unit := assert (bool_decide (s ∈ l)).

Definition test_discovery_info_supported_values : Test unit :=
  let$ issuer := get (url_parse "https://auth.example.com") in
  let$ info := pure (discovery_info issuer test_paths) in
  contains (scopes_supported info) "openid" ;$
  contains (response_types_supported info) "code" ;$
  contains (grant_types_supported info) "authorization_code" ;$
  contains (id_token_signing_alg_values_supported info) "RS256" ;$
  contains (code_challenge_methods_supported info) "S256".

Definition test_discovery_manager : Test unit :=
  let$ issuer := get (url_parse "https://auth.example.com") in
  let$ manager := pure (DiscoveryManager_new issuer test_paths) in
  let info := get_discovery_info manager in
  assert_eq (disc_issuer info) "https://auth.example.com".

Definition test_discovery_json_serializes : Test unit :=
  let$ issuer := get (url_parse "https://auth.example.com") in
  let$ info := pure (discovery_info issuer test_paths) in
  let json := to_json info in
  assert_eq (json_field "issuer" json) (Some (JStr "https://auth.example.com")) ;$
  assert_eq (json_field "authorization_endpoint" json)
    (Some (JStr "https://auth.example.com/authorize")).

Example discovery_tests_pass : forallb passes
  [test_default_paths; test_serde_round_trip; test_discovery_info_urls_no_trailing_slash;
   test_discovery_info_urls_with_trailing_slash; test_discovery_info_issuer_with_path;
   test_discovery_info_supported_values; test_discovery_manager;
   test_discovery_json_serializes] = true.
Proof. vm_compute. reflexivity. Qed.
End Discovery_tests.
