(* ===== verification/EndToEnd.v ===== *)
(** * The end-to-end tests of the repository, run on the model

    The tests of [src/tests/e2e.rs] over the state of [src/tests/common/mod.rs],
    as definitions of the same names in the monad of [TestMonad.v], each then
    evaluated.  Requests are given by method, URI, headers and body, and go through
    the routes and extractors; a response body is its JSON value. *)
From stdpp Require Import countable.
From S2P Require Import Prelude RustStd Storage Effects Externs Users Client Pkce Timestamp.
From S2P Require Import AuthorizationCode Signature Token Protocol Discovery Router Server.
From S2P Require Import Extractors ConcreteHttp Concrete TestMonad.

(** ** The fixtures of [common/mod.rs] *)

Module E2e.
Definition TEST_MAC_KEY : MacKey := replicate 32 (u8_of 42).
Definition TEST_ISSUER : string := "https://auth.example.com".
Definition TEST_CLIENT_ID : string := "spa".
Definition TEST_REDIRECT_URI : string := "https://app.example/cb".
Definition TEST_DN_HEADER : string := "X-Client-Cert-Subject".
Definition TEST_USER_DN : string := "CN=test-user,OU=eng,O=acme".
Definition TEST_CODE_MAX_AGE_SECS : Z := 300.

(** The challenge and the verifier. *)
Definition test_pkce_pair : string * string :=
  let verifier := "dBjftJeZ4CVP-mB92K27uhbUJU1p1r_wW1gFWFOEjXk" in
  let challenge := b64_encode URL_SAFE_NO_PAD (sha256_digest (as_bytes verifier)) in
  (challenge, verifier).

Definition test_clients : list ClientConfig :=
  [mkClientConfig TEST_CLIENT_ID None [TEST_REDIRECT_URI] ["spa-users"];
   mkClientConfig "confidential" (Some "s3cr3t") [TEST_REDIRECT_URI] ["api-callers"]].

Definition build_test_state : Test AppState :=
  let$ jwt_issuer := get (generate tt TEST_ISSUER) in
  let endpoints := default_paths in
  let$ issuer_url := get (url_parse TEST_ISSUER) in
  let$ discovery_manager := pure (DiscoveryManager_new issuer_url endpoints) in
  let$ clients := get (ClientRegistry_new test_clients) in
  tret (mkAppState (flow_new (duration_from_secs TEST_CODE_MAX_AGE_SECS) TEST_MAC_KEY)
    jwt_issuer clients (UserManager_new "CN") discovery_manager TEST_DN_HEADER
    (duration_from_secs 3600) (duration_from_secs 3600) ["everyone"; "authenticated"]).

Abbreviation Router := (HttpRequest → prog HttpResponse) (only parsing).

Definition build_test_router : Test Router :=
  let$ state := build_test_state in tret (http_router state).

(** The payload of a token, unverified. *)
Definition decode_jwt_payload (token : string) : Test json :=
  let$ parts := pure (expect "JWT should have 3 parts" (token_parts token)) in
  pure (expect "payload" (read_part parts.1.2)).

(** Crate [urlencoding]. *)
Definition urlencoding_encode (s : string) : string :=
  of_bytes (as_bytes s ≫= λ b,
    if (unreserved b && negb (bool_decide (b = x2a))) || bool_decide (b = x7e) then [b]
    else [x25; hex_byte (u8_val b / 16); hex_byte (u8_val b mod 16)]).

Definition urlencoding_decode (s : string) : option string := from_utf8 (pct_decode (as_bytes s)).

(** [str::split] at a character. *)
Fixpoint split_at (d : ascii) (s : string) : list string :=
  match s with
  | "" => [""]
  | String c s =>
      if Ascii.eqb c d then "" :: split_at d s
      else match split_at d s with
           | [] => [String c ""]
           | w :: ws => String c w :: ws
           end
  end.

(** The loop of [extract_param]. *)
Fixpoint find_param (pairs : list string) (param : string) : option string :=
  match pairs with
  | [] => None
  | p :: pairs =>
      let '(k, v) := default (p, "") (split_once "="%char p) in
      if bool_decide (k = param) then Some v else find_param pairs param
  end.

Definition extract_param (url param : string) : Test string :=
  let query := default "" (split_at "?"%char url !! 1) in
  let$ v := pure (expect "Parameter not found" (find_param (split_at "&"%char query) param)) in
  pure (expect "urlencoding" (urlencoding_decode v)).

(** ** Requests and responses *)

(** [Request::builder()] with a method, a URI, headers and a body. *)
Definition request (method uri : string) (headers : list (string * string)) (body : string) :
    HttpRequest :=
  let '(path, query) := match split_once "?"%char uri with
                        | Some (path, query) => (path, Some query)
                        | None => (uri, None)
                        end in
  mkHttpRequest (method : HttpMethod) path query (headers_of headers) (as_bytes body).

Definition get_request (uri : string) (headers : list (string * string)) : HttpRequest :=
  request "GET" uri headers "".

Definition post_form (headers : list (string * string)) (body : string) : HttpRequest :=
  request "POST" "/token" (("content-type", "application/x-www-form-urlencoded") :: headers) body.

Definition user_headers : list (string * string) := [(TEST_DN_HEADER, TEST_USER_DN)].

Definition opt_param (k : string) (o : option string) : string :=
  match o with Some v => "&" +:+ k +:+ "=" +:+ v | None => "" end.

(** The [format!] of the tests' authorization requests. *)
Definition authorize_uri (response_type client_id redirect_uri : string)
    (state : option string) (challenge method : string) (nonce : option string) : string :=
  "/authorize?response_type=" +:+ response_type +:+ "&client_id=" +:+ client_id +:+
  "&redirect_uri=" +:+ urlencoding_encode redirect_uri +:+ "&scope=openid" +:+
  opt_param "state" state +:+ "&code_challenge=" +:+ urlencoding_encode challenge +:+
  "&code_challenge_method=" +:+ method +:+ opt_param "nonce" nonce.

(** And of their token requests. *)
Definition token_form (code verifier : string) (client_id client_secret : option string) :
    string :=
  "grant_type=authorization_code&code=" +:+ urlencoding_encode code +:+
  "&redirect_uri=" +:+ urlencoding_encode TEST_REDIRECT_URI +:+
  "&code_verifier=" +:+ urlencoding_encode verifier +:+
  opt_param "client_id" client_id +:+ opt_param "client_secret" client_secret.

Definition oneshot (router : Router) (r : HttpRequest) : Test HttpResponse := lift (router r).

Definition status (r : HttpResponse) : Z :=
  match r with
  | Handled (JsonResponse s _) | Handled (RedirectResponse s _) => s
  | Rejected e => rejection_status e
  end.
Definition body (r : HttpResponse) : json :=
  match r with Handled (JsonResponse _ j) => j | _ => JNull end.
Definition location (r : HttpResponse) : Test string :=
  pure (match r with
        | Handled (RedirectResponse _ l) => Done l
        | _ => Panicked "called `Option::unwrap()` on a `None` value"
        end).

(** [json[k]] and its readings. *)
Definition at_key (j : json) (k : string) : json := default JNull (json_field k j).
Definition as_str (j : json) : Test string := pure (expect "as_str" (json_str j)).
Definition as_strs (j : json) : Test (list string) := pure (expect "as_array" (json_strs j)).
Definition as_u64 (j : json) : Test Z := pure (expect "as_u64" (json_u64 j)).

(** [str::contains]. *)
Fixpoint contains (p s : string) : bool :=
  is_some (strip_prefix p s) || match s with "" => false | String _ s => contains p s end.

Definition elem (x : string) (l : list string) : Test unit := assert (bool_decide (x ∈ l)).

(** The first step of the longer tests: a code for the client. *)
Definition authorize_code (router : Router) (client_id challenge : string) : Test string :=
  let$ response := oneshot router (get_request
    (authorize_uri "code" client_id TEST_REDIRECT_URI (Some "st")
       challenge "S256" None) user_headers) in
  let$ location := location response in
  extract_param location "code".

(** ** Metadata and keys *)

Definition test_discovery_endpoint : Test unit :=
  let$ router := build_test_router in
  let$ response := oneshot router
    (get_request "/.well-known/openid-configuration" []) in
  assert_eq (status response) 200%Z ;$
  let json := body response in
  assert_eq (at_key json "issuer") (JStr TEST_ISSUER) ;$
  let$ authorization := as_str (at_key json "authorization_endpoint") in
  assert (contains "/authorize" authorization) ;$
  let$ token := as_str (at_key json "token_endpoint") in
  assert (contains "/token" token) ;$
  let$ userinfo := as_str (at_key json "userinfo_endpoint") in
  assert (contains "/userinfo" userinfo) ;$
  let$ jwks := as_str (at_key json "jwks_uri") in
  assert (contains "/jwks" jwks) ;$
  let$ methods := as_strs (at_key json "code_challenge_methods_supported") in
  elem "S256" methods.

Definition test_jwks_endpoint : Test unit :=
  let$ router := build_test_router in
  let$ response := oneshot router (get_request "/jwks" []) in
  assert_eq (status response) 200%Z ;$
  let$ key := pure (match at_key (body response) "keys" with
                    | JArr [key] => Done key
                    | _ => Panicked "assertion failed"
                    end) in
  assert_eq (at_key key "kty") (JStr "RSA") ;$
  assert_eq (at_key key "alg") (JStr "RS256") ;$
  let$ kid := as_str (at_key key "kid") in
  assert (nonempty kid).

(** ** [/authorize] *)

Definition test_authorize_missing_params : Test unit :=
  let$ router := build_test_router in
  let$ response := oneshot router (get_request "/authorize" []) in
  assert_eq (status response) 400%Z.

Definition test_authorize_missing_header : Test unit :=
  let '(challenge, _) := test_pkce_pair in
  let$ router := build_test_router in
  let$ response := oneshot router (get_request
    (authorize_uri "code" TEST_CLIENT_ID TEST_REDIRECT_URI (Some "xyz")
       challenge "S256" None) []) in
  assert_eq (status response) 403%Z.

Definition test_authorize_success_with_pkce_s256 : Test unit :=
  let '(challenge, _) := test_pkce_pair in
  let$ router := build_test_router in
  let$ response := oneshot router (get_request
    (authorize_uri "code" TEST_CLIENT_ID TEST_REDIRECT_URI (Some "xyz")
       challenge "S256" None) user_headers) in
  assert_eq (status response) 307%Z ;$
  let$ location := location response in
  assert (is_some (strip_prefix TEST_REDIRECT_URI location)) ;$
  assert (contains "code=" location) ;$
  assert (contains "state=xyz" location).

Definition test_authorize_success_with_plain_pkce : Test unit :=
  let verifier := "plain-verifier-value" in
  let$ router := build_test_router in
  let$ response := oneshot router (get_request
    (authorize_uri "code" TEST_CLIENT_ID TEST_REDIRECT_URI (Some "abc") verifier "plain" None) user_headers) in
  assert_eq (status response) 307%Z ;$
  let$ location := location response in
  assert (contains "code=" location) ;$
  assert (contains "state=abc" location).

Definition test_authorize_unknown_client : Test unit :=
  let '(challenge, _) := test_pkce_pair in
  let$ router := build_test_router in
  let$ response := oneshot router (get_request
    (authorize_uri "code" "unknown" TEST_REDIRECT_URI None challenge "S256" None) user_headers) in
  assert_eq (status response) 400%Z.

Definition test_authorize_invalid_redirect_uri : Test unit :=
  let '(challenge, _) := test_pkce_pair in
  let$ router := build_test_router in
  let$ response := oneshot router (get_request
    (authorize_uri "code" TEST_CLIENT_ID "https://evil.example/cb" None
       challenge "S256" None) user_headers) in
  assert_eq (status response) 400%Z.

Definition test_authorize_unsupported_response_type : Test unit :=
  let '(challenge, _) := test_pkce_pair in
  let$ router := build_test_router in
  let$ response := oneshot router (get_request
    (authorize_uri "token" TEST_CLIENT_ID TEST_REDIRECT_URI None
       challenge "S256" None) user_headers) in
  assert_eq (status response) 400%Z ;$
  assert_eq (at_key (body response) "error") (JStr "unsupported_response_type").

Definition test_authorize_echoes_state : Test unit :=
  let '(challenge, _) := test_pkce_pair in
  let$ router := build_test_router in
  let state_val := "random-state-12345" in
  let$ response := oneshot router (get_request
    (authorize_uri "code" TEST_CLIENT_ID TEST_REDIRECT_URI (Some state_val)
       challenge "S256" None) user_headers) in
  assert_eq (status response) 307%Z ;$
  let$ location := location response in
  let$ extracted := extract_param location "state" in
  assert_eq extracted state_val.

Example authorize_endpoint_tests_pass : forallb passes
  [test_discovery_endpoint; test_jwks_endpoint; test_authorize_missing_params;
   test_authorize_missing_header;
   test_authorize_success_with_pkce_s256; test_authorize_success_with_plain_pkce;
   test_authorize_unknown_client; test_authorize_invalid_redirect_uri;
   test_authorize_unsupported_response_type; test_authorize_echoes_state] = true.
Proof. vm_compute. reflexivity. Qed.

(** ** [/token] *)

Definition test_token_invalid_grant_type : Test unit :=
  let$ router := build_test_router in
  let$ response := oneshot router (post_form []
    "grant_type=client_credentials&code=x&redirect_uri=x&code_verifier=x&client_id=x") in
  assert_eq (status response) 400%Z.

Definition test_token_missing_client_id : Test unit :=
  let$ router := build_test_router in
  let$ response := oneshot router (post_form []
    "grant_type=authorization_code&code=x&redirect_uri=x&code_verifier=x") in
  assert_eq (status response) 400%Z.

Definition test_token_wrong_verifier_returns_invalid_grant : Test unit :=
  let '(challenge, _) := test_pkce_pair in
  let$ router := build_test_router in
  let$ code := authorize_code router TEST_CLIENT_ID challenge in
  let$ response := oneshot router (post_form []
    (token_form code "wrong" (Some TEST_CLIENT_ID) None)) in
  assert_eq (status response) 400%Z ;$
  assert_eq (at_key (body response) "error") (JStr "invalid_grant").

Definition test_token_replayed_code_returns_invalid_grant : Test unit :=
  let '(challenge, verifier) := test_pkce_pair in
  let$ router := build_test_router in
  let$ code := authorize_code router TEST_CLIENT_ID challenge in
  let form_body := token_form code verifier (Some TEST_CLIENT_ID) None in
  let$ response := oneshot router (post_form [] form_body) in
  assert_eq (status response) 200%Z ;$
  let$ response := oneshot router (post_form [] form_body) in
  assert_eq (status response) 400%Z ;$
  assert_eq (at_key (body response) "error") (JStr "invalid_grant").

Definition test_token_confidential_client_without_secret_rejected : Test unit :=
  let '(challenge, verifier) := test_pkce_pair in
  let$ router := build_test_router in
  let$ code := authorize_code router "confidential" challenge in
  let$ response := oneshot router (post_form []
    (token_form code verifier (Some "confidential") None)) in
  assert_eq (status response) 401%Z ;$
  assert_eq (at_key (body response) "error") (JStr "invalid_client").

Definition test_token_confidential_client_with_secret_succeeds : Test unit :=
  let '(challenge, verifier) := test_pkce_pair in
  let$ router := build_test_router in
  let$ code := authorize_code router "confidential" challenge in
  let$ response := oneshot router (post_form []
    (token_form code verifier (Some "confidential") (Some "s3cr3t"))) in
  assert_eq (status response) 200%Z ;$
  let$ access_token := as_str (at_key (body response) "access_token") in
  assert (nonempty access_token) ;$
  let$ id_token := as_str (at_key (body response) "id_token") in
  assert (nonempty id_token).

(** The [Authorization] header of [client_secret_basic]. *)
Definition basic_headers (credentials : string) : list (string * string) :=
  let basic := b64_encode STANDARD (as_bytes credentials) in
  [("authorization", "Basic " +:+ basic)].

Definition test_token_confidential_client_with_basic_auth_succeeds : Test unit :=
  let '(challenge, verifier) := test_pkce_pair in
  let$ router := build_test_router in
  let$ code := authorize_code router "confidential" challenge in
  let$ response := oneshot router (post_form (basic_headers "confidential:s3cr3t")
    (token_form code verifier None None)) in
  assert_eq (status response) 200%Z ;$
  let$ access_token := as_str (at_key (body response) "access_token") in
  assert (nonempty access_token).

Definition test_token_confidential_client_basic_auth_wrong_secret_rejected : Test unit :=
  let '(challenge, verifier) := test_pkce_pair in
  let$ router := build_test_router in
  let$ code := authorize_code router "confidential" challenge in
  let$ response := oneshot router (post_form (basic_headers "confidential:wrong-secret")
    (token_form code verifier None None)) in
  assert_eq (status response) 401%Z ;$
  assert_eq (at_key (body response) "error") (JStr "invalid_client").

Example token_endpoint_tests_pass : forallb passes
  [test_token_invalid_grant_type; test_token_missing_client_id;
   test_token_wrong_verifier_returns_invalid_grant;
   test_token_replayed_code_returns_invalid_grant;
   test_token_confidential_client_without_secret_rejected;
   test_token_confidential_client_with_secret_succeeds;
   test_token_confidential_client_with_basic_auth_succeeds;
   test_token_confidential_client_basic_auth_wrong_secret_rejected] = true.
Proof. vm_compute. reflexivity. Qed.

(** ** [/userinfo] *)

Definition userinfo_status (headers : list (string * string)) : Test Z :=
  let$ router := build_test_router in
  let$ response := oneshot router (get_request "/userinfo" headers) in
  tret (status response).

Definition test_userinfo_missing_bearer : Test unit :=
  let$ s := userinfo_status [] in assert_eq s 401%Z.

Definition test_userinfo_invalid_bearer : Test unit :=
  let$ s := userinfo_status [("Authorization", "Bearer invalid-token")] in
  assert_eq s 401%Z.

Definition test_userinfo_wrong_scheme : Test unit :=
  let$ s := userinfo_status [("Authorization", "Basic abc123")] in
  assert_eq s 401%Z.

(** ** The flow without HTTP *)

Definition test_protocol_full_flow_s256 : Test unit :=
  let '(challenge, verifier) := test_pkce_pair in
  let$ state := build_test_state in
  let ctx := token_context state in
  let$ r := lift (authorization_request (flow state) (mkAuthorizationRequest TEST_CLIENT_ID
    TEST_REDIRECT_URI (Some challenge) S256 "test-user" (Some "my-nonce")
    ["everyone"; "authenticated"; "spa-users"] ["openid"])) in
  let$ issued := get r in
  let$ r := lift (access_token_request (flow state) (mkAccessTokenRequest
    GrantType_AuthorizationCode TEST_CLIENT_ID None issued.2 TEST_REDIRECT_URI
    (Some verifier)) ctx) in
  let$ token_response := get r in
  assert_eq (rsp_token_type token_response) "Bearer" ;$
  assert (nonempty (rsp_access_token token_response)) ;$
  assert (nonempty (rsp_id_token token_response)) ;$
  let$ r := lift (verify_id_token (jwt_issuer state) (rsp_id_token token_response)
                    TEST_CLIENT_ID) in
  let$ id_claims := get r in
  assert_eq (id_sub id_claims) "test-user" ;$
  assert_eq (id_aud id_claims) TEST_CLIENT_ID ;$
  assert_eq (id_iss id_claims) TEST_ISSUER ;$
  assert_eq (id_nonce id_claims) (Some "my-nonce") ;$
  let$ groups := pure (expect "groups" (id_groups id_claims)) in
  elem "everyone" groups ;$ elem "authenticated" groups ;$ elem "spa-users" groups ;$
  let$ r := lift (verify_access_token (jwt_issuer state) (rsp_access_token token_response)) in
  let$ access_claims := get r in
  assert_eq (at_sub access_claims) "test-user" ;$
  assert_eq (at_client_id access_claims) TEST_CLIENT_ID ;$
  assert_eq (at_iss access_claims) TEST_ISSUER ;$
  assert_eq (at_aud access_claims) TEST_ISSUER ;$
  let$ r := lift (ts_lookup (at_jti access_claims)) in
  let$ record := pure (expect "record" r) in
  assert_eq (tr_subject record) "test-user" ;$
  elem "spa-users" (tr_groups record).

Definition test_protocol_full_flow_plain_pkce : Test unit :=
  let verifier := "plain-test-verifier" in
  let$ state := build_test_state in
  let ctx := token_context state in
  let$ r := lift (authorization_request (flow state) (mkAuthorizationRequest TEST_CLIENT_ID
    TEST_REDIRECT_URI (Some verifier) Plain "test-user" None
    ["everyone"; "authenticated"; "spa-users"] ["openid"])) in
  let$ issued := get r in
  let$ r := lift (access_token_request (flow state) (mkAccessTokenRequest
    GrantType_AuthorizationCode TEST_CLIENT_ID None issued.2 TEST_REDIRECT_URI
    (Some verifier)) ctx) in
  let$ token_response := get r in
  let$ r := lift (verify_id_token (jwt_issuer state) (rsp_id_token token_response)
                    TEST_CLIENT_ID) in
  let$ id_claims := get r in
  assert_eq (id_sub id_claims) "test-user" ;$
  assert (is_none (id_nonce id_claims)).

Definition test_protocol_wrong_verifier_fails : Test unit :=
  let '(challenge, _) := test_pkce_pair in
  let$ state := build_test_state in
  let ctx := token_context state in
  let$ r := lift (authorization_request (flow state) (mkAuthorizationRequest TEST_CLIENT_ID
    TEST_REDIRECT_URI (Some challenge) S256 "test-user" None [] ["openid"])) in
  let$ issued := get r in
  let$ result := lift (access_token_request (flow state) (mkAccessTokenRequest
    GrantType_AuthorizationCode TEST_CLIENT_ID None issued.2 TEST_REDIRECT_URI
    (Some "wrong-verifier")) ctx) in
  assert (match result with Err (InvalidGrant _) => true | _ => false end).

(** ** The flow over HTTP *)

Definition test_full_http_flow_s256 : Test unit :=
  let '(challenge, verifier) := test_pkce_pair in
  let$ router := build_test_router in
  (* Step 1: authorize. *)
  let$ response := oneshot router (get_request
    (authorize_uri "code" TEST_CLIENT_ID TEST_REDIRECT_URI (Some "mystate") challenge "S256"
       (Some "test-nonce")) user_headers) in
  assert_eq (status response) 307%Z ;$
  let$ location := location response in
  let$ code := extract_param location "code" in
  let$ echoed := extract_param location "state" in
  assert_eq echoed "mystate" ;$
  (* Step 2: token exchange. *)
  let$ response := oneshot router (post_form []
    (token_form code verifier (Some TEST_CLIENT_ID) None)) in
  assert_eq (status response) 200%Z ;$
  let token_response := body response in
  let$ access_token := as_str (at_key token_response "access_token") in
  let$ id_token := as_str (at_key token_response "id_token") in
  let$ expires_in := as_u64 (at_key token_response "expires_in") in
  assert (nonempty access_token) ;$
  assert (nonempty id_token) ;$
  assert_eq (at_key token_response "token_type") (JStr "Bearer") ;$
  assert (0 <? expires_in)%Z ;$
  let$ id_claims := decode_jwt_payload id_token in
  assert_eq (at_key id_claims "sub") (JStr "test-user") ;$
  assert_eq (at_key id_claims "aud") (JStr TEST_CLIENT_ID) ;$
  assert_eq (at_key id_claims "iss") (JStr TEST_ISSUER) ;$
  assert_eq (at_key id_claims "nonce") (JStr "test-nonce") ;$
  let$ groups := as_strs (at_key id_claims "groups") in
  elem "spa-users" groups ;$ elem "everyone" groups ;$ elem "authenticated" groups ;$
  (* Step 3: user info. *)
  let$ response := oneshot router (get_request "/userinfo"
    [("Authorization", "Bearer " +:+ access_token)]) in
  assert_eq (status response) 200%Z ;$
  let userinfo := body response in
  assert_eq (at_key userinfo "sub") (JStr "test-user") ;$
  let$ groups := as_strs (at_key userinfo "groups") in
  elem "spa-users" groups ;$
  assert_eq (at_key userinfo "client_id") (JStr TEST_CLIENT_ID).

Definition test_full_http_flow_plain_pkce : Test unit :=
  let verifier := "plain-http-verifier" in
  let$ router := build_test_router in
  let$ response := oneshot router (get_request
    (authorize_uri "code" TEST_CLIENT_ID TEST_REDIRECT_URI (Some "ps") verifier "plain" None) user_headers) in
  assert_eq (status response) 307%Z ;$
  let$ location := location response in
  let$ code := extract_param location "code" in
  let$ response := oneshot router (post_form []
    (token_form code verifier (Some TEST_CLIENT_ID) None)) in
  assert_eq (status response) 200%Z.

Definition test_full_http_missing_header_403 : Test unit :=
  let '(challenge, _) := test_pkce_pair in
  let$ router := build_test_router in
  let$ response := oneshot router (get_request
    (authorize_uri "code" TEST_CLIENT_ID TEST_REDIRECT_URI None challenge "S256" None) []) in
  assert_eq (status response) 403%Z.

Example flow_tests_pass : forallb passes
  [test_userinfo_missing_bearer; test_userinfo_invalid_bearer; test_userinfo_wrong_scheme;
   test_protocol_full_flow_s256; test_protocol_full_flow_plain_pkce;
   test_protocol_wrong_verifier_fails; test_full_http_flow_s256;
   test_full_http_flow_plain_pkce; test_full_http_missing_header_403] = true.
Proof. vm_compute. reflexivity. Qed.
End E2e.
