(* ===== verification/Witnesses.v ===== *)
(** * The theorems at work

    Each theorem with hypotheses applied to the small deployment of [Concrete.v],
    where they hold. *)
From S2P Require Import Prelude RustStd Storage Effects Externs Users Client Pkce Timestamp.
From S2P Require Import AuthorizationCode Signature Token Protocol Discovery Router Server.
From S2P Require Import Wp HandlerPaths Interleaving Provider Liveness Schema Replay Extractors.
From S2P Require Import HttpFlow ConcreteHttp Concrete.

Abbreviation demo_ctx := (token_context demo_state) (only parsing).
Abbreviation Mem := InMemory.InMemoryTokenStore (only parsing).

(** Ten seconds after the authorization, with a fresh store. *)
Definition demo_later : World Mem := demo_world (demo_t + 10) InMemory.new.

(** ** Facts about the deployment *)

Lemma demo_later_ok : store_ok (w_store demo_later).
Proof. done. Qed.

Lemma demo_signs : signs (jwt_issuer demo_state).
Proof. intros claims. by eexists. Qed.

Lemma demo_keys : issuer_keys_match (jwt_issuer demo_state).
Proof. reflexivity. Qed.

(** A decidable form of [r = Ok a]. *)
Definition yields {A E} `{EqDecision A} (r : result A E) (a : A) : bool :=
  match r with Ok x => bool_decide (x = a) | Err _ => false end.

Lemma yields_Ok {A E} `{EqDecision A} (r : result A E) (a : A) : yields r a = true → r = Ok a.
Proof. destruct r; [|done]. simpl. intros ->%bool_decide_eq_true. done. Qed.

(** What the code of the deployment opens to. *)
Definition demo_auth_code : AuthorizationCode :=
  mkAuthorizationCode "public-client" "https://app.example/cb" (Some "verifier") Plain
    (duration_from_secs demo_t) "alice" (Some "n-0S6_WzA2Mj") ["users"; "staff"]
    ["openid"; "profile"].

(** The minute from the first second after the authorization. *)
Definition demo_window (t : SystemTime) : Prop :=
  (duration_from_secs (demo_t + 1) ≤ t < duration_from_secs (demo_t + 61))%Z.

Lemma demo_redeemable_at t :
  demo_window t →
  redeemable (flow demo_state) (st_clients demo_state) demo_request t demo_auth_code.
Proof.
  intros Ht. assert (Hopen : open_code (hmac_key (flow demo_state)) (tr_code demo_request) =
    Ok (mkTimestamped demo_auth_code (duration_from_secs (demo_t + 1))))
    by (apply yields_Ok; vm_compute; reflexivity).
  split; [exists (duration_from_secs (demo_t + 1)); split; [exact Hopen|]|].
  { change (code_max_age (flow demo_state)) with (duration_from_secs 60).
    unfold demo_window, duration_from_secs, nanos_per_sec in *. lia. }
  split; [reflexivity|]. split; [reflexivity|]. split; [exists "verifier"; split; reflexivity|].
  exists (mkClientConfig "public-client" None ["https://app.example/cb"] ["staff"]).
  split; [reflexivity|]. split; [|exact I]. apply list_elem_of_singleton. reflexivity.
Qed.

Lemma demo_redeemable t :
  (demo_t + 1 ≤ t < demo_t + 61)%Z →
  redeemable (flow demo_state) (st_clients demo_state) demo_request (duration_from_secs t)
    demo_auth_code.
Proof.
  intros Ht. apply demo_redeemable_at. unfold demo_window, duration_from_secs, nanos_per_sec. lia.
Qed.

Lemma demo_window_start : demo_window (duration_from_secs (demo_t + 1)).
Proof. by split; vm_compute. Qed.

(** At every instant of the minute tokens can be issued. *)
Lemma demo_in_range t : demo_window t → in_range demo_state t.
Proof.
  intros [H1 H2]. assert (0 ≤ t < 1800000000 * nanos_per_sec)%Z as Ht.
  { revert H1 H2. unfold demo_t, duration_from_secs, nanos_per_sec. lia. }
  clear H1 H2. unfold in_range, issuable, exp_fits. cbn [token_context tic_id_token_ttl
    tic_access_token_ttl id_token_ttl access_token_ttl demo_state].
  assert (unix_secs t ≤ 1800000000)%Z as Hs.
  { rewrite unix_secs_pos by lia. unfold duration_as_secs.
    apply Z.div_le_upper_bound; [done|]. unfold nanos_per_sec in *. lia. }
  rewrite !duration_as_from_secs. unfold system_time_max, duration_from_secs, nanos_per_sec in *.
  lia.
Qed.

Lemma demo_fits : expiries_fit demo_state demo_later.
Proof. by repeat split; vm_compute. Qed.

Lemma demo_not_consumed key : key ∉ store_consumed (w_store demo_later).
Proof. simpl. rewrite dom_empty_L. set_solver. Qed.

(** ** Redeeming codes *)

Lemma access_token_request_sound_witness :
  ∃ rsp w' code,
    run (access_token_request (flow demo_state) demo_request demo_ctx) demo_later =
      (Done (Ok rsp), w') ∧
    redeemable (flow demo_state) (st_clients demo_state) demo_request (w_clock demo_later 0) code ∧
    rsp_scope rsp = Some (str_join " " (ac_scope code)).
Proof.
  destruct (ended_ok_true _ demo_served) as (rsp & w' & E).
  destruct (access_token_request_sound _ _ _ _ _ _ demo_later_ok E)
    as (code & Hc & _ & _ & (_ & _ & _ & _ & Hs) & _).
  exists rsp, w', code. split; [exact E|]. split; [exact Hc|exact Hs].
Defined.

(** The code presented for another client. *)
Definition demo_stolen : AccessTokenRequest :=
  mkAccessTokenRequest GrantType_AuthorizationCode "confidential" (Some "secret123") demo_code
    "https://app.example/cb" (Some "verifier").

Lemma demo_stolen_refused :
  ended_err (run (access_token_request (flow demo_state) demo_stolen demo_ctx) demo_later) = true.
Proof. vm_compute. reflexivity. Qed.

Lemma access_token_request_failure_witness :
  ∃ e w',
    run (access_token_request (flow demo_state) demo_stolen demo_ctx) demo_later =
      (Done (Err e), w') ∧
    store_records (w_store w') = store_records (w_store demo_later).
Proof.
  destruct (ended_err_true _ demo_stolen_refused) as (e & w' & E). exists e, w'.
  split; [exact E|].
  by destruct (access_token_request_failure _ _ _ _ _ _ demo_later_ok E ltac:(done)) as [Hr _].
Defined.

Lemma access_token_request_complete_witness :
  ∃ rsp w',
    run (access_token_request (flow demo_state) demo_request demo_ctx) demo_later =
      (Done (Ok rsp), w') ∧ rsp_expires_in rsp = 3600%Z ∧ rsp_scope rsp = Some "openid profile".
Proof.
  destruct demo_fits as (_ & _ & Hid & Hat & Hexp).
  edestruct (access_token_request_complete (flow demo_state) demo_request demo_ctx
    demo_auth_code demo_later) as (w' & Hrun & _);
    [exact demo_later_ok|by apply demo_redeemable|apply demo_not_consumed|exact Hid|exact Hat
    |exact Hexp|reflexivity|reflexivity|].
  eexists _, w'. split; [exact Hrun|]. by split.
Defined.

Lemma code_single_use_witness :
  ∃ rsp w1 e w3,
    run (access_token_request (flow demo_state) demo_request demo_ctx) demo_later =
      (Done (Ok rsp), w1) ∧
    run (access_token_request (flow demo_state) demo_request demo_ctx)
      (demo_world (demo_t + 20) (w_store w1)) = (Done (Err e), w3).
Proof.
  destruct (ended_ok_true _ demo_served) as (rsp & w1 & E).
  destruct (code_single_use (flow demo_state) (flow demo_state) demo_request demo_request
    demo_ctx demo_ctx (Ret tt) _ _ (demo_world (demo_t + 20) (w_store w1)) _ demo_later_ok E
    eq_refl eq_refl) as (e & w3 & Hrun & _).
  exists rsp, w1, e, w3. split; [exact E|exact Hrun].
Defined.

(** The container of the code string. *)
Definition demo_container : list byte :=
  default [] (b64_dec URL_SAFE (as_bytes demo_code)).

Lemma trailing_bytes_redeem_again_witness :
  ∃ rsp w1 rsp' w3,
    run (access_token_request (flow demo_state) demo_request demo_ctx) demo_later =
      (Done (Ok rsp), w1) ∧
    run (access_token_request (flow demo_state)
           (with_code (b64_encode URL_SAFE (demo_container ++ [x00])) demo_request) demo_ctx)
      (demo_world (demo_t + 20) (w_store w1)) = (Done (Ok rsp'), w3).
Proof.
  destruct (ended_ok_true _ demo_served) as (rsp & w1 & E).
  assert (Hspent : store_consumed (w_store w1) =
    {[code_replay_key (tr_code demo_request)]} ∪ store_consumed (w_store demo_later)).
  { destruct (access_token_request_cases (flow demo_state) demo_request demo_ctx demo_later
      demo_later_ok) as [(code & _ & He)|(e & _ & _ & E')].
    - pose proof (eq_ind _ (redemption_effect demo_request demo_ctx code (tick demo_later))
        He _ E) as He'. apply He'.
    - pose proof (eq_trans (eq_sym E) E'). done. }
  destruct (trailing_bytes_redeem_again _ _ (flow demo_state) demo_request demo_ctx
    demo_auth_code demo_container [x00] demo_later w1 (demo_world (demo_t + 20) (w_store w1)) rsp
    demo_later_ok) as (_ & rsp' & w3 & Hrun & _).
  - vm_compute. reflexivity.
  - discriminate.
  - exact E.
  - reflexivity.
  - refine (demo_redeemable (demo_t + 20) _). unfold demo_t. lia.
  - rewrite Hspent. intros [Hk|Hk]%elem_of_union; [|by apply demo_not_consumed in Hk].
    apply elem_of_singleton in Hk. revert Hk. apply (bool_decide_unpack (¬ _)).
    vm_compute. exact I.
  - exact demo_signs.
  - vm_compute. reflexivity.
  - vm_compute. reflexivity.
  - vm_compute. reflexivity.
  - exists rsp, w1, rsp', w3. split; [exact E|exact Hrun].
Defined.

Lemma authorization_request_redeemable_witness :
  ∃ encoded,
    run (authorization_request (flow demo_state) (requested demo_state demo_params
      (mkClientConfig "public-client" None ["https://app.example/cb"] ["staff"]) Plain
      (mkUser "alice" "CN=alice"))) demo_start =
      (Done (Ok (demo_auth_code, encoded)), tick (tick demo_start)).
Proof.
  destruct (authorization_request_redeemable _ _ _ _ (flow demo_state)
    (requested demo_state demo_params
      (mkClientConfig "public-client" None ["https://app.example/cb"] ["staff"]) Plain
      (mkUser "alice" "CN=alice")) demo_start) as (enc & Hrun & _); [by vm_compute..|].
  exists enc. exact Hrun.
Defined.

(** ** The endpoints *)

Definition demo_client : ClientConfig :=
  mkClientConfig "public-client" None ["https://app.example/cb"] ["staff"].
Definition demo_user : User := mkUser "alice" "CN=alice,O=Example".

Lemma demo_authorizes : authorizes demo_state demo_headers demo_params demo_client Plain demo_user.
Proof.
  repeat (split; [reflexivity|]). split; [by apply list_elem_of_singleton|].
  exists "CN=alice,O=Example". split; vm_compute; reflexivity.
Qed.

Lemma demo_redirected :
  ended_ok (run (authorize_handler demo_state demo_headers demo_params) demo_start) = true.
Proof. vm_compute. reflexivity. Qed.

Lemma authorize_handler_sound_witness :
  ∃ rsp w' c m u,
    run (authorize_handler demo_state demo_headers demo_params) demo_start =
      (Done (Ok rsp), w') ∧
    authorizes demo_state demo_headers demo_params c m u.
Proof.
  destruct (ended_ok_true _ demo_redirected) as (rsp & w' & E).
  destruct (authorize_handler_sound _ _ _ _ demo_state demo_headers demo_params demo_start w' rsp)
    as (_ & c & m & u & _ & _ & Ha & _); [by vm_compute..|exact E|].
  exists rsp, w', c, m, u. split; [exact E|exact Ha].
Defined.

Lemma demo_anonymous :
  ended_err (run (authorize_handler demo_state (headers_of []) demo_params) demo_start) = true.
Proof. vm_compute. reflexivity. Qed.

Lemma authorize_handler_refusals_witness :
  ∃ e w', run (authorize_handler demo_state (headers_of []) demo_params) demo_start = (Done (Err e), w') ∧
    w_store w' = w_store demo_start.
Proof.
  destruct (ended_err_true _ demo_anonymous) as (e & w' & E). exists e, w'. split; [exact E|].
  destruct (authorize_handler_refusals demo_state (headers_of []) demo_params demo_start w' e E) as [Hs _].
  exact Hs.
Defined.

Lemma basic_credentials_win_witness :
  run (token_handler demo_state (headers_of [("authorization", basic_header "Basic " "confidential" "a:b")])
         demo_token_params) demo_later =
    run (access_token_request (flow demo_state)
      (mkAccessTokenRequest GrantType_AuthorizationCode "confidential" (Some "a:b") demo_code
         "https://app.example/cb" (Some "verifier")) demo_ctx) demo_later.
Proof.
  apply (basic_credentials_win _ demo_state _ demo_token_params "Basic " "confidential" "a:b").
  - by left.
  - reflexivity.
  - apply ascii_valid. apply (bool_decide_unpack _). vm_compute. exact I.
  - vm_compute. reflexivity.
  - reflexivity.
Defined.

Lemma userinfo_handler_decides_witness :
  w_store (run (userinfo_handler demo_state (headers_of [("authorization", "Bearer forged")])) demo_later).2 =
    w_store demo_later.
Proof.
  destruct (userinfo_handler_decides demo_state (headers_of [("authorization", "Bearer forged")]) demo_later
    demo_later_ok) as [Hs _]. exact Hs.
Defined.

(** The three requests of the flow, as an HTTP client sends them. *)
Definition demo_ask : HttpRequest :=
  mkHttpRequest "GET" "/authorize"
    (Some (of_bytes (form_bytes (AuthorizeParams_pairs demo_params)))) demo_headers [].
Definition demo_answer (encoded : string) : TokenParams :=
  mkTokenParams "authorization_code" encoded "https://app.example/cb" (Some "verifier")
    (Some "public-client") None.
Definition demo_post (encoded : string) : HttpRequest :=
  mkHttpRequest "POST" "/token" None
    (headers_of [("content-type", "application/x-www-form-urlencoded")])
    (form_bytes (TokenParams_pairs (demo_answer encoded))).
Definition demo_get (h : HeaderMap) : HttpRequest := mkHttpRequest "GET" "/userinfo" None h [].

Definition demo_client_url : Url := mkUrl "app.example" "cb" None.

Lemma demo_ask_carries : carries demo_ask (AuthorizeRequest demo_headers demo_params).
Proof.
  do 3 (split; [reflexivity|]). unfold carries_authorize, demo_ask. cbn [rq_query from_option id].
  rewrite as_of_bytes, form_parse_bytes. reflexivity.
Qed.

Lemma demo_post_carries encoded :
  carries (demo_post encoded) (TokenRequest (rq_headers (demo_post encoded)) (demo_answer encoded)).
Proof.
  repeat (split; [reflexivity|]). unfold carries_token, demo_post. cbn [rq_body].
  rewrite form_parse_bytes. reflexivity.
Qed.

Lemma demo_answers encoded :
  answers demo_params demo_client Plain encoded (rq_headers (demo_post encoded)) (demo_answer encoded).
Proof.
  do 3 (split; [reflexivity|]). split; [exists "verifier"; split; reflexivity|].
  exists None. do 2 (split; [reflexivity|]). exact I.
Qed.

Lemma http_flow_witness :
  ∃ encoded loc tokens body w3,
    run (http_router demo_state demo_ask) demo_start =
      (Done (Handled (RedirectResponse 307 loc)), tick (tick demo_start)) ∧
    run (http_router demo_state (demo_post encoded)) demo_later =
      (Done (Handled (JsonResponse 200 body)), w3) ∧
    from_json body = Some tokens ∧
    ∀ h, header_str h "authorization" = Some ("Bearer " +:+ rsp_access_token tokens) →
      (run (http_router demo_state (demo_get h)) (demo_world (demo_t + 100) (w_store w3))).1 =
      Done (Handled (JsonResponse 200
        (JObj [("sub", JStr "alice"); ("groups", to_json ["users"; "staff"]);
               ("scope", to_json ["openid"; "profile"]); ("client_id", JStr "public-client")]))).
Proof.
  destruct (http_flow toy_HashesLaws concrete_Base64Laws Timestamped_CborLaws Signed_CborLaws
    concrete_JwtLaws demo_state demo_ask demo_params demo_client Plain demo_user
    demo_client_url demo_start) as (enc & loc & url' & Hrun & _ & _ & Hnext);
    [done|exact demo_keys|exact demo_signs|exact demo_ask_carries|exact demo_authorizes|reflexivity
    |intros s [= <-]; apply ascii_valid; by apply (bool_decide_unpack _)
    |by vm_compute|by vm_compute|].
  destruct (Hnext demo_later (demo_post enc) (demo_answer enc)) as
    (body & tokens & w3 & Htok & Hbody & _ & Hinfo);
    [reflexivity|apply demo_not_consumed|apply demo_post_carries|apply demo_answers
    |clear; by vm_compute|exact demo_fits|].
  exists enc, loc, tokens, body, w3. do 3 (split; [assumption|]).
  intros h Hh. rewrite (Hinfo (demo_world (demo_t + 100) (w_store w3)) (demo_get h));
    [reflexivity|reflexivity|clear; by vm_compute
    |repeat (split; [reflexivity|]); reflexivity|exact Hh|clear; by vm_compute].
Defined.

Lemma demo_answered :
  match (run (oidc_router demo_state (TokenRequest (headers_of []) demo_token_params))
           demo_later).1 with
  | Done (JsonResponse 200 _) => true
  | _ => false
  end = true.
Proof. vm_compute. reflexivity. Qed.

Lemma demo_answered_run :
  ∃ rsp w', run (oidc_router demo_state (TokenRequest (headers_of []) demo_token_params))
              demo_later = (Done rsp, w') ∧ served rsp.
Proof.
  pose proof demo_answered as Ha. revert Ha.
  destruct (run (oidc_router demo_state (TokenRequest (headers_of []) demo_token_params))
    demo_later) as [[[status body|]|m] w']; [|discriminate..].
  cbn [fst]. intros Ha. exists (JsonResponse status body), w'. split; [reflexivity|]. exists body.
  destruct (decide (status = 200%Z)) as [->|Hne]; [reflexivity|].
  exfalso. revert Ha Hne. clear. intros Ha Hne.
  repeat (destruct status as [|status|status]; try discriminate Ha;
    repeat (destruct status as [status|status|]; try discriminate Ha)). by destruct Hne.
Qed.

Lemma router_store_effects_witness :
  ∃ out w', run (oidc_router demo_state (TokenRequest (headers_of []) demo_token_params))
              demo_later = (out, w') ∧
    store_ok (w_store w') ∧ store_consumed (w_store demo_later) ⊆ store_consumed (w_store w').
Proof.
  destruct demo_answered_run as (rsp & w' & E & _). exists (Done rsp), w'. split; [exact E|].
  destruct (router_store_effects demo_state _ demo_later w' _ demo_later_ok E) as (Hok & Hc & _).
  split; [exact Hok|exact Hc].
Defined.

Lemma discovery_advertises_witness :
  ∃ d, discovery_info demo_url default_paths = Done d ∧
    token_endpoint d = "https://auth.example.com/token".
Proof.
  destruct (discovery_advertises concrete_UrlLaws demo_url
    "https://auth.example.com" eq_refl) as (d & Hd & _ & _ & Ht & _).
  exists d. split; [exact Hd|]. exact (Ht (headers_of []) demo_token_params).
Defined.

(** ** Start-up *)

Lemma hex_to_32_bytes_correct_witness :
  hex_to_32_bytes (hex_of (hmac_key (flow demo_state))) =
    Done (Some (hmac_key (flow demo_state))).
Proof.
  destruct (hex_to_32_bytes_correct (hex_of (hmac_key (flow demo_state))) (hex_of_ascii _))
    as [Hr _].
  apply Hr; reflexivity.
Defined.

Lemma startup_establishes_witness :
  registry_ok (st_clients demo_state) ∧ issuer_keys_match (jwt_issuer demo_state).
Proof.
  destruct (startup_establishes concrete_JwtLaws concrete_JwtRsaLaws demo_files demo_config
    demo_state demo_starts)
    as (_ & Hr & _ & _ & Hk & _).
  split; [exact Hr|exact Hk].
Defined.

(** The same deployment under another spelling of the issuer. *)
Definition respelled_config (name : string) : Config := Config_of_file (mkConfigFile
  name "0.0.0.0:8080" 60
  "000102030405060708090a0b0c0d0e0f101112131415161718191a1b1c1d1e1f"
  None None None None "/etc/signing_key.pem" None None).
Definition issuer_names (name : string) : option (string * string) :=
  match startup demo_files (respelled_config name) with
  | Done (Ok st) => Some (issuer (jwt_issuer st),
                          disc_issuer (get_discovery_info (discovery_manager st)))
  | _ => None
  end.

Lemma issuer_names_agree_witness :
  issuer (jwt_issuer demo_state) =
    disc_issuer (get_discovery_info (discovery_manager demo_state)) ∧
  issuer_names "https://auth.example.com/" =
    Some ("https://auth.example.com/", "https://auth.example.com") ∧
  issuer_names "https://AUTH.example.com" =
    Some ("https://AUTH.example.com", "https://auth.example.com").
Proof.
  split; [|split; vm_compute; reflexivity].
  apply (issuer_names_agree demo_files demo_config demo_state demo_url
    demo_starts eq_refl).
  left. reflexivity.
Defined.

(** ** Parallel requests *)

Definition demo_requests : list Request :=
  [TokenRequest (headers_of []) demo_token_params;
   TokenRequest (headers_of []) demo_token_params].

Lemma run_is_an_interleaving_witness :
  ∃ rsp w' log, run (oidc_router demo_state (TokenRequest (headers_of []) demo_token_params))
                  demo_later = (Done rsp, w') ∧
    rtc pool_step (mkPool (oidc_router demo_state <$> demo_requests) (w_store demo_later) [])
      (mkPool (<[0 := Ret rsp]> (oidc_router demo_state <$> demo_requests)) (w_store w') log).
Proof.
  destruct demo_answered_run as (rsp & w' & E & _).
  destruct (run_is_an_interleaving demo_state demo_requests 0
    (TokenRequest (headers_of []) demo_token_params) demo_later w' rsp eq_refl E) as [log Hs].
  exists rsp, w', log. split; [exact E|exact Hs].
Defined.

(** The first of the two requests is served; then a served one is the first. *)
Lemma concurrent_code_single_use_witness :
  ∃ q, rtc pool_step (mkPool (oidc_router demo_state <$> demo_requests) (w_store demo_later) []) q
    ∧ (∃ rsp, threads q !! 0 = Some (Ret rsp) ∧ served rsp) ∧
    ∀ j rsp, demo_requests !! j = Some (TokenRequest (headers_of []) demo_token_params) →
      threads q !! j = Some (Ret rsp) → served rsp → 0 = j.
Proof.
  destruct demo_answered_run as (rsp & w' & E & Hs).
  destruct (run_steps (oidc_router demo_state (TokenRequest (headers_of []) demo_token_params))
    demo_later w' rsp (oidc_router demo_state <$> demo_requests) 0 []) as [log Hsteps];
    [rewrite list_lookup_fmap; reflexivity|exact E|].
  eexists. split; [exact Hsteps|]. split; [exists rsp; split; [reflexivity|exact Hs]|].
  intros j rsp' Hj Hrj Hsj.
  exact (concurrent_code_single_use demo_state demo_requests _ _ 0 j _ _ _ _ rsp rsp'
    demo_later_ok Hsteps eq_refl Hj eq_refl eq_refl Hrj Hs Hsj).
Defined.

(** A retry, a thief, and a stranger at [/userinfo]. *)
Definition demo_crowd : list Request :=
  [TokenRequest (headers_of []) demo_token_params;
   TokenRequest (headers_of []) demo_token_params;
   TokenRequest (headers_of []) (mkTokenParams "authorization_code" demo_code
     "https://app.example/cb" (Some "verifier") (Some "confidential") (Some "secret123"));
   UserinfoRequest (headers_of [("authorization", "Bearer forged")])].

Lemma every_request_answered_witness :
  eventually (timed_step demo_window) (all_answered demo_crowd)
    (mkPool (oidc_router demo_state <$> demo_crowd) (w_store demo_later) []).
Proof.
  exact (every_request_answered demo_window _ demo_state concrete_HttpLaws Timestamped_CborLaws
    demo_crowd _ demo_later_ok demo_window_start demo_in_range).
Defined.

Lemma concurrent_code_exactly_once_witness :
  eventually (timed_step demo_window)
    (λ q, all_answered demo_crowd q ∧ ∃ i,
       served_for demo_crowd (code_replay_key demo_code) q i ∧
       ∀ j, served_for demo_crowd (code_replay_key demo_code) q j → j = i)
    (mkPool (oidc_router demo_state <$> demo_crowd) (w_store demo_later) []).
Proof.
  exact (concurrent_code_exactly_once demo_window _ demo_state concrete_HttpLaws
    Timestamped_CborLaws demo_crowd _ 0 _ demo_token_params demo_request demo_auth_code
    demo_later_ok (demo_not_consumed _) demo_window_start demo_in_range demo_signs eq_refl
    eq_refl eq_refl demo_redeemable_at).
Defined.

(** The first of the crowd, run before the others, with its response. *)
Lemma demo_first_answered :
  ∃ body q, rtc pool_step (mkPool (oidc_router demo_state <$> demo_crowd) (w_store demo_later) []) q
    ∧ threads q !! 0 = Some (Ret (JsonResponse 200 body)).
Proof.
  destruct demo_answered_run as (rsp & w' & E & body & ->).
  destruct (run_steps (oidc_router demo_state (TokenRequest (headers_of []) demo_token_params))
    demo_later w' (JsonResponse 200 body) (oidc_router demo_state <$> demo_crowd) 0 [])
    as [log Hsteps]; [rewrite list_lookup_fmap; reflexivity|exact E|].
  eexists body, _. split; [exact Hsteps|]. reflexivity.
Qed.

Lemma concurrent_tokens_sound_witness :
  ∃ code now, redeemable (flow demo_state) (st_clients demo_state) demo_request now code.
Proof.
  destruct demo_first_answered as (body & q & Hsteps%pool_steps_timed & Hq).
  destruct (concurrent_tokens_sound (λ _, True) 0%Z demo_state demo_crowd _ q 0 _ demo_token_params
    body I Hsteps eq_refl Hq) as (req & code & now & _ & _ & _ & _ & Hreq & _ & _ & _ & Hred & _).
  exists code, now. assert (req = demo_request) as ->; [|exact Hred].
  apply (inj Some). rewrite <- Hreq. reflexivity.
Defined.

Lemma responses_well_typed_witness :
  ∃ body, json_matches token_response_schema body = true.
Proof.
  destruct demo_first_answered as (body & q & Hsteps & Hq). exists body.
  assert (Httl : ttl_typed demo_state) by (split; vm_compute; [discriminate|reflexivity]).
  exact (responses_well_typed demo_state demo_crowd _ q 0
    (TokenRequest (headers_of []) demo_token_params) (JsonResponse 200 body) Httl Hsteps
    eq_refl Hq).
Defined.

(** Alice's client redeems her code and then asks for her user info. *)
Definition demo_redemption : outcome Response * World Mem :=
  run (oidc_router demo_state (TokenRequest (headers_of []) demo_token_params)) demo_later.

Definition demo_bearer : string :=
  match demo_redemption.1 with
  | Done (JsonResponse _ j) => default "" (json_field "access_token" j ≫= json_str)
  | _ => ""
  end.

Definition demo_session : list Request :=
  [TokenRequest (headers_of []) demo_token_params;
   UserinfoRequest (headers_of [("authorization", "Bearer " +:+ demo_bearer)])].

Definition demo_info : json :=
  JObj [("sub", JStr "alice"); ("groups", to_json ["users"; "staff"]);
        ("scope", to_json ["openid"; "profile"]); ("client_id", JStr "public-client")].

(** Its look-up, ten seconds after the redemption. *)
Definition demo_look_world : World Mem := demo_world (demo_t + 20) (w_store demo_redemption.2).

Lemma demo_look_answered :
  (run (oidc_router demo_state (UserinfoRequest
     (headers_of [("authorization", "Bearer " +:+ demo_bearer)]))) demo_look_world).1 =
  Done (JsonResponse 200 demo_info).
Proof. vm_compute. reflexivity. Qed.

Lemma outcome_pair {A B} (r : outcome A * B) o : r.1 = o → r = (o, r.2).
Proof. by destruct r; intros <-. Qed.

Lemma demo_clock t (s : Mem) n : (0 ≤ t)%Z → (0 ≤ w_clock (demo_world t s) n)%Z.
Proof. intros Ht. simpl. unfold duration_from_secs, nanos_per_sec. lia. Qed.

(** Two requests, one served after the other. *)
Lemma served_in_turn (T : SystemTime → Prop) st r1 r2 (w1 w1' w2 w2' : World Mem) a1 a2 :
  (∀ n, T (w_clock w1 n)) → (∀ n, T (w_clock w2 n)) →
  run (oidc_router st r1) w1 = (Done a1, w1') → w_store w2 = w_store w1' →
  run (oidc_router st r2) w2 = (Done a2, w2') →
  ∃ q, rtc (timed_step T) (mkPool (oidc_router st <$> [r1; r2]) (w_store w1) []) q ∧
    threads q !! 1 = Some (Ret a2).
Proof.
  intros HT1 HT2 E1 Es E2.
  destruct (run_timed_steps T (oidc_router st r1) w1 w1' a1 (oidc_router st <$> [r1; r2]) 0 [])
    as [log1 H1]; [done|reflexivity|done|].
  destruct (run_timed_steps T (oidc_router st r2) w2 w2' a2 (<[0 := Ret a1]> (oidc_router st <$> [r1; r2])) 1 log1)
    as [log2 H2]; [done|reflexivity|done|].
  rewrite Es in H2. eexists. split; [etrans; [exact H1|exact H2]|]. reflexivity.
Qed.

Lemma demo_session_answered :
  ∃ q, rtc (timed_step (λ t, (0 ≤ t)%Z))
         (mkPool (oidc_router demo_state <$> demo_session) (w_store demo_later) []) q ∧
    threads q !! 1 = Some (Ret (JsonResponse 200 demo_info)).
Proof.
  destruct demo_answered_run as (rsp & w' & E & _).
  refine (served_in_turn (λ t, (0 ≤ t)%Z) demo_state _ _ demo_later w' demo_look_world _ rsp
    (JsonResponse 200 demo_info) _ _ E _ (outcome_pair _ _ demo_look_answered)).
  - intros n. by apply demo_clock.
  - intros n. by apply demo_clock.
  - unfold demo_look_world, demo_redemption. rewrite E. reflexivity.
Qed.

Lemma router_refines_provider_witness :
  ∃ m, rtc (machine_step (acts (λ t, (0 ≤ t)%Z) demo_state))
         (mkMachine (Waiting <$> demo_session) (abstract_store (w_store demo_later))) m ∧
    roles m !! 1 = Some (Answered (JsonResponse 200 demo_info)).
Proof.
  destruct demo_session_answered as (q & Hsteps & Hq).
  destruct (router_refines_provider toy_HashesLaws concrete_Base64Laws Timestamped_CborLaws
    Signed_CborLaws (λ t, (0 ≤ t)%Z) 0%Z demo_state demo_session _ q demo_later_ok
    (Z.le_refl 0) (λ t Ht, Ht) Hsteps) as (m & Hm & _ & Hend).
  exists m. split; [exact Hm|]. exact (Hend 1 _ Hq).
Defined.

Lemma userinfo_only_granted_witness :
  ∃ req code t, redeemable (flow demo_state) (st_clients demo_state) req t code ∧
    ac_subject code = "alice".
Proof.
  destruct demo_session_answered as (q & Hsteps & Hq).
  destruct (userinfo_only_granted toy_HashesLaws concrete_Base64Laws Timestamped_CborLaws
    Signed_CborLaws (λ t, (0 ≤ t)%Z) 0%Z demo_state demo_session _ q 1 _ demo_info demo_later_ok
    (Z.le_refl 0) (λ t Ht, Ht) Hsteps eq_refl Hq)
    as (now & c & r & _ & _ & Hbody & [Hr|(j & hT & p & req & code & t & t' & _ & _ & _ & _ &
      Hred & _ & ->)]); [discriminate Hr|].
  exists req, code, t. split; [exact Hred|]. by injection Hbody.
Defined.

(** ** Codes and tokens *)

Lemma sign_decode_roundtrip_witness :
  run (let* enc := sign_and_encode demo_auth_code (hmac_key (flow demo_state)) in
       decode_and_verify enc (hmac_key (flow demo_state)) (duration_from_secs 60)) demo_start =
    (Done (Ok demo_auth_code), tick (tick demo_start)).
Proof.
  apply (sign_decode_roundtrip toy_HashesLaws concrete_Base64Laws Timestamped_CborLaws
    Signed_CborLaws demo_auth_code (hmac_key (flow demo_state)) (duration_from_secs 60)
    demo_start); clear; by vm_compute.
Defined.

Lemma verify_pkce_binding_witness :
  verify_pkce S256 (pkce_challenge S256 "verifier") "verifier" = true.
Proof.
  destruct (verify_pkce_binding concrete_Base64Laws S256 "verifier" "verifier") as [Hv _].
  exact Hv.
Defined.

Definition demo_access_token : string :=
  match (run (issue_access_token demo_issuer "alice" "public-client" ["users"] ["openid"] "jti"
           (duration_from_secs 3600)) demo_start).1 with
  | Done (Ok tok) => tok
  | _ => ""
  end.

Definition demo_id_token : string :=
  match (run (issue_id_token demo_issuer "alice" "public-client" ["users"] (Some "n")
           (duration_from_secs 3600)) demo_start).1 with
  | Done (Ok tok) => tok
  | _ => ""
  end.

Lemma demo_access_token_run :
  run (issue_access_token demo_issuer "alice" "public-client" ["users"] ["openid"] "jti"
    (duration_from_secs 3600)) demo_start = (Done (Ok demo_access_token), tick demo_start).
Proof. reflexivity. Qed.

Lemma demo_id_token_run :
  run (issue_id_token demo_issuer "alice" "public-client" ["users"] (Some "n")
    (duration_from_secs 3600)) demo_start = (Done (Ok demo_id_token), tick demo_start).
Proof. reflexivity. Qed.

Lemma access_token_roundtrip_witness :
  run (verify_access_token demo_issuer demo_access_token) demo_later =
    (Done (Ok (access_claims_at demo_issuer "alice" "public-client" ["users"] ["openid"] "jti"
       (duration_from_secs 3600) (w_clock demo_start 0))), tick demo_later) ∧
  ∃ e, run (verify_access_token demo_issuer demo_access_token)
         (demo_world (demo_t + 3606) InMemory.new) =
       (Done (Err e), tick (demo_world (demo_t + 3606) InMemory.new)).
Proof.
  split.
  - apply (access_token_roundtrip concrete_JwtLaws demo_issuer "alice" "public-client" "jti"
      demo_access_token ["users"] ["openid"] (duration_from_secs 3600) demo_start
      (tick demo_start) demo_later);
      [reflexivity|by vm_compute|by vm_compute|exact demo_access_token_run|by vm_compute
      |by vm_compute].
  - apply (access_token_roundtrip concrete_JwtLaws demo_issuer "alice" "public-client" "jti"
      demo_access_token ["users"] ["openid"] (duration_from_secs 3600) demo_start
      (tick demo_start));
      [reflexivity|by vm_compute|by vm_compute|exact demo_access_token_run|by vm_compute
      |by vm_compute].
Defined.

Lemma id_token_roundtrip_witness :
  run (verify_id_token demo_issuer demo_id_token "public-client") demo_later =
    (Done (Ok (id_claims_at demo_issuer "alice" "public-client" ["users"] (Some "n")
       (duration_from_secs 3600) (w_clock demo_start 0))), tick demo_later).
Proof.
  apply (id_token_roundtrip concrete_JwtLaws demo_issuer "alice" "public-client"
      demo_id_token ["users"] (Some "n") (duration_from_secs 3600) demo_start
      (tick demo_start) demo_later);
      [reflexivity|by vm_compute|by vm_compute|exact demo_id_token_run|by vm_compute
      |by vm_compute].
Defined.

Lemma token_kinds_not_confused_witness :
  (∃ e, run (verify_access_token demo_issuer demo_id_token) demo_later =
     (Done (Err e), tick demo_later)) ∧
  ∃ e, run (verify_id_token demo_issuer demo_access_token "public-client") demo_later =
     (Done (Err e), tick demo_later).
Proof.
  destruct (token_kinds_not_confused concrete_JwtLaws demo_issuer "alice" "public-client"
    "public-client" "jti" demo_id_token demo_access_token ["users"] ["openid"] (Some "n")
    (duration_from_secs 3600) demo_start (tick demo_start) demo_start (tick demo_start)
    demo_later) as [Hid Hat];
    [reflexivity|by vm_compute|by vm_compute|by vm_compute|exact demo_id_token_run
    |exact demo_access_token_run|by vm_compute|].
  split; [exact Hid|]. apply Hat. vm_compute. discriminate.
Defined.

Lemma from_private_key_consistent_witness :
  issuer demo_issuer = "https://auth.example.com" ∧ issuer_keys_match demo_issuer.
Proof.
  destruct (from_private_key_consistent concrete_JwtLaws concrete_JwtRsaLaws "key"
    "https://auth.example.com" demo_issuer eq_refl) as (Hi & Hk & _).
  split; [exact Hi|exact Hk].
Defined.

Lemma id_token_expiry_bounds_witness :
  ∃ tok, (run (issue_id_token demo_issuer "alice" "public-client" [] None
            (duration_from_secs 3600)) demo_start).1 = Done (Ok tok).
Proof.
  destruct (id_token_expiry_bounds demo_issuer "alice" "public-client" [] None
    (duration_from_secs 3600) demo_start) as [Hfit _]; [by vm_compute|by vm_compute|].
  eexists. rewrite Hfit; [reflexivity|by vm_compute].
Defined.

(** A world whose clock stands still. *)
Definition demo_frozen : World Mem :=
  mkWorld (λ _, duration_from_secs demo_t) (λ _ _, x00) InMemory.new.

Lemma router_total_witness :
  ∃ rsp w', run (oidc_router demo_state (AuthorizeRequest demo_headers demo_params)) demo_frozen =
    (Done rsp, w').
Proof.
  apply (router_total concrete_HttpLaws Timestamped_CborLaws demo_state
    (AuthorizeRequest demo_headers demo_params) demo_frozen).
  - exact demo_later_ok.
  - intros n. vm_compute. discriminate.
  - intros n. split; [|split]; vm_compute; reflexivity.
Defined.
